(** * miniDB B+tree index (btree.py): shallow embedding and checked properties

    The Python module keeps every node in a flat list [Btree.nodes] and
    links nodes by list index.  The embedding keeps that arena and threads
    it, together with the printed output, through a small state-and-exception
    monad: Python attribute assignments become updates of one slot of the
    arena, Python exceptions become [Raise], and loops or recursion whose
    termination depends on the arena take a fuel argument ([Diverge] when it
    runs out).

    Keys are Python integers ([Z]).  Record pointers and node ids share the
    list [ptrs]; both are list indices in the repository (row numbers handed
    in by the table layer, positions in [Btree.nodes]), so they are [nat].

    [Node.__init__] has the list literals [[]] as default arguments: two
    list objects made once, when the module is loaded, and handed to every
    node that is made without [values] and [ptrs].  The one such node is the
    root leaf that [Btree.insert] makes for a tree without root; its lists
    are the default lists themselves, [Node.insert] and [Btree.delete] change
    them in place, and the first split of that leaf binds its two attributes
    to fresh slices.  The state therefore carries the default lists next to
    the tree ([Defaults]): the root leaf of a tree starts with whatever they
    hold, which is nothing in an interpreter that has made no root leaf
    before ([fresh]).  A state holds one tree; a tree made later in the same
    interpreter is [Btree_new], after which the earlier tree is not looked
    at again. *)

From Stdlib Require Import ZArith String Sorted.
From stdpp Require Import base list strings sorting pretty.

Local Open Scope Z_scope.
#[local] Arguments Nat.div : simpl never.

(** ** Data model *)

(** class Node *)
Record Node : Type := mkNode {
  node_b : Z;                      (* self.b *)
  values : list Z;                 (* self.values *)
  ptrs : list nat;                 (* self.ptrs *)
  left_sibling : option nat;
  right_sibling : option nat;
  parent : option nat;
  is_leaf : bool
}.

(** class Btree *)
Record Btree : Type := mkBtree {
  b : Z;                           (* branching factor *)
  nodes : list Node;
  root : option nat
}.

(** What [print] writes: a fixed text, or the f-string of [find] with its
    operation count. *)
Inductive line : Type :=
| Text (s : string)
| OpsLine (ops : nat).

(** The two lists that are the default arguments [values=[]] and [ptrs=[]]
    of [Node.__init__].  Either the node in slot [i] of the tree has them as
    its [values] and [ptrs] (they are one object each with two names, and are
    kept in that slot), or no node of the tree has them and what they hold is
    kept here.  [Btree.insert] makes a root leaf only while [self.root] is
    None and nothing sets the root back to None, so one slot is enough. *)
Inductive Defaults : Type :=
| Held (i : nat)
| Apart (dv : list Z) (dp : list nat).

Record World : Type := mkWorld {
  tree : Btree;
  stdout : list line;
  defaults : Defaults
}.

(** What the default lists hold. *)
Definition default_values (w : World) : list Z :=
  match defaults w with
  | Held i => from_option values [] (nodes (tree w) !! i)
  | Apart dv _ => dv
  end.

Definition default_ptrs (w : World) : list nat :=
  match defaults w with
  | Held i => from_option ptrs [] (nodes (tree w) !! i)
  | Apart _ dp => dp
  end.

Inductive exn : Type := TypeError | IndexError | ValueError | AttributeError.

Inductive outcome (A : Type) : Type :=
| Ok (a : A) (w : World)
| Raise (e : exn) (w : World)
| Diverge.
Arguments Ok {A} a w.
Arguments Raise {A} e w.
Arguments Diverge {A}.

(** ** The monad *)

Definition M (A : Type) : Type := World -> outcome A.

Definition ret {A} (a : A) : M A := fun w => Ok a w.

Definition bind {A B} (m : M A) (k : A -> M B) : M B :=
  fun w => match m w with
           | Ok a w' => k a w'
           | Raise e w' => Raise e w'
           | Diverge => Diverge
           end.

Definition raise {A} (e : exn) : M A := fun w => Raise e w.
Definition diverge {A} : M A := fun _ => Diverge.

Declare Scope py_scope.
Delimit Scope py_scope with py.
Notation "x <- c ;; k" := (bind c (fun x => k))
  (at level 100, c at next level, right associativity) : py_scope.
Notation "c ;; k" := (bind c (fun _ => k))
  (at level 100, right associativity) : py_scope.
Local Open Scope py_scope.

Definition lift {A} (r : exn + A) : M A :=
  match r with inl e => raise e | inr a => ret a end.

Definition get_b : M Z := fun w => Ok (b (tree w)) w.
Definition get_root : M (option nat) := fun w => Ok (root (tree w)) w.
Definition nodes_len : M nat := fun w => Ok (length (nodes (tree w))) w.

Definition with_nodes (f : list Node -> list Node) (w : World) : World :=
  mkWorld (mkBtree (b (tree w)) (f (nodes (tree w))) (root (tree w))) (stdout w)
    (defaults w).

Definition set_root (r : nat) : M unit :=
  fun w => Ok tt (mkWorld (mkBtree (b (tree w)) (nodes (tree w)) (Some r)) (stdout w)
                    (defaults w)).

(** self.nodes[i] *)
Definition node_at (i : nat) : M Node :=
  fun w => match nodes (tree w) !! i with
           | Some n => Ok n w
           | None => Raise IndexError w
           end.

(** self.nodes[i].attr = ...  *)
Definition update_node (i : nat) (f : Node -> Node) : M unit :=
  fun w => match nodes (tree w) !! i with
           | Some n => Ok tt (with_nodes (fun ns => <[i := f n]> ns) w)
           | None => Raise IndexError w
           end.

(** self.nodes.append(n) *)
Definition append_node (n : Node) : M unit :=
  fun w => Ok tt (with_nodes (fun ns => ns ++ [n]) w).

(** Node(bf, is_leaf=True), as the argument of [self.nodes.append]: no
    [values] and no [ptrs] are given, so the attributes of the new node are
    the default lists themselves, with what they hold at that moment. *)
Definition default_leaf (bf : Z) (w : World) : Node :=
  mkNode bf (default_values w) (default_ptrs w) None None None true.

(** self.nodes.append(Node(self.b, is_leaf=True)) *)
Definition append_default_leaf (bf : Z) : M unit :=
  fun w => Ok tt (mkWorld (mkBtree (b (tree w)) (nodes (tree w) ++ [default_leaf bf w])
                             (root (tree w)))
                    (stdout w) (Held (length (nodes (tree w))))).

(** The assignments [node.values = ...] and [node.ptrs = ...] bind the
    attributes of the node in slot [i] to new lists: if they were the
    default lists, these keep what they hold and no node has them any more. *)
Definition released (i : nat) (w : World) : World :=
  mkWorld (tree w) (stdout w)
    (match defaults w with
     | Held j => if decide (j = i)
                 then Apart (default_values w) (default_ptrs w) else Held j
     | Apart dv dp => Apart dv dp
     end).

Definition release (i : nat) : M unit := fun w => Ok tt (released i w).

Definition print (l : line) : M unit :=
  fun w => Ok tt (mkWorld (tree w) (stdout w ++ [l]) (defaults w)).

(** self.nodes[self.root]: a root that is still None is not an index. *)
Definition root_node : M (nat * Node) :=
  r <- get_root ;;
  match r with
  | None => raise TypeError
  | Some i => n <- node_at i ;; ret (i, n)
  end.

(** ** Attribute setters *)

Definition set_values (v : list Z) (n : Node) : Node :=
  mkNode (node_b n) v (ptrs n) (left_sibling n) (right_sibling n) (parent n) (is_leaf n).
Definition set_ptrs (p : list nat) (n : Node) : Node :=
  mkNode (node_b n) (values n) p (left_sibling n) (right_sibling n) (parent n) (is_leaf n).
Definition set_left_sibling (s : option nat) (n : Node) : Node :=
  mkNode (node_b n) (values n) (ptrs n) s (right_sibling n) (parent n) (is_leaf n).
Definition set_right_sibling (s : option nat) (n : Node) : Node :=
  mkNode (node_b n) (values n) (ptrs n) (left_sibling n) s (parent n) (is_leaf n).
Definition set_parent (p : option nat) (n : Node) : Node :=
  mkNode (node_b n) (values n) (ptrs n) (left_sibling n) (right_sibling n) p (is_leaf n).

(** ** Python list primitives *)

(** list.insert(i, x): past the end it appends. *)
Definition py_insert {A} (i : nat) (x : A) (l : list A) : list A :=
  take i l ++ x :: drop i l.

(** The first index at which [value < existing_val], as the [for ... in
    enumerate(self.values)] loops of [Node.find] and [Node.insert] find it. *)
Fixpoint first_greater (value : Z) (vals : list Z) (index : nat) : option nat :=
  match vals with
  | [] => None
  | existing_val :: rest =>
      if value <? existing_val then Some index
      else first_greater value rest (S index)
  end.

(** list.index(x) *)
Fixpoint py_index {A} `{EqDecision A} (x : A) (l : list A) : option nat :=
  match l with
  | [] => None
  | y :: l' => if decide (y = x) then Some 0%nat else S <$> py_index x l'
  end.

(** ** class Node *)

(** Node.find(value, return_ops=True).  On a leaf the method returns None,
    which the caller's tuple unpacking turns into a TypeError. *)
Definition Node_find (n : Node) (value : Z) : exn + (nat * nat) :=
  if is_leaf n then inl TypeError
  else match first_greater value (values n) 0 with
       | Some index =>
           match ptrs n !! index with
           | Some p => inr (p, S index)
           | None => inl IndexError
           end
       | None =>
           match last (ptrs n) with
           | Some p => inr (p, length (values n))
           | None => inl IndexError
           end
       end.

(** [if ptr1:] is false for None and for 0. *)
Definition truthy (ptr1 : option nat) : option nat :=
  match ptr1 with
  | Some (S k) => Some (S k)
  | _ => None
  end.

(** Node.insert(value, ptr, ptr1=None) *)
Definition Node_insert (value : Z) (ptr : nat) (ptr1 : option nat) (n : Node) : Node :=
  match first_greater value (values n) 0 with
  | Some index =>
      let vs := py_insert index value (values n) in
      let ps := py_insert (index + 1) ptr (ptrs n) in
      let ps := match truthy ptr1 with
                | Some p1 => py_insert (index + 1) p1 ps
                | None => ps
                end in
      set_ptrs ps (set_values vs n)
  | None =>
      let ps := ptrs n ++ [ptr] in
      let ps := match truthy ptr1 with
                | Some p1 => ps ++ [p1]
                | None => ps
                end in
      set_ptrs ps (set_values (values n ++ [value]) n)
  end.

(** ** class Btree *)

(** Btree(b) *)
Definition Btree_init (bf : Z) : Btree := mkBtree bf [] None.

(** [Btree(bf)] in an interpreter that has just loaded the module: nothing
    is printed yet and the default lists are empty. *)
Definition fresh (bf : Z) : World := mkWorld (Btree_init bf) [] (Apart [] []).

(** [Btree(bf)] in the interpreter of [w], whose own tree is not used any
    more: the default lists hold what the earlier tree left in them. *)
Definition Btree_new (bf : Z) (w : World) : World :=
  mkWorld (Btree_init bf) (stdout w) (Apart (default_values w) (default_ptrs w)).

(** The [while not node.is_leaf] loop of [_search]; [idx] is the index from
    which [node] was read, which is what [self.nodes.index(node)] gives back
    (nodes compare by identity and every slot holds its own object). *)
Fixpoint search_loop (fuel : nat) (value : Z) (idx : nat) (node : Node) (ops : nat)
  : M (nat * nat) :=
  if is_leaf node then ret (idx, ops)
  else match fuel with
       | O => diverge
       | S fuel' =>
           r <- lift (Node_find node value) ;;
           let '(idx', ops1) := r in
           node' <- node_at idx' ;;
           search_loop fuel' value idx' node' (ops + ops1)
       end.

(** Btree._search(value, return_ops=True) *)
Definition _search (fuel : nat) (value : Z) : M (nat * nat) :=
  r <- root_node ;;
  let '(idx, node) := r in
  search_loop fuel value idx node 0.

(** The [for ptr in right_ptrs: self.nodes[ptr].parent = ...] loop. *)
Fixpoint reparent (children : list nat) (p : nat) : M unit :=
  match children with
  | [] => ret tt
  | ptr :: rest =>
      update_node ptr (set_parent (Some p)) ;;
      reparent rest p
  end.

(** node.values[len(node.values) // 2] *)
Definition middle_value (n : Node) : M Z :=
  match values n !! (length (values n) / 2)%nat with
  | Some v => ret v
  | None => raise IndexError
  end.

(** Btree.split(node_id), first part (up to [self.nodes.append(right)]):
    the node keeps its left half, the new node [right] takes the right half
    and is appended; the value to hand to the parent is returned.  [node] is
    a reference in Python: every read of one of its attributes after an
    assignment goes back to the arena.  The halves are slices, new lists:
    [node] gives up the lists it had. *)
Definition split_halves (node_id : nat) : M Z :=
  bf <- get_b ;;
  node <- node_at node_id ;;
  new_parent_value <- middle_value node ;;
  len <- nodes_len ;;
  right <-
    (if is_leaf node then
       let right_values := drop (length (values node) / 2)%nat (values node) in
       let right_ptrs := drop (length (ptrs node) / 2)%nat (ptrs node) in
       let right := mkNode bf right_values right_ptrs (Some node_id)
                      (right_sibling node) (parent node) (is_leaf node) in
       match right_sibling node with
        | Some rs => update_node rs (set_left_sibling (Some len))
        | None => ret tt
        end ;;
       update_node node_id (set_right_sibling (Some len)) ;;
       ret right
     else
       let right_values := drop (length (values node) / 2 + 1)%nat (values node) in
       let right_ptrs :=
         if bf mod 2 =? 1
         then drop (length (ptrs node) / 2)%nat (ptrs node)
         else drop (length (ptrs node) / 2 + 1)%nat (ptrs node) in
       let right := mkNode bf right_values right_ptrs None None
                      (parent node) (is_leaf node) in
       update_node node_id (set_right_sibling None) ;;
       reparent right_ptrs len ;;
       ret right) ;;
  node <- node_at node_id ;;
  release node_id ;;
  update_node node_id
    (set_values (take (length (values node) / 2)%nat (values node))) ;;
  update_node node_id
    (set_ptrs (if bf mod 2 =? 1
               then take (length (ptrs node) / 2)%nat (ptrs node)
               else take (length (ptrs node) / 2 + 1)%nat (ptrs node))) ;;
  append_node right ;;
  ret new_parent_value.

(** Btree.split(node_id): the halves, then the propagation to the parent
    (a new root when there is none, else an insertion into the parent and,
    when that fills it, its split). *)
Fixpoint split (fuel : nat) (node_id : nat) : M unit :=
  match fuel with
  | O => diverge
  | S fuel' =>
      new_parent_value <- split_halves node_id ;;
      bf <- get_b ;;
      node <- node_at node_id ;;
      match parent node with
      | None =>
          len <- nodes_len ;;
          append_node (mkNode bf [new_parent_value] [node_id; (len - 1)%nat]
                         None None None false) ;;
          len <- nodes_len ;;
          set_root (len - 1)%nat ;;
          update_node node_id (set_parent (Some (len - 1)%nat)) ;;
          (* [right] sits in the slot appended before the new root *)
          update_node (len - 2)%nat (set_parent (Some (len - 1)%nat))
      | Some p =>
          len <- nodes_len ;;
          update_node p (Node_insert new_parent_value (len - 1)%nat None) ;;
          pnode <- node_at p ;;
          if Z.of_nat (length (values pnode)) =? bf
          then split fuel' p
          else ret tt
      end
  end.

(** Btree.insert(value, ptr).  The root leaf of a tree without root is
    made without [values] and [ptrs]: it has the default lists, and the
    pairs that [Node.insert] puts into it go into those. *)
Definition insert (fuel : nat) (value : Z) (ptr : nat) : M unit :=
  bf <- get_b ;;
  r <- get_root ;;
  match r with
   | None =>
       append_default_leaf bf ;;
       set_root 0%nat
   | Some _ => ret tt
   end ;;
  r <- _search fuel value ;;
  let index := r.1 in
  update_node index (Node_insert value ptr None) ;;
  node <- node_at index ;;
  if Z.of_nat (length (values node)) =? bf
  then split fuel index
  else ret tt.

(** The [for idx, node_value in enumerate(target_node.values)] loop of the
    four range branches of [find]; [test node_value] is the comparison with
    the user's value. *)
Fixpoint scan_leaf (test : Z -> bool) (vals : list Z) (ps : list nat)
    (idx ops : nat) (results : list nat) : exn + (list nat * nat) :=
  match vals with
  | [] => inr (results, ops)
  | node_value :: rest =>
      if test node_value
      then match ps !! idx with
           | Some p => scan_leaf test rest ps (S idx) (S ops) (results ++ [p])
           | None => inl IndexError
           end
      else scan_leaf test rest ps (S idx) (S ops) results
  end.

(** The [while target_node.<side>_sibling is not None] loop. *)
Fixpoint walk_siblings (fuel : nat) (side : Node -> option nat)
    (target_node : Node) (results : list nat) : M (list nat) :=
  match side target_node with
  | None => ret results
  | Some s =>
      match fuel with
      | O => diverge
      | S fuel' =>
          target_node' <- node_at s ;;
          walk_siblings fuel' side target_node' (results ++ ptrs target_node')
      end
  end.

(** One of the four branches [if operator == '>': ...]. *)
Definition range_branch (fuel : nat) (test : Z -> bool) (side : Node -> option nat)
    (target_node : Node) (results : list nat) (ops : nat) : M (list nat * nat) :=
  r <- lift (scan_leaf test (values target_node) (ptrs target_node) 0 ops results) ;;
  let '(results, ops) := r in
  results <- walk_siblings fuel side target_node results ;;
  ret (results, ops).

(** The branch [if operator == '==']; the bare [except] swallows both the
    ValueError of [index] and an IndexError of the subscript. *)
Definition eq_branch (value : Z) (target_node : Node) (results : list nat) : list nat :=
  match py_index value (values target_node) with
  | Some i => match ptrs target_node !! i with
              | Some p => results ++ [p]
              | None => results
              end
  | None => results
  end.

(** Btree.find(operator, value).  The five [if]s are tried in turn; the
    sibling walk of a branch rebinds [target_node], which no later branch
    reads because at most one operator string matches. *)
Definition find (fuel : nat) (operator : string) (value : Z) : M (list nat) :=
  r <- _search fuel value ;;
  let '(leaf_idx, ops) := r in
  target_node <- node_at leaf_idx ;;
  let results :=
    if String.eqb operator "==" then eq_branch value target_node [] else [] in
  r <- (if String.eqb operator ">"
        then range_branch fuel (fun node_value => value <? node_value)
               right_sibling target_node results ops
        else ret (results, ops)) ;;
  let '(results, ops) := r in
  r <- (if String.eqb operator ">="
        then range_branch fuel (fun node_value => value <=? node_value)
               right_sibling target_node results ops
        else ret (results, ops)) ;;
  let '(results, ops) := r in
  r <- (if String.eqb operator "<"
        then range_branch fuel (fun node_value => node_value <? value)
               left_sibling target_node results ops
        else ret (results, ops)) ;;
  let '(results, ops) := r in
  r <- (if String.eqb operator "<="
        then range_branch fuel (fun node_value => node_value <=? value)
               left_sibling target_node results ops
        else ret (results, ops)) ;;
  let '(results, ops) := r in
  print (OpsLine ops) ;;
  ret results.

(** list.pop(i) and del list[i], for an index in range *)
Definition py_del {A} (i : nat) (l : list A) : list A := take i l ++ drop (S i) l.

(** Btree.deleteEntry(node_, value, ptr): its first statement reads
    [node_.check_leaf], an attribute that no Node has. *)
Definition deleteEntry {A} : M A := raise AttributeError.

Inductive loop_exit : Type :=
| Returned                 (* a [return] inside the loop body *)
| Finished (temp : bool).  (* the loop ran to its end *)

(** The [for i, item in enumerate(node_.values)] loop of [delete], from
    position [i] on; [idx] is the arena slot of [node_].  The list iterated
    over is [node_.values] itself: the only statement of the body that
    changes it is followed by the call of [deleteEntry]. *)
Fixpoint delete_loop (items : list Z) (i : nat) (idx : nat) (value : Z) (ptr : nat)
    (temp : bool) : M loop_exit :=
  match items with
  | [] => ret (Finished temp)
  | item :: rest =>
      if item =? value then
        node_ <- node_at idx ;;
        match ptrs node_ !! i with
        | None => raise IndexError
        | Some q =>
            if Nat.eqb ptr q then
              if (1 <? length (ptrs node_))%nat then
                match py_index ptr (ptrs node_) with
                | None => raise ValueError
                | Some k =>
                    update_node idx (set_ptrs (py_del k (ptrs node_))) ;;
                    delete_loop rest (S i) idx value ptr true
                end
              else
                (* [node_ == self.root] compares a Node with an index and is
                   False, so the [elif] body is never run *)
                match py_index ptr (ptrs node_) with
                | None => raise ValueError
                | Some k =>
                    update_node idx (set_ptrs (py_del k (ptrs node_))) ;;
                    node_ <- node_at idx ;;
                    if (i <? length (ptrs node_))%nat then
                      update_node idx (set_ptrs (py_del i (ptrs node_))) ;;
                      node_ <- node_at idx ;;
                      match py_index value (values node_) with
                      | None => raise ValueError
                      | Some j =>
                          update_node idx (set_values (py_del j (values node_))) ;;
                          deleteEntry
                      end
                    else raise IndexError
                end
            else
              print (Text "Value not in ptr") ;;
              ret Returned
        end
      else delete_loop rest (S i) idx value ptr temp
  end.

(** Btree.delete(value, ptr) *)
Definition delete (fuel : nat) (value : Z) (ptr : nat) : M unit :=
  r <- _search fuel value ;;
  let idx := r.1 in
  node_ <- node_at idx ;;
  e <- delete_loop (values node_) 0 idx value ptr false ;;
  match e with
  | Returned => ret tt
  | Finished temp =>
      if temp then ret tt
      else print (Text "Value not in Tree")
  end.

(** ** Running a script of insertions *)

Fixpoint inserts (fuel : nat) (script : list (Z * nat)) : M unit :=
  match script with
  | [] => ret tt
  | (value, ptr) :: rest => insert fuel value ptr ;; inserts fuel rest
  end.

(** The tree a script builds from [Btree(bf)] in a fresh interpreter, when
    every call returns. *)
Definition built (fuel : nat) (bf : Z) (script : list (Z * nat)) : option Btree :=
  match inserts fuel script (fresh bf) with
  | Ok _ w => Some (tree w)
  | _ => None
  end.

(** ** Observers used in the statements *)

(** The (key, pointer) pairs of a leaf, paired by position as [find] reads
    them ([target_node.ptrs[idx]] for [target_node.values[idx]]). *)
Definition entries (n : Node) : list (Z * nat) := zip (values n) (ptrs n).

(** The path from node [idx] down to a leaf through first children. *)
Fixpoint leftmost_path (fuel : nat) (t : Btree) (idx : nat) : option (list nat) :=
  match nodes t !! idx with
  | None => None
  | Some n =>
      if is_leaf n then Some [idx]
      else match fuel, ptrs n with
           | S fuel', c :: _ => (idx ::.) <$> leftmost_path fuel' t c
           | _, _ => None
           end
  end.

(** Number of levels, root and leaf included. *)
Definition height (fuel : nat) (t : Btree) : option nat :=
  r ← root t; length <$> leftmost_path fuel t r.

(** The nodes reached from [idx] by following one sibling link after the
    other, [idx] itself excluded. *)
Fixpoint sibling_path (fuel : nat) (side : Node -> option nat) (t : Btree) (idx : nat)
  : option (list nat) :=
  match nodes t !! idx with
  | None => None
  | Some n =>
      match side n with
      | None => Some []
      | Some s =>
          match fuel with
          | O => None
          | S fuel' => (s ::.) <$> sibling_path fuel' side t s
          end
      end
  end.

(** The leaf chain, from the leftmost leaf along [right_sibling]. *)
Definition leaf_chain (fuel : nat) (t : Btree) : option (list nat) :=
  r ← root t;
  path ← leftmost_path fuel t r;
  first ← last path;
  (first ::.) <$> sibling_path fuel right_sibling t first.

(** What the walk over the chain yields. *)
Definition chain_entries (fuel : nat) (t : Btree) : option (list (Z * nat)) :=
  chain ← leaf_chain fuel t;
  Some (flat_map (fun i => from_option entries [] (nodes t !! i)) chain).

(** All pointers of the nodes of a path, path order. *)
Definition ptrs_along (t : Btree) (path : list nat) : list nat :=
  flat_map (fun i => from_option ptrs [] (nodes t !! i)) path.

(** The pointers of a leaf at the positions whose key passes [test],
    in increasing position. *)
Definition matching (test : Z -> bool) (n : Node) : list nat :=
  (filter (fun e => test e.1 = true) (entries n)).*2.

(** Every pair held by some leaf of the arena. *)
Definition leaf_entries (t : Btree) : list (Z * nat) :=
  flat_map (fun n => if is_leaf n then entries n else []) (nodes t).

(** ** Operator table of [find] *)

(** The operator strings for which [find] has a branch. *)
Definition recognised : list string := ["=="; ">"; ">="; "<"; "<="].

(** The comparison and the sibling link of each range branch. *)
Definition range_operator (operator : string) (value : Z)
  : option ((Z -> bool) * (Node -> option nat)) :=
  if String.eqb operator ">" then Some (fun node_value => value <? node_value, right_sibling)
  else if String.eqb operator ">=" then Some (fun node_value => value <=? node_value, right_sibling)
  else if String.eqb operator "<" then Some (fun node_value => node_value <? value, left_sibling)
  else if String.eqb operator "<=" then Some (fun node_value => node_value <=? value, left_sibling)
  else None.

(** ** Well-formed arenas *)

(** A level per arena slot ([0] past the end of the list). *)
Definition level (lv : list nat) (j : nat) : nat := default 0%nat (lv !! j).

(** A level assignment under which the parent link of a node leads to a
    slot of the arena of strictly higher level, the child links of an
    internal node to slots of strictly lower level, and the right sibling
    link into the arena. *)
Record wf (lvl : nat -> nat) (t : Btree) : Prop := mk_wf {
  wf_parent : forall j n p,
    nodes t !! j = Some n -> parent n = Some p ->
    (p < length (nodes t))%nat /\ (lvl j < lvl p)%nat;
  wf_child : forall j n c,
    nodes t !! j = Some n -> is_leaf n = false -> c ∈ ptrs n ->
    (c < length (nodes t))%nat /\ (lvl c < lvl j)%nat;
  wf_sibling : forall j n s,
    nodes t !! j = Some n -> right_sibling n = Some s ->
    (s < length (nodes t))%nat
}.

(** The same conditions, checked slot by slot. *)
Definition node_ok (lv : list nat) (len : nat) (j : nat) (n : Node) : bool :=
  match parent n with
  | Some p => (p <? len)%nat && (level lv j <? level lv p)%nat
  | None => true
  end
  && (is_leaf n
      || forallb (fun c => (c <? len)%nat && (level lv c <? level lv j)%nat) (ptrs n))
  && match right_sibling n with
     | Some s => (s <? len)%nat
     | None => true
     end.

Definition well_formed (lv : list nat) (t : Btree) : bool :=
  forallb id (imap (node_ok lv (length (nodes t))) (nodes t)).

(** Every slot of the arena has a level of at most [L]. *)
Definition bounded (lvl : nat -> nat) (L : nat) (t : Btree) : Prop :=
  forall j, (j < length (nodes t))%nat -> (lvl j <= L)%nat.

(** The root index, once set, is inside the arena. *)
Definition root_valid (t : Btree) : Prop :=
  forall r, root t = Some r -> (r < length (nodes t))%nat.

(** The root index is set, and inside the arena. *)
Definition root_set (t : Btree) : Prop :=
  exists r, root t = Some r /\ (r < length (nodes t))%nat.

(** The three conditions of [wf] for the node in slot [j]. *)
Definition node_wf (lvl : nat -> nat) (len j : nat) (n : Node) : Prop :=
  (forall p, parent n = Some p -> (p < len)%nat /\ (lvl j < lvl p)%nat)
  /\ (is_leaf n = false -> forall c, c ∈ ptrs n -> (c < len)%nat /\ (lvl c < lvl j)%nat)
  /\ (forall s, right_sibling n = Some s -> (s < len)%nat).

(** The level assignment that gives slot [i] the level [v]. *)
Definition with_level (lvl : nat -> nat) (i v : nat) : nat -> nat :=
  fun j => if decide (j = i) then v else lvl j.

(** ** Where [split] cuts *)

(** How many pointers the left node keeps out of [np]: the two slices
    [node.ptrs[:len(node.ptrs) // 2]] and [node.ptrs[:len(node.ptrs) // 2 + 1]]. *)
Definition left_cut (bf : Z) (np : nat) : nat :=
  if bf mod 2 =? 1 then (np / 2)%nat else (np / 2 + 1)%nat.

(** The node [right] that [split] builds from [node]. *)
Definition right_half (bf : Z) (node_id : nat) (node : Node) : Node :=
  if is_leaf node
  then mkNode bf (drop (length (values node) / 2)%nat (values node))
         (drop (length (ptrs node) / 2)%nat (ptrs node))
         (Some node_id) (right_sibling node) (parent node) true
  else mkNode bf (drop (length (values node) / 2 + 1)%nat (values node))
         (drop (left_cut bf (length (ptrs node))) (ptrs node))
         None None (parent node) false.

(** ** What insertions preserve *)

(** The node that [split] leaves in place of [node]. *)
Definition left_half (bf : Z) (node : Node) : Node :=
  set_ptrs (take (left_cut bf (length (ptrs node))) (ptrs node))
    (set_values (take (length (values node) / 2)%nat (values node)) node).

Definition all_nodes (P : Node -> Prop) (t : Btree) : Prop := Forall P (nodes t).

(** Every node satisfies [P], and the arena is well formed. *)
Definition invariant (bf : Z) (P : Node -> Prop) (w : World) : Prop :=
  b (tree w) = bf /\ all_nodes P (tree w)
  /\ exists lvl L, wf lvl (tree w) /\ bounded lvl L (tree w).

(** The keys after [Node.insert], as a recursion on the key list. *)
Fixpoint inserted (value : Z) (vals : list Z) : list Z :=
  match vals with
  | [] => [value]
  | existing_val :: rest =>
      if value <? existing_val then value :: vals
      else existing_val :: inserted value rest
  end.

(** Sorted keys, no fewer pointers than keys, one child more than keys in
    an internal node and, when the branching factor is odd, as many
    pointers as keys in a leaf. *)
Definition node_shape (bf : Z) (n : Node) : Prop :=
  StronglySorted Z.le (values n)
  /\ (length (values n) <= length (ptrs n))%nat
  /\ (is_leaf n = false -> length (ptrs n) = S (length (values n)))
  /\ (bf mod 2 = 1 -> is_leaf n = true -> length (ptrs n) = length (values n)).

(** What every tree built by insertions satisfies, with a bound [L] on the
    levels. *)
Definition sound (bf : Z) (L : nat) (w : World) : Prop :=
  b (tree w) = bf
  /\ Forall (node_shape bf) (nodes (tree w))
  /\ root_valid (tree w)
  /\ exists lvl, wf lvl (tree w) /\ bounded lvl L (tree w).

(** ** The scenario of the demonstration script *)

(** vsmdb.py: [bt = Btree(3)] and six calls of [bt.insert]. *)
Definition scenario : list (Z * nat) :=
  [(5, 0%nat); (12, 1%nat); (7, 2%nat); (3, 3%nat); (2, 4%nat); (9, 5%nat)].

Definition leaf3 (vs : list Z) (ps : list nat) (ls rs par : option nat) : Node :=
  mkNode 3 vs ps ls rs par true.

Definition inner3 (vs : list Z) (ps : list nat) (par : option nat) : Node :=
  mkNode 3 vs ps None None par false.

(** The arena after the six insertions. *)
Definition scenario_tree : Btree :=
  mkBtree 3
    [ leaf3 [2] [0%nat] None (Some 3%nat) (Some 2%nat);
      leaf3 [7] [1%nat] (Some 3%nat) (Some 4%nat) (Some 5%nat);
      inner3 [3] [0%nat; 3%nat] (Some 6%nat);
      leaf3 [3; 5] [4%nat; 3%nat] (Some 0%nat) (Some 1%nat) (Some 2%nat);
      leaf3 [9; 12] [2%nat; 5%nat] (Some 1%nat) None (Some 5%nat);
      inner3 [9] [1%nat; 4%nat] (Some 6%nat);
      inner3 [7] [2%nat; 5%nat] None ]
    (Some 6%nat).

(** What the six insertions leave in the default lists, in an interpreter
    that made no other root leaf: the root leaf held 5, 7 and 12, with the
    pointers in the order [Node.insert] gave them, when it was split. *)
Definition scenario_defaults : Defaults := Apart [5; 7; 12] [0; 1; 2]%nat.

(** The arena during the sixth insertion, when [split] is called on the
    root [2]: the leaf [1] has been split and its middle key 9 inserted
    into the root, which now holds three keys and four children. *)
Definition overflowing_tree : Btree :=
  mkBtree 3
    [ leaf3 [2] [0%nat] None (Some 3%nat) (Some 2%nat);
      leaf3 [7] [1%nat] (Some 3%nat) (Some 4%nat) (Some 2%nat);
      inner3 [3; 7; 9] [0%nat; 3%nat; 1%nat; 4%nat] None;
      leaf3 [3; 5] [4%nat; 3%nat] (Some 0%nat) (Some 1%nat) (Some 2%nat);
      leaf3 [9; 12] [2%nat; 5%nat] (Some 1%nat) None (Some 2%nat) ]
    (Some 2%nat).

(** A repeated key, with an even branching factor. *)
Definition repeated_key_script : list (Z * nat) :=
  [(7, 0%nat); (7, 1%nat); (7, 2%nat); (7, 3%nat); (1, 4%nat); (2, 5%nat); (8, 6%nat)].

Definition repeated_key_tree : Btree :=
  mkBtree 4
    [ mkNode 4 [1; 2] [0; 4; 5]%nat None (Some 3%nat) (Some 2%nat) true;
      mkNode 4 [7; 7] [2; 3]%nat (Some 3%nat) None (Some 2%nat) true;
      mkNode 4 [7; 7] [0; 1; 3]%nat None None None false;
      mkNode 4 [7; 7; 8] [5; 1; 2; 6]%nat (Some 0%nat) (Some 1%nat) (Some 2%nat) true ]
    (Some 2%nat).

(** Keys inserted in increasing order, so that every pointer sits at the
    position of its key. *)
Definition ascending_script : list (Z * nat) :=
  [(1, 10%nat); (2, 20%nat); (3, 30%nat); (4, 40%nat)].

(** What these four insertions leave in the default lists. *)
Definition ascending_defaults : Defaults := Apart [1; 2; 3] [10; 20; 30]%nat.

Definition ascending_tree : Btree :=
  mkBtree 3
    [ leaf3 [1] [10%nat] None (Some 1%nat) (Some 2%nat);
      leaf3 [2] [20%nat] (Some 0%nat) (Some 3%nat) (Some 2%nat);
      inner3 [2; 3] [0%nat; 1%nat; 3%nat] None;
      leaf3 [3; 4] [30%nat; 40%nat] (Some 1%nat) None (Some 2%nat) ]
    (Some 2%nat).

(** ** The statements of the specification that the code does not meet *)

(** The outcome of the scenario as the specification tells it: a tree of
    height 2 whose root holds 7 over the leaves 2,3,5 and 7,9,12, chained
    left to right, on which [find('>=', 7)] gives the pointers inserted
    with 7, 9 and 12. *)
Definition scenario_as_specified : Prop :=
  forall fuel t d,
    built fuel 3 scenario = Some t ->
    height fuel t = Some 2%nat
    /\ exists rt rootn lf rg leftn rightn out,
         root t = Some rt /\ nodes t !! rt = Some rootn
         /\ values rootn = [7] /\ ptrs rootn = [lf; rg]
         /\ nodes t !! lf = Some leftn /\ values leftn = [2; 3; 5]
         /\ nodes t !! rg = Some rightn /\ values rightn = [7; 9; 12]
         /\ right_sibling leftn = Some rg
         /\ find fuel ">=" 7 (mkWorld t [] d) = Ok [2; 5; 1]%nat (mkWorld t out d).

(** "delete fails with an error when the pair is not in the leaf, and the
    tree is unchanged". *)
Definition delete_signals_absence : Prop :=
  forall fuel w value ptr leaf ops w1 n,
    _search fuel value w = Ok (leaf, ops) w1 ->
    nodes (tree w) !! leaf = Some n ->
    (value, ptr) ∉ entries n ->
    exists e w', delete fuel value ptr w = Raise e w' /\ tree w' = tree w.

(** The Python class of an exception: the four built-in classes are the
    only ones the module can raise, since it defines no exception class and
    has no [raise] statement. *)
Definition class_name (e : exn) : string :=
  match e with
  | TypeError => "TypeError"
  | IndexError => "IndexError"
  | ValueError => "ValueError"
  | AttributeError => "AttributeError"
  end.

(** "Any search, find or delete on a tree before the first insertion fails
    with an EmptyTree error". *)
Definition empty_tree_error_as_specified : Prop :=
  forall fuel bf ns out d operator value ptr,
    let w := mkWorld (mkBtree bf ns None) out d in
    (exists e w', _search fuel value w = Raise e w' /\ class_name e = "EmptyTree")
    /\ (exists e w', find fuel operator value w = Raise e w' /\ class_name e = "EmptyTree")
    /\ (exists e w', delete fuel value ptr w = Raise e w' /\ class_name e = "EmptyTree").



(** The pointers [results] are those of leaf entries whose keys, read in
    the same order, are sorted by [R]. *)
Definition in_key_order (R : Z -> Z -> Prop) (t : Btree) (results : list nat) : Prop :=
  exists es : list (Z * nat),
    es.*2 = results /\ Forall (fun e => e ∈ leaf_entries t) es /\ Sorted R es.*1.

(** "The queries that walk left return their pointers in descending key
    order, those that walk right in ascending key order". *)
Definition range_order_as_specified : Prop :=
  forall fuel bf script t d operator key results w',
    script <> [] ->
    built fuel bf script = Some t ->
    find fuel operator key (mkWorld t [] d) = Ok results w' ->
    (operator ∈ ["<"; "<="] -> in_key_order Z.ge t results)
    /\ (operator ∈ [">"; ">="] -> in_key_order Z.le t results).

(** ** Fuel *)

(** More fuel does not change an outcome that was reached. *)
Definition fuel_monotone {A} (f : nat -> M A) : Prop :=
  forall n n' w, (n <= n')%nat -> f n w <> Diverge -> f n' w = f n w.

(** ** Reasoning about the monad *)

(** [m] may print, but leaves the tree as it found it, whether it returns
    or raises. *)
Definition keeps_tree {A} (m : M A) : Prop :=
  forall w, match m w with
            | Ok _ w' | Raise _ w' => tree w' = tree w
            | Diverge => True
            end.

(** [m] has no effect at all. *)
Definition keeps_world {A} (m : M A) : Prop :=
  forall w, match m w with
            | Ok _ w' | Raise _ w' => w' = w
            | Diverge => True
            end.

(** * Further definitions: the steps of an insertion and what they keep *)

(** [n'] is [n] with another pointer list. *)
Definition same_but_ptrs (n n' : Node) : Prop := n' = set_ptrs (ptrs n') n.

(** What [delete] may change: the pointer lists, and those only in slot
    [idx]; the printed output is left free. *)
Definition ptrs_changed_at (idx : nat) (w w' : World) : Prop :=
  b (tree w') = b (tree w) /\ root (tree w') = root (tree w)
  /\ Forall2 same_but_ptrs (nodes (tree w)) (nodes (tree w'))
  /\ forall j, j <> idx -> nodes (tree w') !! j = nodes (tree w) !! j.

(** ** The steps of an insertion, as functions on the arena *)

(** The node in slot [j] after the first part of [split node_id] (up to
    [self.nodes.append(right)]), where [node] was the node in slot
    [node_id] and [len] the length of the arena: a leaf hands its right
    neighbour over to the new node, an internal node hands over the
    children of its right half. *)
Definition halve (bf : Z) (len node_id : nat) (node : Node) (j : nat) (m : Node) : Node :=
  let m :=
    if is_leaf node then
      let m := if decide (right_sibling node = Some j)
               then set_left_sibling (Some len) m else m in
      if decide (j = node_id) then set_right_sibling (Some len) m else m
    else
      let m := if decide (j = node_id) then set_right_sibling None m else m in
      if decide (j ∈ drop (left_cut bf (length (ptrs node))) (ptrs node))
      then set_parent (Some len) m else m in
  if decide (j = node_id)
  then set_ptrs (take (left_cut bf (length (ptrs node))) (ptrs node))
         (set_values (take (length (values node) / 2)%nat (values node)) m)
  else m.

Definition halved (node_id : nat) (node : Node) (w : World) : World :=
  with_nodes (fun ns => imap (halve (b (tree w)) (length ns) node_id node) ns
                        ++ [right_half (b (tree w)) node_id node])
    (released node_id w).

(** The second part of [split], when the node has a parent [p]: the
    middle key goes into [p], with the new node (the last of the arena)
    as the child to its right. *)
Definition promoted (new_parent_value : Z) (p : nat) (w : World) : World :=
  with_nodes (alter (Node_insert new_parent_value (length (nodes (tree w)) - 1) None) p) w.

(** The second part of [split], when the node has no parent: a new root
    over the node and the new node. *)
Definition grown (new_parent_value : Z) (node_id : nat) (w : World) : World :=
  let len := length (nodes (tree w)) in
  let parent := mkNode (b (tree w)) [new_parent_value] [node_id; (len - 1)%nat]
                  None None None false in
  mkWorld (mkBtree (b (tree w))
             (alter (set_parent (Some len)) (len - 1)%nat
                (alter (set_parent (Some len)) node_id (nodes (tree w) ++ [parent])))
             (Some len))
    (stdout w) (defaults w).

(** The first insertion into a tree without a root makes a leaf, whose
    lists are the default lists. *)
Definition planted (w : World) : World :=
  mkWorld (mkBtree (b (tree w))
             (nodes (tree w) ++ [default_leaf (b (tree w)) w])
             (Some 0%nat))
    (stdout w) (Held (length (nodes (tree w)))).

(** The default lists are still empty, or the tree has its root leaf. *)
Definition pristine (w : World) : Prop :=
  root (tree w) = None -> defaults w = Apart [] [].

(** The pair goes into the leaf found by the search. *)
Definition stored (value : Z) (ptr : nat) (index : nat) (w : World) : World :=
  with_nodes (alter (Node_insert value ptr None) index) w.

(** The node [n] in slot [x] is ready to be split: it holds as many keys
    as the branching factor says, in an arena whose links are in order. *)
Definition splittable (bf : Z) (lvl : nat -> nat) (w : World) (x : nat) (n : Node) : Prop :=
  b (tree w) = bf /\ wf lvl (tree w) /\ Forall (node_shape bf) (nodes (tree w))
  /\ nodes (tree w) !! x = Some n
  /\ Z.of_nat (length (values n)) = bf /\ values n <> [].

(** Parent links and child lists agree: the parent of a node is an
    internal node that lists it, an internal node is the parent of every
    node it lists and lists none twice, and the root is the one node
    without a parent. *)
Record linked (t : Btree) : Prop := mk_linked {
  lk_parent : forall j n p,
    nodes t !! j = Some n -> parent n = Some p ->
    exists pn, nodes t !! p = Some pn /\ is_leaf pn = false /\ j ∈ ptrs pn;
  lk_child : forall p pn c,
    nodes t !! p = Some pn -> is_leaf pn = false -> c ∈ ptrs pn ->
    exists n, nodes t !! c = Some n /\ parent n = Some p;
  lk_nodup : forall p pn,
    nodes t !! p = Some pn -> is_leaf pn = false -> NoDup (ptrs pn);
  lk_top : forall j n,
    nodes t !! j = Some n -> parent n = None -> root t = Some j;
  lk_root : forall r,
    root t = Some r -> exists n, nodes t !! r = Some n /\ parent n = None;
  lk_none : root t = None -> nodes t = []
}.

(** The node in slot [j] after the whole step of [split node_id], when
    the middle key goes into the parent [p] ... *)
Definition after_promoted (bf : Z) (len node_id : nat) (node : Node)
    (new_parent_value : Z) (p : nat) (j : nat) (m : Node) : Node :=
  if decide (j = p)
  then Node_insert new_parent_value len None (halve bf len node_id node j m)
  else halve bf len node_id node j m.

(** ... and when it goes into a new root. *)
Definition after_grown (bf : Z) (len node_id : nat) (node : Node) (j : nat) (m : Node) : Node :=
  if decide (j = node_id)
  then set_parent (Some (S len)) (halve bf len node_id node j m)
  else halve bf len node_id node j m.

(** A height for every slot: leaves have height 0, and the children of an
    internal node are one below it. *)
Definition balanced (h : nat -> nat) (t : Btree) : Prop :=
  forall j n, nodes t !! j = Some n ->
    if is_leaf n then h j = 0%nat else forall c, c ∈ ptrs n -> h j = S (h c).

(** The keys held by the leaves of the arena, slot after slot. *)
Definition leaf_keys (t : Btree) : list Z :=
  flat_map (fun n => if is_leaf n then values n else []) (nodes t).

(** The record pointers held by the leaves of the arena. *)
Definition leaf_ptrs (t : Btree) : list nat :=
  flat_map (fun n => if is_leaf n then ptrs n else []) (nodes t).

(** Every node but the one in slot [x] has fewer keys than the branching
    factor. *)
Definition roomy_but (bf : Z) (x : option nat) (t : Btree) : Prop :=
  forall j m, nodes t !! j = Some m -> Some j <> x -> Z.of_nat (length (values m)) < bf.

(** How full a node has to be: a node that has a parent holds at least
    half of the keys that make a node split (rounded down; one less for an
    internal node, which gave its middle key away). *)
Definition half_full (bf : Z) (n : Node) : Prop :=
  parent n = None
  \/ (if is_leaf n then bf / 2 else (bf - 1) / 2) <= Z.of_nat (length (values n)).

(** The same pointers: as sets whatever the branching factor, and one
    by one when it is odd. *)
Definition same_ptrs (bf : Z) (ps qs : list nat) : Prop :=
  (forall q, q ∈ ps <-> q ∈ qs) /\ (bf mod 2 = 1 -> ps ≡ₚ qs).

(** The leaves in the order of their sibling links: [chain] lists every
    leaf of the arena once, the right sibling of a leaf is the next of the
    list and its left sibling the one before. *)
Definition chained (chain : list nat) (t : Btree) : Prop :=
  NoDup chain
  /\ (forall j n, nodes t !! j = Some n -> (is_leaf n = true <-> j ∈ chain))
  /\ (forall i a, chain !! i = Some a ->
        exists n, nodes t !! a = Some n
                  /\ right_sibling n = chain !! S i
                  /\ left_sibling n = match i with O => None | S i' => chain !! i' end).

(** [b] is the first child of the internal node [a]. *)
Definition first_child (t : Btree) (a b : nat) : Prop :=
  exists n, nodes t !! a = Some n /\ is_leaf n = false /\ head (ptrs n) = Some b.

(** The path of first children: it starts at the root and ends at the
    leaf in slot 0. *)
Definition spined (spine : list nat) (t : Btree) : Prop :=
  head spine = root t
  /\ (forall i a b, spine !! i = Some a -> spine !! S i = Some b -> first_child t a b)
  /\ (forall a, last spine = Some a ->
        a = 0%nat /\ exists n, nodes t !! 0%nat = Some n /\ is_leaf n = true).

(** What holds between two steps of an insertion, [done] being the pairs
    inserted so far. *)
Definition built_shape (bf : Z) (done : list (Z * nat)) (t : Btree) : Prop :=
  linked t
  /\ (exists h, balanced h t)
  /\ (exists chain spine, chained chain t /\ spined spine t /\ head chain = last spine)
  /\ leaf_keys t ≡ₚ done.*1
  /\ same_ptrs bf (leaf_ptrs t) done.*2
  /\ Forall (half_full bf) (nodes t).

(** The state between two steps of an insertion: the tree has the shape,
    every node but the one about to be split (in slot [x], if any) has
    room, and nothing was printed. *)
Definition between (bf : Z) (done : list (Z * nat)) (x : option nat) (w : World) : Prop :=
  built_shape bf done (tree w)
  /\ (2 <= bf -> roomy_but bf x (tree w))
  /\ stdout w = [].

(** The number of parent links from slot [j] up to a node without
    parent. *)
Fixpoint depth (fuel : nat) (t : Btree) (j : nat) : option nat :=
  match nodes t !! j with
  | None => None
  | Some n =>
      match parent n with
      | None => Some 0%nat
      | Some p =>
          match fuel with
          | O => None
          | S fuel' => S <$> depth fuel' t p
          end
      end
  end.

(** Bounds on the keys that the search sends to a node; [None] is no
    bound.  The lower bound is inclusive, the upper one exclusive. *)
Definition above (lo : option Z) (v : Z) : Prop :=
  match lo with Some l => l <= v | None => True end.

Definition below (hi : option Z) (v : Z) : Prop :=
  match hi with Some h => v < h | None => True end.

(** Keys in strictly increasing order. *)
Definition increasing (ks : list Z) : Prop :=
  forall a b ka kb, (a < b)%nat -> ks !! a = Some ka -> ks !! b = Some kb -> ka < kb.

(** The bounds of the child at position [i] of an internal node with the
    keys [ks] and the bounds [lo] and [hi]: the keys next to the position,
    or the bound of the node at either end. *)
Definition lob (lo : option Z) (ks : list Z) (i : nat) : option Z :=
  match i with O => lo | S i' => ks !! i' end.

Definition hib (hi : option Z) (ks : list Z) (i : nat) : option Z :=
  match ks !! i with Some k => Some k | None => hi end.

(** The node in slot [j] under the bounds [lo] and [hi] of the slots: its
    keys are in strictly increasing order and within its bounds, the
    bounds of its children are as its keys give them, and those of its
    right sibling start where its own end. *)
Definition node_ranged (lo hi : nat -> option Z) (j : nat) (n : Node) : Prop :=
  increasing (values n)
  /\ (forall k, k ∈ values n -> above (lo j) k /\ below (hi j) k)
  /\ (forall l h, lo j = Some l -> hi j = Some h -> l < h)
  /\ (is_leaf n = false -> forall i c, ptrs n !! i = Some c ->
        lo c = lob (lo j) (values n) i /\ hi c = hib (hi j) (values n) i)
  /\ (is_leaf n = true -> forall s, right_sibling n = Some s ->
        exists k, hi j = Some k /\ lo s = Some k).

(** A search tree: the root is unbounded and every node is within
    bounds. *)
Definition ranged (lo hi : nat -> option Z) (t : Btree) : Prop :=
  (forall r, root t = Some r -> lo r = None /\ hi r = None)
  /\ forall j n, nodes t !! j = Some n -> node_ranged lo hi j n.

(** The bounds after the node in slot [x] was cut at the key [s] into
    itself and the new slot [len]; the slot after that is for a new
    root. *)
Definition lo_split (lo : nat -> option Z) (len : nat) (s : Z) : nat -> option Z :=
  fun j => if decide (j = len) then Some s
           else if decide (j = S len) then None else lo j.

Definition hi_split (hi : nat -> option Z) (len x : nat) (s : Z) : nat -> option Z :=
  fun j => if decide (j = x) then Some s
           else if decide (j = len) then hi x
           else if decide (j = S len) then None else hi j.

(** The state between two steps of an insertion of distinct keys. *)
Definition searchable (bf : Z) (done : list (Z * nat)) (x : option nat) (w : World) : Prop :=
  between bf done x w
  /\ (2 <= bf -> NoDup done.*1 -> exists lo hi, ranged lo hi (tree w)).

(** ** Printing the tree *)

(** What [print] writes for a list of numbers and for an index that may
    be None. *)
Definition py_list (items : list string) : string :=
  "[" +:+ String.concat ", " items +:+ "]".

Definition py_index_or_None (o : option nat) : string :=
  match o with Some i => pretty i | None => "None" end.

(** Node.show() *)
Definition Node_show (n : Node) : M unit :=
  print (Text ("Values " +:+ py_list (pretty <$> values n))) ;;
  print (Text ("ptrs " +:+ py_list (pretty <$> ptrs n))) ;;
  print (Text ("Parent " +:+ py_index_or_None (parent n))) ;;
  print (Text ("LS " +:+ py_index_or_None (left_sibling n))) ;;
  print (Text ("RS " +:+ py_index_or_None (right_sibling n))).

(** The loop [for ptr in nds] of [show] and [plot] that extends the list
    it walks over; [i] is the position that the iteration has reached. *)
Fixpoint nds_loop (fuel : nat) (nds : list nat) (i : nat) : M (list nat) :=
  match nds !! i with
  | None => ret nds
  | Some ptr =>
      match fuel with
      | O => diverge
      | S fuel' =>
          node <- node_at ptr ;;
          if is_leaf node then nds_loop fuel' nds (S i)
          else nds_loop fuel' (nds ++ ptrs node) (S i)
      end
  end.

(** The second loop of [show]. *)
Fixpoint show_loop (nds : list nat) : M unit :=
  match nds with
  | [] => ret tt
  | ptr :: rest =>
      print (Text ("## " +:+ pretty ptr +:+ " ##")) ;;
      node <- node_at ptr ;;
      Node_show node ;;
      print (Text "----") ;;
      show_loop rest
  end.

(** Btree.show(); a root that is still None is not an index. *)
Definition Btree_show (fuel : nat) : M unit :=
  r <- get_root ;;
  match r with
  | None => raise TypeError
  | Some r =>
      nds <- nds_loop fuel [r] 0 ;;
      show_loop nds
  end.

(** The lines that [show] prints for the node in slot [ptr]. *)
Definition shown (t : Btree) (ptr : nat) : list line :=
  match nodes t !! ptr with
  | Some n =>
      [ Text ("## " +:+ pretty ptr +:+ " ##");
        Text ("Values " +:+ py_list (pretty <$> values n));
        Text ("ptrs " +:+ py_list (pretty <$> ptrs n));
        Text ("Parent " +:+ py_index_or_None (parent n));
        Text ("LS " +:+ py_index_or_None (left_sibling n));
        Text ("RS " +:+ py_index_or_None (right_sibling n));
        Text "----" ]
  | None => []
  end.

(** The list [nds] when the iteration has reached position [i]: no slot
    twice, the root first, every node after its parent, which the
    iteration has passed, and with every child of a node that the
    iteration has passed. *)
Definition visiting (t : Btree) (nds : list nat) (i : nat) : Prop :=
  NoDup nds
  /\ head nds = root t
  /\ (forall k a, nds !! k = Some a ->
        exists n, nodes t !! a = Some n
                  /\ forall p, parent n = Some p ->
                       exists k', (k' < k)%nat /\ (k' < i)%nat /\ nds !! k' = Some p)
  /\ (forall k q qn c,
        (k < i)%nat -> nds !! k = Some q -> nodes t !! q = Some qn ->
        is_leaf qn = false -> c ∈ ptrs qn -> c ∈ nds).

Section Monad_facts.
Context {A B : Type}.

Lemma bind_Ok (m : M A) (k : A -> M B) w r w' :
  bind m k w = Ok r w' <-> exists a w1, m w = Ok a w1 /\ k a w1 = Ok r w'.
Proof.
  unfold bind. split.
  - destruct (m w) as [a w1| |]; [eauto | discriminate | discriminate].
  - intros (a & w1 & -> & H). exact H.
Qed.

Lemma keeps_world_tree (m : M A) : keeps_world m -> keeps_tree m.
Proof.
  intros H w. specialize (H w). destruct (m w); [by subst | by subst | done].
Qed.

Lemma keeps_tree_bind (m : M A) (k : A -> M B) :
  keeps_tree m -> (forall a, keeps_tree (k a)) -> keeps_tree (bind m k).
Proof.
  intros Hm Hk w. unfold bind. specialize (Hm w).
  destruct (m w) as [a w1| |]; [| done | done].
  specialize (Hk a w1). destruct (k a w1); congruence.
Qed.

Lemma keeps_world_bind (m : M A) (k : A -> M B) :
  keeps_world m -> (forall a, keeps_world (k a)) -> keeps_world (bind m k).
Proof.
  intros Hm Hk w. unfold bind. specialize (Hm w).
  destruct (m w) as [a w1| |]; [| done | done].
  subst w1. apply Hk.
Qed.

Lemma keeps_world_ret (a : A) : keeps_world (ret a).
Proof. by intros w. Qed.

Lemma keeps_world_raise (e : exn) : keeps_world (@raise A e).
Proof. by intros w. Qed.

Lemma keeps_world_diverge : keeps_world (@diverge A).
Proof. by intros w. Qed.

Lemma keeps_world_lift (r : exn + A) : keeps_world (lift r).
Proof. destruct r; by intros w. Qed.
End Monad_facts.

Lemma keeps_world_node_at i : keeps_world (node_at i).
Proof. intros w. unfold node_at. by destruct (nodes (tree w) !! i). Qed.

Lemma keeps_world_get_root : keeps_world get_root.
Proof. by intros w. Qed.

Lemma keeps_tree_print l : keeps_tree (print l).
Proof. by intros w. Qed.

Create HintDb pure discriminated.
#[local] Hint Resolve keeps_world_ret keeps_world_raise keeps_world_diverge
  keeps_world_lift keeps_world_node_at keeps_world_get_root : pure.

Lemma keeps_world_root_node : keeps_world root_node.
Proof.
  unfold root_node. apply keeps_world_bind; [auto with pure |].
  intros [i|]; [| auto with pure].
  apply keeps_world_bind; auto with pure.
Qed.

Lemma keeps_world_search_loop fuel value :
  forall idx node ops, keeps_world (search_loop fuel value idx node ops).
Proof.
  induction fuel as [|fuel IH]; intros idx node ops; simpl;
    destruct (is_leaf node); auto with pure.
  apply keeps_world_bind; [auto with pure |]. intros [idx' ops1].
  apply keeps_world_bind; auto with pure.
Qed.

Lemma keeps_world_search fuel value : keeps_world (_search fuel value).
Proof.
  unfold _search. apply keeps_world_bind; [apply keeps_world_root_node |].
  intros [idx node]. apply keeps_world_search_loop.
Qed.

Lemma keeps_world_walk_siblings fuel side :
  forall target_node results, keeps_world (walk_siblings fuel side target_node results).
Proof.
  induction fuel as [|fuel IH]; intros target_node results; simpl;
    destruct (side target_node); auto with pure.
  apply keeps_world_bind; auto with pure.
Qed.

Lemma keeps_world_range_branch fuel test side target_node results ops :
  keeps_world (range_branch fuel test side target_node results ops).
Proof.
  unfold range_branch. apply keeps_world_bind; [auto with pure |].
  intros [results' ops']. apply keeps_world_bind; [| auto with pure].
  apply keeps_world_walk_siblings.
Qed.

#[local] Hint Resolve keeps_world_search keeps_world_range_branch : pure.

Lemma keeps_tree_find fuel operator value : keeps_tree (find fuel operator value).
Proof.
  unfold find.
  apply keeps_tree_bind; [apply keeps_world_tree; auto with pure |].
  intros [leaf_idx ops].
  apply keeps_tree_bind; [apply keeps_world_tree; auto with pure |].
  intros target_node.
  repeat (apply keeps_tree_bind;
          [apply keeps_world_tree; case_match; auto with pure | intros [? ?]]).
  apply keeps_tree_bind; [apply keeps_tree_print |].
  intros _. apply keeps_world_tree. auto with pure.
Qed.

(** The node [_search] stops at is a leaf of the arena. *)
Lemma search_loop_leaf fuel value :
  forall idx node ops w leaf ops' w',
    nodes (tree w) !! idx = Some node ->
    search_loop fuel value idx node ops w = Ok (leaf, ops') w' ->
    w' = w /\ exists n, nodes (tree w) !! leaf = Some n /\ is_leaf n = true.
Proof.
  induction fuel as [|fuel IH]; intros idx node ops w leaf ops' w' Hnode; simpl;
    destruct (is_leaf node) eqn:Hleaf; try discriminate.
  - intros [= <- <- <-]. eauto.
  - intros [= <- <- <-]. eauto.
  - intros H. apply bind_Ok in H as ([idx' ops1] & w1 & H1 & H).
    pose proof (keeps_world_lift (Node_find node value) w) as Hw.
    rewrite H1 in Hw. subst w1.
    apply bind_Ok in H as (node' & w2 & H2 & H).
    unfold node_at in H2.
    destruct (nodes (tree w) !! idx') eqn:Hidx'; [| discriminate].
    injection H2 as <- <-. eapply IH; eauto.
Qed.

Lemma search_leaf fuel value w leaf ops w' :
  _search fuel value w = Ok (leaf, ops) w' ->
  w' = w /\ exists n, nodes (tree w) !! leaf = Some n /\ is_leaf n = true.
Proof.
  unfold _search, root_node, get_root. intros H.
  apply bind_Ok in H as ([idx node] & w1 & H1 & H).
  apply bind_Ok in H1 as (r & w2 & [= <- <-] & H1).
  destruct (root (tree w)) as [i|]; [| discriminate].
  apply bind_Ok in H1 as (n & w3 & H3 & [= <- <- <-]).
  unfold node_at in H3. destruct (nodes (tree w) !! i) eqn:Hi; [| discriminate].
  injection H3 as <- <-. eapply search_loop_leaf; eauto.
Qed.

(** ** Queries *)

Section Find.
Variables (fuel : nat) (value : Z).

(** C8 (as the code has it): on a tree whose root is still unset,
    [_search], [find] (whatever the operator) and [delete] all fail instead
    of returning, but not with an error of their own: [self.nodes[self.root]]
    indexes the node list with None, which raises Python's TypeError, and
    nothing was changed or printed. *)
Theorem empty_tree_operations_fail (bf : Z) (ns : list Node) (out : list line)
    (d : Defaults) (operator : string) (ptr : nat) :
  let w := mkWorld (mkBtree bf ns None) out d in
  _search fuel value w = Raise TypeError w
  /\ find fuel operator value w = Raise TypeError w
  /\ delete fuel value ptr w = Raise TypeError w.
Proof. by repeat split. Qed.

(** C10: [_search] has no effect at all and [find] leaves the tree (the
    branching factor, the node list with every attribute of every node,
    and the root index) exactly as it was, whether it returns or raises;
    [find] only adds its line to the output. *)
Theorem find_read_only (operator : string) (w : World) :
  match _search fuel value w with
  | Ok _ w' | Raise _ w' => w' = w
  | Diverge => True
  end
  /\ match find fuel operator value w with
     | Ok _ w' | Raise _ w' => tree w' = tree w
     | Diverge => True
     end.
Proof. split; [apply keeps_world_search | apply keeps_tree_find]. Qed.

Lemma eqb_not_recognised (operator s : string) :
  operator ∉ recognised -> s ∈ recognised -> String.eqb operator s = false.
Proof. intros Hn Hs. apply String.eqb_neq. by intros ->. Qed.

Lemma find_no_branch (operator : string) (w w1 : World) (leaf ops : nat) :
  _search fuel value w = Ok (leaf, ops) w1 ->
  operator ∉ recognised ->
  find fuel operator value w
  = Ok [] (mkWorld (tree w) (stdout w ++ [OpsLine ops]) (defaults w)).
Proof.
  intros Hs Hop. destruct (search_leaf _ _ _ _ _ _ Hs) as (-> & n & Hn & _).
  unfold find, bind. rewrite Hs. unfold node_at. rewrite Hn.
  rewrite !eqb_not_recognised
    by (done || (unfold recognised; repeat constructor)).
  reflexivity.
Qed.

End Find.

Section Scan_order.
Variable test : Z -> bool.

Lemma scan_leaf_matching (ps : list nat) :
  forall vals idx ops results,
    (length vals + idx <= length ps)%nat ->
    scan_leaf test vals ps idx ops results
    = inr (results ++ (filter (fun e => test e.1 = true) (zip vals (drop idx ps))).*2,
           (ops + length vals)%nat).
Proof.
  induction vals as [|v vals IH]; intros idx ops results Hlen; simpl in *.
  - by rewrite app_nil_r, Nat.add_0_r.
  - destruct (lookup_lt_is_Some_2 ps idx) as [p Hp]; [lia |].
    rewrite (drop_S _ _ _ Hp). simpl. rewrite filter_cons. simpl.
    rewrite Hp. destruct (test v) eqn:Hv.
    + rewrite decide_True by done. rewrite IH by lia. simpl.
      rewrite <- app_assoc. simpl. do 2 f_equal. lia.
    + rewrite decide_False by done. rewrite IH by lia.
      do 2 f_equal. lia.
Qed.

Lemma sibling_path_node fuel side t idx path :
  sibling_path fuel side t idx = Some path -> is_Some (nodes t !! idx).
Proof. destruct fuel; simpl; destruct (nodes t !! idx); by eauto. Qed.

Lemma walk_siblings_path side w :
  forall fuel idx node results path,
    nodes (tree w) !! idx = Some node ->
    sibling_path fuel side (tree w) idx = Some path ->
    walk_siblings fuel side node results w
    = Ok (results ++ ptrs_along (tree w) path) w.
Proof.
  induction fuel as [|fuel IH]; intros idx node results path Hnode; simpl;
    rewrite Hnode; destruct (side node) as [s|] eqn:Hside; try discriminate.
  - intros [= <-]. unfold ptrs_along. simpl. by rewrite app_nil_r.
  - destruct (sibling_path fuel side (tree w) s) as [path'|] eqn:Hpath;
      [| discriminate].
    intros [= <-].
    destruct (sibling_path_node _ _ _ _ _ Hpath) as [node' Hnode'].
    unfold bind, node_at. rewrite Hnode'.
    rewrite (IH s node' _ path' Hnode' Hpath).
    unfold ptrs_along. simpl. rewrite Hnode'. simpl. by rewrite app_assoc.
  - intros [= <-]. unfold ptrs_along. simpl. by rewrite app_nil_r.
Qed.

Lemma range_branch_path fuel side w idx node results ops path :
  nodes (tree w) !! idx = Some node ->
  (length (values node) <= length (ptrs node))%nat ->
  sibling_path fuel side (tree w) idx = Some path ->
  range_branch fuel test side node results ops w
  = Ok (results ++ matching test node ++ ptrs_along (tree w) path,
        (ops + length (values node))%nat) w.
Proof.
  intros Hnode Hlen Hpath. unfold range_branch, bind.
  rewrite scan_leaf_matching by lia. simpl.
  rewrite (walk_siblings_path _ _ _ _ _ _ _ Hnode Hpath).
  unfold ret, matching, entries. rewrite drop_0. by rewrite app_assoc.
Qed.
End Scan_order.

Section Delete.
Variables (value : Z) (ptr : nat).

Lemma delete_loop_absent idx n w :
  nodes (tree w) !! idx = Some n ->
  forall items i temp,
    (length items + i <= length (ptrs n))%nat ->
    (forall k, items !! k = Some value -> ptrs n !! (i + k)%nat <> Some ptr) ->
    delete_loop items i idx value ptr temp w
    = if bool_decide (value ∈ items)
      then Ok Returned (mkWorld (tree w) (stdout w ++ [Text "Value not in ptr"]) (defaults w))
      else Ok (Finished temp) w.
Proof.
  intros Hn. induction items as [|item items IH]; intros i temp Hlen Habs; simpl in *.
  - reflexivity.
  - destruct (item =? value) eqn:Hitem.
    + apply Z.eqb_eq in Hitem as ->.
      rewrite bool_decide_eq_true_2 by apply list_elem_of_here.
      unfold bind, node_at. rewrite Hn.
      destruct (lookup_lt_is_Some_2 (ptrs n) i) as [q Hq]; [lia |].
      rewrite Hq. specialize (Habs 0%nat eq_refl). rewrite Nat.add_0_r, Hq in Habs.
      destruct (Nat.eqb_spec ptr q) as [->|]; [done | reflexivity].
    + apply Z.eqb_neq in Hitem. rewrite IH.
      * destruct (decide (value ∈ items)) as [Hin|Hin].
        -- rewrite !bool_decide_eq_true_2; [done | by right | done].
        -- rewrite !bool_decide_eq_false_2; [done | | done].
           intros [?|?]%elem_of_cons; congruence.
      * lia.
      * intros k Hk. replace (S i + k)%nat with (i + S k)%nat by lia. by apply Habs.
Qed.

Lemma delete_absent (fuel : nat) (w w1 : World) (leaf ops : nat) (n : Node) :
  _search fuel value w = Ok (leaf, ops) w1 ->
  nodes (tree w) !! leaf = Some n ->
  (length (values n) <= length (ptrs n))%nat ->
  (value, ptr) ∉ entries n ->
  delete fuel value ptr w
  = Ok tt (mkWorld (tree w)
             (stdout w ++ [Text (if bool_decide (value ∈ values n)
                                 then "Value not in ptr"
                                 else "Value not in Tree")]) (defaults w)).
Proof.
  intros Hs Hn Hlen Habs. destruct (search_leaf _ _ _ _ _ _ Hs) as (-> & _).
  unfold delete, bind. rewrite Hs. simpl. unfold node_at. rewrite Hn.
  rewrite (delete_loop_absent leaf n w Hn) by
    (lia || (intros k Hk Hp; simpl in Hp; apply Habs, list_elem_of_lookup;
             exists k; unfold entries; by rewrite lookup_zip_with, Hk, Hp)).
  by destruct (bool_decide (value ∈ values n)).
Qed.

(** C6 (as the code has it): when the pair is not in the leaf that
    [_search] finds for the key, and that leaf has a pointer for each of
    its keys, [delete] raises nothing: it prints one line ("Value not in
    Tree" when the key is not in the leaf, "Value not in ptr" when it is
    there with other pointers), returns normally, and the tree is
    unchanged. *)
Theorem delete_absent_pair (fuel : nat) (w w1 : World) (leaf ops : nat) (n : Node) :
  _search fuel value w = Ok (leaf, ops) w1 ->
  nodes (tree w) !! leaf = Some n ->
  (length (values n) <= length (ptrs n))%nat ->
  (value, ptr) ∉ entries n ->
  delete fuel value ptr w
  = Ok tt (mkWorld (tree w)
             (stdout w ++ [Text (if bool_decide (value ∈ values n)
                                 then "Value not in ptr"
                                 else "Value not in Tree")]) (defaults w)).
Proof. apply delete_absent. Qed.
End Delete.

(** Decide the comparisons of two string literals in the goal. *)
Ltac compare_strings :=
  repeat match goal with
         | |- context [String.eqb ?a ?b] =>
             let v := eval vm_compute in (String.eqb a b) in
             change (String.eqb a b) with v
         end.

Section Range_queries.
Variables (fuel : nat) (value : Z).

(** C9 (as the code has it): a range query returns pointers in scan order.
    First come the pointers of the leaf found by the search at the
    positions whose key passes the comparison, by increasing position;
    then the whole pointer list of each further leaf reached by following
    [right_sibling] (for ">" and ">=") or [left_sibling] (for "<" and
    "<="), one leaf after the other, each list as stored.  The queries
    that walk left therefore meet the leaves from right to left but list
    every leaf from left to right. *)
Theorem find_scan_order (operator : string) (test : Z -> bool)
    (side : Node -> option nat) (w w1 : World) (leaf ops : nat) (n : Node)
    (path : list nat) :
  range_operator operator value = Some (test, side) ->
  _search fuel value w = Ok (leaf, ops) w1 ->
  nodes (tree w) !! leaf = Some n ->
  (length (values n) <= length (ptrs n))%nat ->
  sibling_path fuel side (tree w) leaf = Some path ->
  find fuel operator value w
  = Ok (matching test n ++ ptrs_along (tree w) path)
       (mkWorld (tree w) (stdout w ++ [OpsLine (ops + length (values n))]) (defaults w)).
Proof.
  intros Hop Hs Hn Hlen Hpath.
  destruct (search_leaf _ _ _ _ _ _ Hs) as (-> & _).
  unfold find. unfold bind at 1. rewrite Hs. simpl.
  unfold bind at 1. unfold node_at at 1. rewrite Hn.
  unfold range_operator in Hop.
  repeat match type of Hop with
         | context [String.eqb operator ?s] =>
             destruct (String.eqb_spec operator s) as [->|];
             [injection Hop as <- <-; compare_strings; cbv [bind ret];
              by rewrite (range_branch_path _ _ _ _ _ _ _ _ _ Hn Hlen Hpath) |]
         end.
  discriminate.
Qed.
End Range_queries.

(** ** Updates of the arena *)

Lemma with_nodes_compose f g w : with_nodes g (with_nodes f w) = with_nodes (fun ns => g (f ns)) w.
Proof. reflexivity. Qed.

Lemma with_nodes_ext f g w :
  f (nodes (tree w)) = g (nodes (tree w)) -> with_nodes f w = with_nodes g w.
Proof. unfold with_nodes. by intros ->. Qed.

Lemma with_nodes_id f w : f (nodes (tree w)) = nodes (tree w) -> with_nodes f w = w.
Proof. unfold with_nodes. intros ->. by destruct w as [[] ?]. Qed.

Lemma update_node_imap i f w :
  (i < length (nodes (tree w)))%nat ->
  update_node i f w
  = Ok tt (with_nodes (imap (fun j m => if decide (j = i) then f m else m)) w).
Proof.
  intros Hi. unfold update_node.
  destruct (lookup_lt_is_Some_2 _ _ Hi) as [n Hn]. rewrite Hn.
  f_equal. apply with_nodes_ext.
  apply list_eq. intros j. rewrite list_lookup_imap.
  destruct (decide (j = i)) as [->|Hne].
  - rewrite list_lookup_insert_eq by done. rewrite Hn. simpl. first [done | by case_decide].
  - rewrite list_lookup_insert_ne by done. destruct (nodes (tree w) !! j); simpl; [|done].
    first [done | by case_decide].
Qed.

Lemma reparent_imap p : forall cs w,
  Forall (fun c => (c < length (nodes (tree w)))%nat) cs ->
  reparent cs p w
  = Ok tt (with_nodes (imap (fun j m => if decide (j ∈ cs) then set_parent (Some p) m else m)) w).
Proof.
  induction cs as [|c cs IH]; intros w Hcs; simpl.
  - unfold ret. f_equal. symmetry. apply with_nodes_id.
    apply list_eq. intros j. rewrite list_lookup_imap.
    by destruct (nodes (tree w) !! j).
  - inversion Hcs as [|? ? Hc Hcs']; subst. unfold bind.
    rewrite update_node_imap by done.
    rewrite IH.
    + f_equal. rewrite with_nodes_compose. apply with_nodes_ext.
      apply list_eq. intros j. rewrite !list_lookup_imap.
      destruct (nodes (tree w) !! j); simpl; [|done]. f_equal.
      destruct (decide (j = c)) as [->|Hne].
      * rewrite (decide_True (P := c ∈ c :: cs)) by left. by case_decide.
      * case_decide.
        -- rewrite decide_True; [done | by right].
        -- rewrite decide_False; [done |]. intros [?|?]%elem_of_cons; done.
    + simpl. rewrite length_imap. done.
Qed.

Lemma imap_imap {A B C} (g : nat -> A -> B) (h : nat -> B -> C) (l : list A) :
  imap h (imap g l) = imap (fun j m => h j (g j m)) l.
Proof.
  apply list_eq. intros j. rewrite !list_lookup_imap. by destruct (l !! j).
Qed.

Lemma update_node_after g i f w :
  (i < length (nodes (tree w)))%nat ->
  update_node i f (with_nodes (imap g) w)
  = Ok tt (with_nodes (imap (fun j m => if decide (j = i) then f (g j m) else g j m)) w).
Proof.
  intros Hi. rewrite update_node_imap by (simpl; by rewrite length_imap).
  rewrite with_nodes_compose. f_equal. apply with_nodes_ext. apply imap_imap.
Qed.

Lemma reparent_after g cs p w :
  Forall (fun c => (c < length (nodes (tree w)))%nat) cs ->
  reparent cs p (with_nodes (imap g) w)
  = Ok tt (with_nodes (imap (fun j m => if decide (j ∈ cs)
                                        then set_parent (Some p) (g j m) else g j m)) w).
Proof.
  intros Hcs. rewrite reparent_imap by (simpl; by rewrite length_imap).
  rewrite with_nodes_compose. f_equal. apply with_nodes_ext. apply imap_imap.
Qed.

(** ** Splitting *)

Lemma node_at_with_nodes i f w :
  node_at i (with_nodes f w)
  = match f (nodes (tree w)) !! i with
    | Some n => Ok n (with_nodes f w)
    | None => Raise IndexError (with_nodes f w)
    end.
Proof. reflexivity. Qed.

Lemma middle_value_Some (n : Node) :
  values n <> [] -> exists v, values n !! (length (values n) / 2)%nat = Some v.
Proof.
  intros Hne. apply lookup_lt_is_Some_2.
  apply Nat.div_lt; [| lia]. destruct (values n); [done | simpl; lia].
Qed.

Lemma released_with_nodes_imap g x n w :
  nodes (tree w) !! x = Some n ->
  values (g x n) = values n -> ptrs (g x n) = ptrs n ->
  released x (with_nodes (imap g) w) = with_nodes (imap g) (released x w).
Proof.
  intros Hx Hgv Hgp. unfold released, with_nodes, default_values, default_ptrs. simpl.
  destruct (defaults w) as [j|]; [| done].
  case_decide; [| done]. subst j. by rewrite list_lookup_imap, Hx; simpl; rewrite Hgv, Hgp.
Qed.

Lemma split_halves_spec w x n :
  let len := length (nodes (tree w)) in
  let bf := b (tree w) in
  nodes (tree w) !! x = Some n ->
  values n <> [] ->
  (is_leaf n = false -> Forall (fun c => (c < len)%nat) (ptrs n)) ->
  (forall s, right_sibling n = Some s -> (s < len)%nat) ->
  exists npv ns1,
    values n !! (length (values n) / 2)%nat = Some npv
    /\ split_halves x w
       = Ok npv (with_nodes (fun _ => ns1 ++ [right_half bf x n]) (released x w))
    /\ length ns1 = len
    /\ forall j m, nodes (tree w) !! j = Some m ->
         exists m', ns1 !! j = Some m'
           /\ is_leaf m' = is_leaf m
           /\ values m' = (if decide (j = x) then take (length (values n) / 2)%nat (values n)
                           else values m)
           /\ ptrs m' = (if decide (j = x) then take (left_cut bf (length (ptrs n))) (ptrs n)
                         else ptrs m)
           /\ parent m' = (if is_leaf n then parent m
                           else if decide (j ∈ drop (left_cut bf (length (ptrs n))) (ptrs n))
                                then Some len else parent m)
           /\ right_sibling m' = (if decide (j = x)
                                  then if is_leaf n then Some len else None
                                  else right_sibling m).
Proof.
  intros len bf Hx Hne Hkids Hsib.
  destruct (middle_value_Some n Hne) as [npv Hnpv].
  assert (Hxlt : (x < len)%nat) by (by eapply lookup_lt_Some).
  exists npv. unfold split_halves.
  unfold bind at 1. unfold get_b at 1.
  unfold bind at 1. unfold node_at at 1. rewrite Hx.
  unfold bind at 1. unfold middle_value at 1. rewrite Hnpv. unfold ret at 1.
  unfold bind at 1. unfold nodes_len at 1. fold len. fold bf.
  assert (Htail : forall g right,
    values (g x n) = values n -> ptrs (g x n) = ptrs n ->
    (node <- node_at x;;
     release x;;
     update_node x (set_values (take (length (values node) / 2)%nat (values node)));;
     update_node x
       (set_ptrs (if bf mod 2 =? 1
                  then take (length (ptrs node) / 2)%nat (ptrs node)
                  else take (length (ptrs node) / 2 + 1)%nat (ptrs node)));;
     append_node right;; ret npv)%py (with_nodes (imap g) w)
    = Ok npv (with_nodes (fun _ =>
        imap (fun j m => if decide (j = x)
                         then set_ptrs (take (left_cut bf (length (ptrs n))) (ptrs n))
                                (set_values (take (length (values n) / 2)%nat (values n))
                                   (g j m))
                         else g j m) (nodes (tree w)) ++ [right]) (released x w))).
  { intros g right Hgv Hgp.
    unfold bind at 1. rewrite node_at_with_nodes, list_lookup_imap, Hx. simpl.
    unfold bind at 1. unfold release at 1.
    rewrite (released_with_nodes_imap g x n w Hx Hgv Hgp).
    unfold bind at 1. rewrite update_node_imap by (simpl; rewrite ?length_imap; lia).
    unfold bind at 1. rewrite update_node_imap by (simpl; rewrite ?length_imap; lia).
    unfold bind, append_node, ret. rewrite !with_nodes_compose. f_equal.
    apply with_nodes_ext. f_equal.
    apply list_eq. intros j. rewrite !list_lookup_imap.
    change (tree (released x w)) with (tree w).
    destruct (nodes (tree w) !! j) as [m|]; simpl; [|done]. f_equal.
    rewrite Hgv, Hgp. unfold left_cut.
    destruct (decide (j = x)); destruct (bf mod 2 =? 1); done. }
  destruct (is_leaf n) eqn:Hleaf.
  - unfold bind at 1. unfold bind at 1.
    destruct (right_sibling n) as [rs|] eqn:Hrs.
    + rewrite update_node_imap by (by apply Hsib).
      unfold bind at 1. rewrite update_node_after by done.
      unfold ret at 1. eexists. split; [done |].
      split; [etransitivity; [apply Htail; simpl; by repeat case_decide |];
              unfold right_half; rewrite Hleaf, Hrs; reflexivity |].
      split; [by rewrite length_imap |].
      intros j m Hm. rewrite list_lookup_imap, Hm. simpl. eexists. split; [done |].
      destruct (decide (j = x)) as [->|]; [assert (m = n) as -> by congruence |];
        repeat case_decide; simpl; done.
    + unfold ret at 1. unfold bind at 1. rewrite update_node_imap by done.
      unfold ret at 1. eexists. split; [done |].
      split; [etransitivity; [apply Htail; simpl; by repeat case_decide |];
              unfold right_half; rewrite Hleaf, Hrs; reflexivity |].
      split; [by rewrite length_imap |].
      intros j m Hm. rewrite list_lookup_imap, Hm. simpl. eexists. split; [done |].
      destruct (decide (j = x)) as [->|]; [assert (m = n) as -> by congruence |];
        repeat case_decide; simpl; done.
  - unfold bind at 1. unfold bind at 1.
    rewrite update_node_imap by done.
    unfold bind at 1. rewrite reparent_after.
    2:{ fold len. destruct (bf mod 2 =? 1); eapply Forall_drop; by apply Hkids. }
    unfold ret at 1. unfold right_half, left_cut in *. rewrite Hleaf.
    destruct (bf mod 2 =? 1).
    all: eexists; (split; [done |]).
    all: split; [apply Htail; simpl; by repeat case_decide |].
    all: split; [by rewrite length_imap |].
    all: intros j m Hm; rewrite list_lookup_imap, Hm; simpl; eexists; (split; [done |]).
    all: destruct (decide (j = x)) as [->|]; [assert (m = n) as -> by congruence |];
      repeat case_decide; simpl; done.
Qed.



Lemma wf_nodes lvl t :
  wf lvl t <-> forall j n, nodes t !! j = Some n -> node_wf lvl (length (nodes t)) j n.
Proof.
  split.
  - intros [Hp Hc Hs] j n Hn. repeat split; intros; eauto.
    + by eapply Hp. + by eapply Hp. + by eapply Hc. + by eapply Hc.
  - intros H. split; intros j n ? Hn; intros; destruct (H j n Hn) as (Hp & Hc & Hs); eauto.
Qed.

(** Growing the arena and choosing levels for the new slots keeps what was
    checked for an old slot. *)
Lemma node_wf_mono lvl lvl' len len' j n :
  node_wf lvl len j n -> (len <= len')%nat -> (j < len)%nat ->
  (forall i, (i < len)%nat -> lvl' i = lvl i) ->
  node_wf lvl' len' j n.
Proof.
  intros (Hp & Hc & Hs) Hlen Hj Hlvl. split; [| split].
  - intros p Hpar. destruct (Hp p Hpar) as [? ?]. rewrite !Hlvl by done. lia.
  - intros Hleaf c Hin. destruct (Hc Hleaf c Hin) as [? ?]. rewrite !Hlvl by done. lia.
  - intros s Hsib. specialize (Hs s Hsib). lia.
Qed.


Lemma elem_of_take_1 {A} (x : A) k l : x ∈ take k l -> x ∈ l.
Proof. intros H. rewrite <- (take_drop k l). apply elem_of_app. by left. Qed.

Lemma elem_of_drop_1 {A} (x : A) k l : x ∈ drop k l -> x ∈ l.
Proof. intros H. rewrite <- (take_drop k l). apply elem_of_app. by right. Qed.

Lemma split_halves_wf lvl L w x n :
  let len := length (nodes (tree w)) in
  let bf := b (tree w) in
  let lvl1 := with_level lvl len (lvl x) in
  wf lvl (tree w) -> bounded lvl L (tree w) ->
  nodes (tree w) !! x = Some n -> values n <> [] ->
  exists npv w1,
    values n !! (length (values n) / 2)%nat = Some npv
    /\ split_halves x w = Ok npv w1
    /\ b (tree w1) = bf /\ root (tree w1) = root (tree w) /\ stdout w1 = stdout w
    /\ length (nodes (tree w1)) = S len
    /\ wf lvl1 (tree w1) /\ bounded lvl1 L (tree w1)
    /\ nodes (tree w1) !! len = Some (right_half bf x n)
    /\ forall j m, nodes (tree w) !! j = Some m ->
         exists m', nodes (tree w1) !! j = Some m'
           /\ is_leaf m' = is_leaf m
           /\ values m' = (if decide (j = x) then take (length (values n) / 2)%nat (values n)
                           else values m)
           /\ ptrs m' = (if decide (j = x) then take (left_cut bf (length (ptrs n))) (ptrs n)
                         else ptrs m)
           /\ (j = x -> parent m' = parent n).
Proof.
  intros len bf lvl1 Hwf Hb Hx Hne.
  pose proof (proj1 (wf_nodes _ _) Hwf) as Hnodes.
  assert (Hxlt : (x < len)%nat) by (by eapply lookup_lt_Some).
  destruct (Hnodes x n Hx) as (Hxp & Hxc & Hxs).
  destruct (split_halves_spec w x n Hx Hne) as (npv & ns1 & Hnpv & Hrun & Hlen1 & Hold).
  { intros Hleaf. apply Forall_forall. intros c Hc. by apply Hxc. }
  { done. }
  fold len bf in Hrun, Hlen1, Hold.
  assert (Hlvl1 : forall i, (i < len)%nat -> lvl1 i = lvl i).
  { intros i Hi. unfold lvl1, with_level. case_decide; [lia | done]. }
  assert (Hlvl1_len : lvl1 len = lvl x).
  { unfold lvl1, with_level. by rewrite decide_True. }
  assert (Hnotkid : is_leaf n = false -> x ∉ ptrs n).
  { intros Hleaf Hin. destruct (Hxc Hleaf x Hin). lia. }
  exists npv, (with_nodes (fun _ => ns1 ++ [right_half bf x n]) (released x w)).
  split; [done |]. split; [done |]. simpl.
  split; [done |]. split; [done |]. split; [done |].
  split; [rewrite length_app; simpl; lia |].
  split; [| split; [| split]].
  - apply wf_nodes. simpl. intros j m' Hm'. rewrite length_app. simpl.
    rewrite Hlen1. replace (len + 1)%nat with (S len) by lia.
    destruct (decide (j < len)%nat) as [Hj|Hj].
    + rewrite lookup_app_l in Hm' by lia.
      destruct (lookup_lt_is_Some_2 (nodes (tree w)) j Hj) as [m Hm].
      destruct (Hold j m Hm) as (m'' & Hm'' & Hl & Hv & Hp & Hpar & Hsib).
      assert (m'' = m') as -> by congruence.
      destruct (Hnodes j m Hm) as (Hjp & Hjc & Hjs).
      split; [| split].
      * intros p. rewrite Hpar. destruct (is_leaf n) eqn:Hleaf.
        -- intros Hp'. destruct (Hjp p Hp'). rewrite !Hlvl1; [lia | lia | done].
        -- destruct (decide (j ∈ _)) as [Hin|Hin].
           ++ intros [= Hp']. rewrite <- Hp', Hlvl1_len, Hlvl1 by done.
              destruct (Hxc eq_refl j); [by eapply elem_of_drop_1 | lia].
           ++ intros Hp'. destruct (Hjp p Hp'). rewrite !Hlvl1; [lia | lia | done].
      * rewrite Hl, Hp. intros Hleaf c Hc.
        assert (c ∈ ptrs m) as Hc'.
        { destruct (decide (j = x)) as [->|]; [| done].
          assert (m = n) as -> by congruence. by eapply elem_of_take_1. }
        destruct (Hjc Hleaf c Hc'). rewrite !Hlvl1; [lia | lia | done].
      * rewrite Hsib. intros s. destruct (decide (j = x)).
        -- destruct (is_leaf n); [intros [= Hs']; lia | done].
        -- intros Hs. specialize (Hjs s Hs). lia.
    + assert (j = len) as ->.
      { apply lookup_lt_Some in Hm'. rewrite length_app in Hm'. simpl in Hm'. lia. }
      rewrite list_lookup_middle in Hm' by done. injection Hm' as <-.
      unfold right_half, node_wf. rewrite Hlvl1_len.
      destruct (is_leaf n) eqn:Hleaf; (split; [| split]); simpl; try done.
      * intros p Hp. destruct (Hxp p Hp). rewrite Hlvl1 by done. lia.
      * intros s Hs. specialize (Hxs s Hs). lia.
      * intros p Hp. destruct (Hxp p Hp). rewrite Hlvl1 by done. lia.
      * intros _ c Hc. destruct (Hxc eq_refl c); [by eapply elem_of_drop_1 |].
        rewrite Hlvl1 by done. lia.
  - intros j. simpl. rewrite length_app. simpl. rewrite Hlen1. intros Hj.
    unfold lvl1, with_level. case_decide; apply Hb; lia.
  - simpl. by rewrite list_lookup_middle.
  - intros j m Hm. destruct (Hold j m Hm) as (m' & Hm' & Hl & Hv & Hp & Hpar & Hsib).
    exists m'. simpl. rewrite lookup_app_l by (apply lookup_lt_Some in Hm'; lia).
    repeat (split; [done |]). intros ->. assert (m = n) as -> by congruence.
    rewrite Hpar. destruct (is_leaf n) eqn:Hleaf; [done |].
    rewrite decide_False; [done |]. intros Hin.
    by eapply Hnotkid, elem_of_drop_1.
Qed.

Lemma elem_of_py_insert {A} (i : nat) (x y : A) (l : list A) :
  y ∈ py_insert i x l <-> y = x \/ y ∈ l.
Proof.
  unfold py_insert. rewrite elem_of_app, elem_of_cons.
  assert (y ∈ l <-> y ∈ take i l \/ y ∈ drop i l) as ->; [| tauto].
  by rewrite <- elem_of_app, take_drop.
Qed.

Lemma Node_insert_spec value ptr (m : Node) :
  let m' := Node_insert value ptr None m in
  is_leaf m' = is_leaf m /\ parent m' = parent m /\ right_sibling m' = right_sibling m
  /\ (forall k, k ∈ values m' <-> k = value \/ k ∈ values m)
  /\ (forall c, c ∈ ptrs m' <-> c = ptr \/ c ∈ ptrs m).
Proof.
  unfold Node_insert. destruct (first_greater value (values m) 0) as [index|]; simpl.
  - split; [done |]. split; [done |]. split; [done |].
    split; intros; apply elem_of_py_insert.
  - split; [done |]. split; [done |]. split; [done |].
    split; intros; rewrite elem_of_app, list_elem_of_singleton; tauto.
Qed.

Lemma split_spec : forall fuel lvl L w x n,
  wf lvl (tree w) -> bounded lvl L (tree w) ->
  nodes (tree w) !! x = Some n -> values n <> [] ->
  (L < fuel + lvl x)%nat ->
  let len := length (nodes (tree w)) in
  let bf := b (tree w) in
  exists w' lvl',
    split fuel x w = Ok tt w'
    /\ wf lvl' (tree w') /\ bounded lvl' (S L) (tree w')
    /\ (forall j, (j < len)%nat -> lvl' j = lvl j) /\ lvl' len = lvl x
    /\ (len < length (nodes (tree w')))%nat
    /\ b (tree w') = bf /\ stdout w' = stdout w
    /\ (root_set (tree w) -> root_set (tree w'))
    /\ (forall j m, j <> x -> (lvl j <= lvl x)%nat -> nodes (tree w) !! j = Some m ->
          exists m', nodes (tree w') !! j = Some m'
            /\ values m' = values m /\ ptrs m' = ptrs m /\ is_leaf m' = is_leaf m)
    /\ (exists l, nodes (tree w') !! x = Some l
          /\ values l = take (length (values n) / 2)%nat (values n)
          /\ ptrs l = take (left_cut bf (length (ptrs n))) (ptrs n)
          /\ is_leaf l = is_leaf n)
    /\ (exists r, nodes (tree w') !! len = Some r
          /\ values r = values (right_half bf x n)
          /\ ptrs r = ptrs (right_half bf x n)
          /\ is_leaf r = is_leaf n)
    /\ (forall k, k ∈ values n ->
          exists j m, nodes (tree w') !! j = Some m /\ k ∈ values m
                      /\ (lvl x <= lvl' j)%nat)
    /\ (forall npv, values n !! (length (values n) / 2)%nat = Some npv ->
          exists j m, nodes (tree w') !! j = Some m /\ npv ∈ values m
                      /\ (lvl x < lvl' j)%nat).
Proof.
  induction fuel as [|fuel IH]; intros lvl L w x n Hwf Hb Hx Hne Hfuel len bf.
  { specialize (Hb x (lookup_lt_Some _ _ _ Hx)). lia. }
  assert (Hxlt : (x < len)%nat) by (by eapply lookup_lt_Some).
  destruct (split_halves_wf lvl L w x n Hwf Hb Hx Hne)
    as (npv & w1 & Hnpv & Hrun & Hb1 & Hroot1 & Hout1 & Hlen1 & Hwf1 & Hbd1 & Hright & Hold).
  fold len bf in Hb1, Hlen1, Hwf1, Hbd1, Hright, Hold.
  set (lvl1 := with_level lvl len (lvl x)) in *.
  assert (Hlvl1 : forall i, (i < len)%nat -> lvl1 i = lvl i).
  { intros i Hi. unfold lvl1, with_level. case_decide; [lia | done]. }
  assert (Hlvl1_len : lvl1 len = lvl x).
  { unfold lvl1, with_level. by rewrite decide_True. }
  destruct (Hold x n Hx) as (x1 & Hx1 & Hx1l & Hx1v & Hx1p & Hx1par).
  rewrite decide_True in Hx1v by done. rewrite decide_True in Hx1p by done. specialize (Hx1par eq_refl).
  simpl. unfold bind at 1. rewrite Hrun.
  unfold bind at 1. unfold get_b at 1. rewrite Hb1.
  unfold bind at 1. unfold node_at at 1. rewrite Hx1. rewrite Hx1par.
  pose proof (proj1 (wf_nodes _ _) Hwf) as Hnodes.
  pose proof (proj1 (wf_nodes _ _) Hwf1) as Hnodes1. rewrite Hlen1 in Hnodes1.
  (* the keys of [n] are those of the two halves, and the middle one *)
  assert (Hkeys : forall k, k ∈ values n ->
            k ∈ values x1 \/ k = npv \/ k ∈ values (right_half bf x n)).
  { intros k Hk. rewrite Hx1v.
    rewrite <- (take_drop_middle _ _ _ Hnpv) in Hk.
    apply elem_of_app in Hk as [Hk|Hk]; [by left |].
    apply elem_of_cons in Hk as [->|Hk]; [right; by left |].
    right; right. unfold right_half. destruct (is_leaf n); simpl.
    - eapply elem_of_drop_1 with (k := 1%nat). by rewrite drop_drop, Nat.add_1_r.
    - by rewrite Nat.add_1_r. }
  destruct (parent n) as [p|] eqn:Hpar.
  - destruct (Hnodes x n Hx) as (Hxp & _ & _).
    destruct (Hxp p Hpar) as [Hplt Hplvl].
    destruct (lookup_lt_is_Some_2 (nodes (tree w)) p Hplt) as [pm Hpm].
    destruct (Hold p pm Hpm) as (pm1 & Hpm1 & Hpl & Hpv & Hpp & _).
    assert (Hpx : p <> x) by (intros ->; lia).
    rewrite decide_False in Hpv by done. rewrite decide_False in Hpp by done.
    unfold bind at 1. unfold nodes_len at 1. rewrite Hlen1.
    replace (S len - 1)%nat with len by lia.
    unfold bind at 1. unfold update_node at 1. rewrite Hpm1.
    set (pn2 := Node_insert npv len None pm1).
    set (w2 := with_nodes _ w1).
    destruct (Node_insert_spec npv len pm1) as (Hi_l & Hi_par & Hi_sib & Hi_v & Hi_p).
    fold pn2 in Hi_l, Hi_par, Hi_sib, Hi_v, Hi_p.
    assert (Hp2 : nodes (tree w2) !! p = Some pn2).
    { simpl. apply list_lookup_insert_eq. rewrite Hlen1. lia. }
    assert (Hother2 : forall j, j <> p -> nodes (tree w2) !! j = nodes (tree w1) !! j).
    { intros j Hj. simpl. by apply list_lookup_insert_ne. }
    assert (Hlen2 : length (nodes (tree w2)) = S len).
    { simpl. by rewrite length_insert. }
    assert (Hwf2 : wf lvl1 (tree w2)).
    { apply wf_nodes. rewrite Hlen2. intros j m' Hm'.
      destruct (decide (j = p)) as [->|Hj].
      - assert (m' = pn2) as -> by congruence.
        destruct (Hnodes1 p pm1 Hpm1) as (Hq1 & Hq2 & Hq3).
        split; [| split].
        + rewrite Hi_par. apply Hq1.
        + rewrite Hi_l. intros Hleaf c [->|Hc]%Hi_p; [| by apply Hq2].
          rewrite Hlvl1_len, Hlvl1 by done. lia.
        + rewrite Hi_sib. apply Hq3.
      - rewrite Hother2 in Hm' by done. by apply Hnodes1. }
    assert (Hbd2 : bounded lvl1 L (tree w2)).
    { intros j. rewrite Hlen2, <- Hlen1. apply Hbd1. }
    unfold bind at 1. unfold node_at at 1. rewrite Hp2.
    assert (Hfr2 : forall j m, j <> x -> (lvl j <= lvl x)%nat ->
              nodes (tree w) !! j = Some m ->
              exists m', nodes (tree w2) !! j = Some m' /\ j <> p
                /\ values m' = values m /\ ptrs m' = ptrs m /\ is_leaf m' = is_leaf m).
    { intros j m Hj Hlv Hm.
      destruct (Hold j m Hm) as (m' & Hm' & Hl' & Hv' & Hp' & _).
      rewrite decide_False in Hv' by done. rewrite decide_False in Hp' by done.
      assert (j <> p) by (intros ->; lia).
      exists m'. by rewrite Hother2. }
    destruct (Z.of_nat (length (values pn2)) =? bf) eqn:Hfull.
    + destruct (IH lvl1 L w2 p pn2 Hwf2 Hbd2 Hp2) as
        (w' & lvl' & Hrun' & Hwf' & Hbd' & Hlvl' & Hlvl'_len & Hlen' & Hb' & Hout'
         & Hroot' & Hframe' & _ & _ & Hcons' & _).
      { intros Hnil. specialize (Hi_v npv). rewrite Hnil in Hi_v.
        eapply not_elem_of_nil, Hi_v. by left. }
      { rewrite Hlvl1 by done. lia. }
      rewrite Hlen2 in Hlvl', Hlvl'_len, Hlen'.
      exists w', lvl'. split; [done |]. split; [done |]. split; [done |].
      split; [intros j Hj; rewrite Hlvl' by lia; by apply Hlvl1 |].
      split; [rewrite Hlvl' by lia; done |].
      split; [lia |]. split; [simpl in Hb'; by rewrite Hb' |].
      split; [simpl in Hout'; by rewrite Hout' |].
      split; [intros (r & Hr & Hrlt); apply Hroot'; exists r; rewrite Hlen2;
              fold len in Hrlt; split; [simpl; by rewrite Hroot1 | lia] |].
      assert (Hkeep : forall j m1, j <> p -> (lvl1 j <= lvl x)%nat ->
                nodes (tree w2) !! j = Some m1 ->
                exists m', nodes (tree w') !! j = Some m' /\ values m' = values m1
                  /\ ptrs m' = ptrs m1 /\ is_leaf m' = is_leaf m1).
      { intros j m1 Hj Hlv Hm1. apply Hframe'; [done | | done].
        rewrite (Hlvl1 p) by done. lia. }
      assert (Hx' : exists l, nodes (tree w') !! x = Some l /\ values l = values x1
                /\ ptrs l = ptrs x1 /\ is_leaf l = is_leaf x1).
      { apply Hkeep; [done | by rewrite Hlvl1 | by rewrite Hother2]. }
      assert (Hr' : exists r, nodes (tree w') !! len = Some r
                /\ values r = values (right_half bf x n)
                /\ ptrs r = ptrs (right_half bf x n)
                /\ is_leaf r = is_leaf (right_half bf x n)).
      { apply Hkeep; [lia | by rewrite Hlvl1_len | rewrite Hother2 by lia; done]. }
      assert (Hnpv' : exists j m, nodes (tree w') !! j = Some m /\ npv ∈ values m
                /\ (lvl x < lvl' j)%nat).
      { destruct (Hcons' npv) as (j & m & Hm & Hin & Hlv); [apply Hi_v; by left |].
        exists j, m. rewrite Hlvl1 in Hlv by done. repeat split; [done | done | lia]. }
      split; [| split; [| split; [| split]]].
      * intros j m Hj Hlv Hm.
        destruct (Hfr2 j m Hj Hlv Hm) as (m1 & Hm1 & Hjp & Hv1 & Hp1 & Hl1).
        destruct (Hkeep j m1 Hjp) as (m' & Hm' & Hv' & Hp' & Hl'); [| done |].
        { rewrite Hlvl1; [done | by eapply lookup_lt_Some]. }
        exists m'. repeat split; congruence.
      * destruct Hx' as (l & Hl & Hlv & Hlp & Hll). exists l.
        repeat split; congruence.
      * destruct Hr' as (r & Hr & Hrv & Hrp & Hrl). exists r.
        repeat split; try done. rewrite Hrl. unfold right_half. by destruct (is_leaf n).
      * intros k [Hk|[->|Hk]]%Hkeys.
        -- destruct Hx' as (l & Hl & Hlv & _). exists x, l.
           rewrite Hlv, Hlvl' by lia. rewrite Hlvl1 by done. done.
        -- destruct Hnpv' as (j & m & ? & ? & ?). exists j, m. repeat split; [done | done | lia].
        -- destruct Hr' as (r & Hr & Hrv & _). exists len, r.
           rewrite Hrv, Hlvl' by lia. rewrite Hlvl1_len. done.
      * intros npv' Hnpv'eq. assert (npv' = npv) as -> by congruence. done.
    + exists w2, lvl1. split; [done |]. split; [done |].
      split; [intros j Hj; specialize (Hbd2 j Hj); lia |].
      split; [done |]. split; [done |]. split; [lia |].
      split; [done |]. split; [done |].
      split; [intros (r & Hr & Hrlt); exists r; rewrite Hlen2;
              fold len in Hrlt; split; [simpl; by rewrite Hroot1 | lia] |].
      split; [| split; [| split; [| split]]].
      * intros j m Hj Hlv Hm.
        destruct (Hfr2 j m Hj Hlv Hm) as (m1 & Hm1 & _ & ? & ? & ?). by exists m1.
      * exists x1. by rewrite Hother2.
      * exists (right_half bf x n). rewrite Hother2 by lia.
        repeat split; try done. unfold right_half. by destruct (is_leaf n).
      * intros k [Hk|[->|Hk]]%Hkeys.
        -- exists x, x1. rewrite Hother2, Hlvl1 by done. done.
        -- exists p, pn2. rewrite Hlvl1 by done.
           repeat split; [done | apply Hi_v; by left | lia].
        -- exists len, (right_half bf x n). rewrite Hother2, Hlvl1_len by lia. done.
      * intros npv' Hnpv'eq. assert (npv' = npv) as -> by congruence.
        exists p, pn2. rewrite Hlvl1 by done.
        repeat split; [done | apply Hi_v; by left | lia].
  - set (rh := right_half bf x n) in *.
    set (newroot := mkNode bf [npv] [x; len] None None None false).
    set (ns' := <[len := set_parent (Some (S len)) rh]>
                  (<[x := set_parent (Some (S len)) x1]> (nodes (tree w1) ++ [newroot]))).
    set (lvl' := with_level lvl1 (S len) (S (lvl x))).
    exists (mkWorld (mkBtree bf ns' (Some (S len))) (stdout w1) (defaults w1)), lvl'.
    assert (Hlvl' : forall i, (i < S len)%nat -> lvl' i = lvl1 i).
    { intros i Hi. unfold lvl', with_level. case_decide; [lia | done]. }
    assert (Hlvl'_root : lvl' (S len) = S (lvl x)).
    { unfold lvl', with_level. by rewrite decide_True. }
    assert (Hlen' : length ns' = S (S len)).
    { unfold ns'. rewrite !length_insert, length_app, Hlen1. simpl. lia. }
    assert (Hx' : ns' !! x = Some (set_parent (Some (S len)) x1)).
    { unfold ns'. rewrite list_lookup_insert_ne by lia.
      apply list_lookup_insert_eq. rewrite length_app, Hlen1. simpl. lia. }
    assert (Hr' : ns' !! len = Some (set_parent (Some (S len)) rh)).
    { unfold ns'. apply list_lookup_insert_eq.
      rewrite length_insert, length_app, Hlen1. simpl. lia. }
    assert (Hroot' : ns' !! S len = Some newroot).
    { unfold ns'. rewrite !list_lookup_insert_ne by lia.
      rewrite <- Hlen1. by apply list_lookup_middle. }
    assert (Hother' : forall j, j <> x -> (j < len)%nat -> ns' !! j = nodes (tree w1) !! j).
    { intros j Hj Hjlt. unfold ns'. rewrite !list_lookup_insert_ne by lia.
      apply lookup_app_l. lia. }
    split.
    { unfold bind at 1. unfold nodes_len at 1. rewrite Hlen1.
      unfold bind at 1. unfold append_node at 1.
      unfold bind at 1. unfold nodes_len at 1. simpl.
      rewrite length_app, Hlen1. simpl.
      replace (len + 1 - 0)%nat with (S len) by lia.
      replace (len + 1 - 1)%nat with len by lia.
      replace (len - 0)%nat with len by lia.
      unfold bind at 1. unfold set_root at 1. simpl.
      unfold bind. unfold update_node at 1. simpl.
      rewrite lookup_app_l by lia. rewrite Hx1.
      unfold update_node. simpl.
      rewrite list_lookup_insert_ne by lia. rewrite lookup_app_l by lia. rewrite Hright.
      unfold with_nodes. simpl. by rewrite Hb1. }
    simpl.
    split.
    { apply wf_nodes. simpl. rewrite Hlen'. intros j m' Hm'.
      destruct (decide (j = x)) as [->|Hjx]; [| destruct (decide (j < len)%nat) as [Hj|Hj]].
      - assert (m' = set_parent (Some (S len)) x1) as -> by congruence.
        destruct (Hnodes1 x x1 Hx1) as (_ & Hq2 & Hq3).
        split; [| split]; simpl.
        + intros p [= <-]. rewrite Hlvl'_root, Hlvl', Hlvl1 by lia. lia.
        + intros Hleaf c Hc. destruct (Hq2 Hleaf c Hc). rewrite !Hlvl' by lia. lia.
        + intros s Hs. specialize (Hq3 s Hs). lia.
      - rewrite Hother' in Hm' by done.
        eapply node_wf_mono; [by apply Hnodes1 | lia | lia | done].
      - assert (Hj' : (j < S (S len))%nat) by (rewrite <- Hlen'; by eapply lookup_lt_Some).
        destruct (decide (j = len)) as [->|Hjl].
        + assert (m' = set_parent (Some (S len)) rh) as -> by congruence.
          destruct (Hnodes1 len rh Hright) as (_ & Hq2 & Hq3).
          split; [| split]; simpl.
          * intros p [= <-]. rewrite Hlvl'_root, Hlvl', Hlvl1_len by lia. lia.
          * intros Hleaf c Hc. destruct (Hq2 Hleaf c Hc). rewrite !Hlvl' by lia. lia.
          * intros s Hs. specialize (Hq3 s Hs). lia.
        + assert (j = S len) as -> by lia.
          assert (m' = newroot) as -> by congruence.
          split; [| split]; simpl; [done | | done].
          intros _ c Hc. rewrite Hlvl'_root.
          apply elem_of_cons in Hc as [->|Hc].
          { rewrite Hlvl', Hlvl1 by lia. lia. }
          apply list_elem_of_singleton in Hc as ->.
          rewrite Hlvl', Hlvl1_len by lia. lia. }
    split.
    { intros j. simpl. rewrite Hlen'. intros Hj.
      destruct (decide (j = S len)) as [->|].
      - rewrite Hlvl'_root. specialize (Hb x Hxlt). lia.
      - rewrite Hlvl' by lia. etransitivity; [apply Hbd1; lia | lia]. }
    split; [intros j Hj; rewrite Hlvl' by lia; by apply Hlvl1 |].
    split; [by rewrite Hlvl' by lia |].
    split; [rewrite Hlen'; lia |]. split; [done |]. split; [done |].
    split; [intros _; exists (S len); simpl; rewrite Hlen'; split; [done | lia] |].
    split; [| split; [| split; [| split]]].
    + intros j m Hj Hlv Hm.
      destruct (Hold j m Hm) as (m' & Hm' & Hl' & Hv' & Hp' & _).
      rewrite decide_False in Hv' by done. rewrite decide_False in Hp' by done.
      exists m'. rewrite Hother'; [done | done | by eapply lookup_lt_Some].
    + eexists. split; [exact Hx' |]. done.
    + eexists. split; [exact Hr' |]. simpl. repeat split; try done.
      unfold rh, right_half. by destruct (is_leaf n).
    + intros k [Hk|[->|Hk]]%Hkeys.
      * eexists x, _. split; [exact Hx' |]. rewrite Hlvl', Hlvl1 by lia. done.
      * exists (S len), newroot. rewrite Hlvl'_root.
        repeat split; [done | by left | lia].
      * eexists len, _. split; [exact Hr' |]. rewrite Hlvl', Hlvl1_len by lia. done.
    + intros npv' Hnpv'eq. assert (npv' = npv) as -> by congruence.
      exists (S len), newroot. rewrite Hlvl'_root.
      repeat split; [done | by left | lia].
Qed.

Lemma well_formed_wf lv t : well_formed lv t = true -> wf (level lv) t.
Proof.
  unfold well_formed. intros H. apply wf_nodes. intros j n Hn.
  rewrite forallb_forall in H.
  assert (Hok : node_ok lv (length (nodes t)) j n = true).
  { apply H. apply list_elem_of_In, list_elem_of_lookup. exists j.
    by rewrite list_lookup_imap, Hn. }
  unfold node_ok in Hok. apply andb_prop in Hok as [Hok Hs].
  apply andb_prop in Hok as [Hp Hc].
  split; [| split].
  - intros p Hpar. rewrite Hpar in Hp. apply andb_prop in Hp as [?%Nat.ltb_lt ?%Nat.ltb_lt]. done.
  - intros Hleaf c Hin. rewrite Hleaf in Hc. simpl in Hc.
    rewrite forallb_forall in Hc. specialize (Hc c (proj1 (list_elem_of_In _ _) Hin)).
    apply andb_prop in Hc as [?%Nat.ltb_lt ?%Nat.ltb_lt]. done.
  - intros s Hsib. rewrite Hsib in Hs. by apply Nat.ltb_lt.
Qed.

Lemma level_bounded lv t : bounded (level lv) (max_list lv) t.
Proof.
  intros j _. unfold level. destruct (lv !! j) as [v|] eqn:Hv; simpl; [| lia].
  apply max_list_elem_of_le, list_elem_of_lookup. eauto.
Qed.

Lemma half_of_nat (k : nat) (bf : Z) :
  Z.of_nat k = bf -> Z.to_nat (bf / 2) = (k / 2)%nat.
Proof.
  intros <-. change 2 with (Z.of_nat 2). rewrite <- Nat2Z.inj_div. apply Nat2Z.id.
Qed.

Lemma left_cut_full (k : nat) (bf : Z) :
  Z.of_nat k = bf -> left_cut bf (S k) = S (k / 2).
Proof.
  intros <-. unfold left_cut.
  pose proof (Nat.div_mod_eq k 2). pose proof (Nat.div_mod_eq (S k) 2).
  pose proof (Nat.mod_upper_bound k 2). pose proof (Nat.mod_upper_bound (S k) 2).
  pose proof (Z.div_mod (Z.of_nat k) 2). pose proof (Z.mod_pos_bound (Z.of_nat k) 2).
  destruct (Z.eqb_spec (Z.of_nat k mod 2) 1); lia.
Qed.

(** C3: for b >= 2 of either parity, [split] called on an internal node
    with b keys and b + 1 children, in a well-formed arena and with fuel for
    the levels above the node, returns; the node and the new node appended
    to the arena are internal and each has one child more than it has keys;
    the key at position b // 2 of the node is in neither of them (the keys
    of the node are those of the left one, that key, those of the right
    one, and its children those of the left one followed by those of the
    right one) and is found in a third node. *)
Theorem split_internal_halves (fuel : nat) (lv : list nat) (w : World) (x : nat) (n : Node) :
  2 <= b (tree w) ->
  well_formed lv (tree w) = true ->
  (max_list lv < fuel + level lv x)%nat ->
  nodes (tree w) !! x = Some n ->
  is_leaf n = false ->
  Z.of_nat (length (values n)) = b (tree w) ->
  length (ptrs n) = S (length (values n)) ->
  exists w' l r promoted,
    split fuel x w = Ok tt w'
    /\ nodes (tree w') !! x = Some l
    /\ nodes (tree w') !! length (nodes (tree w)) = Some r
    /\ is_leaf l = false /\ is_leaf r = false
    /\ length (ptrs l) = S (length (values l))
    /\ length (ptrs r) = S (length (values r))
    /\ values n !! Z.to_nat (b (tree w) / 2) = Some promoted
    /\ values n = values l ++ promoted :: values r
    /\ ptrs n = ptrs l ++ ptrs r
    /\ exists q qn, q <> x /\ q <> length (nodes (tree w))
         /\ nodes (tree w') !! q = Some qn /\ promoted ∈ values qn.
Proof.
  intros Hb Hwf Hfuel Hx Hleaf Hkeys Hkids.
  assert (Hne : values n <> []).
  { intros Hnil. rewrite Hnil in Hkeys. simpl in Hkeys. lia. }
  destruct (split_spec fuel (level lv) (max_list lv) w x n
              (well_formed_wf _ _ Hwf) (level_bounded _ _) Hx Hne Hfuel)
    as (w' & lvl' & Hrun & _ & _ & Hlvl' & Hlvl'_len & _ & _ & _ & _ & _
        & (l & Hl & Hlv & Hlp & Hll) & (r & Hr & Hrv & Hrp & Hrl) & _ & Hprom).
  destruct (middle_value_Some n Hne) as [promoted Hmid].
  destruct (Hprom promoted Hmid) as (q & qn & Hq & Hin & Hlvq).
  unfold right_half in Hrv, Hrp. rewrite Hleaf in Hrv, Hrp. simpl in Hrv, Hrp.
  rewrite Hkids, (left_cut_full _ _ Hkeys) in Hlp, Hrp.
  assert (Hmidlt : (length (values n) / 2 < length (values n))%nat).
  { by eapply lookup_lt_Some. }
  exists w', l, r, promoted. split; [done |]. split; [done |]. split; [done |].
  split; [congruence |]. split; [congruence |].
  split; [rewrite Hlv, Hlp, !length_take; lia |].
  split; [rewrite Hrv, Hrp, !length_drop; lia |].
  split; [by rewrite (half_of_nat _ _ Hkeys) |].
  split; [rewrite Hlv, Hrv, Nat.add_1_r; symmetry; by apply take_drop_middle |].
  split; [rewrite Hlp, Hrp; symmetry; apply take_drop |].
  exists q, qn. repeat split; try done.
  - intros ->. rewrite Hlvl' in Hlvq; [lia | by eapply lookup_lt_Some].
  - intros ->. lia.
Qed.

(** ** Fuel only decides whether an outcome is reached *)

Lemma bind_more_fuel {A B} (m : M A) (k k' : A -> M B) w :
  (forall a w1, m w = Ok a w1 -> k a w1 <> Diverge -> k' a w1 = k a w1) ->
  bind m k w <> Diverge -> bind m k' w = bind m k w.
Proof. unfold bind. destruct (m w); eauto. Qed.

Lemma fuel_monotone_bind {A B} (f : nat -> M A) (k : nat -> A -> M B) :
  fuel_monotone f -> (forall a, fuel_monotone (fun n => k n a)) ->
  fuel_monotone (fun n => bind (f n) (k n)).
Proof.
  intros Hf Hk n n' w Hle Hd. unfold bind in *.
  rewrite (Hf n n' w Hle) by (intros E; by rewrite E in Hd).
  destruct (f n w); [| done | done]. by apply Hk.
Qed.

Lemma fuel_monotone_const {A} (m : M A) : fuel_monotone (fun _ => m).
Proof. by intros n n' w _ _. Qed.

Lemma search_loop_more_fuel value :
  forall n n' idx node ops w, (n <= n')%nat ->
    search_loop n value idx node ops w <> Diverge ->
    search_loop n' value idx node ops w = search_loop n value idx node ops w.
Proof.
  induction n as [|n IH]; intros n' idx node ops w Hle;
    (destruct n' as [|n']; [try lia |]); simpl;
    destruct (is_leaf node); try done.
  apply bind_more_fuel. intros [idx' ops1] w1 _.
  apply bind_more_fuel. intros node' w2 _. apply IH. lia.
Qed.

Lemma search_more_fuel value : fuel_monotone (fun n => _search n value).
Proof.
  intros n n' w Hle. unfold _search. apply bind_more_fuel.
  intros [idx node] w1 _. by apply search_loop_more_fuel.
Qed.

Lemma split_more_fuel : forall n n' x w, (n <= n')%nat ->
  split n x w <> Diverge -> split n' x w = split n x w.
Proof.
  induction n as [|n IH]; intros n' x w Hle; [done |].
  destruct n' as [|n']; [lia |]. simpl.
  apply bind_more_fuel. intros npv w1 _.
  apply bind_more_fuel. intros bf w2 _.
  apply bind_more_fuel. intros node w3 _.
  destruct (parent node) as [p|]; [| done].
  apply bind_more_fuel. intros len w4 _.
  apply bind_more_fuel. intros [] w5 _.
  apply bind_more_fuel. intros pnode w6 _.
  destruct (_ =? _); [| done]. apply IH. lia.
Qed.

Lemma walk_siblings_more_fuel side :
  forall n n' node results w, (n <= n')%nat ->
    walk_siblings n side node results w <> Diverge ->
    walk_siblings n' side node results w = walk_siblings n side node results w.
Proof.
  induction n as [|n IH]; intros n' node results w Hle;
    (destruct n' as [|n']; [try lia |]); simpl;
    destruct (side node); try done.
  apply bind_more_fuel. intros node' w1 _. apply IH. lia.
Qed.

Lemma insert_more_fuel value ptr : fuel_monotone (fun n => insert n value ptr).
Proof.
  unfold insert.
  apply fuel_monotone_bind; [apply fuel_monotone_const |]. intros bf.
  apply fuel_monotone_bind; [apply fuel_monotone_const |]. intros r.
  apply fuel_monotone_bind; [apply fuel_monotone_const |]. intros [].
  apply fuel_monotone_bind; [apply search_more_fuel |]. intros [index ops]. simpl.
  apply fuel_monotone_bind; [apply fuel_monotone_const |]. intros [].
  apply fuel_monotone_bind; [apply fuel_monotone_const |]. intros node.
  destruct (_ =? _); [| apply fuel_monotone_const].
  intros n n' w. apply split_more_fuel.
Qed.

Lemma inserts_more_fuel script : fuel_monotone (fun n => inserts n script).
Proof.
  induction script as [|[value ptr] script IH]; simpl; [apply fuel_monotone_const |].
  apply fuel_monotone_bind; [apply insert_more_fuel | done].
Qed.

Lemma built_more_fuel n n' bf script t :
  (n <= n')%nat -> built n bf script = Some t -> built n' bf script = Some t.
Proof.
  unfold built. intros Hle H.
  rewrite (inserts_more_fuel script n n' _ Hle); [done |].
  intros E. by rewrite E in H.
Qed.

Lemma find_more_fuel operator value : fuel_monotone (fun n => find n operator value).
Proof.
  unfold find.
  apply fuel_monotone_bind; [apply search_more_fuel |]. intros [leaf_idx ops].
  apply fuel_monotone_bind; [apply fuel_monotone_const |]. intros target_node.
  assert (Hbranch : forall test side results ops,
            fuel_monotone (fun n => range_branch n test side target_node results ops)).
  { intros test side results ops'. unfold range_branch.
    apply fuel_monotone_bind; [apply fuel_monotone_const |]. intros [results' ops''].
    apply fuel_monotone_bind; [| intros ?; apply fuel_monotone_const].
    intros n n' w. apply walk_siblings_more_fuel. }
  repeat (apply fuel_monotone_bind;
          [destruct (String.eqb operator _); [apply Hbranch | apply fuel_monotone_const]
          | intros [? ?]]).
  apply fuel_monotone_const.
Qed.

(** ** Trees built by insertions *)


Lemma insert_child_wf lvl (w1 : World) p pm1 v c :
  wf lvl (tree w1) ->
  nodes (tree w1) !! p = Some pm1 ->
  (c < length (nodes (tree w1)))%nat -> (lvl c < lvl p)%nat ->
  wf lvl (tree (with_nodes (fun ns => <[p := Node_insert v c None pm1]> ns) w1)).
Proof.
  intros Hwf Hpm1 Hc Hlv. apply wf_nodes. simpl. rewrite length_insert.
  pose proof (proj1 (wf_nodes _ _) Hwf) as Hnodes.
  destruct (Node_insert_spec v c pm1) as (Hi_l & Hi_par & Hi_sib & _ & Hi_p).
  intros j m' Hm'. destruct (decide (j = p)) as [->|Hj].
  - rewrite list_lookup_insert_eq in Hm' by (by eapply lookup_lt_Some).
    injection Hm' as <-.
    destruct (Hnodes p pm1 Hpm1) as (Hq1 & Hq2 & Hq3).
    split; [| split].
    + rewrite Hi_par. apply Hq1.
    + rewrite Hi_l. intros Hleaf c' [->|Hc']%Hi_p; [done | by apply Hq2].
    + rewrite Hi_sib. apply Hq3.
  - rewrite list_lookup_insert_ne in Hm' by done. by apply Hnodes.
Qed.

(** A search that returns found the root in the arena. *)
Lemma search_root_set fuel value w r w' :
  _search fuel value w = Ok r w' -> root_set (tree w).
Proof.
  unfold _search, root_node, get_root. intros H.
  apply bind_Ok in H as ([idx node] & w1 & H1 & _).
  apply bind_Ok in H1 as (r0 & w2 & [= <- <-] & H1).
  destruct (root (tree w)) as [i|] eqn:Hroot; [| discriminate].
  apply bind_Ok in H1 as (n & w3 & H3 & _).
  unfold node_at in H3. destruct (nodes (tree w) !! i) eqn:Hi; [| discriminate].
  exists i. split; [done |]. by eapply lookup_lt_Some.
Qed.

Lemma root_set_pristine w : root_set (tree w) -> pristine w.
Proof. intros (r & Hr & _) Hnone. congruence. Qed.

Lemma root_pristine w : root (tree w) <> None -> pristine w.
Proof. by intros Hr Hnone. Qed.

Lemma pristine_default_leaf bf w :
  pristine w -> root (tree w) = None ->
  default_leaf bf w = mkNode bf [] [] None None None true.
Proof.
  intros Hp Hroot. unfold default_leaf, default_values, default_ptrs.
  by rewrite (Hp Hroot).
Qed.

Section Node_invariant.
Variable bf : Z.
Variable P : Node -> Prop.
Hypothesis P_ext : forall n n',
  values n' = values n -> ptrs n' = ptrs n -> is_leaf n' = is_leaf n -> P n -> P n'.
Hypothesis P_insert : forall v p n, P n -> P (Node_insert v p None n).
Hypothesis P_split : forall x n,
  P n -> Z.of_nat (length (values n)) = bf -> values n <> [] ->
  P (left_half bf n) /\ P (right_half bf x n).
Hypothesis P_root : forall v x y, P (mkNode bf [v] [x; y] None None None false).
Hypothesis P_leaf : P (mkNode bf [] [] None None None true).


Lemma all_nodes_lookup t j m : all_nodes P t -> nodes t !! j = Some m -> P m.
Proof. intros H. by apply Forall_lookup. Qed.

Lemma split_keeps : forall fuel lvl L w x n w',
  wf lvl (tree w) -> bounded lvl L (tree w) ->
  b (tree w) = bf -> all_nodes P (tree w) ->
  nodes (tree w) !! x = Some n ->
  Z.of_nat (length (values n)) = bf -> values n <> [] ->
  split fuel x w = Ok tt w' ->
  all_nodes P (tree w').
Proof.
  induction fuel as [|fuel IH]; intros lvl L w x n w' Hwf Hbd Hbf Hall Hx Hfull Hne; [done |].
  simpl. intros H.
  destruct (split_halves_wf lvl L w x n Hwf Hbd Hx Hne)
    as (npv & w1 & Hnpv & Hrun & Hb1 & _ & _ & Hlen1 & Hwf1 & Hbd1 & Hright & Hold).
  rewrite Hbf in Hb1, Hright, Hold.
  set (len := length (nodes (tree w))) in *.
  assert (Hxlt : (x < len)%nat) by (by eapply lookup_lt_Some).
  destruct (P_split x n (all_nodes_lookup (tree w) x n Hall Hx) Hfull Hne) as [Pl Pr].
  assert (Hall1 : all_nodes P (tree w1)).
  { apply Forall_lookup. intros j m' Hm'. destruct (decide (j < len)%nat) as [Hj|Hj].
    - destruct (lookup_lt_is_Some_2 (nodes (tree w)) j Hj) as [m Hm].
      destruct (Hold j m Hm) as (m'' & Hm'' & Hl & Hv & Hp & _).
      assert (m'' = m') as -> by congruence.
      destruct (decide (j = x)) as [->|].
      + assert (m = n) as -> by congruence. by apply (P_ext (left_half bf n)).
      + by apply (P_ext m), (all_nodes_lookup (tree w) j).
    - apply lookup_lt_Some in Hm' as Hj'. rewrite Hlen1 in Hj'.
      assert (j = len) as -> by lia. congruence. }
  apply bind_Ok in H as (npv' & w1' & Hrun' & H).
  rewrite Hrun in Hrun'. injection Hrun' as <- <-.
  apply bind_Ok in H as (bf' & ? & [= <- <-] & H).
  apply bind_Ok in H as (x1 & ? & Hx1 & H). unfold node_at in Hx1.
  destruct (nodes (tree w1) !! x) as [x1'|] eqn:Hx1'; [| discriminate].
  injection Hx1 as <- <-.
  destruct (Hold x n Hx) as (x1 & Hx1 & _ & _ & _ & Hpar). specialize (Hpar eq_refl).
  assert (x1' = x1) as -> by congruence. rewrite Hpar in H.
  destruct (parent n) as [p|] eqn:Hparent.
  - destruct (proj1 (wf_nodes _ _) Hwf x n Hx) as (Hxp & _ & _).
    destruct (Hxp p Hparent) as [Hplt Hplvl]. fold len in Hplt.
    apply bind_Ok in H as (len' & ? & [= <- <-] & H). rewrite Hlen1 in H.
    replace (S len - 1)%nat with len in H by lia.
    apply bind_Ok in H as ([] & w2 & Hu & H). unfold update_node in Hu.
    destruct (nodes (tree w1) !! p) as [pm1|] eqn:Hpm1; [| discriminate].
    injection Hu as <-.
    set (w2 := with_nodes _ w1) in *.
    assert (Hlvl1 : forall i, (i < len)%nat -> with_level lvl len (lvl x) i = lvl i).
    { intros i Hi. unfold with_level. case_decide; [lia | done]. }
    assert (Hwf2 : wf (with_level lvl len (lvl x)) (tree w2)).
    { apply insert_child_wf; [done | done | rewrite Hlen1; lia |].
      rewrite (Hlvl1 p) by done. unfold with_level. by rewrite decide_True. }
    assert (Hbd2 : bounded (with_level lvl len (lvl x)) L (tree w2)).
    { intros j. simpl. rewrite length_insert. apply Hbd1. }
    assert (Hp2 : nodes (tree w2) !! p = Some (Node_insert npv len None pm1)).
    { simpl. apply list_lookup_insert_eq. by eapply lookup_lt_Some. }
    assert (Hall2 : all_nodes P (tree w2)).
    { apply Forall_insert; [done |]. apply P_insert. by apply (all_nodes_lookup (tree w1) p). }
    apply bind_Ok in H as (pnode & ? & Hpn & H). unfold node_at in Hpn.
    rewrite Hp2 in Hpn. injection Hpn as <- <-.
    destruct (Z.eqb_spec (Z.of_nat (length (values (Node_insert npv len None pm1)))) (b (tree w1)))
      as [Hfull2|_]; [| by injection H as <-].
    eapply (IH _ L w2 p); [exact Hwf2 | exact Hbd2 | done | exact Hall2 | exact Hp2
                         | by rewrite Hfull2 | | exact H].
    intros Hnil. destruct (Node_insert_spec npv len pm1) as (_ & _ & _ & Hi_v & _).
    specialize (Hi_v npv). rewrite Hnil in Hi_v. eapply not_elem_of_nil, Hi_v. by left.
  - apply bind_Ok in H as (len' & ? & [= <- <-] & H). rewrite Hlen1 in H.
    apply bind_Ok in H as ([] & w2 & [= <-] & H).
    apply bind_Ok in H as (len'' & ? & [= <- <-] & H).
    apply bind_Ok in H as ([] & w3 & [= <-] & H).
    apply bind_Ok in H as ([] & w4 & Hu4 & H).
    unfold update_node in Hu4, H.
    destruct (nodes (tree _) !! x) as [xa|] eqn:Hxa in Hu4; [| discriminate].
    injection Hu4 as <-.
    destruct (nodes (tree _) !! _) as [ra|] eqn:Hra in H; [| discriminate].
    injection H as <-.
    assert (Hnew : Forall P (nodes (tree w1) ++
              [mkNode (b (tree w1)) [npv] [x; (S len - 1)%nat] None None None false])).
    { apply Forall_app. split; [done |]. apply Forall_singleton. rewrite Hb1. apply P_root. }
    apply Forall_insert; [apply Forall_insert; [done |] |].
    + apply (P_ext xa); [done | done | done |]. eapply Forall_lookup_1; [exact Hnew | exact Hxa].
    + apply (P_ext ra); [done | done | done |].
      eapply Forall_lookup_1; [| exact Hra]. simpl.
      apply Forall_insert; [done |].
      apply (P_ext xa); [done | done | done |]. eapply Forall_lookup_1; [exact Hnew | exact Hxa].
Qed.


Lemma fresh_invariant : invariant bf P (fresh bf).
Proof.
  split; [done |]. split; [apply Forall_nil_2 |].
  exists (fun _ => 0%nat), 0%nat. split; [| by intros j].
  apply wf_nodes. by intros j n.
Qed.

Lemma insert_invariant fuel value ptr w w' :
  invariant bf P w -> pristine w -> insert fuel value ptr w = Ok tt w' ->
  invariant bf P w' /\ pristine w'.
Proof.
  intros (Hbf & Hall & lvl & L & Hwf & Hbd) Hpr. unfold insert. intros H.
  apply bind_Ok in H as (bf' & w0 & [= <- <-] & H).
  apply bind_Ok in H as (r & w0 & [= <- <-] & H).
  apply bind_Ok in H as ([] & w0 & H0 & H).
  (* the tree once it has a root *)
  assert (b (tree w0) = bf /\ all_nodes P (tree w0)
          /\ exists L0, wf lvl (tree w0) /\ bounded lvl L0 (tree w0))
    as (Hbf0 & Hall0 & L0 & Hwf0 & Hbd0).
  { destruct (root (tree w)) eqn:Hroot; [injection H0 as <-; eauto |].
    apply bind_Ok in H0 as ([] & w0' & [= <-] & [= <-]).
    rewrite (pristine_default_leaf _ _ Hpr Hroot).
    split; [done |]. split.
    { apply Forall_app. split; [done |]. apply Forall_singleton. rewrite Hbf. apply P_leaf. }
    exists (max L (lvl (length (nodes (tree w))))). split.
    - apply wf_nodes. simpl. rewrite length_app. simpl. intros j m Hm.
      destruct (decide (j < length (nodes (tree w)))%nat) as [Hj|Hj].
      + rewrite lookup_app_l in Hm by done.
        eapply node_wf_mono; [by apply wf_nodes | lia | done | done].
      + apply lookup_lt_Some in Hm as Hj'. rewrite length_app in Hj'. simpl in Hj'.
        assert (j = length (nodes (tree w))) as -> by lia.
        rewrite list_lookup_middle in Hm by done. injection Hm as <-.
        by repeat split.
    - intros j. simpl. rewrite length_app. simpl. intros Hj.
      destruct (decide (j < length (nodes (tree w)))%nat) as [Hj'|Hj'].
      + specialize (Hbd j Hj'). lia.
      + assert (j = length (nodes (tree w))) as -> by lia. lia. }
  assert (Hbfeq : b (tree w) = b (tree w0)) by congruence.
  rewrite Hbfeq in H. clear H0 Hwf Hbd Hall Hbf Hbfeq.
  apply bind_Ok in H as ([index ops] & w1 & Hs & H).
  pose proof (search_root_set _ _ _ _ _ Hs) as Hrs0.
  destruct (search_leaf _ _ _ _ _ _ Hs) as (-> & n & Hn & Hleaf). simpl in H.
  apply bind_Ok in H as ([] & w2 & Hu & H). unfold update_node in Hu.
  rewrite Hn in Hu. injection Hu as <-.
  set (n2 := Node_insert value ptr None n) in *.
  set (w2 := with_nodes _ w0) in *.
  destruct (Node_insert_spec value ptr n) as (Hi_l & Hi_par & Hi_sib & Hi_v & _).
  fold n2 in Hi_l, Hi_par, Hi_sib, Hi_v.
  assert (Hindex : (index < length (nodes (tree w0)))%nat) by (by eapply lookup_lt_Some).
  assert (Hn2 : nodes (tree w2) !! index = Some n2).
  { simpl. by apply list_lookup_insert_eq. }
  assert (Hwf2 : wf lvl (tree w2)).
  { apply wf_nodes. simpl. rewrite length_insert. intros j m Hm.
    destruct (decide (j = index)) as [->|Hj].
    - simpl in Hn2. assert (m = n2) as -> by congruence.
      destruct (proj1 (wf_nodes _ _) Hwf0 index n Hn) as (Hq1 & _ & Hq3).
      split; [| split].
      + by rewrite Hi_par.
      + rewrite Hi_l, Hleaf. done.
      + by rewrite Hi_sib.
    - rewrite list_lookup_insert_ne in Hm by done. by apply wf_nodes. }
  assert (Hbd2 : bounded lvl L0 (tree w2)).
  { intros j. simpl. rewrite length_insert. apply Hbd0. }
  assert (Hall2 : all_nodes P (tree w2)).
  { apply Forall_insert; [done |]. apply P_insert. by apply (all_nodes_lookup (tree w0) index). }
  assert (Hne2 : values n2 <> []).
  { intros Hnil. specialize (Hi_v value). rewrite Hnil in Hi_v.
    eapply not_elem_of_nil, Hi_v. by left. }
  apply bind_Ok in H as (node & w3 & Hnode & H). unfold node_at in Hnode.
  rewrite Hn2 in Hnode. injection Hnode as <- <-.
  destruct (Z.eqb_spec (Z.of_nat (length (values n2))) (b (tree w0))) as [Hfull|_].
  - destruct (split_spec (fuel + S L0) lvl L0 w2 index n2 Hwf2 Hbd2 Hn2 Hne2)
      as (w'' & lvl' & Hrun & Hwf' & Hbd' & _ & _ & _ & Hb' & _ & Hrs' & _); [lia |].
    rewrite (split_more_fuel fuel) in Hrun; [| lia | by rewrite H].
    assert (w'' = w') as -> by congruence.
    split; [| apply root_set_pristine, Hrs'; destruct Hrs0 as (r0 & ? & ?); exists r0;
              split; [done | unfold w2; simpl; by rewrite length_insert]].
    split; [by rewrite Hb' |]. split; [| eauto].
    eapply (split_keeps fuel lvl L0 w2 index n2); try done. by rewrite Hfull.
  - injection H as <-.
    split; [| apply root_set_pristine; destruct Hrs0 as (r0 & ? & ?); exists r0;
              split; [done | unfold w2; simpl; by rewrite length_insert]].
    split; [done |]. split; [done |]. eauto.
Qed.

Lemma inserts_invariant fuel script :
  forall w w', invariant bf P w -> pristine w -> inserts fuel script w = Ok tt w' ->
               invariant bf P w'.
Proof.
  induction script as [|[value ptr] script IH]; intros w w' Hinv Hpr; simpl.
  - by intros [= <-].
  - intros H. apply bind_Ok in H as ([] & w1 & H1 & H).
    destruct (insert_invariant _ _ _ _ _ Hinv Hpr H1) as [Hinv1 Hpr1].
    by eapply IH.
Qed.

Lemma fresh_pristine : pristine (fresh bf).
Proof. by intros _. Qed.

Lemma built_invariant fuel script t :
  built fuel bf script = Some t ->
  all_nodes P t /\ exists lvl L, wf lvl t /\ bounded lvl L t.
Proof.
  unfold built. intros H.
  destruct (inserts fuel script (fresh bf)) as [[] w'| |] eqn:Hrun; [| done | done].
  injection H as <-.
  destruct (inserts_invariant fuel script _ _ fresh_invariant fresh_pristine Hrun)
    as (_ & ? & ?). done.
Qed.
End Node_invariant.



Lemma first_greater_inserted value : forall vals k,
  match first_greater value vals k with
  | Some index => (k <= index)%nat /\ py_insert (index - k) value vals = inserted value vals
  | None => vals ++ [value] = inserted value vals
  end.
Proof.
  induction vals as [|e vals IH]; intros k; simpl; [done |].
  destruct (value <? e).
  - split; [done |]. by rewrite Nat.sub_diag.
  - specialize (IH (S k)). destruct (first_greater value vals (S k)) as [index|].
    + destruct IH as [Hle IH]. split; [lia |].
      replace (index - k)%nat with (S (index - S k)) by lia.
      unfold py_insert in *. simpl. by rewrite IH.
    + by rewrite IH.
Qed.

Lemma Node_insert_values value ptr n :
  values (Node_insert value ptr None n) = inserted value (values n).
Proof.
  unfold Node_insert. pose proof (first_greater_inserted value (values n) 0) as H.
  destruct (first_greater value (values n) 0) as [index|]; simpl; [| done].
  destruct H as [_ H]. by rewrite Nat.sub_0_r in H.
Qed.

Lemma Node_insert_lengths value ptr n :
  length (values (Node_insert value ptr None n)) = S (length (values n))
  /\ length (ptrs (Node_insert value ptr None n)) = S (length (ptrs n)).
Proof.
  unfold Node_insert, py_insert.
  destruct (first_greater value (values n) 0) as [index|]; simpl;
    rewrite !length_app; simpl; rewrite ?length_take, ?length_drop; lia.
Qed.

Lemma elem_of_inserted value vals x : x ∈ inserted value vals -> x = value \/ x ∈ vals.
Proof.
  induction vals as [|e vals IH]; simpl.
  - intros ->%list_elem_of_singleton. by left.
  - destruct (value <? e).
    + intros [->|H]%elem_of_cons; [by left | by right].
    + intros [->|H]%elem_of_cons; [right; by left |].
      destruct (IH H); [by left | right; by right].
Qed.

Lemma inserted_sorted value vals :
  StronglySorted Z.le vals -> StronglySorted Z.le (inserted value vals).
Proof.
  induction vals as [|e vals IH]; simpl; intros Hs.
  - repeat constructor.
  - apply StronglySorted_inv in Hs as [Hs Hall].
    destruct (Z.ltb_spec value e).
    + constructor; [by constructor |]. constructor; [lia |].
      eapply Forall_impl; [exact Hall |]. simpl. intros. lia.
    + constructor; [by apply IH |]. apply Forall_forall. intros x Hx.
      apply elem_of_inserted in Hx as [->|Hx]; [done |].
      by eapply Forall_forall in Hall.
Qed.

Section Shape.
Variable bf : Z.

Lemma node_shape_ext n n' :
  values n' = values n -> ptrs n' = ptrs n -> is_leaf n' = is_leaf n ->
  node_shape bf n -> node_shape bf n'.
Proof. unfold node_shape. by intros -> -> ->. Qed.

Lemma node_shape_insert v p n : node_shape bf n -> node_shape bf (Node_insert v p None n).
Proof.
  intros (Hs & Hle & Hint & Hleaf).
  destruct (Node_insert_lengths v p n) as [Hv Hp].
  destruct (Node_insert_spec v p n) as (Hl & _).
  unfold node_shape. rewrite Node_insert_values at 1. rewrite Hv, Hp, Hl.
  split; [by apply inserted_sorted |]. split; [lia |].
  split; [intros H; rewrite Hint by done; done |].
  intros Ho H. by rewrite Hleaf.
Qed.

Lemma node_shape_root v x y : node_shape bf (mkNode bf [v] [x; y] None None None false).
Proof. unfold node_shape. simpl. repeat split; [repeat constructor | lia | done]. Qed.

Lemma node_shape_leaf : node_shape bf (mkNode bf [] [] None None None true).
Proof. unfold node_shape. simpl. repeat split; [constructor | lia | done]. Qed.

Lemma node_shape_split x n :
  node_shape bf n -> Z.of_nat (length (values n)) = bf -> values n <> [] ->
  node_shape bf (left_half bf n) /\ node_shape bf (right_half bf x n).
Proof.
  intros (Hs & Hle & Hint & Hleaf) Hfull Hne.
  assert (Hpos : (0 < length (values n))%nat).
  { destruct (values n); [done | simpl; lia]. }
  assert (Hs' : StronglySorted Z.le
                  (take (length (values n) / 2)%nat (values n)
                   ++ drop (length (values n) / 2)%nat (values n)))
    by (by rewrite take_drop).
  assert (Hright : forall k, StronglySorted Z.le (drop k (values n))).
  { intros k. eapply StronglySorted_app_1_r. by rewrite (take_drop k). }
  pose proof (Nat.div_mod_eq (length (values n)) 2).
  pose proof (Nat.div_mod_eq (length (ptrs n)) 2).
  pose proof (Nat.mod_upper_bound (length (values n)) 2).
  pose proof (Nat.mod_upper_bound (length (ptrs n)) 2).
  split.
  - unfold node_shape, left_half. simpl.
    split; [by eapply StronglySorted_app_1_l |].
    rewrite !length_take.
    destruct (is_leaf n) eqn:Hl.
    + unfold left_cut. destruct (Z.eqb_spec (bf mod 2) 1) as [Hodd|Heven].
      * rewrite Hleaf by done. repeat split; intros; lia.
      * repeat split; intros; try done; lia.
    + rewrite Hint by done. rewrite (left_cut_full _ _ Hfull).
      repeat split; intros; try done; lia.
  - unfold node_shape, right_half. destruct (is_leaf n) eqn:Hl; simpl.
    + split; [apply Hright |]. rewrite !length_drop.
      split; [lia |]. split; [done |].
      intros Hodd _. rewrite Hleaf by done. done.
    + split; [apply Hright |]. rewrite !length_drop.
      rewrite Hint by done. rewrite (left_cut_full _ _ Hfull).
      repeat split; intros; try done; lia.
Qed.
End Shape.

(** In every tree built by insertions the keys of every node are sorted,
    no node has fewer pointers than keys, every internal node has one child
    more than it has keys and, when the branching factor is odd, every
    leaf has as many pointers as keys. *)
Theorem built_node_shapes fuel bf script t j n :
  built fuel bf script = Some t -> nodes t !! j = Some n -> node_shape bf n.
Proof.
  intros Hb Hn.
  destruct (built_invariant bf (node_shape bf) (node_shape_ext bf) (node_shape_insert bf)
              (node_shape_split bf) (node_shape_root bf) (node_shape_leaf bf)
              fuel script t Hb) as [Hall _].
  by eapply Forall_lookup_1.
Qed.


Lemma first_greater_lt value : forall vals k index,
  first_greater value vals k = Some index -> (index < k + length vals)%nat.
Proof.
  induction vals as [|e vals IH]; intros k index; simpl; [done |].
  destruct (value <? e); [intros [= <-]; lia |].
  intros H%IH. lia.
Qed.

(** In an internal node with one child more than keys [Node.find] finds a
    child. *)
Lemma Node_find_child (n : Node) value :
  is_leaf n = false -> length (ptrs n) = S (length (values n)) ->
  exists c ops, Node_find n value = inr (c, ops) /\ c ∈ ptrs n.
Proof.
  intros Hleaf Hlen. unfold Node_find. rewrite Hleaf.
  destruct (first_greater value (values n) 0) as [index|] eqn:Hfg.
  - apply first_greater_lt in Hfg.
    destruct (lookup_lt_is_Some_2 (ptrs n) index) as [c Hc]; [lia |].
    rewrite Hc. exists c, (S index). split; [done |]. by eapply list_elem_of_lookup_2.
  - destruct (ptrs n) as [|c0 ps] eqn:Hp using rev_ind; [done |].
    rewrite last_snoc. eexists _, _. split; [done |].
    apply elem_of_app. right. by left.
Qed.

Lemma search_loop_total bf lvl value w :
  wf lvl (tree w) -> Forall (node_shape bf) (nodes (tree w)) ->
  forall fuel idx node ops,
    nodes (tree w) !! idx = Some node -> (lvl idx <= fuel)%nat ->
    exists leaf ops' n,
      search_loop fuel value idx node ops w = Ok (leaf, ops') w
      /\ nodes (tree w) !! leaf = Some n /\ is_leaf n = true.
Proof.
  intros Hwf Hshape. pose proof (proj1 (wf_nodes _ _) Hwf) as Hnodes.
  induction fuel as [|fuel IH]; intros idx node ops Hnode Hlvl.
  all: destruct (is_leaf node) eqn:Hleaf;
    [exists idx, ops, node; simpl; rewrite Hleaf; done |].
  all: destruct (Hnodes idx node Hnode) as (_ & Hc & _).
  all: destruct (Forall_lookup_1 _ _ _ _ Hshape Hnode) as (_ & _ & Hfan & _).
  all: destruct (Node_find_child node value Hleaf (Hfan Hleaf)) as (c & ops1 & Hfind & Hin).
  all: destruct (Hc Hleaf c Hin) as [Hclt Hclvl].
  - lia.
  - destruct (lookup_lt_is_Some_2 _ _ Hclt) as [node' Hnode'].
    destruct (IH c node' (ops + ops1)%nat Hnode') as (leaf & ops' & n & Hrun & Hn & Hl); [lia |].
    exists leaf, ops', n. simpl. rewrite Hleaf. unfold bind, lift. rewrite Hfind.
    unfold ret, node_at. rewrite Hnode'. done.
Qed.

Lemma search_total bf L fuel value w :
  sound bf L w -> root (tree w) <> None -> (L <= fuel)%nat ->
  exists leaf ops n,
    _search fuel value w = Ok (leaf, ops) w
    /\ nodes (tree w) !! leaf = Some n /\ is_leaf n = true.
Proof.
  intros (_ & Hshape & Hroot & lvl & Hwf & Hbd) Hsome Hfuel.
  destruct (root (tree w)) as [r|] eqn:Hr; [| done].
  specialize (Hroot r Hr).
  destruct (lookup_lt_is_Some_2 _ _ Hroot) as [node Hnode].
  destruct (search_loop_total bf lvl value w Hwf Hshape fuel r node 0%nat Hnode)
    as (leaf & ops & n & Hrun & Hn & Hl).
  { specialize (Hbd r Hroot). lia. }
  exists leaf, ops, n. unfold _search, root_node, bind, get_root. rewrite Hr.
  unfold node_at. rewrite Hnode. done.
Qed.

Lemma insert_total bf L fuel value ptr w :
  sound bf L w -> pristine w -> (L < fuel)%nat ->
  exists w', insert fuel value ptr w = Ok tt w'
             /\ sound bf (S L) w' /\ root (tree w') <> None.
Proof.
  intros Hsound Hpr Hfuel. unfold insert.
  unfold bind at 1. unfold get_b at 1. unfold bind at 1. unfold get_root at 1.
  (* the tree once it has a root *)
  assert (exists w0,
            (match root (tree w) with
             | Some _ => ret tt
             | None => (append_default_leaf (b (tree w));; set_root 0)%py
             end) w = Ok tt w0
            /\ sound bf L w0 /\ root (tree w0) <> None /\ b (tree w0) = b (tree w))
    as (w0 & Hrun0 & Hsound0 & Hroot0 & Hb0).
  { destruct Hsound as (Hbf & Hshape & Hrv & lvl & Hwf & Hbd).
    destruct (root (tree w)) as [r|] eqn:Hr.
    - exists w. repeat split; try done; [| by rewrite Hr]. by exists lvl.
    - eexists. split; [reflexivity |]. simpl.
      rewrite (pristine_default_leaf _ _ Hpr Hr).
      split; [| done]. split; [done |].
      split; [apply Forall_app; split; [done |]; apply Forall_singleton;
              rewrite Hbf; apply node_shape_leaf |].
      split; [intros r' [= <-]; simpl; rewrite length_app; simpl; lia |].
      exists (with_level lvl (length (nodes (tree w))) 0). split.
      + apply wf_nodes. simpl. rewrite length_app. simpl. intros j m Hm.
        destruct (decide (j < length (nodes (tree w)))%nat) as [Hj|Hj].
        * rewrite lookup_app_l in Hm by done.
          eapply node_wf_mono; [by apply wf_nodes | lia | done |].
          intros i Hi. unfold with_level. case_decide; [lia | done].
        * apply lookup_lt_Some in Hm as Hj'. rewrite length_app in Hj'. simpl in Hj'.
          assert (j = length (nodes (tree w))) as -> by lia.
          rewrite list_lookup_middle in Hm by done. injection Hm as <-.
          by repeat split.
      + intros j. simpl. rewrite length_app. simpl. intros Hj.
        unfold with_level. case_decide; [lia |]. apply Hbd. lia. }
  unfold bind at 1. rewrite Hrun0. rewrite <- Hb0. clear Hrun0 Hsound Hb0.
  destruct (search_total bf L fuel value w0 Hsound0 Hroot0) as (index & ops & n & Hs & Hn & Hleaf);
    [lia |].
  destruct Hsound0 as (Hbf & Hshape & Hrv & lvl & Hwf & Hbd).
  unfold bind at 1. rewrite Hs. simpl.
  unfold bind at 1. unfold update_node at 1. rewrite Hn.
  set (n2 := Node_insert value ptr None n).
  set (w2 := with_nodes _ w0).
  destruct (Node_insert_spec value ptr n) as (Hi_l & Hi_par & Hi_sib & Hi_v & _).
  fold n2 in Hi_l, Hi_par, Hi_sib, Hi_v.
  assert (Hindex : (index < length (nodes (tree w0)))%nat) by (by eapply lookup_lt_Some).
  assert (Hn2 : nodes (tree w2) !! index = Some n2).
  { simpl. by apply list_lookup_insert_eq. }
  assert (Hlen2 : length (nodes (tree w2)) = length (nodes (tree w0))).
  { simpl. apply length_insert. }
  assert (Hwf2 : wf lvl (tree w2)).
  { apply wf_nodes. rewrite Hlen2. intros j m Hm.
    destruct (decide (j = index)) as [->|Hj].
    - assert (m = n2) as -> by congruence.
      destruct (proj1 (wf_nodes _ _) Hwf index n Hn) as (Hq1 & _ & Hq3).
      split; [| split].
      + by rewrite Hi_par.
      + rewrite Hi_l, Hleaf. done.
      + by rewrite Hi_sib.
    - simpl in Hm. rewrite list_lookup_insert_ne in Hm by done. by apply wf_nodes. }
  assert (Hbd2 : bounded lvl L (tree w2)).
  { intros j. rewrite Hlen2. apply Hbd. }
  assert (Hshape2 : Forall (node_shape bf) (nodes (tree w2))).
  { apply Forall_insert; [done |]. apply node_shape_insert.
    by eapply Forall_lookup_1. }
  assert (Hrs2 : root_set (tree w2)).
  { destruct (root (tree w0)) as [r|] eqn:Hr; [| done].
    exists r. rewrite Hlen2. split; [done | by apply Hrv]. }
  assert (Hne2 : values n2 <> []).
  { intros Hnil. specialize (Hi_v value). rewrite Hnil in Hi_v.
    eapply not_elem_of_nil, Hi_v. by left. }
  unfold bind at 1. unfold node_at at 1. rewrite Hn2.
  destruct (Z.eqb_spec (Z.of_nat (length (values n2))) (b (tree w0))) as [Hfull|_].
  - destruct (split_spec fuel lvl L w2 index n2 Hwf2 Hbd2 Hn2 Hne2)
      as (w' & lvl' & Hrun & Hwf' & Hbd' & _ & _ & Hlen' & Hb' & _ & Hroot' & _); [lia |].
    destruct (Hroot' Hrs2) as (r' & Hr' & Hr'lt).
    exists w'. split; [done |]. split; [| by rewrite Hr'].
    split; [by rewrite Hb' |].
    split; [| split; [intros r Hr; rewrite Hr' in Hr; by injection Hr as <- | by exists lvl']].
    eapply (split_keeps bf (node_shape bf) (node_shape_ext bf) (node_shape_insert bf)
              (node_shape_split bf) (node_shape_root bf) fuel lvl L w2 index n2);
      try done. by rewrite Hfull.
  - exists w2. split; [done |]. split; [| done].
    split; [done |]. split; [done |].
    split; [intros r Hr; rewrite Hlen2; by apply Hrv |].
    exists lvl. split; [done |]. intros j Hj. specialize (Hbd2 j Hj). lia.
Qed.

Lemma inserts_total bf fuel script :
  forall L w,
    sound bf L w -> pristine w -> (L + length script <= fuel)%nat ->
    exists w', inserts fuel script w = Ok tt w'
               /\ sound bf (L + length script) w'
               /\ (script <> [] -> root (tree w') <> None).
Proof.
  induction script as [|[value ptr] script IH]; intros L w Hsound Hpr Hfuel; simpl in *.
  - exists w. rewrite Nat.add_0_r. done.
  - destruct (insert_total bf L fuel value ptr w Hsound Hpr)
      as (w1 & Hrun1 & Hsound1 & Hroot1); [lia |].
    destruct (IH (S L) w1 Hsound1 (root_pristine _ Hroot1)) as (w' & Hrun & Hsound' & Hroot');
      [lia |].
    exists w'. unfold bind. rewrite Hrun1.
    replace (L + S (length script))%nat with (S L + length script)%nat by lia.
    split; [done |]. split; [done |]. intros _.
    destruct script as [|e script]; [| by apply Hroot'].
    simpl in Hrun. by injection Hrun as <-.
Qed.

Lemma fresh_sound bf : sound bf 0 (fresh bf).
Proof.
  split; [done |]. split; [apply Forall_nil_2 |]. split; [by intros r |].
  exists (fun _ => 0%nat). split; [| by intros j].
  apply wf_nodes. by intros j n.
Qed.

(** Every script of insertions runs to its end, given fuel for as many
    levels as it has insertions: [insert] never raises, and the tree it
    leaves is sound. *)
Theorem built_total bf fuel script :
  (length script <= fuel)%nat ->
  exists w, inserts fuel script (fresh bf) = Ok tt w
            /\ built fuel bf script = Some (tree w)
            /\ sound bf (length script) w
            /\ (script <> [] -> root (tree w) <> None).
Proof.
  intros Hfuel.
  destruct (inserts_total bf fuel script 0%nat (fresh bf) (fresh_sound bf) (fresh_pristine bf))
    as (w & Hrun & Hsound & Hroot); [simpl; lia |].
  exists w. unfold built. rewrite Hrun. by rewrite Nat.add_0_l in Hsound.
Qed.

(** On every tree built by at least one insertion the search finds a leaf,
    so [find] with an operator it has no branch for returns the empty
    list, whatever the key. *)
Lemma find_no_branch_on_built bf fuel script operator value :
  script <> [] -> (length script <= fuel)%nat -> operator ∉ recognised ->
  exists w ops,
    inserts fuel script (fresh bf) = Ok tt w
    /\ find fuel operator value w
       = Ok [] (mkWorld (tree w) (stdout w ++ [OpsLine ops]) (defaults w)).
Proof.
  intros Hne Hfuel Hop.
  destruct (built_total bf fuel script Hfuel) as (w & Hrun & _ & Hsound & Hroot).
  destruct (search_total bf _ fuel value w Hsound (Hroot Hne) Hfuel)
    as (leaf & ops & n & Hs & _).
  exists w, ops. split; [done |]. by eapply find_no_branch.
Qed.

(** On every tree built by at least one insertion, [delete] of a pair
    that is not in the leaf found for its key prints and returns. *)
Lemma delete_absent_on_built bf fuel script value ptr :
  script <> [] -> (length script <= fuel)%nat ->
  exists w leaf ops n,
    inserts fuel script (fresh bf) = Ok tt w
    /\ _search fuel value w = Ok (leaf, ops) w
    /\ nodes (tree w) !! leaf = Some n
    /\ ((value, ptr) ∉ entries n ->
        delete fuel value ptr w
        = Ok tt (mkWorld (tree w)
                   (stdout w ++ [Text (if bool_decide (value ∈ values n)
                                       then "Value not in ptr"
                                       else "Value not in Tree")]) (defaults w))).
Proof.
  intros Hne Hfuel.
  destruct (built_total bf fuel script Hfuel) as (w & Hrun & _ & Hsound & Hroot).
  destruct (search_total bf _ fuel value w Hsound (Hroot Hne) Hfuel)
    as (leaf & ops & n & Hs & Hn & _).
  exists w, leaf, ops, n. repeat split; try done.
  intros Habs. eapply delete_absent; try done.
  destruct Hsound as (_ & Hshape & _).
  by destruct (Forall_lookup_1 _ _ _ _ Hshape Hn) as (_ & ? & _).
Qed.

(** The levels of a well-formed arena pass the slot-by-slot check. *)
Lemma wf_well_formed lvl t :
  wf lvl t -> well_formed (lvl <$> seq 0 (length (nodes t))) t = true.
Proof.
  intros Hwf. pose proof (proj1 (wf_nodes _ _) Hwf) as Hnodes.
  set (lv := lvl <$> seq 0 (length (nodes t))).
  assert (Hlv : forall j, (j < length (nodes t))%nat -> level lv j = lvl j).
  { intros j Hj. unfold level, lv. rewrite list_lookup_fmap, lookup_seq_lt by done. done. }
  unfold well_formed. apply forallb_forall. intros ok Hok.
  apply list_elem_of_In, list_elem_of_lookup in Hok as [j Hj].
  rewrite list_lookup_imap in Hj.
  destruct (nodes t !! j) as [n|] eqn:Hn; [| done]. injection Hj as <-.
  assert (Hjlt : (j < length (nodes t))%nat) by (by eapply lookup_lt_Some).
  destruct (Hnodes j n Hn) as (Hp & Hc & Hs). unfold node_ok, id.
  apply andb_true_intro. split; [apply andb_true_intro; split |].
  - destruct (parent n) as [p|]; [| done]. destruct (Hp p eq_refl).
    rewrite !Hlv by done. apply andb_true_intro. split; by apply Nat.ltb_lt.
  - destruct (is_leaf n); [done |]. simpl. apply forallb_forall. intros c Hin.
    destruct (Hc eq_refl c); [by apply list_elem_of_In |].
    rewrite !Hlv by done. apply andb_true_intro. split; by apply Nat.ltb_lt.
  - destruct (right_sibling n) as [s|]; [| done]. apply Nat.ltb_lt. by apply Hs.
Qed.

(** Every tree built by insertions from [Btree(bf)] is well formed. *)
Lemma built_well_formed fuel bf script t :
  built fuel bf script = Some t -> exists lv, well_formed lv t = true.
Proof.
  intros Hb.
  destruct (built_invariant bf (node_shape bf) (node_shape_ext bf) (node_shape_insert bf)
              (node_shape_split bf) (node_shape_root bf) (node_shape_leaf bf)
              fuel script t Hb) as (_ & lvl & L & Hwf & _).
  eexists. by apply wf_well_formed.
Qed.

(** ** The scenario *)

Lemma built_scenario k : built (2 + k) 3 scenario = Some scenario_tree.
Proof. apply (built_more_fuel 2%nat); [lia | reflexivity]. Qed.

Lemma built_only fuel fuel0 bf script t t0 :
  built fuel0 bf script = Some t0 -> built fuel bf script = Some t -> t = t0.
Proof.
  intros H0 H.
  apply (built_more_fuel _ (max fuel fuel0)) in H0; [| lia].
  apply (built_more_fuel _ (max fuel fuel0)) in H; [| lia]. congruence.
Qed.

(** C5 (as stated, fails): the six insertions do not give the tree of
    height 2 with the leaves 2,3,5 and 7,9,12. *)
Lemma scenario_not_as_specified : ~ scenario_as_specified.
Proof.
  intros H. destruct (H 2%nat scenario_tree scenario_defaults eq_refl) as [Hheight _].
  vm_compute in Hheight. discriminate.
Qed.

(** C5 (as the code has it): with b = 3 the third insertion fills the root
    leaf with 5, 7, 12 and it is split around 7: root [7] over the leaves
    [5] and [7, 12], the left one linked to the right one.  A leaf never
    keeps three keys, so after the six insertions the tree has height 3:
    root [7] over the internal nodes [3] and [9], over the leaves [2],
    [3, 5], [7], [9, 12], chained in that order by [right_sibling].  On
    that tree [find('>=', 7)] returns three pointers, those stored in the
    leaves [7] and [9, 12], in chain order. *)
Theorem scenario_outcome (k : nat) :
  let fuel := (3 + k)%nat in
  (* the third insertion fills the root leaf, which is split around 7 *)
  (exists w2,
     inserts fuel (take 2 scenario) (fresh 3) = Ok tt w2
     /\ _search fuel 7 w2 = Ok (0%nat, 0%nat) w2
     /\ (values ∘ Node_insert 7 2 None) <$> nodes (tree w2) !! 0%nat = Some [5; 7; 12])
  /\ built fuel 3 (take 3 scenario)
     = Some (mkBtree 3
               [ leaf3 [5] [0%nat] None (Some 1%nat) (Some 2%nat);
                 leaf3 [7; 12] [1%nat; 2%nat] (Some 0%nat) None (Some 2%nat);
                 inner3 [7] [0%nat; 1%nat] None ]
               (Some 2%nat))
  (* the tree after the six insertions *)
  /\ built fuel 3 scenario = Some scenario_tree
  /\ height fuel scenario_tree = Some 3%nat
  /\ leaf_chain fuel scenario_tree = Some [0; 3; 1; 4]%nat
  /\ find fuel ">=" 7 (mkWorld scenario_tree [] scenario_defaults)
     = Ok (ptrs_along scenario_tree [1; 4]%nat)
          (mkWorld scenario_tree [OpsLine 3] scenario_defaults)
  /\ length (ptrs_along scenario_tree [1; 4]%nat) = 3%nat.
Proof.
  intros fuel.
  split.
  { exists (mkWorld (mkBtree 3 [leaf3 [5; 12] [0%nat; 1%nat] None None None] (Some 0%nat)) []
              (Held 0)).
    split; [| split; [| reflexivity]].
    - rewrite (inserts_more_fuel _ 0%nat fuel); [reflexivity | lia | discriminate].
    - rewrite (search_more_fuel _ 0%nat fuel); [reflexivity | lia | discriminate]. }
  split; [apply (built_more_fuel 1%nat); [unfold fuel; lia | reflexivity] |].
  split; [apply (built_scenario (S k)) |].
  split; [reflexivity |]. split; [by destruct k |].
  split; [| reflexivity].
  rewrite (find_more_fuel _ _ 2%nat fuel); [reflexivity | unfold fuel; lia | discriminate].
Qed.

(** ** Where the code departs from the specification *)

(** C1 (fails on the code): after [insert(5, 0)] and [insert(3, 1)] into
    [Btree(3)] the walk over the leaf chain yields the keys in order, but
    paired with the wrong pointers: (3, 0) and (5, 1) instead of the pairs
    that were inserted.  [Node.insert] puts the pointer one position after
    the key.  With b = 4 and a repeated key the order is lost as well:
    after the keys 7, 7, 7, 7, 1, 2, 8 the chain reads 1, 2, 7, 7, 8, 7, 7,
    because the right half of the second split is put after the last
    separator equal to its first key, not next to its left half. *)
Theorem leaf_chain_differs_from_insertions (k : nat) :
  let fuel := (3 + k)%nat in
  let t := mkBtree 3 [leaf3 [3; 5] [0%nat; 1%nat] None None None] (Some 0%nat) in
  (built fuel 3 [(5, 0%nat); (3, 1%nat)] = Some t
   /\ chain_entries fuel t = Some [(3, 0%nat); (5, 1%nat)]
   /\ ((3, 1%nat) ∉ [(3, 0%nat); (5, 1%nat)])
   /\ ((5, 0%nat) ∉ [(3, 0%nat); (5, 1%nat)]))
  /\ (built fuel 4 repeated_key_script = Some repeated_key_tree
      /\ leaf_chain fuel repeated_key_tree = Some [0; 3; 1]%nat
      /\ (fun es : list (Z * nat) => es.*1) <$> chain_entries fuel repeated_key_tree
         = Some [1; 2; 7; 7; 8; 7; 7])
  /\ ~ Sorted Z.le [1; 2; 7; 7; 8; 7; 7].
Proof.
  intros fuel t. split; [| split].
  - split; [apply (built_more_fuel 0%nat); [lia | reflexivity] |].
    split; [reflexivity |].
    split; intros H; repeat (apply elem_of_cons in H as [[=]|H]); by apply elem_of_nil in H.
  - split; [apply (built_more_fuel 1%nat); [unfold fuel; lia | reflexivity] |].
    split; reflexivity.
  - intros H. do 4 (apply Sorted_inv in H as [H _]).
    apply Sorted_inv in H as [_ H]. apply HdRel_inv in H. lia.
Qed.

(** C2 (fails on the code for even b): with b = 2, after [insert(1, 0)] and
    [insert(2, 1)] the left half of the split leaf holds one key and two
    pointers; the pointer 1 is in both halves. *)
Theorem even_split_leaves_extra_pointer (k : nat) :
  built (1 + k) 2 [(1, 0%nat); (2, 1%nat)]
  = Some (mkBtree 2
            [ mkNode 2 [1] [0%nat; 1%nat] None (Some 1%nat) (Some 2%nat) true;
              mkNode 2 [2] [1%nat] (Some 0%nat) None (Some 2%nat) true;
              mkNode 2 [2] [0%nat; 1%nat] None None None false ]
            (Some 2%nat)).
Proof. apply (built_more_fuel 1%nat); [lia | reflexivity]. Qed.

(** C4 (fails on the code): 3 is not in the tree that holds (5, 0); after
    [insert(3, 1)] the equality lookup of 3 (operator "==") returns the
    pointer 0, not 1, and with the symbol "=" of the specification [find]
    returns nothing. *)
Theorem find_after_insert_gives_other_pointer (fuel : nat) :
  let w1 := mkWorld (mkBtree 3 [leaf3 [5] [0%nat] None None None] (Some 0%nat)) []
              (Held 0) in
  let w2 := mkWorld (mkBtree 3 [leaf3 [3; 5] [0%nat; 1%nat] None None None] (Some 0%nat)) []
              (Held 0) in
  insert fuel 5 0 (fresh 3) = Ok tt w1
  /\ find fuel "==" 3 w1 = Ok [] (mkWorld (tree w1) [OpsLine 0] (defaults w1))
  /\ insert fuel 3 1 w1 = Ok tt w2
  /\ find fuel "==" 3 w2 = Ok [0%nat] (mkWorld (tree w2) [OpsLine 0] (defaults w2))
  /\ find fuel "=" 3 w2 = Ok [] (mkWorld (tree w2) [OpsLine 0] (defaults w2)).
Proof. by destruct fuel. Qed.

(** C6 (as stated, fails): deleting (100, 0) from the scenario tree, where
    100 is in no leaf, returns normally. *)
Lemma delete_does_not_signal_absence : ~ delete_signals_absence.
Proof.
  intros H.
  destruct (H 2%nat (mkWorld scenario_tree [] scenario_defaults) 100 0%nat 4%nat 2%nat
              (mkWorld scenario_tree [] scenario_defaults)
              (leaf3 [9; 12] [2%nat; 5%nat] (Some 1%nat) None (Some 5%nat)))
    as (e & w' & Hd & _); [reflexivity | reflexivity | | discriminate].
  intros Hin. repeat (apply elem_of_cons in Hin as [[=]|Hin]). by apply elem_of_nil in Hin.
Qed.


(** C8 (as stated, fails): the search on [Btree(3)] before any insertion
    raises a TypeError, the error of any subscript that is not an index,
    and not an error that tells of an empty tree. *)
Lemma empty_tree_error_not_as_specified : ~ empty_tree_error_as_specified.
Proof.
  intros H.
  destruct (H 0%nat 3 [] [] (Apart [] []) "==" 7 0%nat) as [(e & w' & Hs & Hname) _].
  injection Hs as <- _. discriminate.
Qed.

(** C9 (as stated, fails): on the tree built from 1, 2, 3, 4 with b = 3,
    [find('<', 5)] returns the pointers of 3, 4, 2, 1 in that order, which
    is not a descending order of keys. *)
Lemma range_order_not_as_specified : ~ range_order_as_specified.
Proof.
  intros H.
  destruct (H 2%nat 3 ascending_script ascending_tree ascending_defaults "<" 5 [30; 40; 20; 10]%nat
              (mkWorld ascending_tree [OpsLine 4] ascending_defaults)) as [Hdesc _];
    [discriminate | reflexivity | reflexivity |].
  destruct Hdesc as (es & Hptrs & Hin & Hsorted); [by left |].
  destruct es as [|[k1 p1] [|[k2 p2] es]]; try discriminate.
  injection Hptrs as -> -> Hrest.
  apply Forall_cons in Hin as [H1 Hin]. apply Forall_cons in Hin as [H2 _].
  assert (k1 = 3) as ->.
  { vm_compute in H1. repeat (apply elem_of_cons in H1 as [[=]|H1]); try done.
    by apply elem_of_nil in H1. }
  assert (k2 = 4) as ->.
  { vm_compute in H2. repeat (apply elem_of_cons in H2 as [[=]|H2]); try done.
    by apply elem_of_nil in H2. }
  simpl in Hsorted. apply Sorted_inv in Hsorted as [_ Hhd].
  apply HdRel_inv in Hhd. lia.
Qed.

(** ** The theorems at work on the demonstration script *)

(** The arena in which the sixth insertion calls [split] on the root. *)
Lemma overflowing_tree_reached :
  bind (inserts 2 (take 5 scenario))
    (fun _ => bind (_search 2 9)
    (fun r => bind (update_node r.1 (Node_insert 9 5 None))
    (fun _ => bind (split_halves r.1)
    (fun v => update_node 2 (Node_insert v 4 None))))) (fresh 3)
  = Ok tt (mkWorld overflowing_tree [] scenario_defaults).
Proof. reflexivity. Qed.

(** The split of that root: 7 goes up, [3] and [9] keep two children each. *)
Lemma split_internal_halves_witness :
  let w := mkWorld overflowing_tree [] scenario_defaults in
  let n := inner3 [3; 7; 9] [0; 3; 1; 4]%nat None in
  2 <= b (tree w)
  /\ well_formed [0; 0; 1; 0; 0]%nat (tree w) = true
  /\ (max_list [0; 0; 1; 0; 0]%nat < 1 + level [0; 0; 1; 0; 0]%nat 2)%nat
  /\ nodes (tree w) !! 2%nat = Some n
  /\ is_leaf n = false
  /\ Z.of_nat (length (values n)) = b (tree w)
  /\ length (ptrs n) = S (length (values n))
  /\ exists w' l r promoted,
       split 1 2 w = Ok tt w'
       /\ nodes (tree w') !! 2%nat = Some l
       /\ nodes (tree w') !! length (nodes (tree w)) = Some r
       /\ is_leaf l = false /\ is_leaf r = false
       /\ length (ptrs l) = S (length (values l))
       /\ length (ptrs r) = S (length (values r))
       /\ values n !! Z.to_nat (b (tree w) / 2) = Some promoted
       /\ values n = values l ++ promoted :: values r
       /\ ptrs n = ptrs l ++ ptrs r
       /\ exists q qn, q <> 2%nat /\ q <> length (nodes (tree w))
            /\ nodes (tree w') !! q = Some qn /\ promoted ∈ values qn.
Proof.
  intros w n.
  assert (H1 : 2 <= b (tree w)) by (simpl; lia).
  assert (H2 : well_formed [0; 0; 1; 0; 0]%nat (tree w) = true) by reflexivity.
  assert (H3 : (max_list [0; 0; 1; 0; 0]%nat < 1 + level [0; 0; 1; 0; 0]%nat 2)%nat)
    by (vm_compute; lia).
  assert (H4 : nodes (tree w) !! 2%nat = Some n) by reflexivity.
  assert (H5 : is_leaf n = false) by reflexivity.
  assert (H6 : Z.of_nat (length (values n)) = b (tree w)) by reflexivity.
  assert (H7 : length (ptrs n) = S (length (values n))) by reflexivity.
  repeat (split; [assumption |]).
  exact (split_internal_halves 1 [0; 0; 1; 0; 0]%nat w 2 n H1 H2 H3 H4 H5 H6 H7).
Defined.

(** [delete(3, 3)] on the scenario tree: the leaf pairs 3 with the pointer 4,
    so the pair is not found and the call prints and returns. *)
Lemma delete_absent_pair_witness :
  let w := mkWorld scenario_tree [] scenario_defaults in
  let n := leaf3 [3; 5] [4; 3]%nat (Some 0%nat) (Some 1%nat) (Some 2%nat) in
  _search 2 3 w = Ok (3%nat, 2%nat) w
  /\ nodes (tree w) !! 3%nat = Some n
  /\ (length (values n) <= length (ptrs n))%nat
  /\ ((3, 3%nat) ∉ entries n)
  /\ delete 2 3 3 w
     = Ok tt (mkWorld (tree w) (stdout w ++ [Text "Value not in ptr"]) (defaults w)).
Proof.
  intros w n.
  assert (H1 : _search 2 3 w = Ok (3%nat, 2%nat) w) by reflexivity.
  assert (H2 : nodes (tree w) !! 3%nat = Some n) by reflexivity.
  assert (H3 : (length (values n) <= length (ptrs n))%nat) by (simpl; lia).
  assert (H4 : (3, 3%nat) ∉ entries n).
  { intros Hin. vm_compute in Hin.
    repeat (apply elem_of_cons in Hin as [[=]|Hin]). by apply elem_of_nil in Hin. }
  repeat (split; [assumption |]).
  exact (delete_absent_pair 3 3 2 w w 3 2 n H1 H2 H3 H4).
Defined.

(** [find('<', 5)] on the tree of 1, 2, 3, 4: the leaf [3, 4] first, then
    [2], then [1]. *)
Lemma find_scan_order_witness :
  let w := mkWorld ascending_tree [] ascending_defaults in
  let n := leaf3 [3; 4] [30; 40]%nat (Some 1%nat) None (Some 2%nat) in
  let test := fun node_value => node_value <? 5 in
  range_operator "<" 5 = Some (test, left_sibling)
  /\ _search 2 5 w = Ok (3%nat, 2%nat) w
  /\ nodes (tree w) !! 3%nat = Some n
  /\ (length (values n) <= length (ptrs n))%nat
  /\ sibling_path 2 left_sibling (tree w) 3 = Some [1; 0]%nat
  /\ find 2 "<" 5 w
     = Ok (matching test n ++ ptrs_along (tree w) [1; 0]%nat)
          (mkWorld (tree w) (stdout w ++ [OpsLine (2 + length (values n))]) (defaults w))
  /\ matching test n ++ ptrs_along (tree w) [1; 0]%nat = [30; 40; 20; 10]%nat.
Proof.
  intros w n test.
  assert (H1 : range_operator "<" 5 = Some (test, left_sibling)) by reflexivity.
  assert (H2 : _search 2 5 w = Ok (3%nat, 2%nat) w) by reflexivity.
  assert (H3 : nodes (tree w) !! 3%nat = Some n) by reflexivity.
  assert (H4 : (length (values n) <= length (ptrs n))%nat) by (simpl; lia).
  assert (H5 : sibling_path 2 left_sibling (tree w) 3 = Some [1; 0]%nat) by reflexivity.
  repeat (split; [assumption |]).
  split; [| reflexivity].
  exact (find_scan_order 2 5 "<" test left_sibling w w 3 2 n [1; 0]%nat H1 H2 H3 H4 H5).
Defined.

(** * Further properties of the code *)

(** *** The loops over the keys of a node *)

Lemma first_greater_Some value : forall vals k index,
  first_greater value vals k = Some index ->
  (k <= index)%nat
  /\ Forall (fun e => e <= value) (take (index - k) vals)
  /\ exists e, vals !! (index - k)%nat = Some e /\ value < e.
Proof.
  induction vals as [|e vals IH]; intros k index; simpl; [done |].
  destruct (Z.ltb_spec value e).
  - intros [= <-]. rewrite Nat.sub_diag. simpl. split; [done |]. split; [constructor |].
    by exists e.
  - intros (Hle & Hall & e' & He' & Hlt)%IH.
    replace (index - k)%nat with (S (index - S k)) by lia. simpl.
    split; [lia |]. split; [constructor; [lia | done] |]. by exists e'.
Qed.

Lemma first_greater_None value : forall vals k,
  first_greater value vals k = None <-> Forall (fun e => e <= value) vals.
Proof.
  induction vals as [|e vals IH]; intros k; simpl; [by split; [constructor |] |].
  destruct (Z.ltb_spec value e).
  - split; [done |]. intros [? _]%Forall_cons. lia.
  - rewrite IH. split; [intros; constructor; [lia | done] | by intros [_ ?]%Forall_cons].
Qed.

Lemma filter_none {A} (P : A -> Prop) `{forall x, Decision (P x)} (l : list A) :
  Forall (fun x => ~ P x) l -> filter P l = [].
Proof.
  induction 1 as [|x l Hx _ IH]; [done |]. by rewrite filter_cons_False.
Qed.

Lemma first_greater_count value : forall vals k,
  StronglySorted Z.le vals ->
  let c := length (filter (fun e => e <= value) vals) in
  match first_greater value vals k with
  | Some index => index = (k + c)%nat /\ (c < length vals)%nat
  | None => c = length vals
  end.
Proof.
  induction vals as [|e vals IH]; intros k Hs; simpl; [done |].
  apply StronglySorted_inv in Hs as [Hs Hall].
  destruct (Z.ltb_spec value e).
  - rewrite filter_cons_False by lia.
    assert (filter (fun e0 => e0 <= value) vals = []) as ->.
    { apply filter_none. eapply Forall_impl; [exact Hall |]. simpl. intros. lia. }
    simpl. split; lia.
  - rewrite filter_cons_True by lia. simpl.
    specialize (IH (S k) Hs). simpl in IH.
    destruct (first_greater value vals (S k)); [| by f_equal].
    destruct IH. split; lia.
Qed.

Lemma py_index_Some {A} `{EqDecision A} (x : A) : forall l i,
  py_index x l = Some i ->
  l !! i = Some x /\ forall j, (j < i)%nat -> l !! j <> Some x.
Proof.
  induction l as [|y l IH]; intros i; simpl; [done |].
  destruct (decide (y = x)) as [->|Hne].
  - intros [= <-]. split; [done |]. intros j Hj. lia.
  - destruct (py_index x l) as [i'|]; simpl; [| done]. intros [= <-].
    destruct (IH i' eq_refl) as [Hi Hfirst]. split; [done |].
    intros [|j] Hj; simpl; [congruence |]. apply Hfirst. lia.
Qed.

Lemma py_index_None {A} `{EqDecision A} (x : A) : forall l,
  py_index x l = None <-> x ∉ l.
Proof.
  induction l as [|y l IH]; simpl.
  - split; [intros _; apply not_elem_of_nil | done].
  - destruct (decide (y = x)) as [->|Hne].
    + split; [done |]. intros []. by left.
    + rewrite not_elem_of_cons. destruct (py_index x l); simpl.
      * split; [done |]. intros [_ H]. by apply IH in H.
      * split; [| done]. intros _. split; [congruence | by apply IH].
Qed.

Lemma py_index_elem {A} `{EqDecision A} (x : A) l :
  x ∈ l -> exists i, py_index x l = Some i.
Proof.
  intros Hin. destruct (py_index x l) as [i|] eqn:H; [eauto |].
  by apply py_index_None in H.
Qed.

(** *** [Node.find] *)

(** X1: in an internal node with sorted keys and one child more than keys,
    [Node.find] gives the child at the position that equals the number of
    keys not greater than the value (a value equal to a key goes to the
    right of it), and has compared the value with one key more than that,
    or with all of them. *)
Theorem Node_find_routes (n : Node) (value : Z) :
  is_leaf n = false ->
  StronglySorted Z.le (values n) ->
  length (ptrs n) = S (length (values n)) ->
  let i := length (filter (fun k => k <= value) (values n)) in
  exists p, ptrs n !! i = Some p
            /\ Node_find n value = inr (p, Nat.min (S i) (length (values n))).
Proof.
  intros Hleaf Hs Hlen i. unfold Node_find. rewrite Hleaf.
  pose proof (first_greater_count value (values n) 0 Hs) as Hc. simpl in Hc. fold i in Hc.
  destruct (first_greater value (values n) 0) as [index|].
  - destruct Hc as [-> Hlt].
    destruct (lookup_lt_is_Some_2 (ptrs n) i) as [p Hp]; [lia |].
    exists p. rewrite Hp. split; [done |]. do 2 f_equal. lia.
  - rewrite Hc. destruct (ptrs n) as [|p0 ps] eqn:Hp using rev_ind; [done |].
    clear IHps. rewrite last_snoc. exists p0.
    rewrite length_app in Hlen. simpl in Hlen.
    split; [| do 2 f_equal; lia].
    replace (length (values n)) with (length ps) by lia. by apply list_lookup_middle.
Qed.

Lemma Node_find_routes_witness :
  exists p, [10; 11; 12]%nat !! 1%nat = Some p
            /\ Node_find (mkNode 3 [5; 9] [10; 11; 12]%nat None None None false) 7
               = inr (p, 2%nat).
Proof.
  apply (Node_find_routes (mkNode 3 [5; 9] [10; 11; 12]%nat None None None false) 7).
  - reflexivity.
  - repeat constructor; lia.
  - reflexivity.
Defined.

(** *** [Node.insert] *)

Lemma inserted_perm value vals : inserted value vals ≡ₚ value :: vals.
Proof.
  induction vals as [|e vals IH]; simpl; [done |].
  destruct (value <? e); [done |]. rewrite IH. apply Permutation_swap.
Qed.

Lemma Node_insert_values_any value ptr ptr1 n :
  values (Node_insert value ptr ptr1 n) = inserted value (values n).
Proof.
  unfold Node_insert. pose proof (first_greater_inserted value (values n) 0) as H.
  destruct (first_greater value (values n) 0) as [index|]; simpl; [| done].
  destruct H as [_ H]. by rewrite Nat.sub_0_r in H.
Qed.

(** X2: [Node.insert] puts the value into the key list without disturbing
    it: the keys afterwards are the value and the keys before, sorted if
    they were; the node keeps its kind and its links. *)
Theorem Node_insert_sorted (n : Node) (value : Z) (ptr : nat) (ptr1 : option nat) :
  let n' := Node_insert value ptr ptr1 n in
  values n' ≡ₚ value :: values n
  /\ (StronglySorted Z.le (values n) -> StronglySorted Z.le (values n'))
  /\ is_leaf n' = is_leaf n /\ parent n' = parent n
  /\ left_sibling n' = left_sibling n /\ right_sibling n' = right_sibling n.
Proof.
  intros n'. unfold n'. rewrite Node_insert_values_any.
  split; [apply inserted_perm |]. split; [apply inserted_sorted |].
  unfold Node_insert. by destruct (first_greater value (values n) 0).
Qed.

Lemma first_greater_inserted_again value : forall vals k,
  first_greater value (inserted value vals) k = S <$> first_greater value vals k.
Proof.
  induction vals as [|e vals IH]; intros k; simpl.
  - by rewrite Z.ltb_irrefl.
  - destruct (Z.ltb_spec value e); simpl.
    + rewrite Z.ltb_irrefl. by destruct (Z.ltb_spec value e); [| lia].
    + destruct (Z.ltb_spec value e); [lia |]. apply IH.
Qed.

Lemma lookup_py_insert {A} (i : nat) (x : A) (l : list A) :
  (i <= length l)%nat -> py_insert i x l !! i = Some x.
Proof.
  intros Hi. unfold py_insert. rewrite lookup_app_r by (rewrite length_take; lia).
  rewrite length_take. by replace (i - i `min` length l)%nat with 0%nat by lia.
Qed.

(** X3: in an internal node, [Node.find] for a key that [Node.insert] has
    just put there gives the pointer inserted with it: after a split the
    search for the promoted key goes to the new right node. *)
Theorem Node_find_after_insert (n : Node) (value : Z) (ptr : nat) :
  is_leaf n = false ->
  (length (values n) <= length (ptrs n))%nat ->
  exists ops, Node_find (Node_insert value ptr None n) value = inr (ptr, ops).
Proof.
  intros Hleaf Hlen. unfold Node_find.
  destruct (Node_insert_spec value ptr n) as (-> & _). rewrite Hleaf.
  rewrite Node_insert_values, first_greater_inserted_again.
  unfold Node_insert.
  destruct (first_greater value (values n) 0) as [index|] eqn:Hfg; simpl.
  - apply first_greater_lt in Hfg. simpl in Hfg.
    replace (index + 1)%nat with (S index) by lia.
    rewrite lookup_py_insert by lia. eauto.
  - rewrite last_snoc. eauto.
Qed.

Lemma Node_find_after_insert_witness :
  exists ops,
    Node_find (Node_insert 7 4%nat None (mkNode 3 [5; 9] [0; 1; 2]%nat None None None false)) 7
    = inr (4%nat, ops).
Proof.
  apply (Node_find_after_insert (mkNode 3 [5; 9] [0; 1; 2]%nat None None None false) 7 4%nat).
  - reflexivity.
  - simpl. lia.
Defined.

Lemma zip_py_insert {A B} (v : A) (p : B) : forall i vs ps a q,
  vs !! i = Some a -> ps !! i = Some q ->
  zip (py_insert i v vs) (py_insert (i + 1) p ps)
  = take i (zip vs ps) ++ (v, q) :: (a, p) :: drop (S i) (zip vs ps).
Proof.
  unfold py_insert. induction i as [|i IH]; intros [|a0 vs] [|q0 ps] a q Ha Hq; try done.
  - simpl in *. injection Ha as ->. injection Hq as ->. by rewrite !drop_0.
  - simpl in *. f_equal. by apply IH.
Qed.

(** X4: a leaf with as many pointers as keys, and a value that is not
    smaller than any key of it: [Node.insert] appends the pair, so the
    value is paired with its own pointer. *)
Theorem Node_insert_last_pairs (n : Node) (value : Z) (ptr : nat) :
  length (ptrs n) = length (values n) ->
  Forall (fun k => k <= value) (values n) ->
  entries (Node_insert value ptr None n) = entries n ++ [(value, ptr)].
Proof.
  intros Hlen Hall. unfold entries, Node_insert.
  rewrite (proj2 (first_greater_None value (values n) 0) Hall). simpl.
  by rewrite zip_with_app.
Qed.

Lemma Node_insert_last_pairs_witness :
  entries (Node_insert 7 2%nat None (mkNode 3 [3; 5] [0; 1]%nat None None None true))
  = [(3, 0%nat); (5, 1%nat)] ++ [(7, 2%nat)].
Proof.
  apply (Node_insert_last_pairs (mkNode 3 [3; 5] [0; 1]%nat None None None true) 7 2%nat).
  - reflexivity.
  - repeat constructor; lia.
Defined.

(** X5: a leaf with as many pointers as keys, and a value smaller than one
    of its keys: with [k] the first key greater than the value and [q] the
    pointer at its position, [Node.insert] leaves the value paired with [q]
    and [k] paired with the new pointer; the pairs before and after are not
    touched. *)
Theorem Node_insert_before_mispairs (n : Node) (value : Z) (ptr : nat) (i : nat) (k : Z) (q : nat) :
  length (ptrs n) = length (values n) ->
  entries n !! i = Some (k, q) ->
  value < k ->
  Forall (fun k' => k' <= value) (take i (values n)) ->
  entries (Node_insert value ptr None n)
  = take i (entries n) ++ (value, q) :: (k, ptr) :: drop (S i) (entries n).
Proof.
  intros Hlen Hi Hlt Hall. unfold entries in *.
  apply lookup_zip_with_Some in Hi as (k' & q' & [= <- <-] & Hk & Hq).
  assert (Hfg : first_greater value (values n) 0 = Some i).
  { clear Hlen Hq. revert Hall Hk. generalize (values n) as vals.
    assert (forall vals j, Forall (fun k' => k' <= value) (take i vals) -> vals !! i = Some k ->
              first_greater value vals j = Some (j + i)%nat) as H; [| intros; by apply (H vals 0%nat)].
    induction i as [|i IH]; intros [|e vals] j Hall Hk; try done; simpl in *.
    - injection Hk as ->. destruct (Z.ltb_spec value k); [f_equal; lia | lia].
    - apply Forall_cons in Hall as [He Hall].
      destruct (Z.ltb_spec value e); [lia |].
      rewrite (IH vals (S j) Hall Hk). f_equal. lia. }
  unfold Node_insert. rewrite Hfg. simpl. by apply zip_py_insert.
Qed.

Lemma Node_insert_before_mispairs_witness :
  entries (Node_insert 3 1%nat None (mkNode 3 [5] [0%nat] None None None true))
  = take 0 [(5, 0%nat)] ++ (3, 0%nat) :: (5, 1%nat) :: drop 1 [(5, 0%nat)].
Proof.
  apply (Node_insert_before_mispairs (mkNode 3 [5] [0%nat] None None None true) 3 1%nat 0%nat 5 0%nat).
  - reflexivity.
  - reflexivity.
  - lia.
  - constructor.
Defined.

(** *** [find] with the operator of equality *)

Lemma find_equal_branch fuel value w w1 leaf ops n :
  _search fuel value w = Ok (leaf, ops) w1 ->
  nodes (tree w) !! leaf = Some n ->
  find fuel "==" value w
  = Ok (eq_branch value n []) (mkWorld (tree w) (stdout w ++ [OpsLine ops]) (defaults w)).
Proof.
  intros Hs Hn. destruct (search_leaf _ _ _ _ _ _ Hs) as (-> & _).
  unfold find, bind. rewrite Hs. unfold node_at. rewrite Hn. reflexivity.
Qed.

Lemma eq_branch_ptr value n q : q ∈ eq_branch value n [] -> q ∈ ptrs n.
Proof.
  unfold eq_branch. destruct (py_index value (values n)) as [i|]; [| by intros ?%not_elem_of_nil].
  destruct (ptrs n !! i) as [p|] eqn:Hp; [| by intros ?%not_elem_of_nil].
  intros ->%list_elem_of_singleton. by eapply list_elem_of_lookup_2.
Qed.



(** *** [delete] *)

Lemma same_but_ptrs_refl n : same_but_ptrs n n.
Proof. by destruct n. Qed.

Lemma ptrs_changed_at_refl idx w : ptrs_changed_at idx w w.
Proof.
  repeat split; try done. apply Forall2_same_length_lookup_2; [done |].
  intros i x y Hx Hy. assert (x = y) as -> by congruence. apply same_but_ptrs_refl.
Qed.

Lemma ptrs_changed_at_print idx w l :
  ptrs_changed_at idx w (mkWorld (tree w) (stdout w ++ [l]) (defaults w)).
Proof. apply (ptrs_changed_at_refl idx w). Qed.

Lemma ptrs_changed_at_trans idx w1 w2 w3 :
  ptrs_changed_at idx w1 w2 -> ptrs_changed_at idx w2 w3 -> ptrs_changed_at idx w1 w3.
Proof.
  intros (Hb & Hr & Hall & Hother) (Hb' & Hr' & Hall' & Hother').
  split; [congruence |]. split; [congruence |]. split.
  - eapply Forall2_trans; [| exact Hall | exact Hall'].
    intros x y z Hxy Hyz. unfold same_but_ptrs in *. rewrite Hyz, Hxy. by destruct x.
  - intros j Hj. rewrite Hother' by done. by apply Hother.
Qed.

Lemma ptrs_changed_at_update idx w n ps :
  nodes (tree w) !! idx = Some n ->
  ptrs_changed_at idx w (with_nodes (fun ns => <[idx := set_ptrs ps n]> ns) w).
Proof.
  intros Hn. split; [done |]. split; [done |]. split.
  - simpl. apply Forall2_same_length_lookup_2; [by rewrite length_insert |].
    intros i x y Hx Hy. destruct (decide (i = idx)) as [->|Hne].
    + rewrite list_lookup_insert_eq in Hy by (by eapply lookup_lt_Some).
      injection Hy as <-. assert (x = n) as -> by congruence. by destruct n.
    + rewrite list_lookup_insert_ne in Hy by done.
      assert (x = y) as -> by congruence. apply same_but_ptrs_refl.
  - intros j Hj. simpl. by rewrite list_lookup_insert_ne.
Qed.

Lemma length_py_del {A} (k : nat) (l : list A) :
  (k < length l)%nat -> length (py_del k l) = (length l - 1)%nat.
Proof.
  intros Hk. unfold py_del. rewrite length_app, length_take, length_drop. lia.
Qed.

(** What the loop of [delete] can do, from any position on. *)
Lemma delete_loop_effect (value : Z) (ptr idx : nat) :
  forall items i temp w,
    match delete_loop items i idx value ptr temp w with
    | Ok _ w' => ptrs_changed_at idx w w'
    | Raise e w' => ptrs_changed_at idx w w' /\ e = IndexError
    | Diverge => False
    end.
Proof.
  induction items as [|item items IH]; intros i temp w; simpl.
  { apply ptrs_changed_at_refl. }
  destruct (item =? value); [| apply IH].
  unfold bind at 1. unfold node_at at 1.
  destruct (nodes (tree w) !! idx) as [node_|] eqn:Hnode;
    [| split; [apply ptrs_changed_at_refl | done]].
  destruct (ptrs node_ !! i) as [q|] eqn:Hq;
    [| split; [apply ptrs_changed_at_refl | done]].
  destruct (Nat.eqb_spec ptr q) as [<-|_]; [| apply ptrs_changed_at_print].
  assert (Hidx : (idx < length (nodes (tree w)))%nat) by (by eapply lookup_lt_Some).
  destruct (py_index_elem ptr (ptrs node_)) as [k Hk]; [by eapply list_elem_of_lookup_2 |].
  rewrite Hk. destruct (py_index_Some _ _ _ Hk) as [Hk' _].
  apply lookup_lt_Some in Hk'.
  pose proof (ptrs_changed_at_update idx w node_ (py_del k (ptrs node_)) Hnode) as Hupd.
  destruct (Nat.ltb_spec 1 (length (ptrs node_))) as [Hlen|Hlen].
  - unfold bind at 1. unfold update_node at 1. rewrite Hnode.
    specialize (IH (S i) true (with_nodes (fun ns => <[idx := set_ptrs (py_del k (ptrs node_)) node_]> ns) w)).
    destruct (delete_loop items (S i) idx value ptr true _) as [e w'|e w'|]; [| | done].
    + by eapply ptrs_changed_at_trans.
    + destruct IH as [IH ->]. split; [by eapply ptrs_changed_at_trans | done].
  - unfold bind at 1. unfold update_node at 1. rewrite Hnode.
    unfold bind at 1. unfold node_at at 1. simpl.
    rewrite list_lookup_insert_eq by done. simpl.
    rewrite length_py_del by done.
    apply lookup_lt_Some in Hq.
    destruct (Nat.ltb_spec i (length (ptrs node_) - 1)); [lia |].
    split; [exact Hupd | done].
Qed.

Lemma search_loop_raises fuel value :
  forall idx node ops w e w',
    search_loop fuel value idx node ops w = Raise e w' -> e = IndexError.
Proof.
  induction fuel as [|fuel IH]; intros idx node ops w e w'; simpl;
    destruct (is_leaf node) eqn:Hleaf; try discriminate.
  unfold bind, lift, Node_find. rewrite Hleaf.
  destruct (first_greater value (values node) 0) as [index|].
  - destruct (ptrs node !! index) as [p|]; [| by intros [= <- _]].
    unfold ret, node_at. destruct (nodes (tree w) !! p); [apply IH | by intros [= <- _]].
  - destruct (last (ptrs node)) as [p|]; [| by intros [= <- _]].
    unfold ret, node_at. destruct (nodes (tree w) !! p); [apply IH | by intros [= <- _]].
Qed.

Lemma search_raises fuel value w e w' :
  _search fuel value w = Raise e w' -> e = TypeError \/ e = IndexError.
Proof.
  unfold _search, root_node, bind, get_root.
  destruct (root (tree w)) as [r|]; [| intros [= <- _]; by left].
  unfold node_at. destruct (nodes (tree w) !! r); [| intros [= <- _]; by right].
  simpl. intros H. right. by eapply search_loop_raises.
Qed.

Lemma delete_effect (fuel : nat) (value : Z) (ptr : nat) (w : World) :
  match delete fuel value ptr w with
  | Ok _ w' => exists leaf, ptrs_changed_at leaf w w'
  | Raise e w' => (exists leaf, ptrs_changed_at leaf w w') /\ (e = TypeError \/ e = IndexError)
  | Diverge => True
  end.
Proof.
  unfold delete. unfold bind at 1.
  pose proof (keeps_world_search fuel value w) as Hw.
  destruct (_search fuel value w) as [[idx ops] w1|e w1|] eqn:Hs; [| | done]; subst w1.
  2:{ split; [exists 0%nat; apply ptrs_changed_at_refl | by eapply search_raises]. }
  simpl. unfold bind at 1. unfold node_at at 1.
  destruct (nodes (tree w) !! idx) as [node_|];
    [| split; [exists 0%nat; apply ptrs_changed_at_refl | by right]].
  unfold bind.
  pose proof (delete_loop_effect value ptr idx (values node_) 0 false w) as Hloop.
  destruct (delete_loop (values node_) 0 idx value ptr false w) as [e w'|e w'|]; [| | done].
  - destruct e as [|[]]; simpl; exists idx; [done | done |].
    eapply ptrs_changed_at_trans; [exact Hloop |]. apply ptrs_changed_at_print.
  - destruct Hloop as [Hloop ->]. eauto.
Qed.

(** X7: [delete] never takes a key out of the tree.  Whether it returns or
    raises, the branching factor, the root and the number of nodes are as
    before, every node has kept its keys, its kind and its links, and the
    pointer list is the only thing that can differ, in one node at most. *)
Theorem delete_keeps_every_key (fuel : nat) (value : Z) (ptr : nat) (w : World) :
  match delete fuel value ptr w with
  | Ok _ w' | Raise _ w' =>
      b (tree w') = b (tree w) /\ root (tree w') = root (tree w)
      /\ Forall2 (fun n n' => n' = set_ptrs (ptrs n') n) (nodes (tree w)) (nodes (tree w'))
      /\ exists leaf, forall j, j <> leaf -> nodes (tree w') !! j = nodes (tree w) !! j
  | Diverge => True
  end.
Proof.
  pose proof (delete_effect fuel value ptr w) as H.
  destruct (delete fuel value ptr w) as [[] w'|e w'|]; [| | done].
  - destruct H as (leaf & ? & ? & ? & ?). eauto 10.
  - destruct H as [(leaf & ? & ? & ? & ?) _]. eauto 10.
Qed.

(** X8: the only exceptions [delete] raises are the TypeError of the empty
    tree and IndexError.  The statement that removes the key of the pair
    and the call of [deleteEntry] after it are never reached: the [del]
    before them finds the pointer list already emptied. *)
Theorem delete_never_reaches_deleteEntry (fuel : nat) (value : Z) (ptr : nat)
    (w w' : World) (e : exn) :
  delete fuel value ptr w = Raise e w' -> e = TypeError \/ e = IndexError.
Proof.
  intros H. pose proof (delete_effect fuel value ptr w) as He.
  rewrite H in He. by destruct He.
Qed.

Lemma delete_never_reaches_deleteEntry_witness :
  IndexError = TypeError \/ IndexError = IndexError.
Proof.
  apply (delete_never_reaches_deleteEntry 1 5 0%nat
           (mkWorld (mkBtree 3 [mkNode 3 [5] [0%nat] None None None true] (Some 0%nat)) []
              (Held 0))
           (mkWorld (mkBtree 3 [mkNode 3 [5] [] None None None true] (Some 0%nat)) []
              (Held 0))
           IndexError).
  reflexivity.
Defined.

Lemma delete_loop_skip (value : Z) (ptr idx : nat) :
  forall items i temp w,
    value ∉ items -> delete_loop items i idx value ptr temp w = Ok (Finished temp) w.
Proof.
  induction items as [|item items IH]; intros i temp w Hnot; simpl; [done |].
  apply not_elem_of_cons in Hnot as [Hne Hnot].
  destruct (Z.eqb_spec item value); [congruence |]. by apply IH.
Qed.

(** X9: [delete] of a pair that is in the leaf, when the key occurs once
    in the leaf and the leaf has other pointers besides: the first
    occurrence of the pointer is taken out of the pointer list, nothing is
    printed, and the key stays in the leaf, which now has one pointer
    fewer than before. *)
Theorem delete_removes_pointer_only (fuel : nat) (value : Z) (ptr : nat) (w w1 : World)
    (leaf ops i : nat) (n : Node) :
  _search fuel value w = Ok (leaf, ops) w1 ->
  nodes (tree w) !! leaf = Some n ->
  values n !! i = Some value ->
  (forall j, values n !! j = Some value -> j = i) ->
  ptrs n !! i = Some ptr ->
  (1 < length (ptrs n))%nat ->
  exists k n',
    ptrs n !! k = Some ptr /\ (forall j, (j < k)%nat -> ptrs n !! j <> Some ptr)
    /\ delete fuel value ptr w = Ok tt (with_nodes (fun ns => <[leaf := n']> ns) w)
    /\ n' = set_ptrs (py_del k (ptrs n)) n
    /\ values n' = values n
    /\ length (ptrs n') = (length (ptrs n) - 1)%nat.
Proof.
  intros Hs Hn Hv Honce Hp Hlen. destruct (search_leaf _ _ _ _ _ _ Hs) as (-> & _).
  destruct (py_index_elem ptr (ptrs n)) as [k Hk]; [by eapply list_elem_of_lookup_2 |].
  destruct (py_index_Some _ _ _ Hk) as [Hk' Hfirst].
  exists k, (set_ptrs (py_del k (ptrs n)) n).
  split; [done |]. split; [done |].
  split; [| split; [done |]; split; [done |]; simpl; apply length_py_del; by eapply lookup_lt_Some].
  unfold delete. unfold bind at 1. rewrite Hs. simpl.
  unfold bind at 1. unfold node_at at 1. rewrite Hn.
  (* the loop up to position [i], at it, and after it *)
  assert (Hloop : forall items j temp,
            values n !! i = Some value -> drop j (values n) = items -> (j <= i)%nat ->
            delete_loop items j leaf value ptr temp w
            = Ok (Finished true)
                 (with_nodes (fun ns => <[leaf := set_ptrs (py_del k (ptrs n)) n]> ns) w)).
  { clear Hv. induction items as [|item items IH]; intros j temp Hv Hdrop Hj.
    - apply lookup_lt_Some in Hv.
      assert (length (drop j (values n)) = 0%nat) as Hl by (by rewrite Hdrop).
      rewrite length_drop in Hl. lia.
    - assert (Hitem : values n !! j = Some item).
      { rewrite <- (Nat.add_0_r j), <- lookup_drop, Hdrop. done. }
      assert (Hrest : drop (S j) (values n) = items).
      { rewrite <- Nat.add_1_r, <- drop_drop, Hdrop. done. }
      simpl. destruct (Z.eqb_spec item value) as [->|Hne].
      + assert (j = i) as -> by (by apply Honce).
        unfold bind at 1. unfold node_at at 1. rewrite Hn, Hp.
        rewrite Nat.eqb_refl. destruct (Nat.ltb_spec 1 (length (ptrs n))); [| lia].
        rewrite Hk. unfold bind. unfold update_node. rewrite Hn.
        apply delete_loop_skip. rewrite <- Hrest.
        intros [m Hm]%list_elem_of_lookup. rewrite lookup_drop in Hm.
        apply Honce in Hm. lia.
      + apply IH; [done | done |].
        destruct (decide (j = i)) as [->|]; [congruence | lia]. }
  unfold bind. rewrite (Hloop (values n) 0%nat false Hv (drop_0 _)) by lia. done.
Qed.

Lemma delete_removes_pointer_only_witness :
  exists k n',
    [4; 3]%nat !! k = Some 4%nat /\ (forall j, (j < k)%nat -> [4; 3]%nat !! j <> Some 4%nat)
    /\ delete 2 3 4%nat (mkWorld scenario_tree [] scenario_defaults)
       = Ok tt (with_nodes (fun ns => <[3%nat := n']> ns)
                  (mkWorld scenario_tree [] scenario_defaults))
    /\ n' = set_ptrs (py_del k [4; 3]%nat)
              (leaf3 [3; 5] [4%nat; 3%nat] (Some 0%nat) (Some 1%nat) (Some 2%nat))
    /\ values n' = [3; 5]
    /\ length (ptrs n') = (2 - 1)%nat.
Proof.
  apply (delete_removes_pointer_only 2 3 4%nat (mkWorld scenario_tree [] scenario_defaults)
           (mkWorld scenario_tree [] scenario_defaults) 3%nat 2%nat 0%nat
           (leaf3 [3; 5] [4%nat; 3%nat] (Some 0%nat) (Some 1%nat) (Some 2%nat))).
  - reflexivity.
  - reflexivity.
  - reflexivity.
  - intros [|[|[|j]]]; simpl; intros H; try done; simplify_eq.
  - reflexivity.
  - simpl. lia.
Defined.

(** X10: [delete] of the pair that holds the only pointer of a leaf does not
    go through: it empties the pointer list, raises IndexError at the
    [del] that follows, and leaves the key in the leaf without a
    pointer. *)
Theorem delete_only_pointer_raises (fuel : nat) (value : Z) (ptr : nat) (w w1 : World)
    (leaf ops : nat) (n : Node) (rest : list Z) :
  _search fuel value w = Ok (leaf, ops) w1 ->
  nodes (tree w) !! leaf = Some n ->
  values n = value :: rest ->
  ptrs n = [ptr] ->
  delete fuel value ptr w
  = Raise IndexError (with_nodes (fun ns => <[leaf := set_ptrs [] n]> ns) w).
Proof.
  intros Hs Hn Hv Hp. destruct (search_leaf _ _ _ _ _ _ Hs) as (-> & _).
  assert (Hleaf : (leaf < length (nodes (tree w)))%nat) by (by eapply lookup_lt_Some).
  unfold delete. unfold bind at 1. rewrite Hs. simpl.
  unfold bind at 1. unfold node_at at 1. rewrite Hn, Hv. simpl.
  rewrite Z.eqb_refl. unfold bind. unfold node_at at 1. rewrite Hn, Hp. simpl.
  rewrite Nat.eqb_refl. rewrite decide_True by done. simpl.
  unfold update_node at 1. rewrite Hn.
  unfold node_at at 1. simpl.
  rewrite list_lookup_insert_eq by done. reflexivity.
Qed.

Lemma delete_only_pointer_raises_witness :
  delete 3 2 0%nat (mkWorld scenario_tree [] scenario_defaults)
  = Raise IndexError
      (with_nodes (fun ns => <[0%nat := set_ptrs []
                                 (leaf3 [2] [0%nat] None (Some 3%nat) (Some 2%nat))]> ns)
         (mkWorld scenario_tree [] scenario_defaults)).
Proof.
  apply (delete_only_pointer_raises 3 2 0%nat (mkWorld scenario_tree [] scenario_defaults)
           (mkWorld scenario_tree [] scenario_defaults) 0%nat 2%nat
           (leaf3 [2] [0%nat] None (Some 3%nat) (Some 2%nat)) []).
  - reflexivity.
  - reflexivity.
  - reflexivity.
  - reflexivity.
Defined.

Lemma update_node_alter i f w :
  (i < length (nodes (tree w)))%nat ->
  update_node i f w = Ok tt (with_nodes (alter f i) w).
Proof.
  intros Hi. unfold update_node.
  destruct (lookup_lt_is_Some_2 _ _ Hi) as [n Hn]. rewrite Hn.
  f_equal. apply with_nodes_ext.
  apply list_eq. intros j. destruct (decide (j = i)) as [->|Hne].
  - rewrite list_lookup_insert_eq by done. by rewrite list_lookup_alter_eq, Hn.
  - rewrite list_lookup_insert_ne by done. by rewrite list_lookup_alter_ne.
Qed.

Section Halve.
Variables (bf : Z) (len x : nat) (n : Node).

Lemma halve_kind j m : is_leaf (halve bf len x n j m) = is_leaf m.
Proof. unfold halve. by repeat (case_decide || case_match). Qed.

Lemma halve_b j m : node_b (halve bf len x n j m) = node_b m.
Proof. unfold halve. by repeat (case_decide || case_match). Qed.

Lemma halve_values j m :
  values (halve bf len x n j m)
  = if decide (j = x) then take (length (values n) / 2)%nat (values n) else values m.
Proof. unfold halve. by repeat (case_decide || case_match). Qed.

Lemma halve_ptrs j m :
  ptrs (halve bf len x n j m)
  = if decide (j = x) then take (left_cut bf (length (ptrs n))) (ptrs n) else ptrs m.
Proof. unfold halve. by repeat (case_decide || case_match). Qed.

Lemma halve_parent j m :
  parent (halve bf len x n j m)
  = if is_leaf n then parent m
    else if decide (j ∈ drop (left_cut bf (length (ptrs n))) (ptrs n))
         then Some len else parent m.
Proof. unfold halve. by repeat (case_decide || case_match). Qed.

Lemma halve_right_sibling j m :
  right_sibling (halve bf len x n j m)
  = if decide (j = x) then (if is_leaf n then Some len else None) else right_sibling m.
Proof. unfold halve. by repeat (case_decide || case_match). Qed.

Lemma halve_left_sibling j m :
  left_sibling (halve bf len x n j m)
  = if is_leaf n
    then if decide (right_sibling n = Some j) then Some len else left_sibling m
    else left_sibling m.
Proof. unfold halve. by repeat (case_decide || case_match). Qed.
End Halve.

Lemma split_halves_exact w x n :
  let len := length (nodes (tree w)) in
  nodes (tree w) !! x = Some n ->
  values n <> [] ->
  (is_leaf n = false -> Forall (fun c => (c < len)%nat) (ptrs n)) ->
  (forall s, right_sibling n = Some s -> (s < len)%nat) ->
  exists npv,
    values n !! (length (values n) / 2)%nat = Some npv
    /\ split_halves x w = Ok npv (halved x n w).
Proof.
  intros len Hx Hne Hkids Hsib.
  destruct (middle_value_Some n Hne) as [npv Hnpv].
  assert (Hxlt : (x < len)%nat) by (by eapply lookup_lt_Some).
  exists npv. split; [done |]. unfold split_halves.
  unfold bind at 1. unfold get_b at 1.
  unfold bind at 1. unfold node_at at 1. rewrite Hx.
  unfold bind at 1. unfold middle_value at 1. rewrite Hnpv. unfold ret at 1.
  unfold bind at 1. unfold nodes_len at 1. fold len.
  set (bf := b (tree w)).
  assert (Htail : forall g right,
    values (g x n) = values n -> ptrs (g x n) = ptrs n ->
    (node <- node_at x;;
     release x;;
     update_node x (set_values (take (length (values node) / 2)%nat (values node)));;
     update_node x
       (set_ptrs (if bf mod 2 =? 1
                  then take (length (ptrs node) / 2)%nat (ptrs node)
                  else take (length (ptrs node) / 2 + 1)%nat (ptrs node)));;
     append_node right;; ret npv)%py (with_nodes (imap g) w)
    = Ok npv (with_nodes (fun _ =>
        imap (fun j m => if decide (j = x)
                         then set_ptrs (take (left_cut bf (length (ptrs n))) (ptrs n))
                                (set_values (take (length (values n) / 2)%nat (values n))
                                   (g j m))
                         else g j m) (nodes (tree w)) ++ [right]) (released x w))).
  { intros g right Hgv Hgp.
    unfold bind at 1. rewrite node_at_with_nodes, list_lookup_imap, Hx. simpl.
    unfold bind at 1. unfold release at 1.
    rewrite (released_with_nodes_imap g x n w Hx Hgv Hgp).
    unfold bind at 1. rewrite update_node_imap by (simpl; rewrite ?length_imap; lia).
    unfold bind at 1. rewrite update_node_imap by (simpl; rewrite ?length_imap; lia).
    unfold bind, append_node, ret. rewrite !with_nodes_compose. f_equal.
    apply with_nodes_ext. f_equal.
    apply list_eq. intros j. rewrite !list_lookup_imap.
    change (tree (released x w)) with (tree w).
    destruct (nodes (tree w) !! j) as [m|]; simpl; [|done]. f_equal.
    rewrite Hgv, Hgp. unfold left_cut.
    destruct (decide (j = x)); destruct (bf mod 2 =? 1); done. }
  assert (Hfinal : forall g,
    (forall j m, (if decide (j = x)
                  then set_ptrs (take (left_cut bf (length (ptrs n))) (ptrs n))
                         (set_values (take (length (values n) / 2)%nat (values n)) (g j m))
                  else g j m) = halve bf len x n j m) ->
    Ok npv (with_nodes (fun _ =>
        imap (fun j m => if decide (j = x)
                         then set_ptrs (take (left_cut bf (length (ptrs n))) (ptrs n))
                                (set_values (take (length (values n) / 2)%nat (values n))
                                   (g j m))
                         else g j m) (nodes (tree w)) ++ [right_half bf x n])
              (released x w))
    = Ok npv (halved x n w)).
  { intros g Hg. f_equal. unfold halved. apply with_nodes_ext. f_equal.
    apply imap_ext. intros j m _. apply Hg. }
  destruct (is_leaf n) eqn:Hleaf.
  - unfold bind at 1. unfold bind at 1.
    destruct (right_sibling n) as [rs|] eqn:Hrs.
    + rewrite update_node_imap by (by apply Hsib).
      unfold bind at 1. rewrite update_node_after by done.
      unfold ret at 1.
      etransitivity; [apply Htail; simpl; by repeat case_decide |].
      replace (mkNode bf _ _ _ _ _ _) with (right_half bf x n)
        by (unfold right_half; by rewrite Hleaf, Hrs).
      apply Hfinal. intros j m. unfold halve. rewrite Hleaf, Hrs.
      destruct (decide (j = x)), (decide (j = rs));
        repeat (case_decide; simplify_eq); done.
    + unfold ret at 1. unfold bind at 1. rewrite update_node_imap by done.
      unfold ret at 1.
      etransitivity; [apply Htail; simpl; by repeat case_decide |].
      replace (mkNode bf _ _ _ _ _ _) with (right_half bf x n)
        by (unfold right_half; by rewrite Hleaf, Hrs).
      apply Hfinal. intros j m. unfold halve. rewrite Hleaf, Hrs.
      destruct (decide (j = x)); repeat (case_decide; simplify_eq); done.
  - unfold bind at 1. unfold bind at 1.
    rewrite update_node_imap by done.
    unfold bind at 1. rewrite reparent_after.
    2:{ fold len. destruct (bf mod 2 =? 1); eapply Forall_drop; by apply Hkids. }
    unfold ret at 1.
    etransitivity; [apply Htail; simpl; by repeat case_decide |].
    replace (mkNode bf _ _ _ _ _ _) with (right_half bf x n).
    2:{ unfold right_half, left_cut. rewrite Hleaf. by destruct (bf mod 2 =? 1). }
    apply Hfinal. intros j m. unfold halve. rewrite Hleaf. unfold left_cut.
    destruct (bf mod 2 =? 1); destruct (decide (j = x));
      repeat (case_decide; simplify_eq); done.
Qed.

Lemma halved_length x n w :
  length (nodes (tree (halved x n w))) = S (length (nodes (tree w))).
Proof. simpl. rewrite length_app, length_imap. simpl. lia. Qed.

Lemma halved_lookup x n w j m :
  nodes (tree w) !! j = Some m ->
  nodes (tree (halved x n w)) !! j
  = Some (halve (b (tree w)) (length (nodes (tree w))) x n j m).
Proof.
  intros Hm. simpl. rewrite lookup_app_l by (rewrite length_imap; by eapply lookup_lt_Some).
  by rewrite list_lookup_imap, Hm.
Qed.

Lemma halved_lookup_new x n w :
  nodes (tree (halved x n w)) !! length (nodes (tree w))
  = Some (right_half (b (tree w)) x n).
Proof. simpl. apply list_lookup_middle. by rewrite length_imap. Qed.

Lemma halved_lookup_inv x n w j m' :
  nodes (tree (halved x n w)) !! j = Some m' ->
  (exists m, nodes (tree w) !! j = Some m
             /\ m' = halve (b (tree w)) (length (nodes (tree w))) x n j m)
  \/ (j = length (nodes (tree w)) /\ m' = right_half (b (tree w)) x n).
Proof.
  intros Hm'. destruct (decide (j < length (nodes (tree w)))%nat) as [Hj|Hj].
  - destruct (lookup_lt_is_Some_2 _ _ Hj) as [m Hm]. left. exists m. split; [done |].
    rewrite (halved_lookup _ _ _ _ _ Hm) in Hm'. congruence.
  - right. apply lookup_lt_Some in Hm' as Hlt. rewrite halved_length in Hlt.
    assert (j = length (nodes (tree w))) as -> by lia.
    rewrite halved_lookup_new in Hm'. split; congruence.
Qed.

Lemma promoted_length npv p w : length (nodes (tree (promoted npv p w))) = length (nodes (tree w)).
Proof. simpl. apply length_alter. Qed.

Lemma promoted_lookup npv p w pm :
  nodes (tree w) !! p = Some pm ->
  nodes (tree (promoted npv p w)) !! p
  = Some (Node_insert npv (length (nodes (tree w)) - 1) None pm).
Proof. intros Hp. simpl. by rewrite list_lookup_alter_eq, Hp. Qed.

Lemma promoted_lookup_ne npv p w j :
  j <> p -> nodes (tree (promoted npv p w)) !! j = nodes (tree w) !! j.
Proof. intros Hj. simpl. by apply list_lookup_alter_ne. Qed.

Lemma grown_length npv x w : length (nodes (tree (grown npv x w))) = S (length (nodes (tree w))).
Proof. simpl. rewrite !length_alter, length_app. simpl. lia. Qed.

Lemma grown_lookup_root npv x w :
  let len := length (nodes (tree w)) in
  (x < len)%nat ->
  nodes (tree (grown npv x w)) !! len
  = Some (mkNode (b (tree w)) [npv] [x; (len - 1)%nat] None None None false).
Proof.
  intros len Hx. simpl. rewrite !list_lookup_alter_ne by (fold len; lia).
  by apply list_lookup_middle.
Qed.

Lemma grown_lookup_node npv x w m :
  let len := length (nodes (tree w)) in
  (x < len - 1)%nat -> nodes (tree w) !! x = Some m ->
  nodes (tree (grown npv x w)) !! x = Some (set_parent (Some len) m).
Proof.
  intros len Hx Hm. simpl. rewrite list_lookup_alter_ne by (fold len; lia).
  rewrite list_lookup_alter_eq, lookup_app_l by (fold len; lia). by rewrite Hm.
Qed.

Lemma grown_lookup_last npv x w m :
  let len := length (nodes (tree w)) in
  (x < len - 1)%nat -> nodes (tree w) !! (len - 1)%nat = Some m ->
  nodes (tree (grown npv x w)) !! (len - 1)%nat = Some (set_parent (Some len) m).
Proof.
  intros len Hx Hm. simpl. rewrite list_lookup_alter_eq.
  rewrite list_lookup_alter_ne by (fold len; lia).
  rewrite lookup_app_l by (fold len; lia). fold len. by rewrite Hm.
Qed.

Lemma grown_lookup_other npv x w j :
  let len := length (nodes (tree w)) in
  j <> x -> (j < len - 1)%nat ->
  nodes (tree (grown npv x w)) !! j = nodes (tree w) !! j.
Proof.
  intros len Hj Hlt. simpl. rewrite !list_lookup_alter_ne by (fold len; lia).
  apply lookup_app_l. fold len. lia.
Qed.

(** [split], one step at a time. *)
Lemma split_root_step fuel lvl w x n :
  wf lvl (tree w) ->
  nodes (tree w) !! x = Some n -> values n <> [] -> parent n = None ->
  exists npv,
    values n !! (length (values n) / 2)%nat = Some npv
    /\ split (S fuel) x w = Ok tt (grown npv x (halved x n w)).
Proof.
  intros Hwf Hx Hne Hpar.
  destruct (proj1 (wf_nodes _ _) Hwf x n Hx) as (_ & Hxc & Hxs).
  destruct (split_halves_exact w x n Hx Hne) as (npv & Hnpv & Hrun).
  { intros Hleaf. apply Forall_forall. intros c Hc. by apply Hxc. }
  { done. }
  assert (Hxlt : (x < length (nodes (tree w)))%nat) by (by eapply lookup_lt_Some).
  exists npv. split; [done |]. simpl. unfold bind at 1. rewrite Hrun.
  unfold bind at 1. unfold get_b at 1.
  unfold bind at 1. unfold node_at at 1. rewrite (halved_lookup _ _ _ _ _ Hx).
  rewrite halve_parent.
  assert (parent n = None /\ (is_leaf n = false ->
            x ∉ drop (left_cut (b (tree w)) (length (ptrs n))) (ptrs n))) as [-> Hnot].
  { split; [done |]. intros Hleaf Hin. apply elem_of_drop_1 in Hin.
    destruct (Hxc Hleaf x Hin). lia. }
  assert ((if is_leaf n then None
           else if decide (x ∈ drop (left_cut (b (tree w)) (length (ptrs n))) (ptrs n))
                then Some (length (nodes (tree w))) else None) = @None nat) as ->.
  { destruct (is_leaf n); [done |]. by rewrite decide_False by (by apply Hnot). }
  unfold bind at 1. unfold nodes_len at 1.
  unfold bind at 1. unfold append_node at 1.
  unfold bind at 1. unfold nodes_len at 1.
  unfold bind at 1. unfold set_root at 1.
  unfold bind at 1.
  rewrite update_node_alter.
  2:{ simpl. rewrite !length_app, length_imap. simpl. lia. }
  rewrite update_node_alter.
  2:{ simpl. rewrite length_alter, !length_app, length_imap. simpl. lia. }
  f_equal. unfold grown, with_nodes. simpl.
  rewrite !length_app, length_imap. simpl.
  replace (length (nodes (tree w)) + 1 + 1 - 1)%nat with (length (nodes (tree w)) + 1)%nat by lia.
  replace (length (nodes (tree w)) + 1 + 1 - 2)%nat with (length (nodes (tree w)) + 1 - 1)%nat by lia.
  reflexivity.
Qed.

Lemma split_parent_step fuel lvl w x n p :
  wf lvl (tree w) ->
  nodes (tree w) !! x = Some n -> values n <> [] -> parent n = Some p ->
  exists npv pm,
    values n !! (length (values n) / 2)%nat = Some npv
    /\ nodes (tree w) !! p = Some pm
    /\ let w2 := promoted npv p (halved x n w) in
       let pn := Node_insert npv (length (nodes (tree w))) None
                   (halve (b (tree w)) (length (nodes (tree w))) x n p pm) in
       nodes (tree w2) !! p = Some pn
       /\ split (S fuel) x w
          = if Z.of_nat (length (values pn)) =? b (tree w) then split fuel p w2 else Ok tt w2.
Proof.
  intros Hwf Hx Hne Hpar.
  destruct (proj1 (wf_nodes _ _) Hwf x n Hx) as (Hxp & Hxc & Hxs).
  destruct (Hxp p Hpar) as [Hplt Hplvl].
  destruct (lookup_lt_is_Some_2 _ _ Hplt) as [pm Hpm].
  destruct (split_halves_exact w x n Hx Hne) as (npv & Hnpv & Hrun).
  { intros Hleaf. apply Forall_forall. intros c Hc. by apply Hxc. }
  { done. }
  assert (Hxlt : (x < length (nodes (tree w)))%nat) by (by eapply lookup_lt_Some).
  exists npv, pm. split; [done |]. split; [done |].
  assert (Hpn : nodes (tree (promoted npv p (halved x n w))) !! p
                = Some (Node_insert npv (length (nodes (tree w))) None
                          (halve (b (tree w)) (length (nodes (tree w))) x n p pm))).
  { rewrite (promoted_lookup _ _ _ _ (halved_lookup _ _ _ _ _ Hpm)), halved_length.
    do 2 f_equal. lia. }
  split; [exact Hpn |].
  simpl. unfold bind at 1. rewrite Hrun.
  unfold bind at 1. unfold get_b at 1.
  unfold bind at 1. unfold node_at at 1. rewrite (halved_lookup _ _ _ _ _ Hx).
  rewrite halve_parent.
  assert ((if is_leaf n then parent n
           else if decide (x ∈ drop (left_cut (b (tree w)) (length (ptrs n))) (ptrs n))
                then Some (length (nodes (tree w))) else parent n) = Some p) as ->.
  { rewrite Hpar. destruct (is_leaf n) eqn:Hleaf; [done |].
    rewrite decide_False; [done |]. intros Hin%elem_of_drop_1.
    destruct (Hxc eq_refl x Hin). lia. }
  unfold bind at 1. unfold nodes_len at 1.
  unfold bind at 1. rewrite update_node_alter by (rewrite halved_length; lia).
  fold (promoted npv p (halved x n w)).
  unfold bind at 1. unfold node_at at 1. rewrite Hpn.
  change (b (tree (halved x n w))) with (b (tree w)). by case_match.
Qed.

Lemma promoted_insert npv p w pm :
  nodes (tree w) !! p = Some pm ->
  promoted npv p w
  = with_nodes (fun ns => <[p := Node_insert npv (length (nodes (tree w)) - 1) None pm]> ns) w.
Proof.
  intros Hp. unfold promoted. apply with_nodes_ext.
  apply list_eq. intros j. destruct (decide (j = p)) as [->|Hne].
  - rewrite list_lookup_alter_eq, Hp, list_lookup_insert_eq by (by eapply lookup_lt_Some). done.
  - by rewrite list_lookup_alter_ne, list_lookup_insert_ne.
Qed.

Lemma Node_insert_nonempty value ptr n : values (Node_insert value ptr None n) <> [].
Proof.
  intros Hnil. destruct (Node_insert_lengths value ptr n) as [Hl _].
  by rewrite Hnil in Hl.
Qed.

(** The arena after the step into the parent is in order again. *)
Lemma promoted_halved_valid bf lvl L w x n p pm npv :
  splittable bf lvl w x n -> bounded lvl L (tree w) ->
  values n !! (length (values n) / 2)%nat = Some npv ->
  parent n = Some p -> nodes (tree w) !! p = Some pm ->
  let len := length (nodes (tree w)) in
  let w2 := promoted npv p (halved x n w) in
  let lvl1 := with_level lvl len (lvl x) in
  let pn := Node_insert npv len None (halve bf len x n p pm) in
  p <> x /\ (lvl x < lvl p)%nat
  /\ nodes (tree w2) !! p = Some pn
  /\ length (values pn) = S (length (values pm))
  /\ (Z.of_nat (length (values pn)) = bf -> splittable bf lvl1 w2 p pn)
  /\ bounded lvl1 L (tree w2)
  /\ b (tree w2) = bf /\ wf lvl1 (tree w2) /\ Forall (node_shape bf) (nodes (tree w2)).
Proof.
  intros (Hbf & Hwf & Hshape & Hx & Hfull & Hne) Hbd Hnpv Hpar Hpm len w2 lvl1 pn.
  destruct (proj1 (wf_nodes _ _) Hwf x n Hx) as (Hxp & Hxc & Hxs).
  destruct (Hxp p Hpar) as [Hplt Hplvl]. fold len in Hplt.
  assert (Hpx : p <> x) by (intros ->; lia).
  assert (Hxlt : (x < len)%nat) by (by eapply lookup_lt_Some).
  destruct (split_halves_wf lvl L w x n Hwf Hbd Hx Hne)
    as (npv' & w1 & Hnpv' & Hrun & Hb1 & _ & _ & Hlen1 & Hwf1 & Hbd1 & _ & _).
  destruct (split_halves_exact w x n Hx Hne) as (npv'' & _ & Hrun').
  { intros Hleaf. apply Forall_forall. intros c Hc. by apply Hxc. }
  { done. }
  rewrite Hrun' in Hrun. injection Hrun as _ <-.
  fold len lvl1 in Hwf1, Hbd1.
  pose proof (halved_lookup x n w p pm Hpm) as Hp1. rewrite Hbf in Hp1. fold len in Hp1.
  assert (Hp2 : nodes (tree w2) !! p = Some pn).
  { unfold w2. rewrite (promoted_lookup _ _ _ _ Hp1), halved_length. unfold pn.
    do 2 f_equal. fold len. lia. }
  assert (Hw2 : w2 = with_nodes (fun ns => <[p := pn]> ns) (halved x n w)).
  { unfold w2. rewrite (promoted_insert _ _ _ _ Hp1), halved_length.
    unfold pn. fold len. by replace (S len - 1)%nat with len by lia. }
  assert (Hwf2 : wf lvl1 (tree w2)).
  { rewrite Hw2. apply insert_child_wf; [done | done | rewrite halved_length; fold len; lia |].
    unfold lvl1, with_level. rewrite decide_True by done. rewrite decide_False by lia. done. }
  assert (Hshape1 : Forall (node_shape bf) (nodes (tree (halved x n w)))).
  { destruct (node_shape_split bf x n) as [Hl Hr];
      [by eapply Forall_lookup_1 | done | done |].
    apply Forall_lookup. intros j m' [(m & Hm & ->)|[-> ->]]%halved_lookup_inv.
    - rewrite Hbf. destruct (decide (j = x)) as [->|Hj].
      + assert (m = n) as -> by congruence.
        apply (node_shape_ext bf (left_half bf n)); [| | | done].
        * rewrite halve_values. by rewrite decide_True.
        * rewrite halve_ptrs. by rewrite decide_True.
        * by rewrite halve_kind.
      + apply (node_shape_ext bf m); [| | | by eapply Forall_lookup_1].
        * rewrite halve_values. by rewrite decide_False.
        * rewrite halve_ptrs. by rewrite decide_False.
        * by rewrite halve_kind.
    - by rewrite Hbf. }
  assert (Hshape2 : Forall (node_shape bf) (nodes (tree w2))).
  { rewrite Hw2. simpl. apply Forall_insert; [exact Hshape1 |].
    apply node_shape_insert. by eapply Forall_lookup_1. }
  assert (Hlenpn : length (values pn) = S (length (values pm))).
  { unfold pn. destruct (Node_insert_lengths npv len (halve bf len x n p pm)) as [-> _].
    rewrite halve_values. by rewrite decide_False. }
  split; [done |]. split; [done |]. split; [done |]. split; [done |].
  split; [| split; [| split; [| split]]]; try done.
  - intros Hfull2. split; [exact Hbf |]. do 4 (split; [done |]).
    apply Node_insert_nonempty.
  - intros j. unfold w2. rewrite promoted_length. apply Hbd1.
Qed.

(** A property that every step of [split] hands on holds when [split]
    returns. *)
Section Split_rule.
Variable bf : Z.
Variable Pre : nat -> World -> Prop.
Variable Post : World -> Prop.

Hypothesis step_root : forall lvl w x n npv,
  splittable bf lvl w x n ->
  values n !! (length (values n) / 2)%nat = Some npv ->
  parent n = None ->
  Pre x w -> Post (grown npv x (halved x n w)).

Hypothesis step_parent : forall lvl w x n npv p pm,
  splittable bf lvl w x n ->
  values n !! (length (values n) / 2)%nat = Some npv ->
  parent n = Some p -> nodes (tree w) !! p = Some pm ->
  Pre x w ->
  if Z.of_nat (S (length (values pm))) =? bf
  then Pre p (promoted npv p (halved x n w))
  else Post (promoted npv p (halved x n w)).

Lemma split_rule : forall fuel lvl L w x n w',
  splittable bf lvl w x n -> bounded lvl L (tree w) ->
  Pre x w -> split fuel x w = Ok tt w' -> Post w'.
Proof.
  induction fuel as [|fuel IH]; intros lvl L w x n w' Hsp Hbd Hpre Hrun; [done |].
  pose proof Hsp as (Hbf & Hwf & Hshape & Hx & Hfull & Hne).
  destruct (parent n) as [p|] eqn:Hpar.
  - destruct (split_parent_step fuel lvl w x n p Hwf Hx Hne Hpar)
      as (npv & pm & Hnpv & Hpm & _ & Hstep).
    rewrite Hstep in Hrun. clear Hstep.
    destruct (promoted_halved_valid bf lvl L w x n p pm npv Hsp Hbd Hnpv Hpar Hpm)
      as (_ & _ & Hp2 & Hlen & Hsp2 & Hbd2 & _).
    pose proof (step_parent lvl w x n npv p pm Hsp Hnpv Hpar Hpm Hpre) as Hnext.
    rewrite Hbf in Hrun. rewrite Hlen in Hrun.
    destruct (Z.eqb_spec (Z.of_nat (S (length (values pm)))) bf) as [Hfull2|_].
    + eapply IH; [apply Hsp2; by rewrite Hlen | exact Hbd2 | exact Hnext | exact Hrun].
    + by injection Hrun as <-.
  - destruct (split_root_step fuel lvl w x n Hwf Hx Hne Hpar) as (npv & Hnpv & Hstep).
    rewrite Hstep in Hrun. injection Hrun as <-. by eapply step_root.
Qed.
End Split_rule.

Lemma planted_sound bf L w :
  sound bf L w -> pristine w -> root (tree w) = None -> sound bf L (planted w).
Proof.
  intros (Hbf & Hshape & Hrv & lvl & Hwf & Hbd) Hpr Hroot.
  unfold planted. rewrite (pristine_default_leaf _ _ Hpr Hroot).
  split; [done |].
  split; [apply Forall_app; split; [done |]; apply Forall_singleton;
          rewrite Hbf; apply node_shape_leaf |].
  split; [intros r' [= <-]; simpl; rewrite length_app; simpl; lia |].
  exists (with_level lvl (length (nodes (tree w))) 0). split.
  - apply wf_nodes. simpl. rewrite length_app. simpl. intros j m Hm.
    destruct (decide (j < length (nodes (tree w)))%nat) as [Hj|Hj].
    + rewrite lookup_app_l in Hm by done.
      eapply node_wf_mono; [by apply wf_nodes | lia | done |].
      intros i Hi. unfold with_level. case_decide; [lia | done].
    + apply lookup_lt_Some in Hm as Hj'. rewrite length_app in Hj'. simpl in Hj'.
      assert (j = length (nodes (tree w))) as -> by lia.
      rewrite list_lookup_middle in Hm by done. injection Hm as <-.
      by repeat split.
  - intros j. simpl. rewrite length_app. simpl. intros Hj.
    unfold with_level. case_decide; [lia |]. apply Hbd. lia.
Qed.

Lemma stored_insert value ptr index w n :
  nodes (tree w) !! index = Some n ->
  stored value ptr index w
  = with_nodes (fun ns => <[index := Node_insert value ptr None n]> ns) w.
Proof.
  intros Hn. unfold stored. apply with_nodes_ext.
  apply list_eq. intros j. destruct (decide (j = index)) as [->|Hne].
  - rewrite list_lookup_alter_eq, Hn, list_lookup_insert_eq by (by eapply lookup_lt_Some). done.
  - by rewrite list_lookup_alter_ne, list_lookup_insert_ne.
Qed.

Lemma stored_valid bf lvl w value ptr index n :
  b (tree w) = bf -> wf lvl (tree w) -> Forall (node_shape bf) (nodes (tree w)) ->
  nodes (tree w) !! index = Some n -> is_leaf n = true ->
  let w2 := stored value ptr index w in
  let n2 := Node_insert value ptr None n in
  nodes (tree w2) !! index = Some n2
  /\ length (values n2) = S (length (values n))
  /\ (Z.of_nat (length (values n2)) = bf -> splittable bf lvl w2 index n2)
  /\ wf lvl (tree w2) /\ Forall (node_shape bf) (nodes (tree w2))
  /\ length (nodes (tree w2)) = length (nodes (tree w)).
Proof.
  intros Hbf Hwf Hshape Hn Hleaf w2 n2.
  destruct (Node_insert_spec value ptr n) as (Hi_l & Hi_par & Hi_sib & Hi_v & _).
  fold n2 in Hi_l, Hi_par, Hi_sib, Hi_v.
  assert (Hn2 : nodes (tree w2) !! index = Some n2).
  { simpl. by rewrite list_lookup_alter_eq, Hn. }
  assert (Hlen2 : length (nodes (tree w2)) = length (nodes (tree w))).
  { simpl. apply length_alter. }
  assert (Hwf2 : wf lvl (tree w2)).
  { apply wf_nodes. rewrite Hlen2. intros j m Hm.
    destruct (decide (j = index)) as [->|Hj].
    - assert (m = n2) as -> by congruence.
      destruct (proj1 (wf_nodes _ _) Hwf index n Hn) as (Hq1 & _ & Hq3).
      split; [| split].
      + by rewrite Hi_par.
      + rewrite Hi_l, Hleaf. done.
      + by rewrite Hi_sib.
    - simpl in Hm. rewrite list_lookup_alter_ne in Hm by done. by apply wf_nodes. }
  assert (Hshape2 : Forall (node_shape bf) (nodes (tree w2))).
  { unfold w2. rewrite (stored_insert _ _ _ _ _ Hn). simpl.
    apply Forall_insert; [done |]. apply node_shape_insert. by eapply Forall_lookup_1. }
  split; [done |].
  split; [by destruct (Node_insert_lengths value ptr n) |].
  split; [| done].
  intros Hfull. split; [exact Hbf |]. do 4 (split; [done |]). apply Node_insert_nonempty.
Qed.

(** A property that every step of an insertion hands on holds for every
    tree built by insertions.  The property may speak of the pairs
    inserted so far. *)
Section Insert_rule.
Variable bf : Z.
Variable Inv : list (Z * nat) -> World -> Prop.
Variable Pre : list (Z * nat) -> nat -> World -> Prop.

Hypothesis step_plant : forall done L w,
  sound bf L w -> pristine w -> root (tree w) = None -> Inv done w -> Inv done (planted w).

Hypothesis step_store : forall done fuel L w value ptr index ops n,
  sound bf L w -> Inv done w ->
  _search fuel value w = Ok (index, ops) w ->
  nodes (tree w) !! index = Some n -> is_leaf n = true ->
  if Z.of_nat (S (length (values n))) =? bf
  then Pre (done ++ [(value, ptr)]) index (stored value ptr index w)
  else Inv (done ++ [(value, ptr)]) (stored value ptr index w).

Hypothesis step_root : forall done lvl w x n npv,
  splittable bf lvl w x n ->
  values n !! (length (values n) / 2)%nat = Some npv ->
  parent n = None ->
  Pre done x w -> Inv done (grown npv x (halved x n w)).

Hypothesis step_parent : forall done lvl w x n npv p pm,
  splittable bf lvl w x n ->
  values n !! (length (values n) / 2)%nat = Some npv ->
  parent n = Some p -> nodes (tree w) !! p = Some pm ->
  Pre done x w ->
  if Z.of_nat (S (length (values pm))) =? bf
  then Pre done p (promoted npv p (halved x n w))
  else Inv done (promoted npv p (halved x n w)).

Lemma insert_rule done fuel L value ptr w :
  sound bf L w -> pristine w -> Inv done w -> (L < fuel)%nat ->
  exists w', insert fuel value ptr w = Ok tt w'
             /\ sound bf (S L) w' /\ root (tree w') <> None
             /\ Inv (done ++ [(value, ptr)]) w'.
Proof.
  intros Hsound Hpr Hinv Hfuel.
  destruct (insert_total bf L fuel value ptr w Hsound Hpr Hfuel)
    as (w' & Hrun & Hsound' & Hroot').
  exists w'. split; [done |]. split; [done |]. split; [done |].
  unfold insert in Hrun.
  apply bind_Ok in Hrun as (bf' & ? & [= <- <-] & H).
  apply bind_Ok in H as (r & ? & [= <- <-] & H).
  apply bind_Ok in H as ([] & w0 & H0 & H).
  assert (sound bf L w0 /\ Inv done w0 /\ root (tree w0) <> None /\ b (tree w0) = b (tree w))
    as (Hsound0 & Hinv0 & Hroot0 & Hb0).
  { destruct (root (tree w)) as [r|] eqn:Hr.
    - injection H0 as <-. by rewrite Hr.
    - apply bind_Ok in H0 as ([] & ? & [= <-] & [= <-]).
      split; [by apply planted_sound |]. split; [by eapply step_plant |]. done. }
  rewrite <- Hb0 in H. clear H0 Hb0.
  apply bind_Ok in H as ([index ops] & w1 & Hs & H).
  destruct (search_leaf _ _ _ _ _ _ Hs) as (-> & n & Hn & Hleaf). simpl in H.
  pose proof Hsound0 as (Hbf & Hshape & Hrv & lvl & Hwf & Hbd).
  apply bind_Ok in H as ([] & w2 & Hu & H).
  rewrite update_node_alter in Hu by (by eapply lookup_lt_Some).
  injection Hu as <-. fold (stored value ptr index w0) in H.
  destruct (stored_valid bf lvl w0 value ptr index n Hbf Hwf Hshape Hn Hleaf)
    as (Hn2 & Hlen & Hsp2 & _ & _ & Hlen2).
  pose proof (step_store done fuel L w0 value ptr index ops n Hsound0 Hinv0 Hs Hn Hleaf)
    as Hnext.
  apply bind_Ok in H as (node & ? & Hnode & H). unfold node_at in Hnode.
  rewrite Hn2 in Hnode. injection Hnode as <- <-.
  change (b (tree (stored value ptr index w0))) with (b (tree w0)) in H.
  rewrite Hbf, Hlen in H.
  destruct (Z.eqb_spec (Z.of_nat (S (length (values n)))) bf) as [Hfull|_].
  - eapply (split_rule bf (Pre (done ++ [(value, ptr)])) (Inv (done ++ [(value, ptr)]))
              (step_root _) (step_parent _) fuel lvl L);
      [apply Hsp2; by rewrite Hlen | | exact Hnext | exact H].
    intros j. rewrite Hlen2. apply Hbd.
  - by injection H as <-.
Qed.

Lemma inserts_rule fuel script :
  forall done L w,
    sound bf L w -> pristine w -> Inv done w -> (L + length script <= fuel)%nat ->
    exists w', inserts fuel script w = Ok tt w'
               /\ sound bf (L + length script) w'
               /\ (script <> [] -> root (tree w') <> None)
               /\ Inv (done ++ script) w'.
Proof.
  induction script as [|[value ptr] script IH]; intros done L w Hsound Hpr Hinv Hfuel;
    simpl in *.
  - exists w. rewrite Nat.add_0_r, app_nil_r. done.
  - destruct (insert_rule done fuel L value ptr w Hsound Hpr Hinv)
      as (w1 & Hrun1 & Hsound1 & Hroot1 & Hinv1); [lia |].
    destruct (IH _ (S L) w1 Hsound1 (root_pristine _ Hroot1) Hinv1)
      as (w' & Hrun & Hsound' & Hroot' & Hinv'); [lia |].
    exists w'. unfold bind. rewrite Hrun1.
    replace (L + S (length script))%nat with (S L + length script)%nat by lia.
    rewrite <- app_assoc in Hinv'.
    split; [done |]. split; [done |]. split; [| done]. intros _.
    destruct script as [|e script]; [| by apply Hroot'].
    simpl in Hrun. by injection Hrun as <-.
Qed.

Lemma built_rule fuel script t :
  Inv [] (fresh bf) -> built fuel bf script = Some t ->
  exists w, tree w = t /\ Inv script w /\ sound bf (length script) w
            /\ (script <> [] -> root t <> None).
Proof.
  intros Hfresh Hbuilt.
  destruct (inserts_rule (max fuel (length script)) script [] 0%nat (fresh bf)
              (fresh_sound bf) (fresh_pristine bf) Hfresh)
    as (w & Hrun & Hsound & Hroot & Hinv); [simpl; lia |].
  exists w.
  assert (built (max fuel (length script)) bf script = Some (tree w)) as Hb'
    by (unfold built; by rewrite Hrun).
  apply (built_more_fuel _ (max fuel (length script))) in Hbuilt; [| lia].
  assert (t = tree w) as -> by congruence. done.
Qed.
End Insert_rule.

Lemma step_parent_lookup w x n p pm npv j :
  let len := length (nodes (tree w)) in
  let bf := b (tree w) in
  nodes (tree w) !! p = Some pm ->
  nodes (tree (promoted npv p (halved x n w))) !! j
  = if decide (j = len) then Some (right_half bf x n)
    else (fun m => if decide (j = p)
                   then Node_insert npv len None (halve bf len x n j m)
                   else halve bf len x n j m) <$> nodes (tree w) !! j.
Proof.
  intros len bf Hp. assert (Hplt : (p < len)%nat) by (by eapply lookup_lt_Some).
  destruct (decide (j = len)) as [->|Hj].
  - rewrite promoted_lookup_ne by lia. apply halved_lookup_new.
  - destruct (decide (j = p)) as [->|Hjp].
    + rewrite (promoted_lookup _ _ _ _ (halved_lookup _ _ _ _ _ Hp)).
      rewrite Hp. simpl. do 2 f_equal. rewrite length_app, length_imap. simpl. fold len. lia.
    + rewrite promoted_lookup_ne by done.
      destruct (nodes (tree w) !! j) as [m|] eqn:Hm; simpl.
      * by apply halved_lookup.
      * apply lookup_ge_None. rewrite length_app, length_imap. simpl.
        apply lookup_ge_None in Hm. fold len. lia.
Qed.

Lemma step_root_lookup w x n npv j :
  let len := length (nodes (tree w)) in
  let bf := b (tree w) in
  (x < len)%nat ->
  nodes (tree (grown npv x (halved x n w))) !! j
  = if decide (j = S len)
    then Some (mkNode bf [npv] [x; len] None None None false)
    else if decide (j = len)
         then Some (set_parent (Some (S len)) (right_half bf x n))
         else (fun m => if decide (j = x)
                        then set_parent (Some (S len)) (halve bf len x n j m)
                        else halve bf len x n j m) <$> nodes (tree w) !! j.
Proof.
  intros len bf Hx.
  change (nodes (tree (grown npv x (halved x n w)))) with
    (alter (set_parent (Some (length (nodes (tree (halved x n w))))))
       (length (nodes (tree (halved x n w))) - 1)%nat
       (alter (set_parent (Some (length (nodes (tree (halved x n w)))))) x
          (nodes (tree (halved x n w))
           ++ [mkNode bf [npv] [x; (length (nodes (tree (halved x n w))) - 1)%nat]
                 None None None false]))).
  rewrite halved_length. fold len. replace (S len - 1)%nat with len by lia.
  rewrite !list_lookup_alter.
  destruct (decide (j = S len)) as [->|Hj].
  - rewrite decide_False by lia. rewrite decide_False by lia.
    apply list_lookup_middle. by rewrite halved_length.
  - destruct (decide (j = len)) as [->|Hjl].
    + rewrite decide_True by done. rewrite decide_False by lia.
      rewrite lookup_app_l by (rewrite halved_length; fold len; lia).
      unfold len. by rewrite halved_lookup_new.
    + rewrite decide_False by lia.
      destruct (nodes (tree w) !! j) as [m|] eqn:Hm.
      * apply lookup_lt_Some in Hm as Hjlt. fold len in Hjlt.
        destruct (decide (x = j)) as [<-|Hjx].
        -- rewrite lookup_app_l by (rewrite halved_length; fold len; lia).
           rewrite (halved_lookup _ _ _ _ _ Hm). simpl. by rewrite decide_True.
        -- rewrite lookup_app_l by (rewrite halved_length; fold len; lia).
           rewrite (halved_lookup _ _ _ _ _ Hm). simpl. by rewrite decide_False.
      * apply lookup_ge_None in Hm. fold len in Hm.
        rewrite decide_False by lia. apply lookup_ge_None.
        rewrite length_app, halved_length. simpl. fold len. lia.
Qed.

(** *** Lists *)

Lemma py_insert_perm {A} (i : nat) (x : A) (l : list A) : py_insert i x l ≡ₚ x :: l.
Proof.
  unfold py_insert. rewrite <- Permutation_middle. by rewrite take_drop.
Qed.

Lemma Node_insert_ptrs_perm value ptr n :
  ptrs (Node_insert value ptr None n) ≡ₚ ptr :: ptrs n.
Proof.
  unfold Node_insert. destruct (first_greater value (values n) 0); simpl.
  - apply py_insert_perm.
  - by rewrite Permutation_app_comm.
Qed.

Lemma NoDup_take_drop {A} (k : nat) (l : list A) :
  NoDup l -> NoDup (take k l) /\ NoDup (drop k l)
             /\ forall x, x ∈ take k l -> x ∉ drop k l.
Proof.
  intros H. rewrite <- (take_drop k l) in H. apply NoDup_app in H as (? & ? & ?). done.
Qed.

Lemma elem_of_take_drop {A} (k : nat) (l : list A) (x : A) :
  x ∈ l <-> x ∈ take k l \/ x ∈ drop k l.
Proof. by rewrite <- elem_of_app, take_drop. Qed.

Lemma promoted_nodes w x n npv p pm :
  let len := length (nodes (tree w)) in
  let bf := b (tree w) in
  nodes (tree w) !! p = Some pm ->
  nodes (tree (promoted npv p (halved x n w)))
  = imap (after_promoted bf len x n npv p) (nodes (tree w)) ++ [right_half bf x n].
Proof.
  intros len bf Hp. apply list_eq. intros j.
  rewrite (step_parent_lookup w x n p pm npv j Hp). fold len bf.
  destruct (decide (j = len)) as [->|Hj].
  - symmetry. apply list_lookup_middle. by rewrite length_imap.
  - destruct (nodes (tree w) !! j) as [m|] eqn:Hm; simpl.
    + rewrite lookup_app_l by (rewrite length_imap; by eapply lookup_lt_Some).
      by rewrite list_lookup_imap, Hm.
    + symmetry. apply lookup_ge_None. rewrite length_app, length_imap. simpl.
      apply lookup_ge_None in Hm. fold len in Hm. lia.
Qed.

Lemma grown_nodes w x n npv :
  let len := length (nodes (tree w)) in
  let bf := b (tree w) in
  (x < len)%nat ->
  nodes (tree (grown npv x (halved x n w)))
  = imap (after_grown bf len x n) (nodes (tree w))
    ++ [set_parent (Some (S len)) (right_half bf x n);
        mkNode bf [npv] [x; len] None None None false].
Proof.
  intros len bf Hx. apply list_eq. intros j.
  rewrite (step_root_lookup w x n npv j Hx). fold len bf.
  destruct (decide (j = S len)) as [->|Hj].
  - symmetry. rewrite lookup_app_r by (rewrite length_imap; fold len; lia).
    rewrite length_imap. fold len. by replace (S len - len)%nat with 1%nat by lia.
  - destruct (decide (j = len)) as [->|Hjl].
    + symmetry. rewrite lookup_app_r by (rewrite length_imap; fold len; lia).
      rewrite length_imap. fold len. by rewrite Nat.sub_diag.
    + destruct (nodes (tree w) !! j) as [m|] eqn:Hm; simpl.
      * rewrite lookup_app_l by (rewrite length_imap; by eapply lookup_lt_Some).
        by rewrite list_lookup_imap, Hm.
      * symmetry. apply lookup_ge_None. rewrite length_app, length_imap. simpl.
        apply lookup_ge_None in Hm. fold len in Hm. lia.
Qed.

Section After.
Variables (bf : Z) (len x : nat) (n : Node) (npv : Z) (p : nat).

Lemma after_promoted_kind j m : is_leaf (after_promoted bf len x n npv p j m) = is_leaf m.
Proof.
  unfold after_promoted. destruct (decide (j = p)); [| apply halve_kind].
  destruct (Node_insert_spec npv len (halve bf len x n j m)) as (-> & _). apply halve_kind.
Qed.

Lemma after_promoted_parent j m :
  parent (after_promoted bf len x n npv p j m) = parent (halve bf len x n j m).
Proof.
  unfold after_promoted. destruct (decide (j = p)); [| done].
  by destruct (Node_insert_spec npv len (halve bf len x n j m)) as (_ & -> & _).
Qed.

Lemma after_promoted_right_sibling j m :
  right_sibling (after_promoted bf len x n npv p j m) = right_sibling (halve bf len x n j m).
Proof.
  unfold after_promoted. destruct (decide (j = p)); [| done].
  by destruct (Node_insert_spec npv len (halve bf len x n j m)) as (_ & _ & -> & _).
Qed.

Lemma after_promoted_left_sibling j m :
  left_sibling (after_promoted bf len x n npv p j m) = left_sibling (halve bf len x n j m).
Proof.
  unfold after_promoted. destruct (decide (j = p)); [| done].
  unfold Node_insert. by destruct (first_greater _ _ _).
Qed.

Lemma after_promoted_values j m :
  p <> x ->
  values (after_promoted bf len x n npv p j m)
  = if decide (j = x) then take (length (values n) / 2)%nat (values n)
    else if decide (j = p) then inserted npv (values m) else values m.
Proof.
  intros Hpx. unfold after_promoted. destruct (decide (j = p)) as [->|Hjp].
  - rewrite Node_insert_values, halve_values. by rewrite !decide_False by done.
  - rewrite halve_values. by destruct (decide (j = x)).
Qed.

Lemma after_promoted_ptrs j m c :
  c ∈ ptrs (after_promoted bf len x n npv p j m)
  <-> (j = p /\ c = len) \/ c ∈ ptrs (halve bf len x n j m).
Proof.
  unfold after_promoted. destruct (decide (j = p)) as [->|Hjp].
  - rewrite (Node_insert_ptrs_perm npv len _ : _ ≡ₚ _), elem_of_cons.
    split; [intros [->|?]; [by left | by right] | intros [[_ ->]|?]; [by left | by right]].
  - split; [by right | by intros [[? _]|?]].
Qed.

Lemma after_promoted_leaf j m :
  is_leaf m = true -> j <> p -> after_promoted bf len x n npv p j m = halve bf len x n j m.
Proof. intros _ Hj. unfold after_promoted. by rewrite decide_False. Qed.

Lemma after_grown_kind j m : is_leaf (after_grown bf len x n j m) = is_leaf m.
Proof. unfold after_grown. destruct (decide (j = x)); simpl; apply halve_kind. Qed.

Lemma after_grown_values j m :
  values (after_grown bf len x n j m) = values (halve bf len x n j m).
Proof. unfold after_grown. by destruct (decide (j = x)). Qed.

Lemma after_grown_ptrs j m :
  ptrs (after_grown bf len x n j m) = ptrs (halve bf len x n j m).
Proof. unfold after_grown. by destruct (decide (j = x)). Qed.

Lemma after_grown_right_sibling j m :
  right_sibling (after_grown bf len x n j m) = right_sibling (halve bf len x n j m).
Proof. unfold after_grown. by destruct (decide (j = x)). Qed.

Lemma after_grown_left_sibling j m :
  left_sibling (after_grown bf len x n j m) = left_sibling (halve bf len x n j m).
Proof. unfold after_grown. by destruct (decide (j = x)). Qed.
End After.

(** *** Parent links and child lists *)

Lemma linked_fresh bf : linked (Btree_init bf).
Proof. split; simpl; intros; by simplify_eq. Qed.

Lemma planted_tree w :
  pristine w -> root (tree w) = None ->
  tree (planted w)
  = mkBtree (b (tree w))
      (nodes (tree w) ++ [mkNode (b (tree w)) [] [] None None None true]) (Some 0%nat).
Proof. intros Hpr Hroot. unfold planted. by rewrite (pristine_default_leaf _ _ Hpr Hroot). Qed.

Lemma linked_planted w :
  linked (tree w) -> pristine w -> root (tree w) = None -> linked (tree (planted w)).
Proof.
  intros Hlk Hpr Hroot. pose proof (lk_none _ Hlk Hroot) as Hnil.
  rewrite (planted_tree w Hpr Hroot).
  split; simpl; rewrite Hnil; simpl.
  - intros [|j] n p; simpl; [by intros [= <-] | done].
  - intros [|j] pn c; simpl; [by intros [= <-] | done].
  - intros [|j] pn; simpl; [by intros [= <-] | done].
  - intros [|j] n; simpl; [done | done].
  - intros r [= <-]. eauto.
  - done.
Qed.

Lemma linked_stored value ptr index w n :
  linked (tree w) -> nodes (tree w) !! index = Some n -> is_leaf n = true ->
  linked (tree (stored value ptr index w)).
Proof.
  intros Hlk Hn Hleaf.
  destruct (Node_insert_spec value ptr n) as (Hi_l & Hi_par & _).
  assert (Hlook : forall j m', nodes (tree (stored value ptr index w)) !! j = Some m' ->
            exists m, nodes (tree w) !! j = Some m /\ is_leaf m' = is_leaf m
                      /\ parent m' = parent m /\ (is_leaf m = false -> m' = m)).
  { intros j m'. simpl. rewrite list_lookup_alter. destruct (decide (index = j)) as [<-|Hj].
    - rewrite Hn. intros [= <-]. exists n. rewrite Hi_l, Hi_par, Hleaf. done.
    - intros Hm. by exists m'. }
  assert (Hback : forall j m, nodes (tree w) !! j = Some m ->
            exists m', nodes (tree (stored value ptr index w)) !! j = Some m'
                       /\ is_leaf m' = is_leaf m /\ parent m' = parent m
                       /\ (is_leaf m = false -> m' = m)).
  { intros j m Hm. simpl. rewrite list_lookup_alter. destruct (decide (index = j)) as [<-|Hj].
    - rewrite Hn. assert (m = n) as -> by congruence. eexists. split; [done |].
      rewrite Hi_l, Hi_par, Hleaf. done.
    - by exists m. }
  split.
  - intros j n' p Hn' Hpar.
    destruct (Hlook j n' Hn') as (m & Hm & _ & Hp & _). rewrite Hp in Hpar.
    destruct (lk_parent _ Hlk j m p Hm Hpar) as (pn & Hpn & Hpl & Hin).
    destruct (Hback p pn Hpn) as (pn' & Hpn' & Hl' & _ & Heq).
    rewrite (Heq Hpl) in Hpn'. eauto.
  - intros p pn' c Hpn' Hpl Hin.
    destruct (Hlook p pn' Hpn') as (pn & Hpn & Hl & _ & Heq). rewrite Hl in Hpl.
    rewrite (Heq Hpl) in Hin.
    destruct (lk_child _ Hlk p pn c Hpn Hpl Hin) as (m & Hm & Hp).
    destruct (Hback c m Hm) as (m' & Hm' & _ & Hp' & _). exists m'. by rewrite Hp'.
  - intros p pn' Hpn' Hpl.
    destruct (Hlook p pn' Hpn') as (pn & Hpn & Hl & _ & Heq). rewrite Hl in Hpl.
    rewrite (Heq Hpl). by eapply lk_nodup.
  - intros j n' Hn' Hpar.
    destruct (Hlook j n' Hn') as (m & Hm & _ & Hp & _). rewrite Hp in Hpar.
    by eapply (lk_top _ Hlk).
  - intros r Hr. destruct (lk_root _ Hlk r Hr) as (m & Hm & Hp).
    destruct (Hback r m Hm) as (m' & Hm' & _ & Hp' & _). exists m'. by rewrite Hp'.
  - intros Hr. simpl in Hr. pose proof (lk_none _ Hlk Hr) as Hnil. by rewrite Hnil in Hn.
Qed.

Lemma linked_promoted bf lvl w x n npv p pm :
  splittable bf lvl w x n ->
  parent n = Some p -> nodes (tree w) !! p = Some pm ->
  linked (tree w) -> linked (tree (promoted npv p (halved x n w))).
Proof.
  intros (Hbf & Hwf & Hshape & Hx & Hfull & Hne) Hpar Hpm Hlk.
  set (len := length (nodes (tree w))).
  set (D := drop (left_cut bf (length (ptrs n))) (ptrs n)).
  set (after := fun j m => if decide (j = p)
                           then Node_insert npv len None (halve bf len x n j m)
                           else halve bf len x n j m).
  pose proof (proj1 (wf_nodes _ _) Hwf) as Hnodes.
  destruct (Hnodes x n Hx) as (Hxp & Hxc & _).
  destruct (Hxp p Hpar) as [Hplt Hplvl]. fold len in Hplt.
  assert (Hxlt : (x < len)%nat) by (by eapply lookup_lt_Some).
  assert (Hpx : p <> x) by (intros ->; lia).
  destruct (lk_parent _ Hlk x n p Hx Hpar) as (pm' & Hpm' & Hpleaf & Hxin).
  assert (pm' = pm) as -> by congruence. clear Hpm'.
  assert (Hlook : forall j,
            nodes (tree (promoted npv p (halved x n w))) !! j
            = if decide (j = len) then Some (right_half bf x n)
              else after j <$> nodes (tree w) !! j).
  { intros j. rewrite (step_parent_lookup w x n p pm npv j Hpm). by rewrite Hbf. }
  assert (Hkind : forall j m, is_leaf (after j m) = is_leaf m).
  { intros j m. unfold after. case_decide; [| apply halve_kind].
    destruct (Node_insert_spec npv len (halve bf len x n j m)) as (-> & _). apply halve_kind. }
  assert (Hkids : is_leaf n = false -> forall c, c ∈ ptrs n ->
            (c < len)%nat /\ c <> p /\ c <> x
            /\ exists cm, nodes (tree w) !! c = Some cm /\ parent cm = Some x).
  { intros Hleaf c Hc. destruct (Hxc Hleaf c Hc) as [Hclt Hclvl].
    split; [done |]. split; [intros ->; lia |]. split; [intros ->; lia |].
    by eapply (lk_child _ Hlk). }
  assert (Hparent : forall j m, nodes (tree w) !! j = Some m ->
            parent (after j m)
            = if decide (is_leaf n = false /\ j ∈ D) then Some len else parent m).
  { intros j m Hm.
    assert (parent (after j m) = parent (halve bf len x n j m)) as ->.
    { unfold after. case_decide; [| done].
      by destruct (Node_insert_spec npv len (halve bf len x n j m)) as (_ & -> & _). }
    rewrite halve_parent. fold D. destruct (is_leaf n).
    - rewrite decide_False; [done | by intros [? _]].
    - destruct (decide (j ∈ D)).
      + by rewrite decide_True.
      + rewrite decide_False; [done | by intros [_ ?]]. }
  assert (Hptrs : forall j m c, nodes (tree w) !! j = Some m -> is_leaf m = false ->
            c ∈ ptrs (after j m)
            <-> (j = p /\ c = len) \/ (j = x /\ c ∈ ptrs n /\ c ∉ D) \/ (j <> x /\ c ∈ ptrs m)).
  { intros j m c Hm Hleaf. unfold after. destruct (decide (j = p)) as [->|Hjp].
    - rewrite (Node_insert_ptrs_perm npv len _ : _ ≡ₚ _), halve_ptrs.
      rewrite decide_False by done. rewrite elem_of_cons.
      split; [intros [->|Hc]; [by left | right; by right]
             | intros [[_ ->]|[[? _]|[_ ?]]]; [by left | done | by right]].
    - rewrite halve_ptrs. destruct (decide (j = x)) as [->|Hjx].
      + assert (m = n) as -> by congruence.
        destruct (NoDup_take_drop (left_cut bf (length (ptrs n))) (ptrs n)) as (_ & _ & Hdisj);
          [by eapply (lk_nodup _ Hlk) |].
        rewrite (elem_of_take_drop (left_cut bf (length (ptrs n))) (ptrs n) c). fold D.
        split.
        * intros Hc. right. left. split; [done |]. split; [by left | by apply Hdisj].
        * intros [[? _]|[(_ & [Hc|Hc] & Hn)|[? _]]]; done.
      + split; [intros ?; right; by right | intros [[? _]|[[? _]|[_ ?]]]; done]. }
  assert (Hnodup : forall j m, nodes (tree w) !! j = Some m -> is_leaf m = false ->
            NoDup (ptrs (after j m))).
  { intros j m Hm Hleaf. pose proof (lk_nodup _ Hlk j m Hm Hleaf) as Hnd.
    unfold after. destruct (decide (j = p)) as [->|Hjp].
    - rewrite (Node_insert_ptrs_perm npv len _ : _ ≡ₚ _), halve_ptrs.
      rewrite decide_False by done. apply NoDup_cons. split; [| done].
      intros Hin. destruct (proj1 (wf_nodes _ _) Hwf p m Hm) as (_ & Hc & _).
      destruct (Hc Hleaf len Hin). fold len in H. lia.
    - rewrite halve_ptrs. destruct (decide (j = x)) as [->|Hjx]; [| done].
      assert (m = n) as -> by congruence.
      by destruct (NoDup_take_drop (left_cut bf (length (ptrs n))) (ptrs n) Hnd). }
  assert (Hold : forall j m, nodes (tree w) !! j = Some m ->
            nodes (tree (promoted npv p (halved x n w))) !! j = Some (after j m)).
  { intros j m Hm. rewrite Hlook, Hm. rewrite decide_False; [done |].
    apply lookup_lt_Some in Hm. fold len in Hm. lia. }
  assert (Hnew : nodes (tree (promoted npv p (halved x n w))) !! len = Some (right_half bf x n)).
  { rewrite Hlook. by rewrite decide_True. }
  assert (Hinv : forall j n', nodes (tree (promoted npv p (halved x n w))) !! j = Some n' ->
            (j = len /\ n' = right_half bf x n)
            \/ exists m, nodes (tree w) !! j = Some m /\ n' = after j m).
  { intros j n'. rewrite Hlook. destruct (decide (j = len)) as [->|Hj].
    - intros [= <-]. by left.
    - destruct (nodes (tree w) !! j) as [m|]; [| done]. intros [= <-]. right. eauto. }
  assert (Hrh_parent : parent (right_half bf x n) = Some p).
  { unfold right_half. destruct (is_leaf n); simpl; done. }
  assert (Hrh_kind : is_leaf (right_half bf x n) = is_leaf n).
  { unfold right_half. by destruct (is_leaf n). }
  assert (Hrh_ptrs : is_leaf n = false -> ptrs (right_half bf x n) = D).
  { intros Hl. unfold right_half. by rewrite Hl. }
  split.
  - (* the parent of a node lists it *)
    intros j n' q Hn' Hq. destruct (Hinv j n' Hn') as [[-> ->]|(m & Hm & ->)].
    + rewrite Hrh_parent in Hq. injection Hq as <-.
      exists (after p pm). split; [by apply Hold |]. split; [by rewrite Hkind |].
      apply (Hptrs p pm len Hpm Hpleaf). by left.
    + rewrite (Hparent j m Hm) in Hq.
      destruct (decide (is_leaf n = false /\ j ∈ D)) as [[Hl Hin]|Hnot].
      * injection Hq as <-. exists (right_half bf x n).
        split; [done |]. split; [by rewrite Hrh_kind |]. by rewrite Hrh_ptrs.
      * destruct (lk_parent _ Hlk j m q Hm Hq) as (qm & Hqm & Hql & Hin).
        exists (after q qm). split; [by apply Hold |]. split; [by rewrite Hkind |].
        apply (Hptrs q qm j Hqm Hql). destruct (decide (q = x)) as [->|Hqx].
        -- assert (qm = n) as -> by congruence. right. left.
           split; [done |]. split; [done |]. intros HD. apply Hnot. done.
        -- right. right. done.
  - (* an internal node is the parent of the nodes it lists *)
    intros q qn' c Hqn' Hql Hc. destruct (Hinv q qn' Hqn') as [[-> ->]|(qm & Hqm & ->)].
    + rewrite Hrh_kind in Hql. rewrite (Hrh_ptrs Hql) in Hc.
      destruct (Hkids Hql c (elem_of_drop_1 _ _ _ Hc)) as (Hclt & Hcp & Hcx & cm & Hcm & Hcpar).
      exists (after c cm). split; [by apply Hold |].
      rewrite (Hparent c cm Hcm). by rewrite decide_True.
    + rewrite Hkind in Hql.
      apply (Hptrs q qm c Hqm Hql) in Hc as [[-> ->]|[(-> & Hc & HD)|[Hqx Hc]]].
      * exists (right_half bf x n). done.
      * assert (qm = n) as -> by congruence.
        destruct (Hkids Hql c Hc) as (Hclt & Hcp & Hcx & cm & Hcm & Hcpar).
        exists (after c cm). split; [by apply Hold |].
        rewrite (Hparent c cm Hcm). rewrite decide_False; [done | by intros [_ ?]].
      * destruct (lk_child _ Hlk q qm c Hqm Hql Hc) as (cm & Hcm & Hcpar).
        exists (after c cm). split; [by apply Hold |].
        rewrite (Hparent c cm Hcm). rewrite decide_False; [done |].
        intros [Hl HD]. destruct (Hkids Hl c (elem_of_drop_1 _ _ _ HD)) as (_ & _ & _ & cm' & Hcm' & Hcpar').
        congruence.
  - (* no child is listed twice *)
    intros q qn' Hqn' Hql. destruct (Hinv q qn' Hqn') as [[-> ->]|(qm & Hqm & ->)].
    + rewrite Hrh_kind in Hql. rewrite (Hrh_ptrs Hql).
      by destruct (NoDup_take_drop (left_cut bf (length (ptrs n))) (ptrs n)
                     (lk_nodup _ Hlk x n Hx Hql)) as (_ & ? & _).
    + rewrite Hkind in Hql. by apply Hnodup.
  - (* a node without a parent is the root *)
    intros j n' Hn' Hnone. destruct (Hinv j n' Hn') as [[-> ->]|(m & Hm & ->)].
    + by rewrite Hrh_parent in Hnone.
    + rewrite (Hparent j m Hm) in Hnone. case_decide; [done |].
      by apply (lk_top _ Hlk j m).
  - (* the root has no parent *)
    intros r Hr. destruct (lk_root _ Hlk r Hr) as (m & Hm & Hnone).
    exists (after r m). split; [by apply Hold |].
    rewrite (Hparent r m Hm). rewrite decide_False; [done |].
    intros [Hl HD]. destruct (Hkids Hl r (elem_of_drop_1 _ _ _ HD)) as (_ & _ & _ & cm' & Hcm' & Hcpar').
    congruence.
  - intros Hr. pose proof (lk_none _ Hlk Hr) as Hnil. by rewrite Hnil in Hx.
Qed.

Lemma linked_grown bf lvl w x n npv :
  splittable bf lvl w x n ->
  parent n = None ->
  linked (tree w) -> linked (tree (grown npv x (halved x n w))).
Proof.
  intros (Hbf & Hwf & Hshape & Hx & Hfull & Hne) Hpar Hlk.
  set (len := length (nodes (tree w))).
  set (D := drop (left_cut bf (length (ptrs n))) (ptrs n)).
  set (after := fun j m => if decide (j = x)
                           then set_parent (Some (S len)) (halve bf len x n j m)
                           else halve bf len x n j m).
  set (newroot := mkNode bf [npv] [x; len] None None None false).
  set (rh := set_parent (Some (S len)) (right_half bf x n)).
  pose proof (proj1 (wf_nodes _ _) Hwf) as Hnodes.
  destruct (Hnodes x n Hx) as (_ & Hxc & _).
  assert (Hxlt : (x < len)%nat) by (by eapply lookup_lt_Some).
  pose proof (lk_top _ Hlk x n Hx Hpar) as Hroot.
  assert (Hlook : forall j,
            nodes (tree (grown npv x (halved x n w))) !! j
            = if decide (j = S len) then Some newroot
              else if decide (j = len) then Some rh
                   else after j <$> nodes (tree w) !! j).
  { intros j. rewrite (step_root_lookup w x n npv j Hxlt). by rewrite Hbf. }
  assert (Hkind : forall j m, is_leaf (after j m) = is_leaf m).
  { intros j m. unfold after. destruct (decide (j = x)); simpl; apply halve_kind. }
  assert (Hkids : is_leaf n = false -> forall c, c ∈ ptrs n ->
            (c < len)%nat /\ c <> x
            /\ exists cm, nodes (tree w) !! c = Some cm /\ parent cm = Some x).
  { intros Hleaf c Hc. destruct (Hxc Hleaf c Hc) as [Hclt Hclvl].
    split; [done |]. split; [intros ->; lia |].
    by eapply (lk_child _ Hlk). }
  assert (Hparent : forall j m, nodes (tree w) !! j = Some m ->
            parent (after j m)
            = if decide (j = x) then Some (S len)
              else if decide (is_leaf n = false /\ j ∈ D) then Some len else parent m).
  { intros j m Hm. unfold after. destruct (decide (j = x)); [done |].
    rewrite halve_parent. fold D. destruct (is_leaf n).
    - rewrite decide_False; [done | by intros [? _]].
    - destruct (decide (j ∈ D)).
      + by rewrite decide_True.
      + rewrite decide_False; [done | by intros [_ ?]]. }
  assert (Hptrs : forall j m c, nodes (tree w) !! j = Some m -> is_leaf m = false ->
            c ∈ ptrs (after j m)
            <-> (j = x /\ c ∈ ptrs n /\ c ∉ D) \/ (j <> x /\ c ∈ ptrs m)).
  { intros j m c Hm Hleaf.
    assert (ptrs (after j m) = ptrs (halve bf len x n j m)) as ->
      by (unfold after; by destruct (decide (j = x))).
    rewrite halve_ptrs. destruct (decide (j = x)) as [->|Hjx].
    - assert (m = n) as -> by congruence.
      destruct (NoDup_take_drop (left_cut bf (length (ptrs n))) (ptrs n)) as (_ & _ & Hdisj);
        [by eapply (lk_nodup _ Hlk) |].
      rewrite (elem_of_take_drop (left_cut bf (length (ptrs n))) (ptrs n) c). fold D.
      split.
      + intros Hc. left. split; [done |]. split; [by left | by apply Hdisj].
      + intros [(_ & [Hc|Hc] & Hn)|[? _]]; done.
    - split; [intros ?; by right | intros [[? _]|[_ ?]]; done]. }
  assert (Hnodup : forall j m, nodes (tree w) !! j = Some m -> is_leaf m = false ->
            NoDup (ptrs (after j m))).
  { intros j m Hm Hleaf. pose proof (lk_nodup _ Hlk j m Hm Hleaf) as Hnd.
    assert (ptrs (after j m) = ptrs (halve bf len x n j m)) as ->
      by (unfold after; by destruct (decide (j = x))).
    rewrite halve_ptrs. destruct (decide (j = x)) as [->|Hjx]; [| done].
    assert (m = n) as -> by congruence.
    by destruct (NoDup_take_drop (left_cut bf (length (ptrs n))) (ptrs n) Hnd). }
  assert (Hold : forall j m, nodes (tree w) !! j = Some m ->
            nodes (tree (grown npv x (halved x n w))) !! j = Some (after j m)).
  { intros j m Hm. rewrite Hlook, Hm. apply lookup_lt_Some in Hm. fold len in Hm.
    rewrite !decide_False by lia. done. }
  assert (Hnew : nodes (tree (grown npv x (halved x n w))) !! len = Some rh).
  { rewrite Hlook. rewrite decide_False by lia. by rewrite decide_True. }
  assert (Htop : nodes (tree (grown npv x (halved x n w))) !! S len = Some newroot).
  { rewrite Hlook. by rewrite decide_True. }
  assert (Hinv : forall j n', nodes (tree (grown npv x (halved x n w))) !! j = Some n' ->
            (j = S len /\ n' = newroot) \/ (j = len /\ n' = rh)
            \/ exists m, nodes (tree w) !! j = Some m /\ n' = after j m).
  { intros j n'. rewrite Hlook. destruct (decide (j = S len)) as [->|Hj].
    - intros [= <-]. by left.
    - destruct (decide (j = len)) as [->|Hjl].
      + intros [= <-]. right. by left.
      + destruct (nodes (tree w) !! j) as [m|]; [| done]. intros [= <-]. right. right. eauto. }
  assert (Hrh_kind : is_leaf rh = is_leaf n).
  { unfold rh, right_half. by destruct (is_leaf n). }
  assert (Hrh_ptrs : is_leaf n = false -> ptrs rh = D).
  { intros Hl. unfold rh, right_half. by rewrite Hl. }
  assert (Hroot3 : root (tree (grown npv x (halved x n w))) = Some (S len)).
  { simpl. rewrite length_app, length_imap. simpl. f_equal. fold len. lia. }
  split.
  - intros j n' q Hn' Hq. destruct (Hinv j n' Hn') as [[-> ->]|[[-> ->]|(m & Hm & ->)]].
    + done.
    + injection Hq as <-. exists newroot. split; [done |]. split; [done |].
      simpl. right. left.
    + rewrite (Hparent j m Hm) in Hq. destruct (decide (j = x)) as [->|Hjx].
      * injection Hq as <-. exists newroot. split; [done |]. split; [done |]. left.
      * destruct (decide (is_leaf n = false /\ j ∈ D)) as [[Hl Hin]|Hnot].
        -- injection Hq as <-. exists rh.
           split; [done |]. split; [by rewrite Hrh_kind |]. by rewrite Hrh_ptrs.
        -- destruct (lk_parent _ Hlk j m q Hm Hq) as (qm & Hqm & Hql & Hin).
           exists (after q qm). split; [by apply Hold |]. split; [by rewrite Hkind |].
           apply (Hptrs q qm j Hqm Hql). destruct (decide (q = x)) as [->|Hqx].
           ++ assert (qm = n) as -> by congruence. left.
              split; [done |]. split; [done |]. intros HD. apply Hnot. done.
           ++ right. done.
  - intros q qn' c Hqn' Hql Hc.
    destruct (Hinv q qn' Hqn') as [[-> ->]|[[-> ->]|(qm & Hqm & ->)]].
    + simpl in Hc. apply elem_of_cons in Hc as [->|Hc].
      * exists (after x n). split; [by apply Hold |].
        rewrite (Hparent x n Hx). by rewrite decide_True.
      * apply list_elem_of_singleton in Hc as ->. exists rh. done.
    + rewrite Hrh_kind in Hql. rewrite (Hrh_ptrs Hql) in Hc.
      destruct (Hkids Hql c (elem_of_drop_1 _ _ _ Hc)) as (Hclt & Hcx & cm & Hcm & Hcpar).
      exists (after c cm). split; [by apply Hold |].
      rewrite (Hparent c cm Hcm). rewrite decide_False by done. by rewrite decide_True.
    + rewrite Hkind in Hql.
      apply (Hptrs q qm c Hqm Hql) in Hc as [(-> & Hc & HD)|[Hqx Hc]].
      * assert (qm = n) as -> by congruence.
        destruct (Hkids Hql c Hc) as (Hclt & Hcx & cm & Hcm & Hcpar).
        exists (after c cm). split; [by apply Hold |].
        rewrite (Hparent c cm Hcm). rewrite decide_False by done.
        rewrite decide_False; [done | by intros [_ ?]].
      * destruct (lk_child _ Hlk q qm c Hqm Hql Hc) as (cm & Hcm & Hcpar).
        exists (after c cm). split; [by apply Hold |].
        rewrite (Hparent c cm Hcm).
        rewrite decide_False by (intros ->; congruence).
        rewrite decide_False; [done |].
        intros [Hl HD].
        destruct (Hkids Hl c (elem_of_drop_1 _ _ _ HD)) as (_ & _ & cm' & Hcm' & Hcpar').
        congruence.
  - intros q qn' Hqn' Hql.
    destruct (Hinv q qn' Hqn') as [[-> ->]|[[-> ->]|(qm & Hqm & ->)]].
    + simpl. apply NoDup_cons. split; [| apply NoDup_singleton].
      intros ->%list_elem_of_singleton. lia.
    + rewrite Hrh_kind in Hql. rewrite (Hrh_ptrs Hql).
      by destruct (NoDup_take_drop (left_cut bf (length (ptrs n))) (ptrs n)
                     (lk_nodup _ Hlk x n Hx Hql)) as (_ & ? & _).
    + rewrite Hkind in Hql. by apply Hnodup.
  - intros j n' Hn' Hnone. rewrite Hroot3.
    destruct (Hinv j n' Hn') as [[-> ->]|[[-> ->]|(m & Hm & ->)]]; [done | done |].
    rewrite (Hparent j m Hm) in Hnone.
    destruct (decide (j = x)); [done |].
    destruct (decide (is_leaf n = false /\ j ∈ D)); [done |].
    pose proof (lk_top _ Hlk j m Hm Hnone). congruence.
  - rewrite Hroot3. intros r [= <-]. exists newroot. done.
  - by rewrite Hroot3.
Qed.

Lemma promoted_inv w x n npv p pm j n' :
  let len := length (nodes (tree w)) in
  let bf := b (tree w) in
  nodes (tree w) !! p = Some pm ->
  nodes (tree (promoted npv p (halved x n w))) !! j = Some n' ->
  (j = len /\ n' = right_half bf x n)
  \/ exists m, nodes (tree w) !! j = Some m /\ n' = after_promoted bf len x n npv p j m.
Proof.
  intros len bf Hp. rewrite (step_parent_lookup w x n p pm npv j Hp). fold len bf.
  destruct (decide (j = len)) as [->|Hj].
  - intros [= <-]. by left.
  - destruct (nodes (tree w) !! j) as [m|]; [| done]. intros [= <-]. right. eauto.
Qed.

Lemma grown_inv w x n npv j n' :
  let len := length (nodes (tree w)) in
  let bf := b (tree w) in
  (x < len)%nat ->
  nodes (tree (grown npv x (halved x n w))) !! j = Some n' ->
  (j = S len /\ n' = mkNode bf [npv] [x; len] None None None false)
  \/ (j = len /\ n' = set_parent (Some (S len)) (right_half bf x n))
  \/ exists m, nodes (tree w) !! j = Some m /\ n' = after_grown bf len x n j m.
Proof.
  intros len bf Hx. rewrite (step_root_lookup w x n npv j Hx). fold len bf.
  destruct (decide (j = S len)) as [->|Hj].
  - intros [= <-]. by left.
  - destruct (decide (j = len)) as [->|Hjl].
    + intros [= <-]. right. by left.
    + destruct (nodes (tree w) !! j) as [m|]; [| done]. intros [= <-]. right. right. eauto.
Qed.

Lemma stored_inv value ptr index w n j n' :
  nodes (tree w) !! index = Some n ->
  nodes (tree (stored value ptr index w)) !! j = Some n' ->
  (j = index /\ n' = Node_insert value ptr None n)
  \/ (j <> index /\ nodes (tree w) !! j = Some n').
Proof.
  intros Hn. simpl. rewrite list_lookup_alter. destruct (decide (index = j)) as [<-|Hj].
  - rewrite Hn. intros [= <-]. by left.
  - intros H. right. done.
Qed.

(** *** All leaves at one depth *)

Lemma balanced_planted w :
  linked (tree w) -> pristine w -> root (tree w) = None ->
  exists h, balanced h (tree (planted w)).
Proof.
  intros Hlk Hpr Hroot. rewrite (planted_tree w Hpr Hroot).
  exists (fun _ => 0%nat). intros j n. simpl.
  rewrite (lk_none _ Hlk Hroot). intros Hn. destruct j; [| done].
  by injection Hn as <-.
Qed.

Lemma balanced_stored h value ptr index w n :
  nodes (tree w) !! index = Some n -> is_leaf n = true ->
  balanced h (tree w) -> balanced h (tree (stored value ptr index w)).
Proof.
  intros Hn Hleaf Hbal j n' [[-> ->]|[Hj Hn']]%(stored_inv _ _ _ _ _ _ _ Hn).
  - destruct (Node_insert_spec value ptr n) as (-> & _). rewrite Hleaf.
    specialize (Hbal index n Hn). by rewrite Hleaf in Hbal.
  - by apply Hbal.
Qed.

Lemma balanced_promoted bf lvl w x n npv p pm h :
  splittable bf lvl w x n ->
  parent n = Some p -> nodes (tree w) !! p = Some pm ->
  linked (tree w) -> balanced h (tree w) ->
  balanced (with_level h (length (nodes (tree w))) (h x))
    (tree (promoted npv p (halved x n w))).
Proof.
  intros (Hbf & Hwf & Hshape & Hx & Hfull & Hne) Hpar Hpm Hlk Hbal.
  set (len := length (nodes (tree w))).
  pose proof (proj1 (wf_nodes _ _) Hwf) as Hnodes.
  assert (Hh : forall j, (j < len)%nat -> with_level h len (h x) j = h j).
  { intros j Hj. unfold with_level. rewrite decide_False by lia. done. }
  assert (Hhlen : with_level h len (h x) len = h x).
  { unfold with_level. by rewrite decide_True. }
  destruct (lk_parent _ Hlk x n p Hx Hpar) as (pm' & Hpm' & Hpleaf & Hxin).
  assert (pm' = pm) as -> by congruence. clear Hpm'.
  intros j n' [[-> ->]|(m & Hm & ->)]%(promoted_inv _ _ _ _ _ _ _ _ Hpm).
  - fold len. rewrite Hhlen. pose proof (Hbal x n Hx) as Hbx.
    unfold right_half. destruct (is_leaf n) eqn:Hl; simpl; [done |].
    intros c Hc%elem_of_drop_1.
    destruct (Hnodes x n Hx) as (_ & Hxc & _). destruct (Hxc Hl c Hc).
    rewrite Hh by done. by apply Hbx.
  - fold len. rewrite Hbf. rewrite after_promoted_kind.
    assert (Hj : (j < len)%nat) by (by eapply lookup_lt_Some).
    pose proof (Hbal j m Hm) as Hbj. rewrite Hh by done.
    destruct (is_leaf m) eqn:Hl; [done |].
    intros c [[-> ->]|Hc]%after_promoted_ptrs.
    + rewrite Hhlen. assert (m = pm) as -> by congruence. by apply Hbj.
    + rewrite halve_ptrs in Hc.
      assert (c ∈ ptrs m) as Hc'.
      { destruct (decide (j = x)) as [->|]; [| done].
        assert (m = n) as -> by congruence. by eapply elem_of_take_1. }
      destruct (Hnodes j m Hm) as (_ & Hjc & _). destruct (Hjc Hl c Hc').
      rewrite Hh by done. by apply Hbj.
Qed.

Lemma balanced_grown bf lvl w x n npv h :
  splittable bf lvl w x n ->
  balanced h (tree w) ->
  let len := length (nodes (tree w)) in
  balanced (with_level (with_level h len (h x)) (S len) (S (h x)))
    (tree (grown npv x (halved x n w))).
Proof.
  intros (Hbf & Hwf & Hshape & Hx & Hfull & Hne) Hbal len.
  pose proof (proj1 (wf_nodes _ _) Hwf) as Hnodes.
  set (h' := with_level (with_level h len (h x)) (S len) (S (h x))).
  assert (Hxlt : (x < len)%nat) by (by eapply lookup_lt_Some).
  assert (Hh : forall j, (j < len)%nat -> h' j = h j).
  { intros j Hj. unfold h', with_level. rewrite !decide_False by lia. done. }
  assert (Hhlen : h' len = h x).
  { unfold h', with_level. rewrite decide_False by lia. by rewrite decide_True. }
  assert (Hhtop : h' (S len) = S (h x)).
  { unfold h', with_level. by rewrite decide_True. }
  intros j n' [[-> ->]|[[-> ->]|(m & Hm & ->)]]%(grown_inv _ _ _ _ _ _ Hxlt).
  - simpl. fold len. rewrite Hhtop. intros c [->|Hc]%elem_of_cons.
    + by rewrite Hh.
    + apply list_elem_of_singleton in Hc as ->. by rewrite Hhlen.
  - fold len. rewrite Hhlen. pose proof (Hbal x n Hx) as Hbx.
    unfold right_half. destruct (is_leaf n) eqn:Hl; simpl; [done |].
    intros c Hc%elem_of_drop_1.
    destruct (Hnodes x n Hx) as (_ & Hxc & _). destruct (Hxc Hl c Hc).
    rewrite Hh by done. by apply Hbx.
  - fold len. rewrite after_grown_kind, after_grown_ptrs.
    assert (Hj : (j < len)%nat) by (by eapply lookup_lt_Some).
    pose proof (Hbal j m Hm) as Hbj. rewrite Hh by done.
    destruct (is_leaf m) eqn:Hl; [done |].
    intros c Hc. rewrite halve_ptrs in Hc.
    assert (c ∈ ptrs m) as Hc'.
    { destruct (decide (j = x)) as [->|]; [| done].
      assert (m = n) as -> by congruence. by eapply elem_of_take_1. }
    destruct (Hnodes j m Hm) as (_ & Hjc & _). destruct (Hjc Hl c Hc').
    rewrite Hh by done. by apply Hbj.
Qed.

(** *** What the leaves hold *)

Lemma flat_map_imap_same {A B} (g : A -> list B) : forall (f : nat -> A -> A) ns,
  (forall j m, ns !! j = Some m -> g (f j m) = g m) ->
  flat_map g (imap f ns) = flat_map g ns.
Proof.
  intros f ns. revert f. induction ns as [|a ns IH]; intros f Hf; [done |].
  rewrite imap_cons. simpl. rewrite (Hf 0%nat a eq_refl). f_equal.
  apply IH. intros j m Hm. apply (Hf (S j) m Hm).
Qed.

Lemma flat_map_imap_at {A B} (g : A -> list B) : forall (f : nat -> A -> A) ns x n,
  ns !! x = Some n ->
  (forall j m, ns !! j = Some m -> j <> x -> g (f j m) = g m) ->
  exists rest, flat_map g ns ≡ₚ g n ++ rest
               /\ flat_map g (imap f ns) ≡ₚ g (f x n) ++ rest.
Proof.
  intros f ns. revert f. induction ns as [|a ns IH]; intros f x n Hx Hf; [done |].
  rewrite imap_cons. destruct x as [|x]; simpl in *.
  - injection Hx as ->. exists (flat_map g ns). split; [done |].
    rewrite flat_map_imap_same; [done |].
    intros j m Hm. by apply (Hf (S j) m Hm).
  - destruct (IH (f ∘ S) x n Hx) as (rest & Hold & Hnew).
    { intros j m Hm Hj. apply (Hf (S j) m Hm). lia. }
    exists (g a ++ rest). rewrite (Hf 0%nat a eq_refl) by lia.
    rewrite Hold, Hnew. split; by rewrite !app_assoc, (Permutation_app_comm (g a)).
Qed.

Lemma alter_imap {A} (F : A -> A) (i : nat) (l : list A) :
  alter F i l = imap (fun j m => if decide (j = i) then F m else m) l.
Proof.
  apply list_eq. intros j. rewrite list_lookup_alter, list_lookup_imap.
  destruct (decide (i = j)) as [->|Hne].
  - destruct (l !! j); simpl; [| done]. by rewrite decide_True.
  - destruct (l !! j); simpl; [| done]. by rewrite decide_False.
Qed.

Lemma half_length (k : nat) : (k / 2 <= k)%nat /\ (k - k / 2 <= k)%nat /\ (2 * (k / 2) <= k)%nat
                              /\ (k <= 2 * (k / 2) + 1)%nat.
Proof.
  pose proof (Nat.div_mod_eq k 2). pose proof (Nat.mod_upper_bound k 2). lia.
Qed.

Lemma leaf_keys_planted w :
  pristine w -> root (tree w) = None -> leaf_keys (tree (planted w)) = leaf_keys (tree w).
Proof.
  intros Hpr Hroot. rewrite (planted_tree w Hpr Hroot).
  unfold leaf_keys. simpl. rewrite flat_map_app. simpl. by rewrite app_nil_r.
Qed.

Lemma leaf_keys_stored value ptr index w n :
  nodes (tree w) !! index = Some n -> is_leaf n = true ->
  leaf_keys (tree (stored value ptr index w)) ≡ₚ value :: leaf_keys (tree w).
Proof.
  intros Hn Hleaf. unfold leaf_keys. simpl. rewrite alter_imap.
  destruct (flat_map_imap_at (fun n => if is_leaf n then values n else [])
              (fun j m => if decide (j = index) then Node_insert value ptr None m else m)
              (nodes (tree w)) index n Hn) as (rest & Hold & Hnew).
  { intros j m _ Hj. by rewrite decide_False. }
  rewrite Hold, Hnew. rewrite decide_True by done.
  destruct (Node_insert_spec value ptr n) as (-> & _). rewrite Hleaf.
  by rewrite Node_insert_values, inserted_perm.
Qed.

Lemma leaf_keys_promoted bf lvl w x n npv p pm :
  splittable bf lvl w x n ->
  parent n = Some p -> nodes (tree w) !! p = Some pm ->
  linked (tree w) ->
  leaf_keys (tree (promoted npv p (halved x n w))) ≡ₚ leaf_keys (tree w).
Proof.
  intros (Hbf & Hwf & Hshape & Hx & Hfull & Hne) Hpar Hpm Hlk.
  destruct (lk_parent _ Hlk x n p Hx Hpar) as (pm' & Hpm' & Hpleaf & Hxin).
  assert (pm' = pm) as -> by congruence. clear Hpm'.
  assert (Hpx : p <> x).
  { destruct (proj1 (wf_nodes _ _) Hwf x n Hx) as (Hxp & _). destruct (Hxp p Hpar). intros ->. lia. }
  unfold leaf_keys. rewrite (promoted_nodes _ _ _ _ _ _ Hpm), flat_map_app. simpl.
  rewrite app_nil_r, Hbf.
  set (g := fun n0 : Node => if is_leaf n0 then values n0 else []).
  assert (Hother : forall j m, nodes (tree w) !! j = Some m -> j <> x ->
            g (after_promoted bf (length (nodes (tree w))) x n npv p j m) = g m).
  { intros j m Hm Hj. unfold g. rewrite after_promoted_kind.
    destruct (is_leaf m) eqn:Hl; [| done].
    rewrite after_promoted_values by done. rewrite decide_False by done.
    rewrite decide_False; [done |]. intros ->. congruence. }
  destruct (is_leaf n) eqn:Hleaf.
  - destruct (flat_map_imap_at g (after_promoted bf (length (nodes (tree w))) x n npv p)
                (nodes (tree w)) x n Hx Hother) as (rest & Hold & Hnew).
    rewrite Hold, Hnew. unfold g. rewrite after_promoted_kind, Hleaf.
    rewrite after_promoted_values by done. rewrite decide_True by done.
    unfold right_half. rewrite Hleaf. simpl.
    transitivity ((take (length (values n) / 2) (values n)
                   ++ drop (length (values n) / 2) (values n)) ++ rest);
      [| by rewrite take_drop].
    rewrite <- !app_assoc. f_equiv. apply Permutation_app_comm.
  - assert (is_leaf (right_half bf x n) = false) as ->
      by (unfold right_half; by rewrite Hleaf).
    rewrite app_nil_r. rewrite flat_map_imap_same; [done |].
    intros j m Hm. destruct (decide (j = x)) as [->|Hj]; [| by apply Hother].
    assert (m = n) as -> by congruence. unfold g. by rewrite after_promoted_kind, Hleaf.
Qed.

Lemma leaf_keys_grown bf lvl w x n npv :
  splittable bf lvl w x n ->
  leaf_keys (tree (grown npv x (halved x n w))) ≡ₚ leaf_keys (tree w).
Proof.
  intros (Hbf & Hwf & Hshape & Hx & Hfull & Hne).
  assert (Hxlt : (x < length (nodes (tree w)))%nat) by (by eapply lookup_lt_Some).
  unfold leaf_keys. rewrite (grown_nodes _ _ _ _ Hxlt), flat_map_app. simpl.
  rewrite app_nil_r, Hbf.
  set (g := fun n0 : Node => if is_leaf n0 then values n0 else []).
  assert (Hother : forall j m, nodes (tree w) !! j = Some m -> j <> x ->
            g (after_grown bf (length (nodes (tree w))) x n j m) = g m).
  { intros j m Hm Hj. unfold g. rewrite after_grown_kind, after_grown_values, halve_values.
    by rewrite decide_False. }
  destruct (is_leaf n) eqn:Hleaf.
  - destruct (flat_map_imap_at g (after_grown bf (length (nodes (tree w))) x n)
                (nodes (tree w)) x n Hx Hother) as (rest & Hold & Hnew).
    rewrite Hold, Hnew. unfold g. rewrite after_grown_kind, Hleaf.
    rewrite after_grown_values, halve_values. rewrite decide_True by done.
    unfold right_half. rewrite Hleaf. simpl.
    transitivity ((take (length (values n) / 2) (values n)
                   ++ drop (length (values n) / 2) (values n)) ++ rest);
      [| by rewrite take_drop].
    rewrite <- !app_assoc. f_equiv. apply Permutation_app_comm.
  - assert (is_leaf (right_half bf x n) = false) as ->
      by (unfold right_half; by rewrite Hleaf).
    rewrite app_nil_r. rewrite flat_map_imap_same; [done |].
    intros j m Hm. destruct (decide (j = x)) as [->|Hj]; [| by apply Hother].
    assert (m = n) as -> by congruence. unfold g. by rewrite after_grown_kind, Hleaf.
Qed.

Lemma same_ptrs_refl bf ps : same_ptrs bf ps ps.
Proof. by split. Qed.

Lemma same_ptrs_trans bf ps qs rs :
  same_ptrs bf ps qs -> same_ptrs bf qs rs -> same_ptrs bf ps rs.
Proof.
  intros [H1 H2] [H3 H4]. split.
  - intros q. by rewrite H1.
  - intros Ho. by rewrite H2, H4.
Qed.

Lemma same_ptrs_perm bf ps qs : ps ≡ₚ qs -> same_ptrs bf ps qs.
Proof. intros H. split; [intros q; by rewrite H | done]. Qed.

Lemma same_ptrs_cons bf q ps qs : same_ptrs bf ps qs -> same_ptrs bf (q :: ps) (q :: qs).
Proof.
  intros [H1 H2]. split.
  - intros q'. by rewrite !elem_of_cons, H1.
  - intros Ho. by rewrite H2.
Qed.

(** The two slices that [split] takes of the pointers of a leaf. *)
Lemma same_ptrs_split bf (ps rest : list nat) :
  same_ptrs bf ((take (left_cut bf (length ps)) ps ++ rest) ++ drop (length ps / 2) ps)
    (ps ++ rest).
Proof.
  split.
  - intros q. rewrite !elem_of_app.
    rewrite (elem_of_take_drop (length ps / 2) ps q).
    assert (q ∈ take (length ps / 2) ps -> q ∈ take (left_cut bf (length ps)) ps) as Hsub.
    { intros Hq. unfold left_cut. destruct (bf mod 2 =? 1); [done |].
      rewrite <- (take_take_drop ps (length ps / 2) 1) . apply elem_of_app. by left. }
    pose proof (elem_of_take_1 q (left_cut bf (length ps)) ps).
    rewrite (elem_of_take_drop (length ps / 2) ps q) in H. tauto.
  - intros Ho. unfold left_cut. rewrite Ho. simpl.
    transitivity ((take (length ps / 2) ps ++ drop (length ps / 2) ps) ++ rest);
      [| by rewrite take_drop].
    rewrite <- !app_assoc. f_equiv. apply Permutation_app_comm.
Qed.

Lemma leaf_ptrs_planted w :
  pristine w -> root (tree w) = None -> leaf_ptrs (tree (planted w)) = leaf_ptrs (tree w).
Proof.
  intros Hpr Hroot. rewrite (planted_tree w Hpr Hroot).
  unfold leaf_ptrs. simpl. rewrite flat_map_app. simpl. by rewrite app_nil_r.
Qed.

Lemma leaf_ptrs_stored value ptr index w n :
  nodes (tree w) !! index = Some n -> is_leaf n = true ->
  leaf_ptrs (tree (stored value ptr index w)) ≡ₚ ptr :: leaf_ptrs (tree w).
Proof.
  intros Hn Hleaf. unfold leaf_ptrs. simpl. rewrite alter_imap.
  destruct (flat_map_imap_at (fun n => if is_leaf n then ptrs n else [])
              (fun j m => if decide (j = index) then Node_insert value ptr None m else m)
              (nodes (tree w)) index n Hn) as (rest & Hold & Hnew).
  { intros j m _ Hj. by rewrite decide_False. }
  rewrite Hold, Hnew. rewrite decide_True by done.
  destruct (Node_insert_spec value ptr n) as (-> & _). rewrite Hleaf.
  by rewrite Node_insert_ptrs_perm.
Qed.

Lemma leaf_ptrs_promoted bf lvl w x n npv p pm :
  splittable bf lvl w x n ->
  parent n = Some p -> nodes (tree w) !! p = Some pm ->
  linked (tree w) ->
  same_ptrs bf (leaf_ptrs (tree (promoted npv p (halved x n w)))) (leaf_ptrs (tree w)).
Proof.
  intros (Hbf & Hwf & Hshape & Hx & Hfull & Hne) Hpar Hpm Hlk.
  destruct (lk_parent _ Hlk x n p Hx Hpar) as (pm' & Hpm' & Hpleaf & Hxin).
  assert (pm' = pm) as -> by congruence. clear Hpm'.
  unfold leaf_ptrs. rewrite (promoted_nodes _ _ _ _ _ _ Hpm), flat_map_app. simpl.
  rewrite app_nil_r, Hbf.
  set (g := fun n0 : Node => if is_leaf n0 then ptrs n0 else []).
  assert (Hother : forall j m, nodes (tree w) !! j = Some m -> j <> x ->
            g (after_promoted bf (length (nodes (tree w))) x n npv p j m) = g m).
  { intros j m Hm Hj. unfold g. rewrite after_promoted_kind.
    destruct (is_leaf m) eqn:Hl; [| done].
    rewrite after_promoted_leaf by (done || (intros ->; congruence)).
    rewrite halve_ptrs. by rewrite decide_False. }
  destruct (is_leaf n) eqn:Hleaf.
  - destruct (flat_map_imap_at g (after_promoted bf (length (nodes (tree w))) x n npv p)
                (nodes (tree w)) x n Hx Hother) as (rest & Hold & Hnew).
    eapply same_ptrs_trans; [| apply same_ptrs_perm; symmetry; exact Hold].
    eapply same_ptrs_trans;
      [apply same_ptrs_perm; apply Permutation_app; [exact Hnew | reflexivity] |].
    unfold g. rewrite after_promoted_kind, Hleaf.
    rewrite after_promoted_leaf by (done || (intros ->; congruence)).
    rewrite halve_ptrs. rewrite decide_True by done.
    unfold right_half. rewrite Hleaf. simpl. apply same_ptrs_split.
  - assert (is_leaf (right_half bf x n) = false) as ->
      by (unfold right_half; by rewrite Hleaf).
    rewrite app_nil_r. rewrite flat_map_imap_same; [apply same_ptrs_refl |].
    intros j m Hm. destruct (decide (j = x)) as [->|Hj]; [| by apply Hother].
    assert (m = n) as -> by congruence. unfold g. by rewrite after_promoted_kind, Hleaf.
Qed.

Lemma leaf_ptrs_grown bf lvl w x n npv :
  splittable bf lvl w x n ->
  same_ptrs bf (leaf_ptrs (tree (grown npv x (halved x n w)))) (leaf_ptrs (tree w)).
Proof.
  intros (Hbf & Hwf & Hshape & Hx & Hfull & Hne).
  assert (Hxlt : (x < length (nodes (tree w)))%nat) by (by eapply lookup_lt_Some).
  unfold leaf_ptrs. rewrite (grown_nodes _ _ _ _ Hxlt), flat_map_app. simpl.
  rewrite app_nil_r, Hbf.
  set (g := fun n0 : Node => if is_leaf n0 then ptrs n0 else []).
  assert (Hother : forall j m, nodes (tree w) !! j = Some m -> j <> x ->
            g (after_grown bf (length (nodes (tree w))) x n j m) = g m).
  { intros j m Hm Hj. unfold g. rewrite after_grown_kind, after_grown_ptrs, halve_ptrs.
    by rewrite decide_False. }
  destruct (is_leaf n) eqn:Hleaf.
  - destruct (flat_map_imap_at g (after_grown bf (length (nodes (tree w))) x n)
                (nodes (tree w)) x n Hx Hother) as (rest & Hold & Hnew).
    eapply same_ptrs_trans; [| apply same_ptrs_perm; symmetry; exact Hold].
    eapply same_ptrs_trans;
      [apply same_ptrs_perm; apply Permutation_app; [exact Hnew | reflexivity] |].
    unfold g. rewrite after_grown_kind, Hleaf.
    rewrite after_grown_ptrs, halve_ptrs. rewrite decide_True by done.
    unfold right_half. rewrite Hleaf. simpl. apply same_ptrs_split.
  - assert (is_leaf (right_half bf x n) = false) as ->
      by (unfold right_half; by rewrite Hleaf).
    rewrite app_nil_r. rewrite flat_map_imap_same; [apply same_ptrs_refl |].
    intros j m Hm. destruct (decide (j = x)) as [->|Hj]; [| by apply Hother].
    assert (m = n) as -> by congruence. unfold g. by rewrite after_grown_kind, Hleaf.
Qed.

(** *** How many keys a node holds *)

Lemma roomy_planted bf w :
  pristine w -> root (tree w) = None ->
  0 < bf -> roomy_but bf None (tree w) -> roomy_but bf None (tree (planted w)).
Proof.
  intros Hpr Hroot Hbf Hroom j m Hm _. rewrite (planted_tree w Hpr Hroot) in Hm.
  simpl in Hm.
  apply lookup_app_Some in Hm as [Hm|[_ Hm]]; [by apply (Hroom j m) |].
  apply list_lookup_singleton_Some in Hm as [_ <-]. simpl. lia.
Qed.

Lemma roomy_stored bf value ptr index w n :
  nodes (tree w) !! index = Some n ->
  roomy_but bf None (tree w) ->
  if Z.of_nat (S (length (values n))) =? bf
  then roomy_but bf (Some index) (tree (stored value ptr index w))
  else roomy_but bf None (tree (stored value ptr index w)).
Proof.
  intros Hn Hroom.
  assert (Hlen : Z.of_nat (length (values n)) < bf) by (by apply (Hroom index n)).
  destruct (Z.eqb_spec (Z.of_nat (S (length (values n)))) bf) as [Hfull|Hnot].
  - intros j m [[-> ->]|[Hj Hm]]%(stored_inv _ _ _ _ _ _ _ Hn) Hne; [done |].
    by apply (Hroom j m).
  - intros j m [[-> ->]|[Hj Hm]]%(stored_inv _ _ _ _ _ _ _ Hn) _.
    + destruct (Node_insert_lengths value ptr n) as [-> _]. lia.
    + by apply (Hroom j m).
Qed.

Lemma right_half_room bf x n :
  2 <= bf -> Z.of_nat (length (values n)) = bf ->
  Z.of_nat (length (values (right_half bf x n))) < bf.
Proof.
  intros Hbf Hfull. pose proof (half_length (length (values n))).
  unfold right_half. destruct (is_leaf n); simpl; rewrite length_drop; lia.
Qed.

Lemma left_half_room bf (vs : list Z) :
  2 <= bf -> Z.of_nat (length vs) = bf ->
  Z.of_nat (length (take (length vs / 2) vs)) < bf.
Proof.
  intros Hbf Hfull. pose proof (half_length (length vs)). rewrite length_take. lia.
Qed.

Lemma roomy_promoted bf lvl w x n npv p pm :
  2 <= bf ->
  splittable bf lvl w x n ->
  parent n = Some p -> nodes (tree w) !! p = Some pm ->
  roomy_but bf (Some x) (tree w) ->
  if Z.of_nat (S (length (values pm))) =? bf
  then roomy_but bf (Some p) (tree (promoted npv p (halved x n w)))
  else roomy_but bf None (tree (promoted npv p (halved x n w))).
Proof.
  intros Hbf2 (Hbf & Hwf & Hshape & Hx & Hfull & Hne) Hpar Hpm Hroom.
  assert (Hpx : p <> x).
  { destruct (proj1 (wf_nodes _ _) Hwf x n Hx) as (Hxp & _). destruct (Hxp p Hpar). intros ->. lia. }
  assert (Hlen : Z.of_nat (length (values pm)) < bf).
  { apply (Hroom p pm Hpm). congruence. }
  assert (Hall : forall j n', nodes (tree (promoted npv p (halved x n w))) !! j = Some n' ->
            j <> p -> Z.of_nat (length (values n')) < bf).
  { intros j n' [[-> ->]|(m & Hm & ->)]%(promoted_inv _ _ _ _ _ _ _ _ Hpm) Hj.
    - rewrite Hbf. by apply right_half_room.
    - rewrite after_promoted_values by done. rewrite (decide_False (P := j = p)) by done.
      destruct (decide (j = x)) as [->|Hjx]; [by apply left_half_room |].
      apply (Hroom j m Hm). congruence. }
  destruct (Z.eqb_spec (Z.of_nat (S (length (values pm)))) bf) as [Hfull2|Hnot].
  - intros j n' Hn' Hj. apply (Hall j n' Hn'). congruence.
  - intros j n' Hn' _. destruct (decide (j = p)) as [->|Hj]; [| by apply (Hall j n')].
    apply (promoted_inv _ _ _ _ _ _ _ _ Hpm) in Hn' as [[-> ->]|(m & Hm & ->)].
    + apply lookup_lt_Some in Hpm. lia.
    + assert (m = pm) as -> by congruence.
      rewrite after_promoted_values by done. rewrite decide_False by done.
      rewrite decide_True by done.
      pose proof (Node_insert_values npv 0%nat pm) as Hv.
      destruct (Node_insert_lengths npv 0%nat pm) as [Hl _]. rewrite Hv in Hl.
      rewrite Hl. lia.
Qed.

Lemma roomy_grown bf lvl w x n npv :
  2 <= bf ->
  splittable bf lvl w x n ->
  roomy_but bf (Some x) (tree w) ->
  roomy_but bf None (tree (grown npv x (halved x n w))).
Proof.
  intros Hbf2 (Hbf & Hwf & Hshape & Hx & Hfull & Hne) Hroom.
  assert (Hxlt : (x < length (nodes (tree w)))%nat) by (by eapply lookup_lt_Some).
  intros j n' [[-> ->]|[[-> ->]|(m & Hm & ->)]]%(grown_inv _ _ _ _ _ _ Hxlt) _.
  - simpl. lia.
  - rewrite Hbf. change (values (set_parent ?p ?m)) with (values m). by apply right_half_room.
  - rewrite after_grown_values, halve_values.
    destruct (decide (j = x)) as [->|Hjx]; [by apply left_half_room |].
    apply (Hroom j m Hm). congruence.
Qed.

Lemma half_of_Z (k : nat) : Z.of_nat (k / 2) = Z.of_nat k / 2.
Proof. by rewrite Nat2Z.inj_div. Qed.

Lemma half_full_left bf (n m' : Node) :
  Z.of_nat (length (values n)) = bf ->
  is_leaf m' = is_leaf n ->
  values m' = take (length (values n) / 2)%nat (values n) ->
  half_full bf m'.
Proof.
  intros Hfull Hl Hv. right. rewrite Hv, Hl, length_take.
  pose proof (half_length (length (values n))).
  rewrite Nat.min_l by lia. rewrite half_of_Z, Hfull.
  destruct (is_leaf n); [lia |]. apply Z.div_le_mono; lia.
Qed.

Lemma half_full_right bf x (n m' : Node) :
  0 <= bf -> Z.of_nat (length (values n)) = bf ->
  is_leaf m' = is_leaf n ->
  values m' = values (right_half bf x n) ->
  half_full bf m'.
Proof.
  intros Hbf0 Hfull Hl Hv. right. rewrite Hv, Hl.
  pose proof (half_length (length (values n))).
  pose proof (Z.div_mod bf 2). pose proof (Z.mod_pos_bound bf 2).
  pose proof (Z.div_mod (bf - 1) 2). pose proof (Z.mod_pos_bound (bf - 1) 2).
  pose proof (half_of_Z (length (values n))) as Hhalf. rewrite Hfull in Hhalf.
  unfold right_half. destruct (is_leaf n); simpl; rewrite length_drop; lia.
Qed.

Lemma half_full_more bf (m m' : Node) :
  is_leaf m' = is_leaf m -> (parent m = None -> parent m' = None) ->
  (length (values m) <= length (values m'))%nat ->
  half_full bf m -> half_full bf m'.
Proof.
  intros Hl Hp Hv [Hnone|Hlen]; [left; by apply Hp |].
  right. rewrite Hl. lia.
Qed.

Lemma half_full_planted bf w :
  Forall (half_full bf) (nodes (tree w)) -> Forall (half_full bf) (nodes (tree (planted w))).
Proof. intros H. simpl. apply Forall_app. split; [done |]. apply Forall_singleton. by left. Qed.

Lemma half_full_stored bf value ptr index w n :
  nodes (tree w) !! index = Some n ->
  Forall (half_full bf) (nodes (tree w)) ->
  Forall (half_full bf) (nodes (tree (stored value ptr index w))).
Proof.
  intros Hn Hall. apply Forall_lookup.
  intros j m [[-> ->]|[Hj Hm]]%(stored_inv _ _ _ _ _ _ _ Hn).
  - destruct (Node_insert_spec value ptr n) as (Hl & Hp & _).
    destruct (Node_insert_lengths value ptr n) as [Hv _].
    apply (half_full_more bf n); [done | by rewrite Hp | lia | by eapply Forall_lookup_1].
  - by eapply Forall_lookup_1.
Qed.

Lemma half_full_promoted bf lvl w x n npv p pm :
  0 <= bf ->
  splittable bf lvl w x n ->
  parent n = Some p -> nodes (tree w) !! p = Some pm ->
  linked (tree w) ->
  Forall (half_full bf) (nodes (tree w)) ->
  Forall (half_full bf) (nodes (tree (promoted npv p (halved x n w)))).
Proof.
  intros Hbf0 (Hbf & Hwf & Hshape & Hx & Hfull & Hne) Hpar Hpm Hlk Hall.
  assert (Hpx : p <> x).
  { destruct (proj1 (wf_nodes _ _) Hwf x n Hx) as (Hxp & _). destruct (Hxp p Hpar). intros ->. lia. }
  apply Forall_lookup.
  intros j n' [[-> ->]|(m & Hm & ->)]%(promoted_inv _ _ _ _ _ _ _ _ Hpm).
  - rewrite Hbf. apply (half_full_right bf x n); try done.
    unfold right_half. by destruct (is_leaf n).
  - rewrite Hbf. destruct (decide (j = x)) as [->|Hjx].
    + assert (m = n) as -> by congruence.
      apply (half_full_left bf n); [done | apply after_promoted_kind |].
      rewrite after_promoted_values by done. by rewrite decide_True.
    + pose proof (Forall_lookup_1 _ _ _ _ Hall Hm) as Hm_half.
      destruct Hm_half as [Hnone|Hlen].
      * (* the root is no child of the node that is split *)
        left. rewrite after_promoted_parent, halve_parent.
        destruct (is_leaf n) eqn:Hl; [done |].
        rewrite decide_False; [done |]. intros Hin%elem_of_drop_1.
        destruct (lk_child _ Hlk x n j Hx Hl Hin) as (m' & Hm' & Hpar'). congruence.
      * right. rewrite after_promoted_kind.
        rewrite after_promoted_values by done. rewrite decide_False by done.
        destruct (decide (j = p)) as [->|Hjp]; [| done].
        pose proof (Node_insert_values npv 0%nat m) as Hv.
        destruct (Node_insert_lengths npv 0%nat m) as [Hl' _]. rewrite Hv in Hl'.
        rewrite Hl'. lia.
Qed.

Lemma half_full_grown bf lvl w x n npv :
  0 <= bf ->
  splittable bf lvl w x n ->
  linked (tree w) ->
  Forall (half_full bf) (nodes (tree w)) ->
  Forall (half_full bf) (nodes (tree (grown npv x (halved x n w)))).
Proof.
  intros Hbf0 (Hbf & Hwf & Hshape & Hx & Hfull & Hne) Hlk Hall.
  assert (Hxlt : (x < length (nodes (tree w)))%nat) by (by eapply lookup_lt_Some).
  apply Forall_lookup.
  intros j n' [[-> ->]|[[-> ->]|(m & Hm & ->)]]%(grown_inv _ _ _ _ _ _ Hxlt).
  - by left.
  - rewrite Hbf. apply (half_full_right bf x n); try done.
    unfold right_half. by destruct (is_leaf n).
  - rewrite Hbf. destruct (decide (j = x)) as [->|Hjx].
    + assert (m = n) as -> by congruence.
      apply (half_full_left bf n); [done | apply after_grown_kind |].
      rewrite after_grown_values, halve_values. by rewrite decide_True.
    + pose proof (Forall_lookup_1 _ _ _ _ Hall Hm) as Hm_half.
      destruct Hm_half as [Hnone|Hlen].
      * left. unfold after_grown. rewrite decide_False by done. rewrite halve_parent.
        destruct (is_leaf n) eqn:Hl; [done |].
        rewrite decide_False; [done |]. intros Hin%elem_of_drop_1.
        destruct (lk_child _ Hlk x n j Hx Hl Hin) as (m' & Hm' & Hpar'). congruence.
      * right. rewrite after_grown_kind, after_grown_values, halve_values.
        by rewrite decide_False.
Qed.

Lemma lookup_insert_after {A} (l : list A) (i : nat) (y : A) (k : nat) :
  (i < length l)%nat ->
  (take (S i) l ++ y :: drop (S i) l) !! k
  = if decide (k <= i)%nat then l !! k
    else if decide (k = S i) then Some y else l !! (k - 1)%nat.
Proof.
  intros Hi. destruct (decide (k <= i)%nat) as [Hk|Hk].
  - rewrite lookup_app_l by (rewrite length_take; lia). apply lookup_take_lt. lia.
  - rewrite lookup_app_r by (rewrite length_take; lia).
    rewrite length_take. replace (S i `min` length l)%nat with (S i) by lia.
    destruct (decide (k = S i)) as [->|Hk'].
    + by rewrite Nat.sub_diag.
    + replace (k - S i)%nat with (S (k - S i - 1)) by lia. simpl.
      rewrite lookup_drop. f_equal. lia.
Qed.

Lemma chained_valid chain t a :
  chained chain t -> a ∈ chain -> (a < length (nodes t))%nat.
Proof.
  intros (_ & _ & Hlinks) [i Hi]%list_elem_of_lookup.
  destruct (Hlinks i a Hi) as (n & Hn & _). by eapply lookup_lt_Some.
Qed.

(** A split keeps the leaves in a chain: the new leaf comes in right
    after the leaf that was split. *)
Lemma chained_split bf len x n (t t' : Btree) chain :
  len = length (nodes t) -> nodes t !! x = Some n ->
  (forall j m, nodes t !! j = Some m ->
     exists m', nodes t' !! j = Some m' /\ is_leaf m' = is_leaf m
                /\ right_sibling m' = right_sibling (halve bf len x n j m)
                /\ left_sibling m' = left_sibling (halve bf len x n j m)) ->
  (exists r, nodes t' !! len = Some r /\ is_leaf r = is_leaf n
             /\ right_sibling r = right_sibling (right_half bf x n)
             /\ left_sibling r = left_sibling (right_half bf x n)) ->
  (forall j m', nodes t' !! j = Some m' -> (len < j)%nat -> is_leaf m' = false) ->
  chained chain t ->
  exists chain', chained chain' t' /\ head chain' = head chain.
Proof.
  intros Hlen Hx Hold (r & Hr & Hrl & Hrr & Hrls) Htop Hch.
  pose proof Hch as (Hnd & Hleaves & Hlinks).
  assert (Hvalid : forall a, a ∈ chain -> (a < len)%nat).
  { intros a Ha. rewrite Hlen. by eapply chained_valid. }
  assert (Hcases : forall j m', nodes t' !! j = Some m' ->
            (exists m, nodes t !! j = Some m /\ is_leaf m' = is_leaf m
                       /\ right_sibling m' = right_sibling (halve bf len x n j m)
                       /\ left_sibling m' = left_sibling (halve bf len x n j m))
            \/ (j = len /\ m' = r) \/ ((len < j)%nat /\ is_leaf m' = false)).
  { intros j m' Hm'. destruct (decide (j < len)%nat) as [Hj|Hj].
    - left. rewrite Hlen in Hj. destruct (lookup_lt_is_Some_2 _ _ Hj) as [m Hm].
      destruct (Hold j m Hm) as (m'' & Hm'' & ?). exists m.
      assert (m'' = m') as <- by congruence. done.
    - right. destruct (decide (j = len)) as [->|Hjl].
      + left. split; [done | congruence].
      + right. split; [lia |]. apply (Htop j m' Hm'). lia. }
  destruct (is_leaf n) eqn:Hleaf.
  - (* a leaf is split *)
    pose proof (proj1 (Hleaves x n Hx) Hleaf) as Hxin.
    apply list_elem_of_lookup in Hxin as [i Hi].
    assert (Hilt : (i < length chain)%nat) by (by eapply lookup_lt_Some).
    assert (Hfresh : len ∉ chain) by (intros H%Hvalid; lia).
    exists (take (S i) chain ++ len :: drop (S i) chain).
    split; [| by destruct chain].
    assert (Hin : forall j, j ∈ take (S i) chain ++ len :: drop (S i) chain
                            <-> j = len \/ j ∈ chain).
    { intros j. rewrite elem_of_app, elem_of_cons.
      rewrite (elem_of_take_drop (S i) chain j). tauto. }
    split; [| split].
    + apply NoDup_app. destruct (NoDup_take_drop (S i) chain Hnd) as (Hn1 & Hn2 & Hdisj).
      split; [done |]. split.
      * intros a Ha [->|Ha']%elem_of_cons; [| by eapply Hdisj].
        apply Hfresh. by eapply elem_of_take_1.
      * apply NoDup_cons. split; [| done]. intros Ha. apply Hfresh. by eapply elem_of_drop_1.
    + intros j m' Hm'. rewrite Hin.
      destruct (Hcases j m' Hm') as [(m & Hm & Hl & _)|[[-> ->]|[Hj Hl]]].
      * rewrite Hl, (Hleaves j m Hm). apply lookup_lt_Some in Hm.
        split; [by right | intros [->|?]; [lia | done]].
      * rewrite Hrl. split; [by left | done].
      * rewrite Hl. split; [done |]. intros [->|Ha%Hvalid]; lia.
    + intros k a. rewrite !lookup_insert_after by lia.
      unfold right_half in Hrr, Hrls. rewrite Hleaf in Hrr, Hrls. simpl in Hrr, Hrls.
      destruct (Hlinks i x Hi) as (n' & Hn' & Hxr & Hxl).
      assert (n' = n) as -> by congruence. clear Hn'.
      destruct (decide (k <= i)%nat) as [Hk|Hk].
      * (* up to the leaf that is split *)
        intros Ha. destruct (Hlinks k a Ha) as (na & Hna & Har & Hal).
        destruct (Hold a na Hna) as (m' & Hm' & _ & Hr' & Hl').
        exists m'. split; [done |].
        rewrite Hr', Hl', halve_right_sibling, halve_left_sibling, Hleaf.
        assert (right_sibling n <> Some a) as Hnot.
        { rewrite Hxr. intros Heq. pose proof (NoDup_lookup _ _ _ _ Hnd Heq Ha). lia. }
        rewrite (decide_False (P := right_sibling n = Some a)) by done.
        split.
        -- destruct (decide (a = x)) as [->|Hax].
           ++ pose proof (NoDup_lookup _ _ _ _ Hnd Ha Hi) as ->.
              rewrite decide_False by lia. by rewrite decide_True.
           ++ assert (k <> i) by (intros ->; congruence).
              rewrite decide_True by lia. done.
        -- destruct k as [|k']; [done |]. rewrite lookup_insert_after by lia.
           rewrite decide_True by lia. done.
      * destruct (decide (k = S i)) as [->|Hk'].
        -- (* the new leaf *)
           intros [= <-]. exists r. split; [done |].
           rewrite Hrr, Hrls. rewrite decide_False by lia. rewrite decide_False by lia.
           replace (S (S i) - 1)%nat with (S i) by lia.
           split; [done |]. rewrite lookup_insert_after by lia.
           rewrite decide_True by lia. done.
        -- (* after it *)
           intros Ha. destruct k as [|k']; [lia |].
           replace (S k' - 1)%nat with k' in Ha by lia.
           destruct (Hlinks k' a Ha) as (na & Hna & Har & Hal).
           destruct (Hold a na Hna) as (m' & Hm' & _ & Hr' & Hl').
           exists m'. split; [done |].
           rewrite Hr', Hl', halve_right_sibling, halve_left_sibling, Hleaf.
           assert (a <> x) as Hax.
           { intros ->. pose proof (NoDup_lookup _ _ _ _ Hnd Ha Hi). lia. }
           rewrite (decide_False (P := a = x)) by done.
           rewrite decide_False by lia. rewrite decide_False by lia.
           replace (S (S k') - 1)%nat with (S k') by lia.
           split; [done |]. rewrite lookup_insert_after by lia.
           destruct (Nat.eq_dec k' (S i)) as [->|Hk''].
           ++ rewrite Hxr, Ha. rewrite decide_True by done.
              rewrite decide_False by lia. by rewrite decide_True.
           ++ rewrite decide_False.
              2:{ rewrite Hxr. intros Heq. pose proof (NoDup_lookup _ _ _ _ Hnd Heq Ha). lia. }
              destruct k' as [|k'']; [lia |]. rewrite Hal.
              rewrite decide_False by lia. rewrite decide_False by lia.
              f_equal. lia.
  - (* an internal node is split *)
    exists chain. split; [| done]. split; [done |]. split.
    + intros j m' Hm'.
      destruct (Hcases j m' Hm') as [(m & Hm & Hl & _)|[[-> ->]|[Hj Hl]]].
      * rewrite Hl. by apply Hleaves.
      * rewrite Hrl. split; [done |]. intros Ha%Hvalid. lia.
      * rewrite Hl. split; [done |]. intros Ha%Hvalid. lia.
    + intros i a Ha. destruct (Hlinks i a Ha) as (na & Hna & Har & Hal).
      destruct (Hold a na Hna) as (m' & Hm' & _ & Hr' & Hl').
      exists m'. split; [done |].
      rewrite Hr', Hl', halve_right_sibling, halve_left_sibling, Hleaf.
      rewrite decide_False; [done |].
      intros ->. assert (na = n) as -> by congruence.
      assert (is_leaf n = true); [| congruence].
      apply (Hleaves x n Hx). by eapply list_elem_of_lookup_2.
Qed.

Lemma chained_fresh bf : chained [] (Btree_init bf).
Proof. split; [apply NoDup_nil_2 |]. split; [| done]. by intros j n. Qed.

Lemma chained_planted w :
  linked (tree w) -> pristine w -> root (tree w) = None ->
  chained [0%nat] (tree (planted w)).
Proof.
  intros Hlk Hpr Hroot. pose proof (lk_none _ Hlk Hroot) as Hnil.
  rewrite (planted_tree w Hpr Hroot).
  split; [apply NoDup_singleton |]. split.
  - intros j n. simpl. rewrite Hnil. simpl. destruct j as [|j]; [| done].
    intros [= <-]. simpl. split; [intros _; apply list_elem_of_here | done].
  - intros [|i] a; [| done]. intros [= <-]. simpl. rewrite Hnil. simpl. eauto.
Qed.

Lemma chained_stored chain value ptr index w n :
  nodes (tree w) !! index = Some n ->
  chained chain (tree w) -> chained chain (tree (stored value ptr index w)).
Proof.
  intros Hn (Hnd & Hleaves & Hlinks).
  destruct (Node_insert_spec value ptr n) as (Hl & _ & Hr & _).
  assert (Hls : left_sibling (Node_insert value ptr None n) = left_sibling n).
  { unfold Node_insert. by destruct (first_greater _ _ _). }
  split; [done |]. split.
  - intros j n' [[-> ->]|[Hj Hn']]%(stored_inv _ _ _ _ _ _ _ Hn).
    + rewrite Hl. by apply Hleaves.
    + by apply Hleaves.
  - intros i a Ha. destruct (Hlinks i a Ha) as (na & Hna & Har & Hal).
    simpl. rewrite list_lookup_alter. destruct (decide (index = a)) as [->|Hne].
    + rewrite Hna. simpl. assert (na = n) as -> by congruence.
      eexists. split; [done |]. by rewrite Hr, Hls.
    + by exists na.
Qed.

Lemma chained_promoted bf lvl w x n npv p pm chain :
  splittable bf lvl w x n ->
  parent n = Some p -> nodes (tree w) !! p = Some pm ->
  chained chain (tree w) ->
  exists chain', chained chain' (tree (promoted npv p (halved x n w)))
                 /\ head chain' = head chain.
Proof.
  intros (Hbf & Hwf & Hshape & Hx & Hfull & Hne) Hpar Hpm Hch.
  assert (Hplt : (p < length (nodes (tree w)))%nat) by (by eapply lookup_lt_Some).
  apply (chained_split bf (length (nodes (tree w))) x n (tree w)); try done.
  - intros j m Hm. exists (after_promoted bf (length (nodes (tree w))) x n npv p j m).
    split.
    { rewrite (step_parent_lookup _ _ _ _ _ _ _ Hpm), Hm, Hbf.
      rewrite decide_False; [done |]. apply lookup_lt_Some in Hm. lia. }
    split; [apply after_promoted_kind |].
    split; [apply after_promoted_right_sibling | apply after_promoted_left_sibling].
  - exists (right_half bf x n).
    split; [| split; [unfold right_half; by destruct (is_leaf n) | done]].
    rewrite (step_parent_lookup _ _ _ _ _ _ _ Hpm), Hbf. by rewrite decide_True.
  - intros j m' Hm' Hj. apply lookup_lt_Some in Hm'.
    rewrite promoted_length, halved_length in Hm'. lia.
Qed.

Lemma chained_grown bf lvl w x n npv chain :
  splittable bf lvl w x n ->
  chained chain (tree w) ->
  exists chain', chained chain' (tree (grown npv x (halved x n w)))
                 /\ head chain' = head chain.
Proof.
  intros (Hbf & Hwf & Hshape & Hx & Hfull & Hne) Hch.
  assert (Hxlt : (x < length (nodes (tree w)))%nat) by (by eapply lookup_lt_Some).
  apply (chained_split bf (length (nodes (tree w))) x n (tree w)); try done.
  - intros j m Hm. exists (after_grown bf (length (nodes (tree w))) x n j m).
    split.
    { rewrite (step_root_lookup _ _ _ _ _ Hxlt), Hm, Hbf. apply lookup_lt_Some in Hm.
      rewrite !decide_False by lia. done. }
    split; [apply after_grown_kind |].
    split; [apply after_grown_right_sibling | apply after_grown_left_sibling].
  - exists (set_parent (Some (S (length (nodes (tree w))))) (right_half bf x n)).
    split; [| split; [unfold right_half; by destruct (is_leaf n) | done]].
    rewrite (step_root_lookup _ _ _ _ _ Hxlt), Hbf.
    rewrite decide_False by lia. by rewrite decide_True.
  - intros j m' Hm' Hj. apply (grown_inv _ _ _ _ _ _ Hxlt) in Hm' as [[-> ->]|[[-> ->]|(m & Hm & ->)]].
    + done.
    + lia.
    + apply lookup_lt_Some in Hm. lia.
Qed.

(** *** Walking along the chain *)

Lemma chained_right_path chain t :
  chained chain t ->
  forall fuel i a,
    chain !! i = Some a -> (length chain <= fuel + S i)%nat ->
    sibling_path fuel right_sibling t a = Some (drop (S i) chain).
Proof.
  intros (Hnd & Hleaves & Hlinks).
  induction fuel as [|fuel IH]; intros i a Ha Hfuel;
    destruct (Hlinks i a Ha) as (n & Hn & Hr & _); simpl; rewrite Hn, Hr.
  - rewrite (proj2 (lookup_ge_None chain (S i))) by lia.
    by rewrite drop_ge by lia.
  - destruct (chain !! S i) as [s|] eqn:Hs.
    + rewrite (IH (S i) s Hs) by lia. simpl. by rewrite (drop_S _ _ _ Hs).
    + apply lookup_ge_None in Hs. by rewrite drop_ge by lia.
Qed.

Lemma chained_left_path chain t :
  chained chain t ->
  forall fuel i a,
    chain !! i = Some a -> (i <= fuel)%nat ->
    sibling_path fuel left_sibling t a = Some (reverse (take i chain)).
Proof.
  intros (Hnd & Hleaves & Hlinks).
  induction fuel as [|fuel IH]; intros i a Ha Hfuel;
    destruct (Hlinks i a Ha) as (n & Hn & _ & Hl); simpl; rewrite Hn, Hl.
  - assert (i = 0%nat) as -> by lia. done.
  - destruct i as [|i]; [done |].
    destruct (lookup_lt_is_Some_2 chain i) as [s Hs]; [apply lookup_lt_Some in Ha; lia |].
    rewrite Hs. rewrite (IH i s Hs) by lia. simpl.
    by rewrite (take_S_r _ _ _ Hs), reverse_snoc.
Qed.

(** *** The path of first children *)

Lemma spined_fresh bf : spined [] (Btree_init bf).
Proof. by repeat split. Qed.

Lemma spined_planted w :
  linked (tree w) -> pristine w -> root (tree w) = None ->
  spined [0%nat] (tree (planted w)).
Proof.
  intros Hlk Hpr Hroot. pose proof (lk_none _ Hlk Hroot) as Hnil.
  rewrite (planted_tree w Hpr Hroot).
  split; [done |]. split; [by intros [|i] a b |].
  intros a [= <-]. split; [done |]. simpl. rewrite Hnil. simpl. eauto.
Qed.

(** A step that keeps the kind of every node and the first pointer of
    every internal node keeps the path. *)
Lemma spined_keep spine (t t' : Btree) :
  root t' = root t ->
  (forall j m, nodes t !! j = Some m ->
     exists m', nodes t' !! j = Some m' /\ is_leaf m' = is_leaf m
                /\ (is_leaf m = false -> head (ptrs m') = head (ptrs m))) ->
  spined spine t -> spined spine t'.
Proof.
  intros Hroot Hold (Hhead & Hlinks & Hlast).
  split; [congruence |]. split.
  - intros i a b Ha Hb. destruct (Hlinks i a b Ha Hb) as (n & Hn & Hl & Hh).
    destruct (Hold a n Hn) as (n' & Hn' & Hl' & Hh').
    exists n'. split; [done |]. split; [congruence |]. rewrite Hh' by done. done.
  - intros a Ha. destruct (Hlast a Ha) as (-> & n & Hn & Hl). split; [done |].
    destruct (Hold 0%nat n Hn) as (n' & Hn' & Hl' & _). exists n'. split; [done | congruence].
Qed.

Lemma head_take {A} (k : nat) (l : list A) : (0 < k)%nat -> head (take k l) = head l.
Proof. intros Hk. destruct k; [lia |]. by destruct l. Qed.

Lemma head_py_insert {A} (i : nat) (x : A) (l : list A) :
  l <> [] -> head (py_insert (S i) x l) = head l.
Proof. intros Hl. unfold py_insert. by destruct l. Qed.

Lemma Node_insert_head value ptr n :
  ptrs n <> [] -> head (ptrs (Node_insert value ptr None n)) = head (ptrs n).
Proof.
  intros Hne. unfold Node_insert. destruct (first_greater value (values n) 0); simpl.
  - rewrite Nat.add_1_r. by apply head_py_insert.
  - by destruct (ptrs n).
Qed.

Lemma left_cut_pos bf (n : Node) :
  node_shape bf n -> is_leaf n = false -> values n <> [] ->
  (0 < left_cut bf (length (ptrs n)))%nat.
Proof.
  intros (_ & _ & Hfan & _) Hl Hne. rewrite (Hfan Hl).
  assert (0 < length (values n))%nat by (destruct (values n); [done | simpl; lia]).
  pose proof (half_length (S (length (values n)))).
  unfold left_cut. destruct (bf mod 2 =? 1); lia.
Qed.

Lemma after_promoted_head bf lvl w x n npv p pm j m :
  splittable bf lvl w x n ->
  parent n = Some p -> nodes (tree w) !! p = Some pm -> linked (tree w) ->
  nodes (tree w) !! j = Some m -> is_leaf m = false ->
  head (ptrs (after_promoted bf (length (nodes (tree w))) x n npv p j m)) = head (ptrs m).
Proof.
  intros (Hbf & Hwf & Hshape & Hx & Hfull & Hne) Hpar Hpm Hlk Hm Hl.
  destruct (lk_parent _ Hlk x n p Hx Hpar) as (pm' & Hpm' & Hpleaf & Hxin).
  assert (pm' = pm) as -> by congruence. clear Hpm'.
  assert (Hpx : p <> x).
  { destruct (proj1 (wf_nodes _ _) Hwf x n Hx) as (Hxp & _). destruct (Hxp p Hpar). intros ->. lia. }
  unfold after_promoted. destruct (decide (j = p)) as [->|Hjp].
  - assert (m = pm) as -> by congruence.
    rewrite Node_insert_head; rewrite halve_ptrs, decide_False by done; [done |].
    intros Hnil. rewrite Hnil in Hxin. by apply not_elem_of_nil in Hxin.
  - rewrite halve_ptrs. destruct (decide (j = x)) as [->|Hjx]; [| done].
    assert (m = n) as -> by congruence. apply head_take.
    apply left_cut_pos; [by eapply Forall_lookup_1 | done | done].
Qed.

Lemma after_grown_head bf lvl w x n j m :
  splittable bf lvl w x n ->
  nodes (tree w) !! j = Some m -> is_leaf m = false ->
  head (ptrs (after_grown bf (length (nodes (tree w))) x n j m)) = head (ptrs m).
Proof.
  intros (Hbf & Hwf & Hshape & Hx & Hfull & Hne) Hm Hl.
  rewrite after_grown_ptrs, halve_ptrs. destruct (decide (j = x)) as [->|Hjx]; [| done].
  assert (m = n) as -> by congruence. apply head_take.
  apply left_cut_pos; [by eapply Forall_lookup_1 | done | done].
Qed.

Lemma spined_stored spine value ptr index w n :
  nodes (tree w) !! index = Some n -> is_leaf n = true ->
  spined spine (tree w) -> spined spine (tree (stored value ptr index w)).
Proof.
  intros Hn Hleaf. apply spined_keep; [done |].
  intros j m Hm. simpl. rewrite list_lookup_alter. destruct (decide (index = j)) as [<-|Hj].
  - rewrite Hn. simpl. assert (m = n) as -> by congruence. eexists. split; [done |].
    destruct (Node_insert_spec value ptr n) as (-> & _). split; [done | congruence].
  - by exists m.
Qed.

Lemma spined_promoted bf lvl w x n npv p pm spine :
  splittable bf lvl w x n ->
  parent n = Some p -> nodes (tree w) !! p = Some pm -> linked (tree w) ->
  spined spine (tree w) -> spined spine (tree (promoted npv p (halved x n w))).
Proof.
  intros Hsp Hpar Hpm Hlk. pose proof Hsp as (Hbf & _).
  apply spined_keep; [done |].
  intros j m Hm. exists (after_promoted bf (length (nodes (tree w))) x n npv p j m).
  split.
  { rewrite (step_parent_lookup _ _ _ _ _ _ _ Hpm), Hm, Hbf.
    rewrite decide_False; [done |]. apply lookup_lt_Some in Hm. lia. }
  split; [apply after_promoted_kind |]. intros Hl. by eapply after_promoted_head.
Qed.

Lemma spined_grown bf lvl w x n npv spine :
  splittable bf lvl w x n ->
  parent n = None -> linked (tree w) ->
  spined spine (tree w) ->
  spined (S (length (nodes (tree w))) :: spine) (tree (grown npv x (halved x n w))).
Proof.
  intros Hsp Hpar Hlk (Hhead & Hlinks & Hlast).
  pose proof Hsp as (Hbf & Hwf & Hshape & Hx & Hfull & Hne).
  assert (Hxlt : (x < length (nodes (tree w)))%nat) by (by eapply lookup_lt_Some).
  pose proof (lk_top _ Hlk x n Hx Hpar) as Hroot. rewrite Hroot in Hhead.
  assert (Hold : forall j m, nodes (tree w) !! j = Some m ->
            nodes (tree (grown npv x (halved x n w))) !! j
            = Some (after_grown bf (length (nodes (tree w))) x n j m)).
  { intros j m Hm. rewrite (step_root_lookup _ _ _ _ _ Hxlt), Hm, Hbf.
    apply lookup_lt_Some in Hm. rewrite !decide_False by lia. done. }
  split; [| split].
  - simpl. rewrite length_app, length_imap. simpl. f_equal. lia.
  - intros [|i] a b Ha Hb; simpl in Ha, Hb.
    + injection Ha as <-. assert (b = x) as ->.
      { destruct spine; simpl in *; congruence. }
      exists (mkNode bf [npv] [x; length (nodes (tree w))] None None None false).
      split; [| done].
      rewrite (step_root_lookup _ _ _ _ _ Hxlt), Hbf. by rewrite decide_True.
    + destruct (Hlinks i a b Ha Hb) as (m & Hm & Hl & Hh).
      eexists. split; [by apply Hold |]. rewrite after_grown_kind.
      split; [done |]. by erewrite after_grown_head.
  - intros a Ha. assert (last spine = Some a) as Ha'.
    { destruct spine as [|s spine]; [done |]. by rewrite last_cons_cons in Ha. }
    destruct (Hlast a Ha') as (-> & m & Hm & Hl). split; [done |].
    eexists. split; [by apply Hold |]. by rewrite after_grown_kind.
Qed.

Lemma spined_path spine t :
  spined spine t ->
  forall fuel i a,
    spine !! i = Some a -> (length spine <= fuel + S i)%nat ->
    leftmost_path fuel t a = Some (drop i spine).
Proof.
  intros (Hhead & Hlinks & Hlast).
  assert (Hend : forall i a, spine !! i = Some a -> length spine = S i ->
            forall fuel, leftmost_path fuel t a = Some (drop i spine)).
  { intros i a Ha Hlen fuel.
    assert (last spine = Some a) as Hl.
    { rewrite last_lookup. replace (pred (length spine)) with i by lia. done. }
    destruct (Hlast a Hl) as (-> & n & Hn & Hleaf).
    assert (drop i spine = [0%nat]) as ->.
    { rewrite (drop_S _ _ _ Ha). by rewrite drop_ge by lia. }
    destruct fuel; simpl; by rewrite Hn, Hleaf. }
  induction fuel as [|fuel IH]; intros i a Ha Hfuel.
  - apply Hend; [done |]. apply lookup_lt_Some in Ha. lia.
  - destruct (spine !! S i) as [c|] eqn:Hc.
    + destruct (Hlinks i a c Ha Hc) as (n & Hn & Hl & Hh).
      simpl. rewrite Hn, Hl. destruct (ptrs n) as [|c0 ps]; [done |].
      simpl in Hh. injection Hh as ->.
      rewrite (IH (S i) c Hc) by lia. simpl. by rewrite (drop_S _ _ _ Ha).
    + apply Hend; [done |]. apply lookup_ge_None in Hc. apply lookup_lt_Some in Ha. lia.
Qed.

Lemma built_shape_fresh bf : built_shape bf [] (Btree_init bf).
Proof.
  split; [apply linked_fresh |].
  split; [exists (fun _ => 0%nat); by intros j n |].
  split; [exists [], []; split; [apply chained_fresh | split; [apply spined_fresh | done]] |].
  split; [done |]. split; [apply same_ptrs_refl | by apply Forall_nil].
Qed.

Lemma built_shape_planted bf done w :
  pristine w -> root (tree w) = None ->
  built_shape bf done (tree w) -> built_shape bf done (tree (planted w)).
Proof.
  intros Hpr Hroot (Hlk & _ & _ & Hkeys & Hptrs & Hhalf).
  split; [by apply linked_planted |].
  split; [by apply balanced_planted |].
  split; [exists [0%nat], [0%nat];
          split; [by apply chained_planted | split; [by apply spined_planted | done]] |].
  split; [by rewrite leaf_keys_planted |].
  split; [by rewrite leaf_ptrs_planted | by apply half_full_planted].
Qed.

Lemma built_shape_stored bf done value ptr index w n :
  nodes (tree w) !! index = Some n -> is_leaf n = true ->
  built_shape bf done (tree w) ->
  built_shape bf (done ++ [(value, ptr)]) (tree (stored value ptr index w)).
Proof.
  intros Hn Hleaf (Hlk & [h Hbal] & (chain & spine & Hch & Hsp & Hhead) & Hkeys & Hptrs & Hhalf).
  split; [by eapply linked_stored |].
  split; [exists h; by eapply balanced_stored |].
  split; [exists chain, spine;
          split; [by eapply chained_stored | split; [by eapply spined_stored | done]] |].
  split; [| split].
  - rewrite (leaf_keys_stored _ _ _ _ _ Hn Hleaf), Hkeys, fmap_app. simpl.
    apply Permutation_cons_append.
  - eapply same_ptrs_trans; [apply same_ptrs_perm, (leaf_ptrs_stored _ _ _ _ _ Hn Hleaf) |].
    eapply same_ptrs_trans; [apply same_ptrs_cons, Hptrs |].
    apply same_ptrs_perm. rewrite fmap_app. simpl. apply Permutation_cons_append.
  - by eapply half_full_stored.
Qed.

Lemma splittable_nonneg bf lvl w x n : splittable bf lvl w x n -> 0 <= bf.
Proof. intros (_ & _ & _ & _ & <- & _). lia. Qed.

Lemma built_shape_promoted bf done lvl w x n npv p pm :
  splittable bf lvl w x n ->
  parent n = Some p -> nodes (tree w) !! p = Some pm ->
  built_shape bf done (tree w) ->
  built_shape bf done (tree (promoted npv p (halved x n w))).
Proof.
  intros Hsp Hpar Hpm
    (Hlk & [h Hbal] & (chain & spine & Hch & Hspine & Hhead) & Hkeys & Hptrs & Hhalf).
  split; [by eapply linked_promoted |].
  split; [eexists; by eapply balanced_promoted |].
  split.
  { destruct (chained_promoted bf lvl w x n npv p pm chain Hsp Hpar Hpm Hch)
      as (chain' & Hch' & Hhead').
    exists chain', spine. split; [done |].
    split; [by eapply spined_promoted | congruence]. }
  split; [by rewrite (leaf_keys_promoted bf lvl w x n npv p pm) |].
  split; [eapply same_ptrs_trans; [by eapply leaf_ptrs_promoted | done] |].
  eapply half_full_promoted; try done. by eapply splittable_nonneg.
Qed.

Lemma built_shape_grown bf done lvl w x n npv :
  splittable bf lvl w x n ->
  parent n = None ->
  built_shape bf done (tree w) ->
  built_shape bf done (tree (grown npv x (halved x n w))).
Proof.
  intros Hsp Hpar
    (Hlk & [h Hbal] & (chain & spine & Hch & Hspine & Hhead) & Hkeys & Hptrs & Hhalf).
  split; [by eapply linked_grown |].
  split; [eexists; by eapply balanced_grown |].
  split.
  { destruct (chained_grown bf lvl w x n npv chain Hsp Hch) as (chain' & Hch' & Hhead').
    exists chain', (S (length (nodes (tree w))) :: spine). split; [done |].
    split; [by eapply spined_grown |].
    rewrite Hhead', Hhead. destruct Hspine as (Hhd & _).
    destruct Hsp as (_ & _ & _ & Hx & _).
    rewrite (lk_top _ Hlk x n Hx Hpar) in Hhd.
    destruct spine as [|s spine]; [done |]. by rewrite last_cons_cons. }
  split; [by rewrite (leaf_keys_grown bf lvl w x n npv) |].
  split; [eapply same_ptrs_trans; [by eapply leaf_ptrs_grown | done] |].
  eapply half_full_grown; try done. by eapply splittable_nonneg.
Qed.

Section Between.
Variable bf : Z.

Lemma between_fresh : between bf [] None (fresh bf).
Proof. split; [apply built_shape_fresh |]. split; [by intros _ j m | done]. Qed.

Lemma between_planted done L w :
  sound bf L w -> pristine w -> root (tree w) = None ->
  between bf done None w -> between bf done None (planted w).
Proof.
  intros _ Hpr Hroot (Hshape & Hroom & Hout).
  split; [by apply built_shape_planted |]. split; [| done].
  intros Hbf. apply roomy_planted; [done | done | lia | by apply Hroom].
Qed.

Lemma between_stored done fuel L w value ptr index ops n :
  sound bf L w -> between bf done None w ->
  _search fuel value w = Ok (index, ops) w ->
  nodes (tree w) !! index = Some n -> is_leaf n = true ->
  if Z.of_nat (S (length (values n))) =? bf
  then between bf (done ++ [(value, ptr)]) (Some index) (stored value ptr index w)
  else between bf (done ++ [(value, ptr)]) None (stored value ptr index w).
Proof.
  intros _ (Hshape & Hroom & Hout) _ Hn Hleaf.
  pose proof (built_shape_stored bf done value ptr index w n Hn Hleaf Hshape) as Hshape'.
  destruct (Z.eqb_spec (Z.of_nat (S (length (values n)))) bf) as [Hfull|Hnot].
  - split; [done |]. split; [| done]. intros Hbf.
    pose proof (roomy_stored bf value ptr index w n Hn (Hroom Hbf)) as H.
    by rewrite (proj2 (Z.eqb_eq _ _) Hfull) in H.
  - split; [done |]. split; [| done]. intros Hbf.
    pose proof (roomy_stored bf value ptr index w n Hn (Hroom Hbf)) as H.
    by rewrite (proj2 (Z.eqb_neq _ _) Hnot) in H.
Qed.

Lemma between_grown done lvl w x n npv :
  splittable bf lvl w x n ->
  values n !! (length (values n) / 2)%nat = Some npv ->
  parent n = None ->
  between bf done (Some x) w -> between bf done None (grown npv x (halved x n w)).
Proof.
  intros Hsp _ Hpar (Hshape & Hroom & Hout).
  split; [by eapply built_shape_grown |]. split; [| done].
  intros Hbf. by eapply roomy_grown; [| | apply Hroom].
Qed.

Lemma between_promoted done lvl w x n npv p pm :
  splittable bf lvl w x n ->
  values n !! (length (values n) / 2)%nat = Some npv ->
  parent n = Some p -> nodes (tree w) !! p = Some pm ->
  between bf done (Some x) w ->
  if Z.of_nat (S (length (values pm))) =? bf
  then between bf done (Some p) (promoted npv p (halved x n w))
  else between bf done None (promoted npv p (halved x n w)).
Proof.
  intros Hsp _ Hpar Hpm (Hshape & Hroom & Hout).
  pose proof (built_shape_promoted bf done lvl w x n npv p pm Hsp Hpar Hpm Hshape) as Hshape'.
  destruct (Z.eqb_spec (Z.of_nat (S (length (values pm)))) bf) as [Hfull|Hnot].
  - split; [done |]. split; [| done]. intros Hbf.
    pose proof (roomy_promoted bf lvl w x n npv p pm Hbf Hsp Hpar Hpm (Hroom Hbf)) as H.
    by rewrite (proj2 (Z.eqb_eq _ _) Hfull) in H.
  - split; [done |]. split; [| done]. intros Hbf.
    pose proof (roomy_promoted bf lvl w x n npv p pm Hbf Hsp Hpar Hpm (Hroom Hbf)) as H.
    by rewrite (proj2 (Z.eqb_neq _ _) Hnot) in H.
Qed.

(** Every script runs to its end, and leaves the tree in shape. *)
Lemma inserts_shape script fuel :
  (length script <= fuel)%nat ->
  exists w, inserts fuel script (fresh bf) = Ok tt w
            /\ between bf script None w
            /\ sound bf (length script) w
            /\ (script <> [] -> root (tree w) <> None).
Proof.
  intros Hfuel.
  destruct (inserts_rule bf (fun done => between bf done None)
              (fun done x => between bf done (Some x))
              between_planted between_stored between_grown between_promoted
              fuel script [] 0%nat (fresh bf) (fresh_sound bf) (fresh_pristine bf) between_fresh)
    as (w & Hrun & Hsound & Hroot & Hinv); [simpl; lia |].
  exists w. done.
Qed.

Lemma built_has_shape fuel script t :
  built fuel bf script = Some t ->
  built_shape bf script t /\ (2 <= bf -> roomy_but bf None t)
  /\ sound bf (length script) (mkWorld t [] (Apart [] []))
  /\ (script <> [] -> root t <> None).
Proof.
  intros Hb.
  destruct (inserts_shape script (max fuel (length script)))
    as (w & Hrun & (Hshape & Hroom & _) & Hsound & Hroot); [lia |].
  assert (built (max fuel (length script)) bf script = Some (tree w)) as Hb'
    by (unfold built; by rewrite Hrun).
  apply (built_more_fuel _ (max fuel (length script))) in Hb; [| lia].
  assert (t = tree w) as -> by congruence. done.
Qed.
End Between.

(** ** What every tree built by insertions satisfies *)

(** *** Depth *)

Lemma depth_height t lvl L h r :
  linked t -> wf lvl t -> bounded lvl L t -> balanced h t -> root t = Some r ->
  forall fuel j n,
    nodes t !! j = Some n -> (L <= fuel + lvl j)%nat ->
    exists k, depth fuel t j = Some k /\ h r = (h j + k)%nat.
Proof.
  intros Hlk Hwf Hbd Hbal Hr.
  induction fuel as [|fuel IH]; intros j n Hn Hfuel; simpl; rewrite Hn.
  all: destruct (parent n) as [p|] eqn:Hp.
  all: try (pose proof (lk_top _ Hlk j n Hn Hp) as Hj;
            assert (j = r) as -> by congruence; exists 0%nat; split; [done | lia]).
  all: destruct (wf_parent _ _ Hwf j n p Hn Hp) as [Hplt Hlvl].
  - specialize (Hbd p Hplt). lia.
  - destruct (lk_parent _ Hlk j n p Hn Hp) as (pn & Hpn & Hleaf & Hin).
    destruct (IH p pn Hpn) as (k & Hk & Hh); [lia |].
    exists (S k). rewrite Hk. split; [done |].
    specialize (Hbal p pn Hpn). rewrite Hleaf in Hbal. rewrite (Hbal j Hin) in Hh. lia.
Qed.

(** *** The chain of the leaves *)

Lemma chained_length chain t : chained chain t -> (length chain <= length (nodes t))%nat.
Proof.
  intros Hch. pose proof Hch as (Hnd & _ & _).
  rewrite <- (length_seq (length (nodes t)) 0%nat).
  apply submseteq_length, NoDup_submseteq; [done |].
  intros a Ha. apply elem_of_seq. pose proof (chained_valid _ _ _ Hch Ha). lia.
Qed.

Lemma spined_levels spine t lvl :
  spined spine t -> wf lvl t ->
  forall i a r, spine !! i = Some a -> head spine = Some r -> (lvl a + i <= lvl r)%nat.
Proof.
  intros (_ & Hlinks & _) Hwf.
  induction i as [|i IH]; intros a r Ha Hr.
  - rewrite head_lookup in Hr. assert (a = r) as -> by congruence. lia.
  - destruct (lookup_lt_is_Some_2 spine i) as [a0 Ha0]; [apply lookup_lt_Some in Ha; lia |].
    destruct (Hlinks i a0 a Ha0 Ha) as (n & Hn & Hleaf & Hhead).
    assert (a ∈ ptrs n) as Hin.
    { destruct (ptrs n); [done |]. simpl in Hhead. injection Hhead as ->. by left. }
    destruct (wf_child _ _ Hwf a0 n a Hn Hleaf Hin) as [_ Hlvl].
    specialize (IH a0 r Ha0 Hr). lia.
Qed.

Lemma spined_length spine t lvl L :
  spined spine t -> wf lvl t -> bounded lvl L t -> root_valid t ->
  (length spine <= S L)%nat.
Proof.
  intros Hsp Hwf Hbd Hrv.
  destruct (head spine) as [r|] eqn:Hhead; [| by destruct spine; [simpl; lia |]].
  destruct (lookup_lt_is_Some_2 spine (length spine - 1)) as [a Ha];
    [destruct spine; [done | simpl; lia] |].
  pose proof (spined_levels _ _ _ Hsp Hwf _ _ _ Ha Hhead) as Hle.
  destruct Hsp as (Hroot & _ & _). rewrite Hhead in Hroot.
  pose proof (Hbd r (Hrv r (eq_sym Hroot))). lia.
Qed.

Lemma leaf_chain_chained chain spine t lvl L fuel :
  chained chain t -> spined spine t -> head chain = last spine ->
  wf lvl t -> bounded lvl L t -> root_valid t -> root t <> None ->
  (L <= fuel)%nat -> (length (nodes t) <= S fuel)%nat ->
  leaf_chain fuel t = Some chain.
Proof.
  intros Hch Hsp Hhl Hwf Hbd Hrv Hroot HL Hlen.
  destruct (root t) as [r|] eqn:Hr; [| done].
  pose proof Hsp as (Hhead & _ & Hlast). rewrite Hr in Hhead.
  assert (spine !! 0%nat = Some r) as H0 by (by rewrite <- head_lookup).
  pose proof (spined_length _ _ _ _ Hsp Hwf Hbd Hrv) as Hsl.
  unfold leaf_chain. rewrite Hr. simpl.
  rewrite (spined_path _ _ Hsp fuel 0%nat r H0) by lia. rewrite drop_0. simpl.
  destruct (last spine) as [a|] eqn:Ha.
  2: { apply last_None in Ha. by subst spine. }
  destruct (Hlast a eq_refl) as (-> & _). simpl.
  rewrite head_lookup in Hhl.
  pose proof (chained_length _ _ Hch) as Hcl.
  rewrite (chained_right_path _ _ Hch fuel 0%nat 0%nat Hhl) by lia. simpl.
  by rewrite <- (drop_S _ _ _ Hhl), drop_0.
Qed.

Lemma flat_map_ext_elem {A B} (f g : A -> list B) (l : list A) :
  (forall x, x ∈ l -> f x = g x) -> flat_map f l = flat_map g l.
Proof.
  induction l as [|x l IH]; intros Hfg; [done |]. simpl.
  rewrite (Hfg x) by (by left). f_equal. apply IH. intros y Hy. apply Hfg. by right.
Qed.

Lemma flat_map_filter_seq {A} (f : Node -> list A) (ns : list Node) :
  flat_map (fun j => from_option (fun n => if is_leaf n then f n else []) [] (ns !! j))
    (seq 0 (length ns))
  = flat_map (fun n => if is_leaf n then f n else []) ns.
Proof.
  induction ns as [|n ns IH] using rev_ind; [done |].
  rewrite length_app. simpl. rewrite Nat.add_1_r, seq_S, !flat_map_app. simpl.
  rewrite list_lookup_middle by done. simpl. rewrite !app_nil_r. f_equal.
  rewrite <- IH. apply flat_map_ext_elem. intros j Hj%elem_of_seq.
  by rewrite lookup_app_l by lia.
Qed.

Lemma flat_map_perm_same {A B} (f : A -> list B) (l k : list A) :
  l ≡ₚ k -> flat_map f l ≡ₚ flat_map f k.
Proof.
  induction 1 as [| x l k _ IH | x y l | l k m _ IH1 _ IH2]; simpl.
  - done.
  - by f_equiv.
  - rewrite !app_assoc. f_equiv. apply Permutation_app_comm.
  - by etrans.
Qed.

Lemma flat_map_nil_outside {A B} (f : A -> list B) (P : A -> Prop)
    `{forall x, Decision (P x)} (l : list A) :
  (forall x, x ∈ l -> ~ P x -> f x = []) ->
  flat_map f (filter P l) = flat_map f l.
Proof.
  induction l as [|x l IH]; intros Hout; [done |].
  rewrite filter_cons. simpl. destruct (decide (P x)) as [Hx|Hx]; simpl.
  - f_equal. apply IH. intros y Hy. apply Hout. by right.
  - rewrite (Hout x) by (done || by left). simpl. apply IH. intros y Hy. apply Hout. by right.
Qed.

(** The leaves taken along the chain hold what the leaves of the arena
    hold. *)
Lemma chained_flat_map {A} (f : Node -> list A) chain t :
  chained chain t ->
  flat_map (fun j => from_option f [] (nodes t !! j)) chain
  ≡ₚ flat_map (fun n => if is_leaf n then f n else []) (nodes t).
Proof.
  intros Hch. pose proof Hch as (Hnd & Hleaves & Hlinks).
  set (P := fun j : nat => j ∈ chain).
  set (G := fun n => if is_leaf n then f n else []).
  transitivity (flat_map (fun j => from_option f [] (nodes t !! j))
                  (filter P (seq 0 (length (nodes t))))).
  { apply flat_map_perm_same. apply NoDup_Permutation.
    - done.
    - apply NoDup_filter, NoDup_seq.
    - intros a. rewrite list_elem_of_filter, elem_of_seq. unfold P. split; [| by intros []].
      intros Ha. split; [done |]. pose proof (chained_valid _ _ _ Hch Ha). lia. }
  apply reflexive_eq.
  transitivity (flat_map (fun j => from_option G [] (nodes t !! j))
                  (filter P (seq 0 (length (nodes t))))).
  { apply flat_map_ext_elem. intros j [Hj _]%list_elem_of_filter.
    destruct (nodes t !! j) as [n|] eqn:Hn; [| done]. simpl. unfold G.
    by rewrite (proj2 (Hleaves j n Hn) Hj). }
  rewrite flat_map_nil_outside; [apply flat_map_filter_seq |].
  intros j _ Hj. destruct (nodes t !! j) as [n|] eqn:Hn; [| done]. simpl. unfold G.
  destruct (is_leaf n) eqn:Hleaf; [| done]. by apply (Hleaves j n Hn) in Hleaf.
Qed.

(** *** What [find] yields *)

Lemma matching_ptr test n q : q ∈ matching test n -> q ∈ ptrs n.
Proof.
  unfold matching, entries. intros ([k q'] & -> & Hin%list_elem_of_filter)%list_elem_of_fmap.
  destruct Hin as [_ Hin]. simpl. by apply elem_of_zip_r in Hin.
Qed.

Lemma elem_of_leaf_ptrs t q :
  q ∈ leaf_ptrs t <-> exists j n, nodes t !! j = Some n /\ is_leaf n = true /\ q ∈ ptrs n.
Proof.
  unfold leaf_ptrs. rewrite list_elem_of_In, in_flat_map. split.
  - intros (n & Hn%list_elem_of_In & Hq). apply list_elem_of_lookup in Hn as [j Hj].
    exists j, n. destruct (is_leaf n); [| done]. by rewrite list_elem_of_In.
  - intros (j & n & Hn & Hleaf & Hq). exists n. rewrite Hleaf.
    split; [| by rewrite <- list_elem_of_In].
    rewrite <- list_elem_of_In. by eapply list_elem_of_lookup_2.
Qed.

Lemma ptrs_along_leaves t path chain q :
  chained chain t -> (forall a, a ∈ path -> a ∈ chain) ->
  q ∈ ptrs_along t path -> q ∈ leaf_ptrs t.
Proof.
  intros (_ & Hleaves & _) Hsub. unfold ptrs_along.
  rewrite list_elem_of_In, in_flat_map. intros (a & Ha%list_elem_of_In & Hq).
  destruct (nodes t !! a) as [n|] eqn:Hn; [| done]. simpl in Hq.
  apply elem_of_leaf_ptrs. exists a, n. split; [done |].
  split; [by apply (Hleaves a n Hn), Hsub |]. by rewrite list_elem_of_In.
Qed.

(** [find] once the search has found a leaf from which both sibling walks
    end. *)
Lemma find_along_paths fuel operator value w leaf ops n rpath lpath :
  _search fuel value w = Ok (leaf, ops) w ->
  nodes (tree w) !! leaf = Some n ->
  (length (values n) <= length (ptrs n))%nat ->
  sibling_path fuel right_sibling (tree w) leaf = Some rpath ->
  sibling_path fuel left_sibling (tree w) leaf = Some lpath ->
  exists results ops',
    find fuel operator value w
    = Ok results (mkWorld (tree w) (stdout w ++ [OpsLine ops']) (defaults w))
    /\ forall q, q ∈ results ->
         q ∈ ptrs n \/ q ∈ ptrs_along (tree w) rpath \/ q ∈ ptrs_along (tree w) lpath.
Proof.
  intros Hs Hn Hlen Hr Hl.
  destruct (decide (operator ∈ recognised)) as [Hop|Hop].
  2: { exists [], ops. split; [by eapply find_no_branch |]. by intros q ?%not_elem_of_nil. }
  unfold recognised in Hop. rewrite !elem_of_cons in Hop.
  destruct Hop as [-> | [-> | [-> | [-> | [-> | ?%not_elem_of_nil]]]]]; [| | | | | done].
  - exists (eq_branch value n []), ops. split; [by eapply find_equal_branch |].
    intros q Hq. left. by eapply eq_branch_ptr.
  - eexists _, _. split.
    { unfold find. unfold bind at 1. rewrite Hs. simpl.
      unfold bind at 1. unfold node_at at 1. rewrite Hn.
      compare_strings. cbv [bind ret].
      by rewrite (range_branch_path _ _ _ _ _ _ _ _ _ Hn Hlen Hr). }
    simpl. intros q [Hq | Hq]%elem_of_app; [left; by eapply matching_ptr | by right; left].
  - eexists _, _. split.
    { unfold find. unfold bind at 1. rewrite Hs. simpl.
      unfold bind at 1. unfold node_at at 1. rewrite Hn.
      compare_strings. cbv [bind ret].
      by rewrite (range_branch_path _ _ _ _ _ _ _ _ _ Hn Hlen Hr). }
    simpl. intros q [Hq | Hq]%elem_of_app; [left; by eapply matching_ptr | by right; left].
  - eexists _, _. split.
    { unfold find. unfold bind at 1. rewrite Hs. simpl.
      unfold bind at 1. unfold node_at at 1. rewrite Hn.
      compare_strings. cbv [bind ret].
      by rewrite (range_branch_path _ _ _ _ _ _ _ _ _ Hn Hlen Hl). }
    simpl. intros q [Hq | Hq]%elem_of_app; [left; by eapply matching_ptr | by right; right].
  - eexists _, _. split.
    { unfold find. unfold bind at 1. rewrite Hs. simpl.
      unfold bind at 1. unfold node_at at 1. rewrite Hn.
      compare_strings. cbv [bind ret].
      by rewrite (range_branch_path _ _ _ _ _ _ _ _ _ Hn Hlen Hl). }
    simpl. intros q [Hq | Hq]%elem_of_app; [left; by eapply matching_ptr | by right; right].
Qed.

(** *** Insertion *)

(** The statements that follow are about the tree that a script of
    [insert] calls makes from [Btree(b)] in a fresh interpreter ([built],
    which starts from [fresh]): one in which no other tree is inserted
    into or deleted from, so that the default lists of [Node.__init__] are
    empty when the root leaf is made and are changed through that leaf
    only.  A tree made later in the same interpreter starts with what the
    default lists hold by then (X26, X27), and is not covered. *)

(** X11: in a fresh interpreter [insert] never raises and never fails to
    return, whatever the branching factor, the keys and the pointers: every
    script of insertions into [Btree(b)] runs to its end (with fuel for as
    many levels as it has insertions), leaves the root set as soon as one
    pair went in, and prints nothing. *)
Theorem insert_always_returns (bf : Z) (script : list (Z * nat)) (k : nat) :
  exists w, inserts (length script + k) script (fresh bf) = Ok tt w
            /\ b (tree w) = bf
            /\ (script <> [] -> root (tree w) <> None)
            /\ stdout w = [].
Proof.
  destruct (inserts_shape bf script (length script + k))
    as (w & Hrun & (_ & _ & Hout) & Hsound & Hroot); [lia |].
  exists w. split; [done |]. split; [by destruct Hsound |]. done.
Qed.

(** X12: in every tree built by insertions in a fresh interpreter the
    parent links and the child lists agree: the parent of a node is an
    internal node that lists it, an internal node is the parent of each
    node it lists and lists none twice, and the root is the one node
    without a parent. *)
Theorem built_links_agree (bf : Z) (fuel : nat) (script : list (Z * nat)) (t : Btree) :
  built fuel bf script = Some t -> linked t.
Proof. intros Hb. by destruct (built_has_shape bf fuel script t Hb) as ((? & _) & _). Qed.

Lemma built_links_agree_witness : linked scenario_tree.
Proof. apply (built_links_agree 3 2%nat scenario scenario_tree). reflexivity. Defined.

(** X13: every tree built by insertions in a fresh interpreter is
    balanced: all its leaves are the same number of parent links away from
    the root. *)
Theorem built_leaves_same_depth (bf : Z) (fuel : nat) (script : list (Z * nat)) (t : Btree) :
  built fuel bf script = Some t ->
  exists d, forall j n,
    nodes t !! j = Some n -> is_leaf n = true -> depth (length script) t j = Some d.
Proof.
  intros Hb.
  destruct (built_has_shape bf fuel script t Hb)
    as ((Hlk & (h & Hbal) & _) & _ & (_ & _ & Hrv & lvl & Hwf & Hbd) & _).
  simpl in *. destruct (root t) as [r|] eqn:Hr.
  - exists (h r). intros j n Hn Hleaf.
    destruct (depth_height t lvl (length script) h r Hlk Hwf Hbd Hbal Hr (length script) j n Hn)
      as (k & Hk & Hh); [lia |].
    specialize (Hbal j n Hn). rewrite Hleaf in Hbal. rewrite Hk. f_equal. lia.
  - exists 0%nat. intros j n Hn. by rewrite (lk_none _ Hlk Hr) in Hn.
Qed.

Lemma built_leaves_same_depth_witness :
  exists d, forall j n,
    nodes scenario_tree !! j = Some n -> is_leaf n = true -> depth 6 scenario_tree j = Some d.
Proof. apply (built_leaves_same_depth 3 2%nat scenario scenario_tree). reflexivity. Defined.

(** X14: with a branching factor of at least 2, no node of a tree built
    by insertions in a fresh interpreter is left with as many keys as the
    branching factor: every node that reached it was split. *)
Theorem built_nodes_have_room (bf : Z) (fuel : nat) (script : list (Z * nat)) (t : Btree) :
  2 <= bf -> built fuel bf script = Some t ->
  forall j n, nodes t !! j = Some n -> Z.of_nat (length (values n)) < bf.
Proof.
  intros Hbf Hb j n Hn.
  destruct (built_has_shape bf fuel script t Hb) as (_ & Hroom & _).
  by apply (Hroom Hbf j n Hn).
Qed.

Lemma built_nodes_have_room_witness :
  Z.of_nat (length (values (leaf3 [3; 5] [4%nat; 3%nat] (Some 0%nat) (Some 1%nat) (Some 2%nat))))
  < 3.
Proof.
  apply (built_nodes_have_room 3 2%nat scenario scenario_tree) with (j := 3%nat);
    [lia | reflexivity | reflexivity].
Defined.

(** X15: every node other than the root of a tree built by insertions in
    a fresh interpreter is at least half full: a leaf holds at least
    [b // 2] keys, an internal node at least [(b - 1) // 2]. *)
Theorem built_nodes_half_full (bf : Z) (fuel : nat) (script : list (Z * nat)) (t : Btree) :
  built fuel bf script = Some t ->
  forall j n, nodes t !! j = Some n -> parent n <> None ->
    (if is_leaf n then bf / 2 else (bf - 1) / 2) <= Z.of_nat (length (values n)).
Proof.
  intros Hb j n Hn Hpar.
  destruct (built_has_shape bf fuel script t Hb) as ((_ & _ & _ & _ & _ & Hhalf) & _).
  by destruct (Forall_lookup_1 _ _ _ _ Hhalf Hn).
Qed.

Lemma built_nodes_half_full_witness :
  let n := inner3 [9] [1%nat; 4%nat] (Some 6%nat) in
  (if is_leaf n then 3 / 2 else (3 - 1) / 2) <= Z.of_nat (length (values n)).
Proof.
  apply (built_nodes_half_full 3 2%nat scenario scenario_tree) with (j := 5%nat);
    [reflexivity | reflexivity | discriminate].
Defined.

(** X16: the leaves of a tree built by insertions in a fresh interpreter
    hold exactly the inserted keys, each as often as it was inserted: no
    insertion and no split loses or repeats a key. *)
Theorem built_keeps_every_key (bf : Z) (fuel : nat) (script : list (Z * nat)) (t : Btree) :
  built fuel bf script = Some t -> leaf_keys t ≡ₚ script.*1.
Proof.
  intros Hb. by destruct (built_has_shape bf fuel script t Hb) as ((_ & _ & _ & ? & _) & _).
Qed.

Lemma built_keeps_every_key_witness : leaf_keys scenario_tree ≡ₚ scenario.*1.
Proof. apply (built_keeps_every_key 3 2%nat scenario scenario_tree). reflexivity. Defined.

(** X17: the leaves of a tree built by insertions in a fresh interpreter
    hold the inserted record pointers and no other; when the branching
    factor is odd, each as often as it was inserted. *)
Theorem built_keeps_every_pointer (bf : Z) (fuel : nat) (script : list (Z * nat)) (t : Btree) :
  built fuel bf script = Some t ->
  (forall q, q ∈ leaf_ptrs t <-> q ∈ script.*2)
  /\ (bf mod 2 = 1 -> leaf_ptrs t ≡ₚ script.*2).
Proof.
  intros Hb. by destruct (built_has_shape bf fuel script t Hb) as ((_ & _ & _ & _ & ? & _) & _).
Qed.

Lemma built_keeps_every_pointer_witness :
  (forall q, q ∈ leaf_ptrs scenario_tree <-> q ∈ scenario.*2)
  /\ (3 mod 2 = 1 -> leaf_ptrs scenario_tree ≡ₚ scenario.*2).
Proof. apply (built_keeps_every_pointer 3 2%nat scenario scenario_tree). reflexivity. Defined.

(** X18: in a tree built by at least one insertion in a fresh
    interpreter the walk from the root through first children and then
    along [right_sibling] ends, visits every leaf of the arena exactly once
    and no other node, and so meets every inserted key as often as it was
    inserted. *)
Theorem built_leaf_chain (bf : Z) (fuel : nat) (script : list (Z * nat)) (t : Btree) :
  built fuel bf script = Some t -> script <> [] ->
  exists chain,
    leaf_chain (length script + length (nodes t)) t = Some chain
    /\ NoDup chain
    /\ (forall j n, nodes t !! j = Some n -> (is_leaf n = true <-> j ∈ chain))
    /\ flat_map (fun j => from_option values [] (nodes t !! j)) chain ≡ₚ script.*1.
Proof.
  intros Hb Hne.
  destruct (built_has_shape bf fuel script t Hb)
    as ((_ & _ & (chain & spine & Hch & Hsp & Hhl) & Hkeys & _)
        & _ & (_ & _ & Hrv & lvl & Hwf & Hbd) & Hroot).
  simpl in *. exists chain.
  split; [eapply leaf_chain_chained; eauto; lia |].
  split; [by destruct Hch |]. split; [by destruct Hch as (_ & ? & _) |].
  rewrite <- Hkeys. by apply chained_flat_map.
Qed.

Lemma built_leaf_chain_witness :
  exists chain,
    leaf_chain (6 + 7) scenario_tree = Some chain
    /\ NoDup chain
    /\ (forall j n, nodes scenario_tree !! j = Some n -> (is_leaf n = true <-> j ∈ chain))
    /\ flat_map (fun j => from_option values [] (nodes scenario_tree !! j)) chain
       ≡ₚ scenario.*1.
Proof. apply (built_leaf_chain 3 2%nat scenario scenario_tree); [reflexivity | done]. Defined.

(** X19: between the leaves of a tree built by insertions in a fresh
    interpreter the two sibling links are inverse to each other: [b] is the
    right sibling of [a] exactly when [a] is the left sibling of [b]. *)
Theorem built_sibling_links_inverse (bf : Z) (fuel : nat) (script : list (Z * nat))
    (t : Btree) (a b : nat) (na nb : Node) :
  built fuel bf script = Some t ->
  nodes t !! a = Some na -> nodes t !! b = Some nb ->
  is_leaf na = true -> is_leaf nb = true ->
  (right_sibling na = Some b <-> left_sibling nb = Some a).
Proof.
  intros Hb Ha Hnb Hla Hlb.
  destruct (built_has_shape bf fuel script t Hb)
    as ((_ & _ & (chain & spine & (Hnd & Hleaves & Hlinks) & _) & _) & _).
  apply (Hleaves a na Ha), list_elem_of_lookup in Hla as [i Hi].
  apply (Hleaves b nb Hnb), list_elem_of_lookup in Hlb as [i' Hi'].
  destruct (Hlinks i a Hi) as (n & Hn & Hr & _).
  destruct (Hlinks i' b Hi') as (n' & Hn' & _ & Hl).
  assert (n = na) as -> by congruence. assert (n' = nb) as -> by congruence.
  rewrite Hr, Hl. split.
  - intros HS. assert (i' = S i) as -> by (by eapply NoDup_lookup). done.
  - destruct i' as [|i'']; [done |]. intros Hi''.
    assert (i'' = i) as -> by (by eapply NoDup_lookup). done.
Qed.

Lemma built_sibling_links_inverse_witness :
  right_sibling (leaf3 [3; 5] [4%nat; 3%nat] (Some 0%nat) (Some 1%nat) (Some 2%nat)) = Some 1%nat
  <-> left_sibling (leaf3 [7] [1%nat] (Some 3%nat) (Some 4%nat) (Some 5%nat)) = Some 3%nat.
Proof.
  apply (built_sibling_links_inverse 3 2%nat scenario scenario_tree 3%nat 1%nat);
    reflexivity.
Defined.

(** *** Queries on a built tree *)

(** X20: on every tree built by at least one insertion in a fresh
    interpreter, [find] returns for every operator string and every key: it
    raises nothing, leaves the tree as it was, prints one line, and every
    pointer it returns is one that was inserted. *)
Theorem find_returns_on_built (bf : Z) (fuel : nat) (script : list (Z * nat)) (t : Btree)
    (operator : string) (value : Z) (out : list line) (d : Defaults) :
  built fuel bf script = Some t -> script <> [] ->
  exists results ops,
    find (length script + length (nodes t)) operator value (mkWorld t out d)
    = Ok results (mkWorld t (out ++ [OpsLine ops]) d)
    /\ forall q, q ∈ results -> q ∈ script.*2.
Proof.
  intros Hb Hne.
  destruct (built_has_shape bf fuel script t Hb)
    as ((_ & _ & (chain & spine & Hch & _) & _ & [Hptrs _] & _) & _ & Hsound & Hroot).
  set (fuel' := (length script + length (nodes t))%nat).
  destruct (search_total bf (length script) fuel' value (mkWorld t out d) Hsound (Hroot Hne))
    as (leaf & ops & n & Hs & Hn & Hleaf); [unfold fuel'; lia |].
  simpl in Hn.
  pose proof Hch as (_ & Hleaves & _).
  apply (Hleaves leaf n Hn), list_elem_of_lookup in Hleaf as [i Hi].
  pose proof (chained_length _ _ Hch) as Hcl.
  pose proof (lookup_lt_Some _ _ _ Hi) as Hilt.
  assert (sibling_path fuel' right_sibling t leaf = Some (drop (S i) chain)) as Hr
    by (apply (chained_right_path _ _ Hch); [done | unfold fuel'; lia]).
  assert (sibling_path fuel' left_sibling t leaf = Some (reverse (take i chain))) as Hl
    by (apply (chained_left_path _ _ Hch); [done | unfold fuel'; lia]).
  destruct Hsound as (_ & Hshape & _). simpl in Hshape.
  destruct (Forall_lookup_1 _ _ _ _ Hshape Hn) as (_ & Hlen & _).
  destruct (find_along_paths fuel' operator value (mkWorld t out d) leaf ops n _ _ Hs Hn Hlen Hr Hl)
    as (results & ops' & Hfind & Hres).
  exists results, ops'. split; [done |].
  intros q Hq. apply Hptrs. destruct (Hres q Hq) as [Hin | [Hin | Hin]].
  - apply elem_of_leaf_ptrs. exists leaf, n. split; [done |]. split; [| done].
    apply (Hleaves leaf n Hn). by eapply list_elem_of_lookup_2.
  - eapply ptrs_along_leaves; [done | | done]. intros a Ha. by eapply elem_of_drop_1.
  - eapply ptrs_along_leaves; [done | | done].
    intros a Ha. rewrite elem_of_reverse in Ha. by eapply elem_of_take_1.
Qed.

Lemma find_returns_on_built_witness :
  exists results ops,
    find (6 + 7) ">=" 5 (mkWorld scenario_tree [] scenario_defaults)
    = Ok results (mkWorld scenario_tree ([] ++ [OpsLine ops]) scenario_defaults)
    /\ forall q, q ∈ results -> q ∈ scenario.*2.
Proof.
  apply (find_returns_on_built 3 2%nat scenario scenario_tree ">=" 5 []);
    [reflexivity | done].
Defined.

(** ** Search trees *)

(** *** Lists *)

Lemma py_insert_lookup {A} (i : nat) (x : A) (l : list A) (q : nat) :
  (i <= length l)%nat ->
  py_insert i x l !! q
  = if decide (q < i)%nat then l !! q
    else if decide (q = i) then Some x else l !! (q - 1)%nat.
Proof.
  intros Hi. unfold py_insert. destruct (decide (q < i)%nat) as [Hq|Hq].
  - rewrite lookup_app_l by (rewrite length_take; lia). by apply lookup_take_lt.
  - rewrite lookup_app_r by (rewrite length_take; lia).
    rewrite length_take. replace (i `min` length l)%nat with i by lia.
    destruct (decide (q = i)) as [->|Hqi].
    + by rewrite Nat.sub_diag.
    + replace (q - i)%nat with (S (q - i - 1)) by lia. simpl.
      rewrite lookup_drop. f_equal. lia.
Qed.

Lemma py_insert_end {A} (i : nat) (x : A) (l : list A) :
  (length l <= i)%nat -> py_insert i x l = l ++ [x].
Proof. intros Hi. unfold py_insert. by rewrite take_ge, drop_ge by lia. Qed.

Lemma increasing_nil : increasing [].
Proof. by intros a b ka kb _ ?. Qed.

Lemma increasing_take m ks : increasing ks -> increasing (take m ks).
Proof.
  intros Hinc a b ka kb Hab Ha Hb.
  apply lookup_take_Some in Ha as [Ha _]. apply lookup_take_Some in Hb as [Hb _].
  by eapply Hinc.
Qed.

Lemma increasing_drop m ks : increasing ks -> increasing (drop m ks).
Proof.
  intros Hinc a b ka kb Hab Ha Hb. rewrite lookup_drop in Ha, Hb.
  eapply Hinc; [| done | done]. lia.
Qed.

Lemma increasing_py_insert i v ks :
  increasing ks -> (i <= length ks)%nat ->
  (forall a k, (a < i)%nat -> ks !! a = Some k -> k < v) ->
  (forall a k, (i <= a)%nat -> ks !! a = Some k -> v < k) ->
  increasing (py_insert i v ks).
Proof.
  intros Hinc Hi Hlt Hgt a b ka kb Hab.
  rewrite !py_insert_lookup by done.
  repeat case_decide; try lia; intros Ha Hb; simplify_eq;
    first [ eapply Hlt; [| done]; lia
          | eapply Hgt; [| done]; lia
          | eapply Hinc; [| done | done]; lia ].
Qed.

Lemma increasing_sorted ks : increasing ks -> StronglySorted Z.lt ks.
Proof.
  induction ks as [|k ks IH]; intros Hinc; constructor.
  - apply IH. intros a b ka kb Hab Ha Hb. by apply (Hinc (S a) (S b) ka kb); [lia | |].
  - apply Forall_forall. intros k' [i Hi]%list_elem_of_lookup.
    by apply (Hinc 0%nat (S i) k k'); [lia | |].
Qed.

Lemma sorted_increasing ks : StronglySorted Z.lt ks -> increasing ks.
Proof.
  induction 1 as [|k ks _ IH Hall]; [apply increasing_nil |].
  intros [|a] [|b] ka kb Hab Ha Hb; simpl in *; try lia.
  - injection Ha as <-. eapply Forall_forall in Hall; [done |]. by eapply list_elem_of_lookup_2.
  - eapply IH; [| done | done]. lia.
Qed.

Lemma increasing_le ks a b ka kb :
  increasing ks -> (a <= b)%nat -> ks !! a = Some ka -> ks !! b = Some kb -> ka <= kb.
Proof.
  intros Hinc Hab Ha Hb. destruct (decide (a = b)) as [->|Hne].
  - assert (ka = kb) by congruence. lia.
  - assert (ka < kb); [| lia]. eapply Hinc; [| done | done]. lia.
Qed.

(** *** Where a key goes in a node *)

Lemma first_greater_point value ks :
  exists i, (i <= length ks)%nat
    /\ first_greater value ks 0 = (if decide (i < length ks)%nat then Some i else None)
    /\ (forall a k, (a < i)%nat -> ks !! a = Some k -> k <= value)
    /\ (forall k, ks !! i = Some k -> value < k).
Proof.
  destruct (first_greater value ks 0) as [index|] eqn:Hfg.
  - destruct (first_greater_Some _ _ _ _ Hfg) as (_ & Hall & e & He & Hlt).
    rewrite Nat.sub_0_r in *. pose proof (lookup_lt_Some _ _ _ He) as Hlen.
    exists index. split; [lia |]. split; [by rewrite decide_True |].
    split; [| intros k Hk; congruence].
    intros a k Ha Hk. eapply Forall_forall in Hall; [exact Hall |].
    eapply list_elem_of_lookup_2. by rewrite lookup_take_lt.
  - apply first_greater_None in Hfg. exists (length ks). split; [done |].
    split; [by rewrite decide_False by lia |].
    split; [| intros k Hk; apply lookup_lt_Some in Hk; lia].
    intros a k _ Hk. eapply Forall_forall in Hfg; [exact Hfg |]. by eapply list_elem_of_lookup_2.
Qed.

Lemma Node_find_point n value :
  is_leaf n = false -> length (ptrs n) = S (length (values n)) ->
  exists i c ops,
    Node_find n value = inr (c, ops) /\ ptrs n !! i = Some c
    /\ (forall a k, (a < i)%nat -> values n !! a = Some k -> k <= value)
    /\ (forall k, values n !! i = Some k -> value < k).
Proof.
  intros Hleaf Hlen. destruct (first_greater_point value (values n)) as (i & Hi & Hfg & Hlo & Hhi).
  destruct (lookup_lt_is_Some_2 (ptrs n) i) as [c Hc]; [lia |].
  unfold Node_find. rewrite Hleaf, Hfg. destruct (decide (i < length (values n))%nat).
  - rewrite Hc. eauto 10.
  - assert (i = length (values n)) as -> by lia.
    assert (last (ptrs n) = Some c) as ->.
    { rewrite last_lookup, Hlen. simpl. done. }
    eauto 10.
Qed.

Lemma Node_insert_point value ptr n :
  exists i, (i <= length (values n))%nat
    /\ values (Node_insert value ptr None n) = py_insert i value (values n)
    /\ (length (ptrs n) <= S (length (values n)) ->
        ptrs (Node_insert value ptr None n) = py_insert (S i) ptr (ptrs n))%nat
    /\ (forall a k, (a < i)%nat -> values n !! a = Some k -> k <= value)
    /\ (forall k, values n !! i = Some k -> value < k).
Proof.
  destruct (first_greater_point value (values n)) as (i & Hi & Hfg & Hlo & Hhi).
  exists i. split; [done |]. unfold Node_insert. rewrite Hfg.
  destruct (decide (i < length (values n))%nat); simpl.
  - rewrite Nat.add_1_r. done.
  - assert (i = length (values n)) as -> by lia.
    rewrite py_insert_end by done. split; [done |]. split; [| done].
    intros Hlen. by rewrite py_insert_end by lia.
Qed.

(** *** The search in a search tree *)

Section Search.
Variables (bf : Z) (lo hi : nat -> option Z) (w : World) (value : Z).
Hypothesis Hshape : Forall (node_shape bf) (nodes (tree w)).
Hypothesis Hranged : ranged lo hi (tree w).

Lemma child_in_range j n i c :
  nodes (tree w) !! j = Some n -> is_leaf n = false -> ptrs n !! i = Some c ->
  above (lo j) value -> below (hi j) value ->
  (forall a k, (a < i)%nat -> values n !! a = Some k -> k <= value) ->
  (forall k, values n !! i = Some k -> value < k) ->
  above (lo c) value /\ below (hi c) value.
Proof.
  intros Hn Hleaf Hc Hab Hbe Hlow Hhigh.
  destruct Hranged as [_ Hnodes]. destruct (Hnodes j n Hn) as (_ & _ & _ & Hkids & _).
  destruct (Hkids Hleaf i c Hc) as [-> ->]. split.
  - destruct i as [|i']; simpl; [done |].
    destruct (values n !! i') as [k|] eqn:Hk; simpl; [| done]. by eapply (Hlow i'); [lia |].
  - unfold hib. destruct (values n !! i) as [k|] eqn:Hk; simpl; [by apply Hhigh | done].
Qed.

(** The search ends in a leaf whose bounds hold the key. *)
Lemma search_loop_in_range :
  forall fuel idx node ops leaf ops' w',
    nodes (tree w) !! idx = Some node ->
    above (lo idx) value -> below (hi idx) value ->
    search_loop fuel value idx node ops w = Ok (leaf, ops') w' ->
    above (lo leaf) value /\ below (hi leaf) value.
Proof.
  induction fuel as [|fuel IH]; intros idx node ops leaf ops' w' Hnode Hab Hbe; simpl;
    destruct (is_leaf node) eqn:Hleaf; try discriminate.
  - by intros [= <- <- <-].
  - by intros [= <- <- <-].
  - intros H.
    destruct (Forall_lookup_1 _ _ _ _ Hshape Hnode) as (_ & _ & Hfan & _).
    destruct (Node_find_point node value Hleaf (Hfan Hleaf))
      as (i & c & ops1 & Hfind & Hc & Hlow & Hhigh).
    apply bind_Ok in H as ([idx' ops1'] & w1 & H1 & H).
    unfold lift in H1. rewrite Hfind in H1. injection H1 as <- <- <-.
    apply bind_Ok in H as (node' & w2 & H2 & H).
    unfold node_at in H2. destruct (nodes (tree w) !! c) as [nc|] eqn:Hnc; [| discriminate].
    injection H2 as <- <-.
    destruct (child_in_range idx node i c Hnode Hleaf Hc Hab Hbe Hlow Hhigh).
    by eapply (IH c nc).
Qed.

Lemma search_in_range fuel leaf ops w' :
  _search fuel value w = Ok (leaf, ops) w' ->
  above (lo leaf) value /\ below (hi leaf) value.
Proof.
  unfold _search, root_node, get_root. intros H.
  apply bind_Ok in H as ([idx node] & w1 & H1 & H).
  apply bind_Ok in H1 as (r & w2 & [= <- <-] & H1).
  destruct (root (tree w)) as [i|] eqn:Hr; [| discriminate].
  apply bind_Ok in H1 as (n & w3 & H3 & [= <- <- <-]).
  unfold node_at in H3. destruct (nodes (tree w) !! i) eqn:Hi; [| discriminate].
  injection H3 as <- <-.
  destruct Hranged as [Hroot _]. destruct (Hroot i Hr) as [Hlo Hhi].
  eapply search_loop_in_range; [done | by rewrite Hlo | by rewrite Hhi | done].
Qed.

Variables (lvl : nat -> nat) (L : nat).
Hypothesis Hlk : linked (tree w).
Hypothesis Hwf : wf lvl (tree w).
Hypothesis Hbd : bounded lvl L (tree w).

(** The parent of a node sends to it every key within its bounds. *)
Lemma routed j n p pn :
  nodes (tree w) !! j = Some n -> parent n = Some p -> nodes (tree w) !! p = Some pn ->
  above (lo j) value -> below (hi j) value ->
  is_leaf pn = false
  /\ (exists ops, Node_find pn value = inr (j, ops))
  /\ above (lo p) value /\ below (hi p) value.
Proof.
  intros Hn Hpar Hpn Hab Hbe.
  destruct (lk_parent _ Hlk j n p Hn Hpar) as (pn' & Hpn' & Hleaf & Hin).
  assert (pn' = pn) as -> by congruence.
  apply list_elem_of_lookup in Hin as [i0 Hi0].
  destruct (Forall_lookup_1 _ _ _ _ Hshape Hpn) as (_ & _ & Hfan & _).
  specialize (Hfan Hleaf).
  destruct (Node_find_point pn value Hleaf Hfan) as (i & c & ops & Hfind & Hc & Hlow & Hhigh).
  destruct Hranged as [_ Hnodes].
  destruct (Hnodes p pn Hpn) as (Hinc & Hin & _ & Hkids & _).
  destruct (Hkids Hleaf i0 j Hi0) as [Hlo Hhi].
  pose proof (lookup_lt_Some _ _ _ Hi0) as Hi0lt.
  pose proof (lookup_lt_Some _ _ _ Hc) as Hilt.
  split; [done |].
  assert (i = i0) as ->.
  { destruct (Nat.lt_trichotomy i i0) as [Hlt | [-> | Hgt]]; [| done |]; exfalso.
    - destruct i0 as [|i0']; [lia |]. simpl in Hlo.
      destruct (lookup_lt_is_Some_2 (values pn) i0') as [k' Hk']; [lia |].
      destruct (lookup_lt_is_Some_2 (values pn) i) as [k Hk]; [lia |].
      rewrite Hlo, Hk' in Hab. simpl in Hab.
      pose proof (Hhigh k Hk).
      pose proof (increasing_le _ i i0' k k' Hinc ltac:(lia) Hk Hk'). lia.
    - destruct (lookup_lt_is_Some_2 (values pn) i0) as [k Hk]; [lia |].
      pose proof (Hlow i0 k Hgt Hk).
      unfold hib in Hhi. rewrite Hk in Hhi. rewrite Hhi in Hbe. simpl in Hbe. lia. }
  assert (c = j) as -> by congruence.
  split; [eauto |]. split.
  - destruct i0 as [|i0']; simpl in Hlo; [by rewrite <- Hlo |].
    destruct (values pn !! i0') as [k'|] eqn:Hk'.
    + rewrite Hlo in Hab. simpl in Hab.
      destruct (Hin k' (list_elem_of_lookup_2 _ _ _ Hk')) as [Hab' _].
      destruct (lo p); simpl in *; [lia | done].
    + apply lookup_ge_None in Hk'. lia.
  - unfold hib in Hhi. destruct (values pn !! i0) as [k|] eqn:Hk.
    + rewrite Hhi in Hbe. simpl in Hbe.
      destruct (Hin k (list_elem_of_lookup_2 _ _ _ Hk)) as [_ Hbe'].
      destruct (hi p); simpl in *; [lia | done].
    + by rewrite <- Hhi.
Qed.

(** From a node that the search leaves for [leaf] up to the root. *)
Lemma search_loop_reaches leaf r rn :
  root (tree w) = Some r -> nodes (tree w) !! r = Some rn ->
  forall m j n,
    (L - lvl j <= m)%nat -> nodes (tree w) !! j = Some n ->
    above (lo j) value -> below (hi j) value ->
    (forall fuel ops, (lvl j <= fuel)%nat ->
       exists ops', search_loop fuel value j n ops w = Ok (leaf, ops') w) ->
    forall fuel ops, (L <= fuel)%nat ->
      exists ops', search_loop fuel value r rn ops w = Ok (leaf, ops') w.
Proof.
  intros Hr Hrn.
  induction m as [|m IH]; intros j n Hm Hn Hab Hbe Hj fuel ops Hfuel.
  all: pose proof (Hbd j (lookup_lt_Some _ _ _ Hn)) as HjL.
  all: destruct (parent n) as [p|] eqn:Hpar.
  all: try (pose proof (lk_top _ Hlk j n Hn Hpar) as Htop;
            assert (j = r) as -> by congruence; assert (n = rn) as -> by congruence;
            apply Hj; lia).
  all: destruct (wf_parent _ _ Hwf j n p Hn Hpar) as [Hplt Hlvl].
  all: pose proof (Hbd p Hplt) as HpL.
  - lia.
  - destruct (lookup_lt_is_Some_2 _ _ Hplt) as [pn Hpn].
    destruct (routed j n p pn Hn Hpar Hpn Hab Hbe) as (Hleaf & [ops1 Hfind] & Hab' & Hbe').
    apply (IH p pn); [lia | done | done | done | | done].
    intros fuel' ops0 Hfuel'. destruct fuel' as [|fuel']; [lia |].
    destruct (Hj fuel' (ops0 + ops1)%nat) as [ops' Hrun]; [lia |].
    exists ops'. simpl. rewrite Hleaf. unfold bind, lift. rewrite Hfind.
    unfold ret, node_at. by rewrite Hn.
Qed.

(** The search for a key held by a leaf ends in that leaf. *)
Lemma search_finds_leaf leaf n fuel :
  root_valid (tree w) ->
  nodes (tree w) !! leaf = Some n -> is_leaf n = true -> value ∈ values n ->
  (L <= fuel)%nat ->
  exists ops, _search fuel value w = Ok (leaf, ops) w.
Proof.
  intros Hrv Hn Hleaf Hin Hfuel.
  destruct (root (tree w)) as [r|] eqn:Hr.
  2: { rewrite (lk_none _ Hlk Hr) in Hn. done. }
  destruct (lookup_lt_is_Some_2 _ _ (Hrv r Hr)) as [rn Hrn].
  destruct Hranged as [_ Hnodes]. destruct (Hnodes leaf n Hn) as (_ & Hkeys & _).
  destruct (Hkeys value Hin) as [Hab Hbe].
  destruct (search_loop_reaches leaf r rn Hr Hrn (L - lvl leaf) leaf n (le_n _) Hn Hab Hbe)
    with (fuel := fuel) (ops := 0%nat) as [ops Hrun]; [| done |].
  { intros fuel' ops0 _. exists ops0. destruct fuel'; simpl; by rewrite Hleaf. }
  exists ops. unfold _search, root_node, bind, get_root. rewrite Hr.
  unfold node_at. by rewrite Hrn.
Qed.
End Search.

(** *** Insertions keep a search tree *)

Lemma node_ranged_eq lo hi j n n' :
  values n' = values n -> ptrs n' = ptrs n -> is_leaf n' = is_leaf n ->
  right_sibling n' = right_sibling n ->
  node_ranged lo hi j n -> node_ranged lo hi j n'.
Proof. unfold node_ranged. by intros -> -> -> ->. Qed.

Lemma ranged_fresh bf : ranged (fun _ => None) (fun _ => None) (Btree_init bf).
Proof. split; [done |]. by intros j n. Qed.

Lemma ranged_planted w :
  linked (tree w) -> pristine w -> root (tree w) = None ->
  ranged (fun _ => None) (fun _ => None) (tree (planted w)).
Proof.
  intros Hlk Hpr Hroot. pose proof (lk_none _ Hlk Hroot) as Hnil.
  rewrite (planted_tree w Hpr Hroot). split; [done |].
  intros j n. simpl. rewrite Hnil. simpl. destruct j as [|j]; simpl; [| done].
  intros [= <-]. split; [apply increasing_nil |]. split; [by intros k ?%not_elem_of_nil |].
  split; [done |]. split; [done |]. by intros _ s.
Qed.

Lemma ranged_stored lo hi value ptr index w n :
  ranged lo hi (tree w) -> nodes (tree w) !! index = Some n -> is_leaf n = true ->
  above (lo index) value -> below (hi index) value -> value ∉ values n ->
  ranged lo hi (tree (stored value ptr index w)).
Proof.
  intros [Hroot Hnodes] Hn Hleaf Hab Hbe Hnew. split; [exact Hroot |].
  intros j n' Hn'.
  destruct (stored_inv value ptr index w n j n' Hn Hn') as [[-> ->] | [Hj Hold]];
    [| by apply Hnodes].
  destruct (Hnodes index n Hn) as (Hinc & Hkeys & Hprop & _ & Hsib).
  destruct (Node_insert_point value ptr n) as (i & Hi & Hvals & _ & Hlow & Hhigh).
  destruct (Node_insert_spec value ptr n) as (Hk & _ & Hrs & Hvs & _).
  split.
  { rewrite Hvals. apply increasing_py_insert; [done | done | |].
    - intros a k Ha Hka. pose proof (Hlow a k Ha Hka).
      assert (k <> value) by (intros ->; apply Hnew; by eapply list_elem_of_lookup_2). lia.
    - intros a k Ha Hka.
      destruct (lookup_lt_is_Some_2 (values n) i) as [ki Hki];
        [apply lookup_lt_Some in Hka; lia |].
      pose proof (Hhigh ki Hki). pose proof (increasing_le _ i a ki k Hinc Ha Hki Hka). lia. }
  split. { intros k [->|Hk']%Hvs; [done | by apply Hkeys]. }
  split; [done |]. split; [by rewrite Hk, Hleaf |].
  intros _ s. rewrite Hrs. by apply Hsib.
Qed.

(** One step of [split]: the node in slot [x], full, is cut at its middle
    key [s]; the bounds of the two halves meet at [s]. *)
Section Halves.
Variables (bf : Z) (lvl : nat -> nat) (lo hi lo' hi' : nat -> option Z).
Variables (w : World) (x : nat) (n : Node) (s : Z).
Hypothesis Hbf : 2 <= bf.
Hypothesis Hsp : splittable bf lvl w x n.
Hypothesis Hmid : values n !! (length (values n) / 2)%nat = Some s.
Hypothesis Hlk : linked (tree w).
Hypothesis Hranged : ranged lo hi (tree w).
Hypothesis Hhi_x : hi' x = Some s.
Hypothesis Hlo_len : lo' (length (nodes (tree w))) = Some s.
Hypothesis Hhi_len : hi' (length (nodes (tree w))) = hi x.
Hypothesis Hlo_old : forall j, (j < (length (nodes (tree w))))%nat -> lo' j = lo j.
Hypothesis Hhi_old : forall j, (j < (length (nodes (tree w))))%nat -> j <> x -> hi' j = hi j.

Lemma halves_facts :
  nodes (tree w) !! x = Some n /\ (x < (length (nodes (tree w))))%nat
  /\ (1 <= (length (values n) / 2)%nat)%nat /\ ((length (values n) / 2)%nat < length (values n))%nat
  /\ (forall l, lo x = Some l -> l < s) /\ below (hi x) s
  /\ (is_leaf n = false ->
      length (ptrs n) = S (length (values n))
      /\ left_cut bf (length (ptrs n)) = S (length (values n) / 2)%nat).
Proof.
  destruct Hsp as (Hb & Hwf & Hshape & Hx & Hfull & Hne).
  destruct Hranged as [_ Hnodes]. destruct (Hnodes x n Hx) as (Hinc & Hkeys & _).
  split; [done |]. split; [by eapply lookup_lt_Some |].
  pose proof (Nat.div_mod_eq (length (values n)) 2) as Hdm.
  pose proof (Nat.mod_upper_bound (length (values n)) 2) as Hmu.
  assert (1 <= (length (values n) / 2)%nat)%nat as Hmid1 by lia.
  split; [done |]. split; [by eapply lookup_lt_Some |].
  split; [| split].
  - destruct (lookup_lt_is_Some_2 (values n) 0) as [k0 Hk0]; [lia |].
    intros l Hl. destruct (Hkeys k0 (list_elem_of_lookup_2 _ _ _ Hk0)) as [Hab _].
    rewrite Hl in Hab. simpl in Hab.
    pose proof (Hinc 0%nat (length (values n) / 2)%nat k0 s ltac:(lia) Hk0 Hmid). lia.
  - by apply (Hkeys s), (list_elem_of_lookup_2 _ (length (values n) / 2)%nat).
  - intros Hleaf. destruct (Forall_lookup_1 _ _ _ _ Hshape Hx) as (_ & _ & Hfan & _).
    rewrite (Hfan Hleaf). split; [done |]. by apply left_cut_full.
Qed.

Lemma left_ranged m' :
  values m' = take (length (values n) / 2)%nat (values n) ->
  ptrs m' = take (left_cut bf (length (ptrs n))) (ptrs n) ->
  is_leaf m' = is_leaf n ->
  right_sibling m' = (if is_leaf n then Some (length (nodes (tree w))) else None) ->
  node_ranged lo' hi' x m'.
Proof.
  intros Hv Hp Hk Hrs.
  destruct halves_facts as (Hx & Hxlt & Hmid1 & Hmidlt & Hlow & Hhigh & Hfan).
  destruct Hranged as [_ Hnodes]. destruct (Hnodes x n Hx) as (Hinc & Hkeys & Hprop & Hkids & Hsib).
  destruct Hsp as (_ & Hwf & _).
  unfold node_ranged. rewrite Hv, Hp, Hk, Hrs, Hhi_x, (Hlo_old x Hxlt).
  split; [by apply increasing_take |].
  split.
  { intros k [a Ha]%list_elem_of_lookup. apply lookup_take_Some in Ha as [Ha Hamid].
    split; [apply Hkeys; by eapply list_elem_of_lookup_2 |]. simpl. by eapply (Hinc a (length (values n) / 2)%nat). }
  split. { intros l h Hl [= <-]. by apply Hlow. }
  split.
  { intros Hleaf i c Hc. destruct (Hfan Hleaf) as [Hlen Hcut]. rewrite Hcut in Hc.
    apply lookup_take_Some in Hc as [Hc Hi].
    destruct (Hkids Hleaf i c Hc) as [Hloc Hhic].
    destruct (wf_child _ _ Hwf x n c Hx Hleaf (list_elem_of_lookup_2 _ _ _ Hc)) as [Hclt Hclvl].
    rewrite (Hlo_old c Hclt), (Hhi_old c Hclt) by (intros ->; lia). rewrite Hloc, Hhic. split.
    - destruct i as [|i']; simpl; [done |]. by rewrite lookup_take_lt by lia.
    - unfold hib. destruct (decide (i < (length (values n) / 2)%nat)%nat).
      + rewrite lookup_take_lt by lia.
        by destruct (lookup_lt_is_Some_2 (values n) i ltac:(lia)) as [k ->].
      + assert (i = (length (values n) / 2)%nat) as -> by lia. rewrite Hmid. by rewrite lookup_take_ge by lia. }
  intros Hleaf s0. rewrite Hleaf. intros [= <-]. eauto.
Qed.

Lemma right_ranged : node_ranged lo' hi' (length (nodes (tree w))) (right_half bf x n).
Proof.
  destruct halves_facts as (Hx & Hxlt & Hmid1 & Hmidlt & Hlow & Hhigh & Hfan).
  destruct Hranged as [_ Hnodes]. destruct (Hnodes x n Hx) as (Hinc & Hkeys & Hprop & Hkids & Hsib).
  destruct Hsp as (_ & Hwf & _).
  assert (Hright : forall m k, ((length (values n) / 2)%nat <= m)%nat -> k ∈ drop m (values n) ->
            above (Some s) k /\ below (hi x) k).
  { intros m k Hm [a Ha]%list_elem_of_lookup. rewrite lookup_drop in Ha.
    split; [| apply Hkeys; by eapply list_elem_of_lookup_2]. simpl.
    eapply (increasing_le _ (length (values n) / 2)%nat (m + a)); [done | lia | done | done]. }
  unfold right_half, node_ranged. destruct (is_leaf n) eqn:Hleaf; simpl;
    rewrite Hlo_len, Hhi_len.
  - split; [by apply increasing_drop |]. split; [intros k Hk; by apply (Hright (length (values n) / 2)%nat) |].
    split. { intros l h [= <-] Hh. rewrite Hh in Hhigh. done. }
    split; [done |]. intros _ s0 Hs0.
    destruct (Hsib eq_refl s0 Hs0) as (k & Hk & Hlos). exists k. split; [done |].
    rewrite Hlo_old; [done |]. by eapply (wf_sibling _ _ Hwf x n).
  - split; [by apply increasing_drop |].
    split; [intros k Hk; apply (Hright ((length (values n) / 2)%nat + 1)%nat); [lia | done] |].
    split. { intros l h [= <-] Hh. rewrite Hh in Hhigh. done. }
    split; [| done]. intros _ i c Hc. destruct (Hfan eq_refl) as [Hlen Hcut].
    rewrite Hcut, lookup_drop in Hc.
    destruct (Hkids eq_refl _ c Hc) as [Hloc Hhic].
    destruct (wf_child _ _ Hwf x n c Hx Hleaf (list_elem_of_lookup_2 _ _ _ Hc)) as [Hclt Hclvl].
    rewrite (Hlo_old c Hclt), (Hhi_old c Hclt) by (intros ->; lia). rewrite Hloc, Hhic. split.
    + destruct i as [|i']; simpl.
      * by rewrite Nat.add_0_r.
      * rewrite lookup_drop. f_equal. lia.
    + unfold hib. rewrite lookup_drop.
      by replace (length (values n) / 2 + 1 + i)%nat with (S (length (values n) / 2) + i)%nat by lia.
Qed.

Lemma other_ranged j m m' :
  nodes (tree w) !! j = Some m -> j <> x -> parent n <> Some j ->
  values m' = values m -> ptrs m' = ptrs m -> is_leaf m' = is_leaf m ->
  right_sibling m' = right_sibling m ->
  node_ranged lo' hi' j m'.
Proof.
  intros Hm Hjx Hjp Hv Hp Hk Hrs. apply (node_ranged_eq _ _ _ m); [done | done | done | done |].
  destruct halves_facts as (Hx & _).
  destruct Hranged as [_ Hnodes]. destruct (Hnodes j m Hm) as (Hinc & Hkeys & Hprop & Hkids & Hsib).
  destruct Hsp as (_ & Hwf & _).
  pose proof (lookup_lt_Some _ _ _ Hm) as Hjlt.
  unfold node_ranged. rewrite (Hlo_old j Hjlt), (Hhi_old j Hjlt Hjx).
  split; [done |]. split; [done |]. split; [done |]. split.
  - intros Hleaf i c Hc. pose proof (list_elem_of_lookup_2 _ _ _ Hc) as Hin.
    destruct (wf_child _ _ Hwf j m c Hm Hleaf Hin) as [Hclt _].
    rewrite (Hlo_old c Hclt), (Hhi_old c Hclt); [by apply Hkids |].
    intros ->. destruct (lk_child _ Hlk j m x Hm Hleaf Hin) as (n0 & Hn0 & Hpar).
    assert (n0 = n) as -> by congruence. done.
  - intros Hleaf s0 Hs0. destruct (Hsib Hleaf s0 Hs0) as (k & Hk' & Hlos).
    exists k. split; [done |]. rewrite Hlo_old; [done |]. by eapply (wf_sibling _ _ Hwf j m).
Qed.

Lemma parent_ranged p pm m' :
  parent n = Some p -> nodes (tree w) !! p = Some pm ->
  values m' = values (Node_insert s (length (nodes (tree w))) None pm) ->
  ptrs m' = ptrs (Node_insert s (length (nodes (tree w))) None pm) ->
  is_leaf m' = is_leaf pm ->
  node_ranged lo' hi' p m'.
Proof.
  intros Hpar Hpm Hv Hp Hk.
  destruct halves_facts as (Hx & Hxlt & Hmid1 & Hmidlt & Hlowx & Hhighx & _).
  destruct Hranged as [_ Hnodes].
  destruct (Hnodes p pm Hpm) as (Hinc & Hkeys & Hprop & Hkids & _).
  destruct (Hnodes x n Hx) as (_ & Hkeysx & _).
  destruct (Hkeysx s (list_elem_of_lookup_2 _ _ _ Hmid)) as [Habx _].
  destruct Hsp as (_ & Hwf & Hshape & _).
  destruct (lk_parent _ Hlk x n p Hx Hpar) as (pn' & Hpn' & Hleaf & Hin).
  assert (pn' = pm) as -> by congruence.
  pose proof (lk_nodup _ Hlk p pm Hpm Hleaf) as Hnd.
  destruct (wf_parent _ _ Hwf x n p Hx Hpar) as [Hplt Hlvl].
  assert (p <> x) as Hpx by (intros ->; lia).
  apply list_elem_of_lookup in Hin as [i0 Hi0].
  destruct (Forall_lookup_1 _ _ _ _ Hshape Hpm) as (_ & _ & Hfan & _).
  specialize (Hfan Hleaf).
  destruct (Hkids Hleaf i0 x Hi0) as [Hlo Hhi].
  pose proof (lookup_lt_Some _ _ _ Hi0) as Hi0lt.
  destruct (Node_insert_point s (length (nodes (tree w))) pm) as (i & Hi & Hvals & Hptrs & Hlow & Hhigh).
  assert (i = i0) as ->.
  { destruct (Nat.lt_trichotomy i i0) as [Hlt | [-> | Hgt]]; [| done |]; exfalso.
    - destruct i0 as [|i0']; [lia |]. simpl in Hlo.
      destruct (lookup_lt_is_Some_2 (values pm) i0') as [k' Hk']; [lia |].
      destruct (lookup_lt_is_Some_2 (values pm) i) as [k Hki]; [lia |].
      rewrite Hk' in Hlo. pose proof (Hlowx k' Hlo). pose proof (Hhigh k Hki).
      pose proof (increasing_le _ i i0' k k' Hinc ltac:(lia) Hki Hk'). lia.
    - destruct (lookup_lt_is_Some_2 (values pm) i0) as [k Hki]; [lia |].
      pose proof (Hlow i0 k Hgt Hki).
      unfold hib in Hhi. rewrite Hki in Hhi. rewrite Hhi in Hhighx. simpl in Hhighx. lia. }
  specialize (Hptrs ltac:(lia)).
  (* the middle key is within the bounds of the parent *)
  assert (above (lo p) s /\ below (hi p) s) as [Habp Hbep].
  { split.
    - destruct i0 as [|i0']; simpl in Hlo; [by rewrite <- Hlo |].
      destruct (values pm !! i0') as [k'|] eqn:Hk'; [| apply lookup_ge_None in Hk'; lia].
      rewrite Hlo in Habx. simpl in Habx.
      destruct (Hkeys k' (list_elem_of_lookup_2 _ _ _ Hk')) as [Hab' _].
      destruct (lo p); simpl in *; [lia | done].
    - unfold hib in Hhi. destruct (values pm !! i0) as [k|] eqn:Hki.
      + rewrite Hhi in Hhighx. simpl in Hhighx.
        destruct (Hkeys k (list_elem_of_lookup_2 _ _ _ Hki)) as [_ Hbe'].
        destruct (hi p); simpl in *; [lia | done].
      + by rewrite <- Hhi. }
  unfold node_ranged. rewrite Hv, Hp, Hk, Hvals, Hptrs.
  rewrite (Hlo_old p Hplt), (Hhi_old p Hplt Hpx).
  split.
  { apply increasing_py_insert; [done | done | |].
    - intros a k Ha Hka. destruct i0 as [|i0']; [lia |]. simpl in Hlo.
      destruct (lookup_lt_is_Some_2 (values pm) i0') as [k' Hk']; [lia |].
      rewrite Hk' in Hlo. pose proof (Hlowx k' Hlo).
      pose proof (increasing_le _ a i0' k k' Hinc ltac:(lia) Hka Hk'). lia.
    - intros a k Ha Hka.
      destruct (lookup_lt_is_Some_2 (values pm) i0) as [ki Hki];
        [apply lookup_lt_Some in Hka; lia |].
      pose proof (Hhigh ki Hki). pose proof (increasing_le _ i0 a ki k Hinc Ha Hki Hka). lia. }
  split. { intros k [->|Hk']%elem_of_py_insert; [done | by apply Hkeys]. }
  split; [done |]. split; [| by rewrite Hleaf].
  intros _ q c. rewrite py_insert_lookup by lia.
  assert (Hkid : forall q' c', ptrs pm !! q' = Some c' ->
            (c' < (length (nodes (tree w))))%nat /\ (q' <> i0 -> c' <> x)
            /\ lo c' = lob (lo p) (values pm) q' /\ hi c' = hib (hi p) (values pm) q').
  { intros q' c' Hc'. pose proof (list_elem_of_lookup_2 _ _ _ Hc') as Hin'.
    destruct (wf_child _ _ Hwf p pm c' Hpm Hleaf Hin') as [Hclt _].
    split; [done |]. split; [| by apply Hkids].
    intros Hne ->. apply Hne. by eapply NoDup_lookup. }
  destruct (decide (q < S i0)%nat) as [Hq|Hq]; [| destruct (decide (q = S i0)) as [->|Hq']].
  - intros Hc. destruct (Hkid q c Hc) as (Hclt & Hcx & Hloc & Hhic).
    rewrite (Hlo_old c Hclt), Hloc. split.
    + destruct q as [|q']; simpl; [done |]. rewrite py_insert_lookup by done.
      by rewrite decide_True by lia.
    + unfold hib. rewrite py_insert_lookup by done.
      destruct (decide (q < i0)%nat) as [Hqi|Hqi].
      * rewrite (Hhi_old c Hclt) by (apply Hcx; lia). by rewrite Hhic.
      * assert (q = i0) as -> by lia. assert (c = x) as -> by congruence.
        by rewrite decide_True.
  - intros [= <-]. rewrite Hlo_len, Hhi_len, Hhi. split.
    + simpl. rewrite py_insert_lookup by done.
      rewrite decide_False by lia. by rewrite decide_True.
    + unfold hib. rewrite py_insert_lookup by done.
      rewrite decide_False by lia. rewrite decide_False by lia.
      by replace (S i0 - 1)%nat with i0 by lia.
  - intros Hc. destruct (Hkid _ c Hc) as (Hclt & Hcx & Hloc & Hhic).
    rewrite (Hlo_old c Hclt), (Hhi_old c Hclt) by (apply Hcx; lia). rewrite Hloc, Hhic.
    destruct q as [|q']; [lia |]. replace (S q' - 1)%nat with q' by lia. split.
    + destruct q' as [|q'']; [lia |]. simpl. rewrite py_insert_lookup by done.
      rewrite decide_False by lia. rewrite decide_False by lia.
      by replace (S q'' - 1)%nat with q'' by lia.
    + unfold hib. rewrite py_insert_lookup by done.
      rewrite decide_False by lia. rewrite decide_False by lia.
      by replace (S q' - 1)%nat with q' by lia.
Qed.
End Halves.

Lemma Node_insert_same value ptr a c :
  values a = values c -> ptrs a = ptrs c ->
  values (Node_insert value ptr None a) = values (Node_insert value ptr None c)
  /\ ptrs (Node_insert value ptr None a) = ptrs (Node_insert value ptr None c).
Proof.
  intros Hv Hp. unfold Node_insert. rewrite Hv, Hp.
  by destruct (first_greater value (values c) 0).
Qed.

Section Split_bounds.
Variables (bf : Z) (lvl : nat -> nat) (lo hi : nat -> option Z).
Variables (w : World) (x : nat) (n : Node) (s : Z).
Hypothesis Hbf : 2 <= bf.
Hypothesis Hsp : splittable bf lvl w x n.
Hypothesis Hmid : values n !! (length (values n) / 2)%nat = Some s.
Hypothesis Hlk : linked (tree w).
Hypothesis Hranged : ranged lo hi (tree w).

Lemma split_bounds :
  let lo' := lo_split lo (length (nodes (tree w))) s in
  let hi' := hi_split hi (length (nodes (tree w))) x s in
  hi' x = Some s
  /\ lo' (length (nodes (tree w))) = Some s
  /\ hi' (length (nodes (tree w))) = hi x
  /\ (forall j, (j < length (nodes (tree w)))%nat -> lo' j = lo j)
  /\ (forall j, (j < length (nodes (tree w)))%nat -> j <> x -> hi' j = hi j).
Proof.
  destruct Hsp as (_ & _ & _ & Hx & _). apply lookup_lt_Some in Hx.
  unfold lo_split, hi_split. simpl.
  split; [by rewrite decide_True |]. split; [by rewrite decide_True |].
  split; [rewrite decide_False by lia; by rewrite decide_True |].
  split; intros j Hj; [| intros Hjx]; by rewrite !decide_False by lia.
Qed.

Lemma ranged_promoted p pm :
  parent n = Some p -> nodes (tree w) !! p = Some pm ->
  ranged (lo_split lo (length (nodes (tree w))) s) (hi_split hi (length (nodes (tree w))) x s)
    (tree (promoted s p (halved x n w))).
Proof.
  intros Hpar Hpm.
  destruct split_bounds as (H1 & H2 & H3 & H4 & H5).
  pose proof Hsp as (Hb & Hwf & _ & Hx & _).
  destruct (wf_parent _ _ Hwf x n p Hx Hpar) as [Hplt Hlvl].
  assert (p <> x) as Hpx by (intros ->; lia).
  split.
  - intros r Hr. simpl in Hr. destruct Hranged as [Hroot _].
    destruct (Hroot r Hr) as [Hlo Hhi].
    destruct (lk_root _ Hlk r Hr) as (rn & Hrn & Hrpar).
    rewrite H4, H5; [done | by eapply lookup_lt_Some | | by eapply lookup_lt_Some].
    intros ->. congruence.
  - intros j n' Hn'.
    destruct (promoted_inv w x n s p pm j n' Hpm Hn') as [[-> ->] | (m & Hm & ->)].
    + rewrite Hb. by eapply (right_ranged bf lvl lo hi).
    + rewrite Hb. destruct (decide (j = x)) as [->|Hjx]; [| destruct (decide (j = p)) as [->|Hjp]].
      * assert (m = n) as -> by congruence.
        eapply (left_ranged bf lvl lo hi); try done.
        -- rewrite after_promoted_values by done. by rewrite decide_True.
        -- unfold after_promoted. rewrite decide_False by done.
           rewrite halve_ptrs. by rewrite decide_True.
        -- apply after_promoted_kind.
        -- rewrite after_promoted_right_sibling, halve_right_sibling. by rewrite decide_True.
      * assert (m = pm) as -> by congruence.
        eapply (parent_ranged bf lvl lo hi); try done.
        -- unfold after_promoted. rewrite decide_True by done.
           apply Node_insert_same; [rewrite halve_values | rewrite halve_ptrs];
             by rewrite decide_False.
        -- unfold after_promoted. rewrite decide_True by done.
           apply Node_insert_same; [rewrite halve_values | rewrite halve_ptrs];
             by rewrite decide_False.
        -- apply after_promoted_kind.
      * eapply (other_ranged bf lvl lo hi); try done.
        -- congruence.
        -- rewrite after_promoted_values by done. by rewrite !decide_False.
        -- unfold after_promoted. rewrite decide_False by done.
           rewrite halve_ptrs. by rewrite decide_False.
        -- apply after_promoted_kind.
        -- rewrite after_promoted_right_sibling, halve_right_sibling. by rewrite decide_False.
Qed.

Lemma ranged_grown :
  parent n = None ->
  ranged (lo_split lo (length (nodes (tree w))) s) (hi_split hi (length (nodes (tree w))) x s)
    (tree (grown s x (halved x n w))).
Proof.
  intros Hpar.
  destruct split_bounds as (H1 & H2 & H3 & H4 & H5).
  pose proof Hsp as (Hb & Hwf & _ & Hx & _).
  pose proof (lookup_lt_Some _ _ _ Hx) as Hxlt.
  pose proof (lk_top _ Hlk x n Hx Hpar) as Hroot.
  destruct Hranged as [Hroots _]. destruct (Hroots x Hroot) as [Hlox Hhix].
  split.
  - intros r Hr. simpl in Hr. rewrite length_app, length_imap in Hr. simpl in Hr.
    injection Hr as <-. unfold lo_split, hi_split.
    repeat case_decide; (done || lia).
  - intros j n' Hn'.
    destruct (grown_inv w x n s j n' Hxlt Hn') as [[-> ->] | [[-> ->] | (m & Hm & ->)]].
    + (* the new root *)
      assert (lo_split lo (length (nodes (tree w))) s (S (length (nodes (tree w)))) = None
              /\ hi_split hi (length (nodes (tree w))) x s (S (length (nodes (tree w)))) = None)
        as [Hlor Hhir].
      { unfold lo_split, hi_split. split; repeat case_decide; (done || lia). }
      unfold node_ranged. rewrite Hlor, Hhir. simpl.
      split. { intros [|[|a]] [|[|c]] ka kb Hab; simpl; try done; lia. }
      split; [done |]. split; [done |]. split; [| done].
      intros _ [|[|i]] c; simpl; [| | done].
      * intros [= <-]. by rewrite H1, (H4 x Hxlt), Hlox.
      * intros [= <-]. by rewrite H2, H3, Hhix.
    + rewrite Hb. eapply node_ranged_eq; [| | | | by eapply (right_ranged bf lvl lo hi)];
        by unfold right_half; destruct (is_leaf n).
    + rewrite Hb. destruct (decide (j = x)) as [->|Hjx].
      * assert (m = n) as -> by congruence.
        eapply (left_ranged bf lvl lo hi); try done.
        -- rewrite after_grown_values, halve_values. by rewrite decide_True.
        -- rewrite after_grown_ptrs, halve_ptrs. by rewrite decide_True.
        -- apply after_grown_kind.
        -- rewrite after_grown_right_sibling, halve_right_sibling. by rewrite decide_True.
      * eapply (other_ranged bf lvl lo hi); try done.
        -- by rewrite Hpar.
        -- rewrite after_grown_values, halve_values. by rewrite decide_False.
        -- rewrite after_grown_ptrs, halve_ptrs. by rewrite decide_False.
        -- apply after_grown_kind.
        -- rewrite after_grown_right_sibling, halve_right_sibling. by rewrite decide_False.
Qed.
End Split_bounds.

(** *** Every tree built from distinct keys is a search tree *)

Lemma elem_of_leaf_keys t k :
  k ∈ leaf_keys t <-> exists j n, nodes t !! j = Some n /\ is_leaf n = true /\ k ∈ values n.
Proof.
  unfold leaf_keys. rewrite list_elem_of_In, in_flat_map. split.
  - intros (n & Hn%list_elem_of_In & Hq). apply list_elem_of_lookup in Hn as [j Hj].
    exists j, n. destruct (is_leaf n); [| done]. by rewrite list_elem_of_In.
  - intros (j & n & Hn & Hleaf & Hq). exists n. rewrite Hleaf.
    split; [| by rewrite <- list_elem_of_In].
    rewrite <- list_elem_of_In. by eapply list_elem_of_lookup_2.
Qed.

Section Searchable.
Variable bf : Z.

Lemma searchable_fresh : searchable bf [] None (fresh bf).
Proof. split; [apply between_fresh |]. intros _ _. eexists _, _. apply ranged_fresh. Qed.

Lemma searchable_planted done L w :
  sound bf L w -> pristine w -> root (tree w) = None ->
  searchable bf done None w -> searchable bf done None (planted w).
Proof.
  intros Hsound Hpr Hroot [Hbt Hr]. split; [by eapply between_planted |].
  intros _ _. eexists _, _. apply ranged_planted; [| done | done].
  by destruct Hbt as ((? & _) & _).
Qed.

Lemma searchable_stored done fuel L w value ptr index ops n :
  sound bf L w -> searchable bf done None w ->
  _search fuel value w = Ok (index, ops) w ->
  nodes (tree w) !! index = Some n -> is_leaf n = true ->
  if Z.of_nat (S (length (values n))) =? bf
  then searchable bf (done ++ [(value, ptr)]) (Some index) (stored value ptr index w)
  else searchable bf (done ++ [(value, ptr)]) None (stored value ptr index w).
Proof.
  intros Hsound [Hbt Hr] Hs Hn Hleaf.
  pose proof (between_stored bf done fuel L w value ptr index ops n Hsound Hbt Hs Hn Hleaf) as Hbt'.
  assert (2 <= bf -> NoDup (done ++ [(value, ptr)]).*1 ->
          exists lo hi, ranged lo hi (tree (stored value ptr index w))) as Hr'.
  { intros Hbf Hnd. rewrite fmap_app in Hnd. apply NoDup_app in Hnd as (Hnd & Hnew & _).
    destruct (Hr Hbf Hnd) as (lo & hi & Hranged). exists lo, hi.
    destruct Hsound as (_ & Hshape & _).
    destruct (search_in_range bf lo hi w value Hshape Hranged _ _ _ _ Hs) as [Hab Hbe].
    apply (ranged_stored lo hi value ptr index w n); [done | done | done | done | done |].
    intros Hin. destruct Hbt as ((_ & _ & _ & Hkeys & _) & _).
    apply (Hnew value); [| by left]. rewrite <- Hkeys. apply elem_of_leaf_keys. eauto. }
  by destruct (Z.of_nat (S (length (values n))) =? bf).
Qed.

Lemma searchable_grown done lvl w x n npv :
  splittable bf lvl w x n ->
  values n !! (length (values n) / 2)%nat = Some npv ->
  parent n = None ->
  searchable bf done (Some x) w -> searchable bf done None (grown npv x (halved x n w)).
Proof.
  intros Hsp Hmid Hpar [Hbt Hr].
  split; [exact (between_grown bf done lvl w x n npv Hsp Hmid Hpar Hbt) |].
  intros Hbf Hnd. destruct (Hr Hbf Hnd) as (lo & hi & Hranged).
  eexists _, _. eapply ranged_grown; try done. by destruct Hbt as ((? & _) & _).
Qed.

Lemma searchable_promoted done lvl w x n npv p pm :
  splittable bf lvl w x n ->
  values n !! (length (values n) / 2)%nat = Some npv ->
  parent n = Some p -> nodes (tree w) !! p = Some pm ->
  searchable bf done (Some x) w ->
  if Z.of_nat (S (length (values pm))) =? bf
  then searchable bf done (Some p) (promoted npv p (halved x n w))
  else searchable bf done None (promoted npv p (halved x n w)).
Proof.
  intros Hsp Hmid Hpar Hpm [Hbt Hr].
  pose proof (between_promoted bf done lvl w x n npv p pm Hsp Hmid Hpar Hpm Hbt) as Hbt'.
  assert (2 <= bf -> NoDup done.*1 ->
          exists lo hi, ranged lo hi (tree (promoted npv p (halved x n w)))) as Hr'.
  { intros Hbf Hnd. destruct (Hr Hbf Hnd) as (lo & hi & Hranged).
    eexists _, _. eapply ranged_promoted; try done. by destruct Hbt as ((? & _) & _). }
  by destruct (Z.of_nat (S (length (values pm))) =? bf).
Qed.

Lemma built_ranged fuel script t :
  2 <= bf -> NoDup script.*1 -> built fuel bf script = Some t ->
  exists lo hi, ranged lo hi t.
Proof.
  intros Hbf Hnd Hb.
  destruct (inserts_rule bf (fun done => searchable bf done None)
              (fun done x => searchable bf done (Some x))
              searchable_planted searchable_stored searchable_grown searchable_promoted
              (max fuel (length script)) script [] 0%nat (fresh bf)
              (fresh_sound bf) (fresh_pristine bf) searchable_fresh)
    as (w & Hrun & _ & _ & _ & Hr); [simpl; lia |].
  assert (built (max fuel (length script)) bf script = Some (tree w)) as Hb'
    by (unfold built; by rewrite Hrun).
  apply (built_more_fuel _ (max fuel (length script))) in Hb; [| lia].
  assert (t = tree w) as -> by congruence. by apply Hr.
Qed.
End Searchable.

(** The keys along the chain of the leaves of a search tree. *)
Lemma chained_sorted lo hi chain t :
  chained chain t -> ranged lo hi t ->
  forall m i, (length chain <= m + i)%nat ->
    StronglySorted Z.lt
      (flat_map (fun j => from_option values [] (nodes t !! j)) (drop i chain))
    /\ (forall a k, chain !! i = Some a ->
          k ∈ flat_map (fun j => from_option values [] (nodes t !! j)) (drop i chain) ->
          above (lo a) k).
Proof.
  intros (Hnd & Hleaves & Hlinks) [_ Hnodes].
  induction m as [|m IH]; intros i Hlen.
  { rewrite drop_ge by lia. simpl. split; [constructor |]. by intros a k _ ?%not_elem_of_nil. }
  destruct (chain !! i) as [a|] eqn:Hi.
  2: { apply lookup_ge_None in Hi. rewrite drop_ge by lia. simpl.
       split; [constructor |]. by intros a k _ ?%not_elem_of_nil. }
  rewrite (drop_S _ _ _ Hi). simpl.
  destruct (Hlinks i a Hi) as (na & Hna & Hrs & _). rewrite Hna. simpl.
  assert (is_leaf na = true) as Hleaf
    by (apply (Hleaves a na Hna); by eapply list_elem_of_lookup_2).
  destruct (Hnodes a na Hna) as (Hinc & Hkeys & Hprop & _ & Hsib).
  destruct (IH (S i)) as [IHs IHa]; [lia |].
  assert (Hrest : forall v,
            v ∈ flat_map (fun j => from_option values [] (nodes t !! j)) (drop (S i) chain) ->
            exists k, hi a = Some k /\ k <= v).
  { intros v Hv. destruct (chain !! S i) as [b|] eqn:Hb.
    - destruct (Hsib Hleaf b Hrs) as (k & Hk & Hlob). exists k. split; [done |].
      specialize (IHa b v eq_refl Hv). by rewrite Hlob in IHa.
    - apply lookup_ge_None in Hb. rewrite drop_ge in Hv by lia. by apply not_elem_of_nil in Hv. }
  split.
  - apply StronglySorted_app_2; [| by apply increasing_sorted | done].
    intros u v Hu Hv. destruct (Hrest v Hv) as (k & Hk & Hkv).
    destruct (Hkeys u Hu) as [_ Hbe]. rewrite Hk in Hbe. simpl in Hbe. lia.
  - intros a' k [= <-] [Hk | Hk]%elem_of_app; [by apply Hkeys |].
    destruct (Hrest k Hk) as (k' & Hk' & Hle).
    destruct (lo a) as [l|] eqn:Hlo; simpl; [| done].
    pose proof (Hprop l k' eq_refl Hk'). lia.
Qed.

(** *** Searching a tree built from distinct keys *)

(** X21: in a tree built in a fresh interpreter from distinct keys with a
    branching factor of at least 2, the search for a key that a leaf holds
    ends in that leaf. *)
Theorem search_finds_the_leaf_of_key (bf : Z) (fuel : nat) (script : list (Z * nat))
    (t : Btree) (value : Z) (out : list line) (d : Defaults) (leaf : nat) (n : Node) :
  2 <= bf -> NoDup script.*1 -> built fuel bf script = Some t ->
  nodes t !! leaf = Some n -> is_leaf n = true -> value ∈ values n ->
  exists ops,
    _search (length script) value (mkWorld t out d) = Ok (leaf, ops) (mkWorld t out d).
Proof.
  intros Hbf Hnd Hb Hn Hleaf Hin.
  destruct (built_ranged bf fuel script t Hbf Hnd Hb) as (lo & hi & Hranged).
  destruct (built_has_shape bf fuel script t Hb)
    as ((Hlk & _) & _ & (_ & Hshape & Hrv & lvl & Hwf & Hbd) & _).
  by apply (search_finds_leaf bf lo hi (mkWorld t out d) value Hshape Hranged lvl (length script)
              Hlk Hwf Hbd leaf n).
Qed.

Lemma search_finds_the_leaf_of_key_witness :
  exists ops,
    _search 6 5 (mkWorld scenario_tree [] scenario_defaults)
    = Ok (3%nat, ops) (mkWorld scenario_tree [] scenario_defaults).
Proof.
  apply (search_finds_the_leaf_of_key 3 2%nat scenario scenario_tree 5 [] scenario_defaults
           3%nat
           (leaf3 [3; 5] [4%nat; 3%nat] (Some 0%nat) (Some 1%nat) (Some 2%nat))).
  - lia.
  - apply (bool_decide_unpack _). vm_compute. exact I.
  - reflexivity.
  - reflexivity.
  - reflexivity.
  - apply (bool_decide_unpack _). vm_compute. exact I.
Defined.

(** X22: on a tree built in a fresh interpreter from distinct keys (at
    least one) with a branching factor of at least 2, [find('==', value)]
    returns exactly one pointer, one of those inserted, when the key was
    inserted, and the empty list when it was not. *)
Theorem find_equal_on_built (bf : Z) (fuel : nat) (script : list (Z * nat)) (t : Btree)
    (value : Z) (out : list line) (d : Defaults) :
  2 <= bf -> NoDup script.*1 -> built fuel bf script = Some t -> script <> [] ->
  exists results ops,
    find (length script) "==" value (mkWorld t out d)
    = Ok results (mkWorld t (out ++ [OpsLine ops]) d)
    /\ (value ∈ script.*1 -> exists p, results = [p] /\ p ∈ script.*2)
    /\ (value ∉ script.*1 -> results = []).
Proof.
  intros Hbf Hnd Hb Hne.
  destruct (built_ranged bf fuel script t Hbf Hnd Hb) as (lo & hi & Hranged).
  destruct (built_has_shape bf fuel script t Hb)
    as ((Hlk & _ & _ & Hkeys & [Hptrs _] & _) & _ & Hsound & Hroot).
  destruct (search_total bf (length script) (length script) value (mkWorld t out d) Hsound
              (Hroot Hne)) as (leaf & ops & n & Hs & Hn & Hleaf); [lia |].
  simpl in Hn.
  exists (eq_branch value n []), ops. split; [by eapply find_equal_branch |].
  pose proof Hsound as (_ & Hshape & Hrv & lvl & Hwf & Hbd). simpl in Hshape.
  destruct (Forall_lookup_1 _ _ _ _ Hshape Hn) as (_ & Hlen & _).
  split.
  - intros Hin. rewrite <- Hkeys in Hin.
    apply elem_of_leaf_keys in Hin as (leaf' & n' & Hn' & Hleaf' & Hin').
    destruct (search_finds_leaf bf lo hi (mkWorld t out d) value Hshape Hranged lvl
                (length script) Hlk Hwf Hbd leaf' n' (length script) Hrv Hn' Hleaf' Hin')
      as [ops' Hs']; [lia |].
    assert (leaf' = leaf) as -> by congruence. assert (n' = n) as -> by congruence.
    destruct (py_index_elem value (values n) Hin') as [i Hi].
    destruct (py_index_Some _ _ _ Hi) as [Hv _].
    destruct (lookup_lt_is_Some_2 (ptrs n) i) as [p Hp]; [apply lookup_lt_Some in Hv; lia |].
    exists p. unfold eq_branch. rewrite Hi, Hp. split; [done |].
    apply Hptrs, elem_of_leaf_ptrs. exists leaf, n.
    split; [done |]. split; [done |]. by eapply list_elem_of_lookup_2.
  - intros Hout. unfold eq_branch.
    destruct (py_index value (values n)) as [i|] eqn:Hi; [| done].
    destruct (py_index_Some _ _ _ Hi) as [Hv _]. exfalso. apply Hout.
    rewrite <- Hkeys. apply elem_of_leaf_keys. exists leaf, n.
    split; [done |]. split; [done |]. by eapply list_elem_of_lookup_2.
Qed.

Lemma find_equal_on_built_witness :
  exists results ops,
    find 6 "==" 7 (mkWorld scenario_tree [] scenario_defaults)
    = Ok results (mkWorld scenario_tree ([] ++ [OpsLine ops]) scenario_defaults)
    /\ (7 ∈ scenario.*1 -> exists p, results = [p] /\ p ∈ scenario.*2)
    /\ (7 ∉ scenario.*1 -> results = []).
Proof.
  apply (find_equal_on_built 3 2%nat scenario scenario_tree 7 []).
  - lia.
  - apply (bool_decide_unpack _). vm_compute. exact I.
  - reflexivity.
  - done.
Defined.

(** X23: in a tree built in a fresh interpreter from distinct keys (at
    least one) with a branching factor of at least 2, the walk along the
    chain of the leaves meets the keys in strictly increasing order. *)
Theorem built_leaf_chain_sorted (bf : Z) (fuel : nat) (script : list (Z * nat)) (t : Btree) :
  2 <= bf -> NoDup script.*1 -> built fuel bf script = Some t -> script <> [] ->
  exists chain,
    leaf_chain (length script + length (nodes t)) t = Some chain
    /\ StronglySorted Z.lt (flat_map (fun j => from_option values [] (nodes t !! j)) chain).
Proof.
  intros Hbf Hnd Hb Hne.
  destruct (built_ranged bf fuel script t Hbf Hnd Hb) as (lo & hi & Hranged).
  destruct (built_has_shape bf fuel script t Hb)
    as ((_ & _ & (chain & spine & Hch & Hsp & Hhl) & _)
        & _ & (_ & _ & Hrv & lvl & Hwf & Hbd) & Hroot).
  simpl in *. exists chain.
  split; [eapply leaf_chain_chained; eauto; lia |].
  destruct (chained_sorted lo hi chain t Hch Hranged (length chain) 0%nat) as [Hs _]; [lia |].
  by rewrite drop_0 in Hs.
Qed.

Lemma built_leaf_chain_sorted_witness :
  exists chain,
    leaf_chain (6 + 7) scenario_tree = Some chain
    /\ StronglySorted Z.lt
         (flat_map (fun j => from_option values [] (nodes scenario_tree !! j)) chain).
Proof.
  apply (built_leaf_chain_sorted 3 2%nat scenario scenario_tree).
  - lia.
  - apply (bool_decide_unpack _). vm_compute. exact I.
  - reflexivity.
  - done.
Defined.

(** *** Range queries on a tree built from distinct keys *)

Lemma find_range_branch fuel value operator test side w leaf ops n path :
  range_operator operator value = Some (test, side) ->
  _search fuel value w = Ok (leaf, ops) w ->
  nodes (tree w) !! leaf = Some n ->
  (length (values n) <= length (ptrs n))%nat ->
  sibling_path fuel side (tree w) leaf = Some path ->
  find fuel operator value w
  = Ok (matching test n ++ ptrs_along (tree w) path)
       (mkWorld (tree w) (stdout w ++ [OpsLine (ops + length (values n))]) (defaults w)).
Proof.
  intros Hop Hs Hn Hlen Hpath.
  unfold find. unfold bind at 1. rewrite Hs. simpl.
  unfold bind at 1. unfold node_at at 1. rewrite Hn.
  unfold range_operator in Hop.
  repeat match type of Hop with
         | context [String.eqb operator ?s] =>
             destruct (String.eqb_spec operator s) as [->|];
             [injection Hop as <- <-; compare_strings; cbv [bind ret];
              by rewrite (range_branch_path _ _ _ _ _ _ _ _ _ Hn Hlen Hpath) |]
         end.
  discriminate.
Qed.




(** The two kinds of range operators: those that take the keys above the
    value and walk right, and those that take the keys below it and walk
    left. *)
Lemma range_operator_sides operator value test side :
  range_operator operator value = Some (test, side) ->
  (side = right_sibling
   /\ (forall k, k < value -> test k = false) /\ (forall k, value < k -> test k = true))
  \/ (side = left_sibling
      /\ (forall k, k < value -> test k = true) /\ (forall k, value < k -> test k = false)).
Proof.
  unfold range_operator. intros Hop.
  repeat match type of Hop with
         | context [String.eqb operator ?s] => destruct (String.eqb operator s)
         end; try discriminate; injection Hop as <- <-.
  - left. split; [done |]. split; intros k Hk; lia.
  - left. split; [done |]. split; intros k Hk; lia.
  - right. split; [done |]. split; intros k Hk; lia.
  - right. split; [done |]. split; intros k Hk; lia.
Qed.

Lemma chained_before lo hi chain t :
  chained chain t -> ranged lo hi t ->
  forall i a u,
    chain !! i = Some a ->
    u ∈ flat_map (fun j => from_option values [] (nodes t !! j)) (take i chain) ->
    exists k, lo a = Some k /\ u < k.
Proof.
  intros (Hnd & Hleaves & Hlinks) [_ Hnodes].
  induction i as [|i IH]; intros a u Ha Hu; [by apply not_elem_of_nil in Hu |].
  destruct (lookup_lt_is_Some_2 chain i) as [a0 Ha0]; [apply lookup_lt_Some in Ha; lia |].
  rewrite (take_S_r _ _ _ Ha0), flat_map_app in Hu. simpl in Hu. rewrite app_nil_r in Hu.
  destruct (Hlinks i a0 Ha0) as (n0 & Hn0 & Hrs & _). rewrite Hn0 in Hu. simpl in Hu.
  assert (is_leaf n0 = true) as Hleaf
    by (apply (Hleaves a0 n0 Hn0); by eapply list_elem_of_lookup_2).
  destruct (Hnodes a0 n0 Hn0) as (_ & Hkeys & Hprop & _ & Hsib).
  rewrite Ha in Hrs. destruct (Hsib Hleaf a Hrs) as (k & Hk & Hlo).
  exists k. split; [done |]. apply elem_of_app in Hu as [Hu | Hu].
  - destruct (IH a0 u Ha0 Hu) as (k0 & Hk0 & Hlt). pose proof (Hprop k0 k Hk0 Hk). lia.
  - destruct (Hkeys u Hu) as [_ Hbe]. by rewrite Hk in Hbe.
Qed.

Lemma chained_after lo hi chain t :
  chained chain t -> ranged lo hi t ->
  forall i a v,
    chain !! i = Some a ->
    v ∈ flat_map (fun j => from_option values [] (nodes t !! j)) (drop (S i) chain) ->
    exists k, hi a = Some k /\ k <= v.
Proof.
  intros Hch Hranged i a v Ha Hv.
  pose proof Hch as (Hnd & Hleaves & Hlinks). pose proof Hranged as [_ Hnodes].
  destruct (Hlinks i a Ha) as (na & Hna & Hrs & _).
  assert (is_leaf na = true) as Hleaf
    by (apply (Hleaves a na Hna); by eapply list_elem_of_lookup_2).
  destruct (Hnodes a na Hna) as (_ & _ & _ & _ & Hsib).
  destruct (chain !! S i) as [b|] eqn:Hb.
  - destruct (Hsib Hleaf b Hrs) as (k & Hk & Hlob). exists k. split; [done |].
    destruct (chained_sorted lo hi chain t Hch Hranged (length chain) (S i)) as [_ Hab]; [lia |].
    specialize (Hab b v Hb Hv). by rewrite Hlob in Hab.
  - apply lookup_ge_None in Hb. rewrite drop_ge in Hv by lia. by apply not_elem_of_nil in Hv.
Qed.

Lemma matching_length test n :
  length (ptrs n) = length (values n) ->
  length (matching test n) = length (filter (fun k => test k = true) (values n)).
Proof.
  unfold matching, entries. rewrite length_fmap.
  generalize (ptrs n). induction (values n) as [|k ks IH]; intros [|p ps] Hlen; simpl in *;
    try done.
  rewrite !filter_cons. simpl. destruct (decide (test k = true)); simpl; rewrite IH; (done || lia).
Qed.

Lemma ptrs_along_length t path :
  (forall a, a ∈ path ->
     forall n, nodes t !! a = Some n -> length (ptrs n) = length (values n)) ->
  length (ptrs_along t path)
  = length (flat_map (fun j => from_option values [] (nodes t !! j)) path).
Proof.
  unfold ptrs_along. induction path as [|a path IH]; intros Hall; [done |]. simpl.
  rewrite !length_app, IH by (intros a' Ha'; apply Hall; by right). f_equal.
  destruct (nodes t !! a) as [n|] eqn:Hn; [| done]. simpl. apply (Hall a); [by left | done].
Qed.

Lemma filter_all {A} (P : A -> Prop) `{forall x, Decision (P x)} (l : list A) :
  Forall P l -> filter P l = l.
Proof.
  induction 1 as [|x l Hx _ IH]; [done |]. by rewrite filter_cons_True, IH.
Qed.

(** X24: on a tree built in a fresh interpreter from distinct keys (at
    least one) with an odd branching factor of at least 3, a range query
    returns as many pointers as there are inserted keys in the range. *)
Theorem find_range_counts (bf : Z) (fuel : nat) (script : list (Z * nat)) (t : Btree)
    (operator : string) (test : Z -> bool) (side : Node -> option nat)
    (value : Z) (out : list line) (d : Defaults) :
  2 <= bf -> bf mod 2 = 1 -> NoDup script.*1 ->
  built fuel bf script = Some t -> script <> [] ->
  range_operator operator value = Some (test, side) ->
  exists results ops,
    find (length script + length (nodes t)) operator value (mkWorld t out d)
    = Ok results (mkWorld t (out ++ [OpsLine ops]) d)
    /\ length results = length (filter (fun k => test k = true) script.*1).
Proof.
  intros Hbf Hodd Hnd Hb Hne Hop.
  destruct (built_ranged bf fuel script t Hbf Hnd Hb) as (lo & hi & Hranged).
  destruct (built_has_shape bf fuel script t Hb)
    as ((_ & _ & (chain & spine & Hch & _) & Hkeys & _) & _ & Hsound & Hroot).
  set (fuel' := (length script + length (nodes t))%nat).
  set (keys := fun j : nat => from_option values [] (nodes t !! j)).
  destruct (search_total bf (length script) fuel' value (mkWorld t out d) Hsound (Hroot Hne))
    as (leaf & ops & n & Hs & Hn & Hleaf); [unfold fuel'; lia |].
  simpl in Hn.
  pose proof Hsound as (_ & Hshape & _). simpl in Hshape.
  destruct (search_in_range bf lo hi (mkWorld t out d) value Hshape Hranged _ _ _ _ Hs)
    as [Hab Hbe].
  pose proof Hch as (_ & Hleaves & _).
  pose proof (proj1 (Hleaves leaf n Hn) Hleaf) as Hin.
  apply list_elem_of_lookup in Hin as [i Hi].
  pose proof (chained_length _ _ Hch) as Hcl.
  pose proof (lookup_lt_Some _ _ _ Hi) as Hilt.
  assert (Heven : forall a, a ∈ chain ->
            forall m, nodes t !! a = Some m -> length (ptrs m) = length (values m)).
  { intros a Ha m Hm. destruct (Forall_lookup_1 _ _ _ _ Hshape Hm) as (_ & _ & _ & Hl).
    apply Hl; [done |]. by apply (Hleaves a m Hm). }
  pose proof (Heven leaf (list_elem_of_lookup_2 _ _ _ Hi) n Hn) as Hlen.
  (* the inserted keys, leaf after leaf *)
  assert (script.*1 ≡ₚ flat_map keys (take i chain) ++ values n
                        ++ flat_map keys (drop (S i) chain)) as Hperm.
  { rewrite <- Hkeys. unfold leaf_keys. rewrite <- (chained_flat_map values chain t Hch).
    rewrite <- (take_drop_middle chain i leaf Hi) at 1.
    rewrite flat_map_app. simpl. unfold keys at 2. by rewrite Hn. }
  assert (Hleft : forall u, u ∈ flat_map keys (take i chain) -> u < value).
  { intros u Hu. destruct (chained_before lo hi chain t Hch Hranged i leaf u Hi Hu)
      as (k & Hk & Hlt). rewrite Hk in Hab. simpl in Hab. lia. }
  assert (Hright : forall v, v ∈ flat_map keys (drop (S i) chain) -> value < v).
  { intros v Hv. destruct (chained_after lo hi chain t Hch Hranged i leaf v Hi Hv)
      as (k & Hk & Hle). rewrite Hk in Hbe. simpl in Hbe. lia. }
  rewrite (Permutation_length (filter_Permutation _ _ _ Hperm)).
  rewrite !filter_app, !length_app.
  destruct (range_operator_sides operator value test side Hop)
    as [(-> & Hlow & Hhigh) | (-> & Hlow & Hhigh)].
  - assert (sibling_path fuel' right_sibling t leaf = Some (drop (S i) chain)) as Hpath
      by (apply (chained_right_path _ _ Hch); [done | unfold fuel'; lia]).
    eexists _, _. split.
    { apply (find_range_branch fuel' value operator test right_sibling (mkWorld t out d)
               leaf ops n (drop (S i) chain) Hop Hs Hn); [lia | exact Hpath]. }
    rewrite length_app, matching_length by done.
    rewrite ptrs_along_length by (intros a Ha; apply Heven; by eapply elem_of_drop_1).
    rewrite (filter_none _ (flat_map keys (take i chain))).
    2: { apply Forall_forall. intros u Hu. rewrite (Hlow u (Hleft u Hu)). done. }
    rewrite (filter_all _ (flat_map keys (drop (S i) chain))).
    2: { apply Forall_forall. intros v Hv. by apply Hhigh, Hright. }
    done.
  - assert (sibling_path fuel' left_sibling t leaf = Some (reverse (take i chain))) as Hpath
      by (apply (chained_left_path _ _ Hch); [done | unfold fuel'; lia]).
    eexists _, _. split.
    { apply (find_range_branch fuel' value operator test left_sibling (mkWorld t out d)
               leaf ops n (reverse (take i chain)) Hop Hs Hn); [lia | exact Hpath]. }
    rewrite length_app, matching_length by done.
    rewrite ptrs_along_length.
    2: { intros a Ha. apply Heven. rewrite elem_of_reverse in Ha. by eapply elem_of_take_1. }
    rewrite (Permutation_length (flat_map_perm_same keys _ _ (reverse_Permutation _))).
    rewrite (filter_all _ (flat_map keys (take i chain))).
    2: { apply Forall_forall. intros u Hu. by apply Hlow, Hleft. }
    rewrite (filter_none _ (flat_map keys (drop (S i) chain))).
    2: { apply Forall_forall. intros v Hv. rewrite (Hhigh v (Hright v Hv)). done. }
    simpl. lia.
Qed.

Lemma find_range_counts_witness :
  exists results ops,
    find (6 + 7) ">=" 5 (mkWorld scenario_tree [] scenario_defaults)
    = Ok results (mkWorld scenario_tree ([] ++ [OpsLine ops]) scenario_defaults)
    /\ length results = length (filter (fun k => (5 <=? k) = true) scenario.*1).
Proof.
  apply (find_range_counts 3 2%nat scenario scenario_tree ">=" (fun k => 5 <=? k)
           right_sibling 5 []).
  - lia.
  - reflexivity.
  - apply (bool_decide_unpack _). vm_compute. exact I.
  - reflexivity.
  - done.
  - reflexivity.
Defined.

(** ** [show] *)

Section Traversal.
Variables (w : World) (lvl : nat -> nat) (L : nat).
Hypothesis Hlk : linked (tree w).
Hypothesis Hwf : wf lvl (tree w).
Hypothesis Hbd : bounded lvl L (tree w).

Lemma visiting_start r : root (tree w) = Some r -> visiting (tree w) [r] 0.
Proof.
  intros Hr. destruct (lk_root _ Hlk r Hr) as (rn & Hrn & Hpar).
  split; [apply NoDup_singleton |]. split; [done |]. split.
  - intros [|k] a; simpl; [| done]. intros [= <-]. exists rn. split; [done |].
    intros p Hp. congruence.
  - intros k q qn c Hk. lia.
Qed.

Lemma visiting_leaf nds i a n :
  visiting (tree w) nds i -> nds !! i = Some a -> nodes (tree w) !! a = Some n ->
  is_leaf n = true -> visiting (tree w) nds (S i).
Proof.
  intros (Hnd & Hhead & Hbefore & Hkids) Ha Hn Hleaf.
  split; [done |]. split; [done |]. split.
  - intros k a' Ha'. destruct (Hbefore k a' Ha') as (n' & Hn' & Hp). exists n'.
    split; [done |]. intros p Hpar. destruct (Hp p Hpar) as (k' & ? & ? & ?).
    exists k'. split; [done |]. split; [lia | done].
  - intros k q qn c Hk Hq Hqn Hql Hc.
    destruct (decide (k = i)) as [->|Hki]; [congruence |].
    apply (Hkids k q qn c); (done || lia).
Qed.

Lemma visiting_inner nds i a n :
  visiting (tree w) nds i -> nds !! i = Some a -> nodes (tree w) !! a = Some n ->
  is_leaf n = false -> visiting (tree w) (nds ++ ptrs n) (S i).
Proof.
  intros (Hnd & Hhead & Hbefore & Hkids) Ha Hn Hleaf.
  pose proof (lookup_lt_Some _ _ _ Ha) as Hilt.
  split; [| split; [| split]].
  - apply NoDup_app. split; [done |]. split; [| by eapply lk_nodup].
    intros c [k Hk]%list_elem_of_lookup Hc.
    destruct (lk_child _ Hlk a n c Hn Hleaf Hc) as (cn & Hcn & Hpar).
    destruct (Hbefore k c Hk) as (cn' & Hcn' & Hp).
    assert (cn' = cn) as -> by congruence.
    destruct (Hp a Hpar) as (k' & _ & Hk'i & Hk').
    assert (k' = i) by (by eapply NoDup_lookup). lia.
  - destruct nds; [done | done].
  - intros k a' Ha'. destruct (decide (k < length nds)%nat) as [Hk|Hk].
    + rewrite lookup_app_l in Ha' by done.
      destruct (Hbefore k a' Ha') as (n' & Hn' & Hp). exists n'.
      split; [done |]. intros p Hpar. destruct (Hp p Hpar) as (k' & ? & ? & ?).
      exists k'. split; [done |]. split; [lia |]. by rewrite lookup_app_l by lia.
    + rewrite lookup_app_r in Ha' by lia.
      destruct (lk_child _ Hlk a n a' Hn Hleaf (list_elem_of_lookup_2 _ _ _ Ha'))
        as (n' & Hn' & Hpar').
      exists n'. split; [done |]. intros p Hpar. assert (p = a) as -> by congruence.
      exists i. split; [lia |]. split; [lia |]. by rewrite lookup_app_l by lia.
  - intros k q qn c Hk Hq Hqn Hql Hc. rewrite lookup_app_l in Hq by lia.
    apply elem_of_app. destruct (decide (k = i)) as [->|Hki].
    + right. assert (q = a) as -> by congruence. assert (qn = n) as -> by congruence. done.
    + left. apply (Hkids k q qn c); (done || lia).
Qed.

Lemma visiting_length nds i :
  visiting (tree w) nds i -> (length nds <= length (nodes (tree w)))%nat.
Proof.
  intros (Hnd & _ & Hbefore & _).
  rewrite <- (length_seq (length (nodes (tree w))) 0%nat).
  apply submseteq_length, NoDup_submseteq; [done |].
  intros a [k Hk]%list_elem_of_lookup. apply elem_of_seq.
  destruct (Hbefore k a Hk) as (n & Hn & _). apply lookup_lt_Some in Hn. lia.
Qed.

Lemma visiting_end nds i :
  visiting (tree w) nds i -> (length nds <= i)%nat -> visiting (tree w) nds (length nds).
Proof.
  intros (Hnd & Hhead & Hbefore & Hkids) Hi.
  split; [done |]. split; [done |]. split.
  - intros k a Hk. destruct (Hbefore k a Hk) as (n & Hn & Hp). exists n. split; [done |].
    intros p Hpar. destruct (Hp p Hpar) as (k' & ? & ? & ?).
    exists k'. split; [done |]. split; [| done]. apply lookup_lt_Some in Hk. lia.
  - intros k q qn c Hk Hq. apply (Hkids k q qn c); [| done]. lia.
Qed.

(** The first loop ends, with the list complete. *)
Lemma nds_loop_total :
  forall fuel nds i,
    visiting (tree w) nds i -> (length (nodes (tree w)) <= fuel + i)%nat ->
    exists nds', nds_loop fuel nds i w = Ok nds' w
                 /\ visiting (tree w) nds' (length nds').
Proof.
  induction fuel as [|fuel IH]; intros nds i Hv Hfuel.
  all: pose proof (visiting_length nds i Hv) as Hlen.
  all: destruct (nds !! i) as [a|] eqn:Ha.
  all: try (exists nds; simpl; rewrite Ha; split; [done |];
            apply lookup_ge_None in Ha; by apply (visiting_end nds i)).
  - pose proof (lookup_lt_Some _ _ _ Ha). lia.
  - pose proof Hv as (Hnd & Hhead & Hbefore & Hkids).
    destruct (Hbefore i a Ha) as (n & Hn & _).
    simpl. rewrite Ha. unfold bind, node_at. rewrite Hn.
    destruct (is_leaf n) eqn:Hleaf.
    + apply IH; [| lia]. by eapply visiting_leaf.
    + apply IH; [| lia]. by eapply visiting_inner.
Qed.

(** A complete list holds every slot. *)
Lemma visiting_all nds :
  visiting (tree w) nds (length nds) ->
  forall m j n, (L - lvl j <= m)%nat -> nodes (tree w) !! j = Some n -> j ∈ nds.
Proof.
  intros (Hnd & Hhead & Hbefore & Hkids).
  induction m as [|m IH]; intros j n Hm Hn.
  all: pose proof (Hbd j (lookup_lt_Some _ _ _ Hn)) as HjL.
  all: destruct (parent n) as [p|] eqn:Hpar.
  all: try (pose proof (lk_top _ Hlk j n Hn Hpar) as Htop; rewrite Htop in Hhead;
            destruct nds as [|a nds]; simpl in Hhead; [done |];
            injection Hhead as ->; by left).
  all: destruct (wf_parent _ _ Hwf j n p Hn Hpar) as [Hplt Hlvl].
  all: pose proof (Hbd p Hplt) as HpL.
  - lia.
  - destruct (lk_parent _ Hlk j n p Hn Hpar) as (pn & Hpn & Hleaf & Hin).
    assert (p ∈ nds) as [k Hk]%list_elem_of_lookup by (apply (IH p pn); [lia | done]).
    apply (Hkids k p pn j); try done. by eapply lookup_lt_Some.
Qed.

Lemma visiting_perm nds :
  visiting (tree w) nds (length nds) -> nds ≡ₚ seq 0 (length (nodes (tree w))).
Proof.
  intros Hv. pose proof Hv as (Hnd & _ & Hbefore & _).
  apply NoDup_Permutation; [done | apply NoDup_seq |].
  intros a. rewrite elem_of_seq. split.
  - intros [k Hk]%list_elem_of_lookup. destruct (Hbefore k a Hk) as (n & Hn & _).
    apply lookup_lt_Some in Hn. lia.
  - intros [_ Ha]. destruct (lookup_lt_is_Some_2 (nodes (tree w)) a) as [n Hn]; [lia |].
    by apply (visiting_all nds Hv (L - lvl a) a n).
Qed.
End Traversal.

Lemma Node_show_prints n w :
  Node_show n w
  = Ok tt (mkWorld (tree w)
             (stdout w ++ [ Text ("Values " +:+ py_list (pretty <$> values n));
                            Text ("ptrs " +:+ py_list (pretty <$> ptrs n));
                            Text ("Parent " +:+ py_index_or_None (parent n));
                            Text ("LS " +:+ py_index_or_None (left_sibling n));
                            Text ("RS " +:+ py_index_or_None (right_sibling n)) ]) (defaults w)).
Proof.
  unfold Node_show, bind, print. simpl. by rewrite <- !app_assoc.
Qed.

Lemma show_loop_prints nds :
  forall w,
    (forall a, a ∈ nds -> (a < length (nodes (tree w)))%nat) ->
    show_loop nds w
    = Ok tt (mkWorld (tree w) (stdout w ++ flat_map (shown (tree w)) nds) (defaults w)).
Proof.
  induction nds as [|a nds IH]; intros w Hall; simpl.
  - unfold ret. rewrite app_nil_r. by destruct w.
  - destruct (lookup_lt_is_Some_2 (nodes (tree w)) a) as [n Hn]; [apply Hall; by left |].
    unfold bind at 1. unfold print at 1.
    unfold bind at 1. unfold node_at at 1. simpl. rewrite Hn.
    unfold bind at 1. rewrite Node_show_prints. simpl.
    unfold bind at 1. unfold print at 1. simpl.
    rewrite IH by (intros a' Ha'; apply Hall; by right). simpl.
    unfold shown at 2. rewrite Hn. by rewrite <- !app_assoc.
Qed.

(** X25: [show] on a tree built by at least one insertion in a fresh
    interpreter returns, leaves the tree as it was, and prints the seven
    lines of every node exactly once: the root first and every other node
    after its parent. *)
Theorem show_lists_every_node_once (bf : Z) (fuel : nat) (script : list (Z * nat))
    (t : Btree) (out : list line) (d : Defaults) :
  built fuel bf script = Some t -> script <> [] ->
  exists order,
    Btree_show (length (nodes t)) (mkWorld t out d)
    = Ok tt (mkWorld t (out ++ flat_map (shown t) order) d)
    /\ order ≡ₚ seq 0 (length (nodes t))
    /\ head order = root t
    /\ (forall k a n p,
          order !! k = Some a -> nodes t !! a = Some n -> parent n = Some p ->
          exists k', (k' < k)%nat /\ order !! k' = Some p).
Proof.
  intros Hb Hne.
  destruct (built_has_shape bf fuel script t Hb)
    as ((Hlk & _) & _ & (_ & _ & Hrv & lvl & Hwf & Hbd) & Hroot).
  simpl in *. specialize (Hroot Hne).
  destruct (root t) as [r|] eqn:Hr; [| done].
  destruct (nds_loop_total (mkWorld t out d) Hlk (length (nodes t)) [r] 0%nat)
    as (order & Hrun & Hv).
  { by apply visiting_start. }
  { simpl. lia. }
  exists order. split; [| split; [| split]].
  - unfold Btree_show, bind, get_root. simpl. rewrite Hr, Hrun.
    rewrite show_loop_prints; [done |]. simpl.
    intros a [k Hk]%list_elem_of_lookup. destruct Hv as (_ & _ & Hbefore & _).
    destruct (Hbefore k a Hk) as (n & Hn & _). by eapply lookup_lt_Some.
  - by apply (visiting_perm (mkWorld t out d) lvl (length script)).
  - destruct Hv as (_ & Hhead & _). by rewrite Hhead.
  - intros k a n p Hk Hn Hpar. destruct Hv as (_ & _ & Hbefore & _).
    destruct (Hbefore k a Hk) as (n' & Hn' & Hp). simpl in Hn'.
    assert (n' = n) as -> by congruence.
    destruct (Hp p Hpar) as (k' & ? & _ & ?). eauto.
Qed.

Lemma show_lists_every_node_once_witness :
  exists order,
    Btree_show 7 (mkWorld scenario_tree [] scenario_defaults)
    = Ok tt (mkWorld scenario_tree ([] ++ flat_map (shown scenario_tree) order) scenario_defaults)
    /\ order ≡ₚ seq 0 7
    /\ head order = Some 6%nat
    /\ (forall k a n p,
          order !! k = Some a -> nodes scenario_tree !! a = Some n -> parent n = Some p ->
          exists k', (k' < k)%nat /\ order !! k' = Some p).
Proof.
  apply (show_lists_every_node_once 3 2%nat scenario scenario_tree []);
    [reflexivity | done].
Defined.

(** ** The default lists of [Node.__init__] *)

(** The six insertions of the scenario in an interpreter that ran nothing
    before: the default lists are left with what the root leaf held when it
    was split. *)
Lemma scenario_world_reached :
  inserts 2 scenario (fresh 3) = Ok tt (mkWorld scenario_tree [] scenario_defaults).
Proof. reflexivity. Qed.

Lemma ascending_world_reached :
  inserts 2 ascending_script (fresh 3) = Ok tt (mkWorld ascending_tree [] ascending_defaults).
Proof. reflexivity. Qed.

Lemma search_single_leaf fuel value bf leaf out d :
  is_leaf leaf = true ->
  _search fuel value (mkWorld (mkBtree bf [leaf] (Some 0%nat)) out d)
  = Ok (0%nat, 0%nat) (mkWorld (mkBtree bf [leaf] (Some 0%nat)) out d).
Proof.
  intros Hleaf. unfold _search, root_node, bind, get_root, node_at. simpl.
  destruct fuel; simpl; by rewrite Hleaf.
Qed.

(** An insertion into a tree that is one leaf which does not get full. *)
Lemma insert_single_leaf fuel bf value ptr leaf out d :
  is_leaf leaf = true ->
  Z.of_nat (S (length (values leaf))) <> bf ->
  insert fuel value ptr (mkWorld (mkBtree bf [leaf] (Some 0%nat)) out d)
  = Ok tt (mkWorld (mkBtree bf [Node_insert value ptr None leaf] (Some 0%nat)) out d).
Proof.
  intros Hleaf Hroom. unfold insert.
  unfold bind at 1. unfold get_b at 1. unfold bind at 1. unfold get_root at 1.
  simpl. unfold bind at 1. unfold ret at 1.
  unfold bind at 1. rewrite search_single_leaf by done. simpl.
  unfold bind at 1. unfold update_node at 1. simpl.
  unfold bind at 1. unfold node_at at 1. simpl.
  destruct (Node_insert_lengths value ptr leaf) as [-> _].
  by rewrite (proj2 (Z.eqb_neq _ _) Hroom).
Qed.

Lemma inserts_single_leaf fuel bf out d :
  forall script leaf,
    is_leaf leaf = true ->
    (Z.of_nat (length (values leaf) + length script) < bf
     \/ bf <= Z.of_nat (length (values leaf))) ->
    exists leaf',
      inserts fuel script (mkWorld (mkBtree bf [leaf] (Some 0%nat)) out d)
      = Ok tt (mkWorld (mkBtree bf [leaf'] (Some 0%nat)) out d)
      /\ is_leaf leaf' = true
      /\ values leaf' ≡ₚ script.*1 ++ values leaf
      /\ ptrs leaf' ≡ₚ script.*2 ++ ptrs leaf.
Proof.
  induction script as [|[value ptr] script IH]; intros leaf Hleaf Hroom; simpl.
  - by exists leaf.
  - destruct (Node_insert_spec value ptr leaf) as (Hl & _).
    destruct (Node_insert_lengths value ptr leaf) as [Hlen _].
    destruct (IH (Node_insert value ptr None leaf)) as (leaf' & Hrun & Hleaf' & Hv & Hp).
    { by rewrite Hl. }
    { rewrite Hlen. simpl in Hroom. lia. }
    exists leaf'. unfold bind. rewrite insert_single_leaf by (done || simpl in Hroom; lia).
    split; [done |]. split; [done |].
    rewrite Hv, Hp, Node_insert_values, inserted_perm, Node_insert_ptrs_perm.
    split; by rewrite Permutation_middle.
Qed.

(** The first insertion into a new tree, when it does not fill the leaf. *)
Lemma insert_new_tree fuel bf value ptr w :
  Z.of_nat (S (length (default_values w))) <> bf ->
  insert fuel value ptr (Btree_new bf w)
  = Ok tt (mkWorld (mkBtree bf
                      [Node_insert value ptr None
                         (mkNode bf (default_values w) (default_ptrs w) None None None true)]
                      (Some 0%nat))
             (stdout w) (Held 0)).
Proof.
  intros Hroom. unfold insert.
  unfold bind at 1. unfold get_b at 1. unfold bind at 1. unfold get_root at 1.
  simpl. unfold bind at 1. unfold bind at 1. unfold append_default_leaf at 1.
  unfold set_root at 1. simpl.
  unfold default_leaf, Btree_new, default_values at 1, default_ptrs at 1. simpl.
  fold (default_values w) (default_ptrs w).
  set (leaf := mkNode bf (default_values w) (default_ptrs w) None None None true).
  exact (insert_single_leaf fuel bf value ptr leaf (stdout w) (Held 0) eq_refl Hroom).
Qed.

Lemma new_tree_single_leaf fuel bf script w :
  script <> [] ->
  (Z.of_nat (length (default_values w) + length script) < bf
   \/ bf <= Z.of_nat (length (default_values w))) ->
  exists leaf,
    inserts fuel script (Btree_new bf w)
    = Ok tt (mkWorld (mkBtree bf [leaf] (Some 0%nat)) (stdout w) (Held 0))
    /\ is_leaf leaf = true
    /\ values leaf ≡ₚ script.*1 ++ default_values w
    /\ ptrs leaf ≡ₚ script.*2 ++ default_ptrs w.
Proof.
  destruct script as [|[value ptr] script]; [done |]. intros _ Hroom. simpl in *.
  set (leaf0 := mkNode bf (default_values w) (default_ptrs w) None None None true).
  destruct (Node_insert_spec value ptr leaf0) as (Hl & _).
  destruct (Node_insert_lengths value ptr leaf0) as [Hlen _].
  destruct (inserts_single_leaf fuel bf (stdout w) (Held 0) script
              (Node_insert value ptr None leaf0)) as (leaf & Hrun & Hleaf & Hv & Hp).
  { by rewrite Hl. }
  { rewrite Hlen. simpl. lia. }
  exists leaf. unfold bind. rewrite insert_new_tree by lia. fold leaf0.
  split; [done |]. split; [done |].
  rewrite Hv, Hp, Node_insert_values, inserted_perm, Node_insert_ptrs_perm.
  split; by rewrite Permutation_middle.
Qed.

(** X26: the root leaf of a new tree is made from the default lists of
    [Node.__init__], whatever they hold.  As long as the leaf is not split
    (it stays below [b] keys, or it started with [b] keys or more, so that
    its length is never [b]), the tree is that one leaf: it holds the keys
    and pointers that the default lists held next to the pairs inserted,
    and the default lists are its lists. *)
Theorem new_tree_starts_with_default_lists (fuel : nat) (bf : Z)
    (script : list (Z * nat)) (w : World) :
  script <> [] ->
  (Z.of_nat (length (default_values w) + length script) < bf
   \/ bf <= Z.of_nat (length (default_values w))) ->
  exists leaf w',
    inserts fuel script (Btree_new bf w) = Ok tt w'
    /\ tree w' = mkBtree bf [leaf] (Some 0%nat)
    /\ is_leaf leaf = true
    /\ values leaf ≡ₚ script.*1 ++ default_values w
    /\ ptrs leaf ≡ₚ script.*2 ++ default_ptrs w
    /\ default_values w' = values leaf /\ default_ptrs w' = ptrs leaf.
Proof.
  intros Hne Hroom.
  destruct (new_tree_single_leaf fuel bf script w Hne Hroom) as (leaf & Hrun & Hleaf & Hv & Hp).
  exists leaf, (mkWorld (mkBtree bf [leaf] (Some 0%nat)) (stdout w) (Held 0)).
  by repeat split.
Qed.

(** After the scenario the default lists hold 5, 7 and 12: the tree that
    [Btree(3)] and [insert(9, 5)] make next is one leaf of four keys. *)
Lemma new_tree_starts_with_default_lists_witness :
  let w := mkWorld scenario_tree [] scenario_defaults in
  [(9, 5%nat)] <> []
  /\ (Z.of_nat (length (default_values w) + length [(9, 5%nat)]) < 3
      \/ 3 <= Z.of_nat (length (default_values w)))
  /\ exists leaf w',
       inserts 0 [(9, 5%nat)] (Btree_new 3 w) = Ok tt w'
       /\ tree w' = mkBtree 3 [leaf] (Some 0%nat)
       /\ is_leaf leaf = true
       /\ values leaf ≡ₚ [9] ++ [5; 7; 12]
       /\ ptrs leaf ≡ₚ [5%nat] ++ [0; 1; 2]%nat
       /\ default_values w' = values leaf /\ default_ptrs w' = ptrs leaf.
Proof.
  intros w.
  assert (H1 : [(9, 5%nat)] <> []) by discriminate.
  assert (H2 : Z.of_nat (length (default_values w) + length [(9, 5%nat)]) < 3
               \/ 3 <= Z.of_nat (length (default_values w))) by (right; simpl; lia).
  repeat (split; [assumption |]).
  exact (new_tree_starts_with_default_lists 0 3 [(9, 5%nat)] w H1 H2).
Defined.

(** X27: a second tree made in the same interpreter starts with the pairs
    of the first.  When the first tree, made in a fresh interpreter, is
    still one leaf, and the root leaf of the second is not split, that
    leaf holds the keys and pointers of both scripts. *)
Theorem second_tree_holds_pairs_of_first (fuel : nat) (bf1 bf2 : Z)
    (script1 script2 : list (Z * nat)) :
  script1 <> [] -> script2 <> [] ->
  Z.of_nat (length script1) < bf1 ->
  (Z.of_nat (length script1 + length script2) < bf2
   \/ bf2 <= Z.of_nat (length script1)) ->
  exists w1 leaf2 w2,
    inserts fuel script1 (fresh bf1) = Ok tt w1
    /\ inserts fuel script2 (Btree_new bf2 w1) = Ok tt w2
    /\ tree w2 = mkBtree bf2 [leaf2] (Some 0%nat)
    /\ values leaf2 ≡ₚ script2.*1 ++ script1.*1
    /\ ptrs leaf2 ≡ₚ script2.*2 ++ script1.*2.
Proof.
  intros Hne1 Hne2 Hroom1 Hroom2.
  destruct (new_tree_single_leaf fuel bf1 script1 (fresh bf1) Hne1)
    as (leaf1 & Hrun1 & Hleaf1 & Hv1 & Hp1); [left; simpl; lia |].
  simpl in Hv1, Hp1. rewrite app_nil_r in Hv1, Hp1.
  set (w1 := mkWorld (mkBtree bf1 [leaf1] (Some 0%nat)) [] (Held 0)) in *.
  assert (Hlen1 : length (default_values w1) = length script1).
  { unfold w1, default_values. simpl. by rewrite Hv1, length_fmap. }
  destruct (new_tree_single_leaf fuel bf2 script2 w1 Hne2)
    as (leaf2 & Hrun2 & Hleaf2 & Hv2 & Hp2); [rewrite Hlen1; lia |].
  exists w1, leaf2, (mkWorld (mkBtree bf2 [leaf2] (Some 0%nat)) (stdout w1) (Held 0)).
  split; [exact Hrun1 |]. split; [exact Hrun2 |]. split; [done |].
  split; [by rewrite Hv2, <- Hv1 | by rewrite Hp2, <- Hp1].
Qed.

(** [Btree(30)] with 5, 7 and 12, then [Btree(3)] with 9: the second tree
    is a leaf of four keys. *)
Lemma second_tree_holds_pairs_of_first_witness :
  let script1 := [(5, 0%nat); (7, 1%nat); (12, 2%nat)] in
  let script2 := [(9, 5%nat)] in
  script1 <> [] /\ script2 <> []
  /\ Z.of_nat (length script1) < 30
  /\ (Z.of_nat (length script1 + length script2) < 3 \/ 3 <= Z.of_nat (length script1))
  /\ exists w1 leaf2 w2,
       inserts 0 script1 (fresh 30) = Ok tt w1
       /\ inserts 0 script2 (Btree_new 3 w1) = Ok tt w2
       /\ tree w2 = mkBtree 3 [leaf2] (Some 0%nat)
       /\ values leaf2 ≡ₚ script2.*1 ++ script1.*1
       /\ ptrs leaf2 ≡ₚ script2.*2 ++ script1.*2.
Proof.
  intros script1 script2.
  assert (H1 : script1 <> []) by discriminate.
  assert (H2 : script2 <> []) by discriminate.
  assert (H3 : Z.of_nat (length script1) < 30) by (simpl; lia).
  assert (H4 : Z.of_nat (length script1 + length script2) < 3
               \/ 3 <= Z.of_nat (length script1)) by (right; simpl; lia).
  repeat (split; [assumption |]).
  exact (second_tree_holds_pairs_of_first 0 30 3 script1 script2 H1 H2 H3 H4).
Defined.
